(** * libgav1: motion-vector prediction, post-filter and output ordering

    A shallow embedding of the parts of libgav1 that the specification's
    testable properties talk about, and of the code around them:

    - [src/motion_vector.cc]: [LowerMvPrecision], [SortWeightIndexStack],
      [SetupGlobalMv], [FindMvStack] with its scans and [ExtraSearch],
      [FindWarpSamples], [MotionFieldProjection] and [SetupMotionField];
    - [src/post_filter.cc]: [ExtendFrame], [ExtendLine], [CopyPlane],
      [CopyRows], [PrepareCdefBlock], [ApplySuperResThreaded],
      [GetDeblockFilterEdgeInfo], [DeblockFilterWorker],
      [CopyDeblockedPixels], [GetCdefBufferAndStride],
      [ApplyDeblockFilterForOneSuperBlockRow],
      [ApplyCdefForOneSuperBlockRow] and [ApplyCdefThreaded];
    - [src/post_filter/deblock.cc]: [ComputeDeblockFilterLevelsHelper],
      [SkipFilter] and the luma and chroma edge-info functions;
    - [src/post_filter/loop_restoration.cc]: [CopyTwoRows],
      [PrepareLoopRestorationBlock] and [ApplyLoopRestorationThreaded];
    - [src/dsp/x86/loop_restoration_10bit_sse4.cc]: the weights of
      [BoxFilterProcess] and [BoxFilterProcessPass2];
    - [src/decoder_impl.h]: [TemporalUnit::OutputLayer].

    C++ [int] values are modelled as [Z]; narrowing stores into [int16_t]
    go through [int16], two's-complement wrap-around written out.  Pixel
    buffers are functions from addresses to values; loops that the source
    bounds by data carry fuel, and running out of it is a visible outcome;
    constants, tables and helpers declared in headers outside these files
    are parameters. *)

From Stdlib Require Import ZArith Lia Bool.
From Stdlib Require Import Sorting.Sorted Sorting.Permutation.
From stdpp Require Import base list.

Local Open Scope Z_scope.

(** ** Machine integers *)

Module Int.

Definition int16_min : Z := -32768.
Definition int16_max : Z := 32767.

Definition is_int16 (z : Z) : Prop := int16_min <= z <= int16_max.
Definition is_int8 (z : Z) : Prop := -128 <= z <= 127.

(** Conversion of an [int] to [int16_t]: reduction modulo 2^16 into
    [-2^15, 2^15). *)
Definition int16 (z : Z) : Z := (z + 32768) mod 65536 - 32768.

Lemma int16_id z : is_int16 z -> int16 z = z.
Proof. unfold is_int16, int16, int16_min, int16_max. intros H. rewrite Z.mod_small; lia. Qed.

Lemma int16_range z : is_int16 (int16 z).
Proof.
  unfold is_int16, int16, int16_min, int16_max.
  pose proof (Z.mod_pos_bound (z + 32768) 65536). lia.
Qed.

(** [x >> 15] on an [int16_t] promoted to [int]: the sign mask. *)
Lemma shiftr15_nonneg z : 0 <= z <= int16_max -> Z.shiftr z 15 = 0.
Proof.
  unfold int16_max. intros H. rewrite Z.shiftr_div_pow2 by lia.
  apply Z.div_small. change (2 ^ 15) with 32768. lia.
Qed.

Lemma shiftr15_neg z : int16_min <= z < 0 -> Z.shiftr z 15 = -1.
Proof.
  unfold int16_min. intros H. rewrite Z.shiftr_div_pow2 by lia.
  change (2 ^ 15) with 32768.
  symmetry. apply (Z.div_unique z 32768 (-1) (z + 32768)); lia.
Qed.

(** [x & ~7] clears the three low bits. *)
Lemma land_not7 x : Z.land x (Z.lnot 7) = 8 * (x / 8).
Proof.
  rewrite <- Z.ldiff_land. change 7 with (Z.ones 3).
  rewrite Z.ldiff_ones_r by lia.
  rewrite Z.shiftl_mul_pow2, Z.shiftr_div_pow2 by lia.
  change (2 ^ 3) with 8. lia.
Qed.

Lemma land_1 x : Z.land x 1 = x mod 2.
Proof. change 1 with (Z.ones 1). now rewrite Z.land_ones by lia. Qed.

End Int.

Import Int.

(** ** Motion vectors ([src/motion_vector.cc]) *)

(** [MotionVector]: two [int16_t] components, [mv[kRow]] and
    [mv[kColumn]]. *)
Record MotionVector := mkMv { mv_kRow : Z; mv_kColumn : Z }.

Definition MotionVector_zero : MotionVector := mkMv 0 0.

Definition MotionVector_eqb (a b : MotionVector) : bool :=
  (mv_kRow a =? mv_kRow b) && (mv_kColumn a =? mv_kColumn b).

(** The two header flags read by [LowerMvPrecision]. *)
Record MvPrecision := mkMvPrecision {
  allow_high_precision_mv : bool;
  force_integer_mv : Z
}.

(** [ApplySign(value, sign)] from [src/utils/common.h], with [sign] either
    0 or -1 "so that it can be XORed and subtracted directly"
    (motion_vector.cc, comment above [MotionFieldProjection]). *)
Definition ApplySign (value sign : Z) : Z := Z.lxor value sign - sign.

(** Body of the first loop of [LowerMvPrecision], for one component. *)
Definition LowerMvComponentInteger (mv : Z) : Z :=
  let value := Z.land (Z.abs mv + 3) (Z.lnot 7) in
  let sign := Z.shiftr mv 15 in
  int16 (ApplySign value sign).

(** Body of the second loop of [LowerMvPrecision], for one component. *)
Definition LowerMvComponentFractional (mv : Z) : Z :=
  if negb (Z.land mv 1 =? 0) then int16 (mv - Z.lor (Z.shiftr mv 15) 1)
  else mv.

Definition LowerMvPrecision (p : MvPrecision) (mvs : MotionVector)
  : MotionVector :=
  if allow_high_precision_mv p then mvs
  else if negb (force_integer_mv p =? 0) then
    mkMv (LowerMvComponentInteger (mv_kRow mvs))
         (LowerMvComponentInteger (mv_kColumn mvs))
  else
    mkMv (LowerMvComponentFractional (mv_kRow mvs))
         (LowerMvComponentFractional (mv_kColumn mvs)).

Section LowerMvPrecisionFacts.

Lemma ApplySign_0 v : ApplySign v 0 = v.
Proof. unfold ApplySign. rewrite Z.lxor_0_r. lia. Qed.

Lemma ApplySign_m1 v : ApplySign v (-1) = - v.
Proof. unfold ApplySign. rewrite Z.lxor_m1_r. unfold Z.lnot. lia. Qed.

(** Closed form of the integer-pel snap on the non-negative side. *)
Lemma LowerMvComponentInteger_nonneg mv :
0 <= mv <= int16_max ->
LowerMvComponentInteger mv = int16 (8 * ((mv + 3) / 8)).
Proof.
intros H. unfold LowerMvComponentInteger.
rewrite shiftr15_nonneg by assumption.
rewrite ApplySign_0, land_not7, Z.abs_eq by lia. reflexivity.
Qed.

Lemma LowerMvComponentInteger_neg mv :
int16_min <= mv < 0 ->
LowerMvComponentInteger mv = int16 (- (8 * ((3 - mv) / 8))).
Proof.
intros H. unfold LowerMvComponentInteger.
rewrite shiftr15_neg by assumption.
rewrite ApplySign_m1, land_not7, Z.abs_neq by lia.
replace (- mv + 3) with (3 - mv) by lia. reflexivity.
Qed.

(** A multiple of 8 is a fixed point of the snap. *)
Lemma LowerMvComponentInteger_fix k :
is_int16 (8 * k) -> LowerMvComponentInteger (8 * k) = 8 * k.
Proof.
unfold is_int16, int16_min, int16_max. intros H.
destruct (Z_lt_le_dec (8 * k) 0) as [Hn | Hp].
- rewrite LowerMvComponentInteger_neg by (unfold int16_min; lia).
  replace ((3 - 8 * k) / 8) with (- k).
  + rewrite int16_id; [lia |]. unfold is_int16, int16_min, int16_max. lia.
  + apply (Z.div_unique (3 - 8 * k) 8 (- k) 3); lia.
- rewrite LowerMvComponentInteger_nonneg by (unfold int16_max; lia).
  replace ((8 * k + 3) / 8) with k.
  + apply int16_id. unfold is_int16, int16_min, int16_max. lia.
  + apply (Z.div_unique (8 * k + 3) 8 k 3); lia.
Qed.

(** The snap always lands on a representable multiple of 8. *)
Lemma LowerMvComponentInteger_multiple mv :
is_int16 mv ->
exists k, LowerMvComponentInteger mv = 8 * k /\ is_int16 (8 * k).
Proof.
intros H.
assert (Hm : forall q, exists k, int16 (8 * q) = 8 * k).
{ intros q. unfold int16.
  exists ((8 * q + 32768) mod 65536 / 8 - 4096).
  assert (E : ((8 * q + 32768) mod 65536) mod 8 = 0).
  { rewrite Z.mod_mod_divide by (exists 8192; reflexivity).
    replace (8 * q + 32768) with ((q + 4096) * 8) by lia.
    apply Z.mod_mul. lia. }
  pose proof (Z.div_mod ((8 * q + 32768) mod 65536) 8). lia. }
unfold is_int16, int16_min, int16_max in H.
destruct (Z_lt_le_dec mv 0) as [Hn | Hp].
- rewrite LowerMvComponentInteger_neg by (unfold int16_min; lia).
  replace (- (8 * ((3 - mv) / 8))) with (8 * (- ((3 - mv) / 8))) by lia.
  destruct (Hm (- ((3 - mv) / 8))) as [k Hk]. exists k. split; [exact Hk |].
  rewrite <- Hk. apply int16_range.
- rewrite LowerMvComponentInteger_nonneg by (unfold int16_max; lia).
  destruct (Hm ((mv + 3) / 8)) as [k Hk]. exists k. split; [exact Hk |].
  rewrite <- Hk. apply int16_range.
Qed.

Lemma LowerMvComponentInteger_idem mv :
is_int16 mv ->
LowerMvComponentInteger (LowerMvComponentInteger mv)
= LowerMvComponentInteger mv.
Proof.
intros H. destruct (LowerMvComponentInteger_multiple mv H) as (k & -> & Hk).
now apply LowerMvComponentInteger_fix.
Qed.

(** The bias [(mv >> 15) | 1] is [1] for positive and [-1] for negative
  values: the odd value moves one step towards zero. *)
Lemma LowerMvComponentFractional_odd mv :
is_int16 mv -> mv mod 2 = 1 ->
LowerMvComponentFractional mv = if mv <? 0 then mv + 1 else mv - 1.
Proof.
unfold is_int16, int16_min, int16_max. intros H Hodd.
unfold LowerMvComponentFractional. rewrite land_1, Hodd. cbn [Z.eqb negb].
destruct (Z.ltb_spec mv 0) as [Hn | Hp].
- rewrite shiftr15_neg by (unfold int16_min; lia).
  change (Z.lor (-1) 1) with (-1).
  apply int16_id. unfold is_int16, int16_min, int16_max. lia.
- rewrite shiftr15_nonneg by (unfold int16_max; lia).
  change (Z.lor 0 1) with 1.
  apply int16_id. unfold is_int16, int16_min, int16_max. lia.
Qed.

Lemma LowerMvComponentFractional_even mv :
mv mod 2 = 0 -> LowerMvComponentFractional mv = mv.
Proof.
intros H. unfold LowerMvComponentFractional. now rewrite land_1, H.
Qed.

Lemma LowerMvComponentFractional_result_even mv :
is_int16 mv -> (LowerMvComponentFractional mv) mod 2 = 0.
Proof.
intros H. pose proof (Z.mod_pos_bound mv 2 ltac:(lia)) as Hb.
assert (C : mv mod 2 = 0 \/ mv mod 2 = 1) by lia.
destruct C as [E | O].
- now rewrite LowerMvComponentFractional_even.
- rewrite LowerMvComponentFractional_odd by assumption.
  destruct (mv <? 0).
  + replace (mv + 1) with (mv - 1 + 1 * 2) by lia.
    rewrite Z.mod_add by lia.
    rewrite Zminus_mod, O. reflexivity.
  + rewrite Zminus_mod, O. reflexivity.
Qed.

Lemma LowerMvComponentFractional_idem mv :
is_int16 mv ->
LowerMvComponentFractional (LowerMvComponentFractional mv)
= LowerMvComponentFractional mv.
Proof.
intros H. apply LowerMvComponentFractional_even.
now apply LowerMvComponentFractional_result_even.
Qed.

(** C3. For every signed 16-bit motion-vector component and every
  precision mode of the frame header (high precision allowed: no change;
  [force_integer_mv] set: snap through [(abs(mv)+3) & ~7] with the sign
  reapplied; otherwise: clear the low bit with the bias
  [mv -= (mv >> 15) | 1]), applying [LowerMvPrecision] to an already
  lowered vector changes nothing. *)
Theorem LowerMvPrecision_idempotent (p : MvPrecision) (mvs : MotionVector) :
is_int16 (mv_kRow mvs) -> is_int16 (mv_kColumn mvs) ->
LowerMvPrecision p (LowerMvPrecision p mvs) = LowerMvPrecision p mvs.
Proof.
intros Hr Hc. unfold LowerMvPrecision.
destruct (allow_high_precision_mv p); [reflexivity |].
destruct (negb (force_integer_mv p =? 0)); cbn [mv_kRow mv_kColumn].
- now rewrite !LowerMvComponentInteger_idem.
- now rewrite !LowerMvComponentFractional_idem.
Qed.

Lemma LowerMvPrecision_idempotent_witness :
LowerMvPrecision (mkMvPrecision false 1)
  (LowerMvPrecision (mkMvPrecision false 1) (mkMv (-13) 32767))
= LowerMvPrecision (mkMvPrecision false 1) (mkMv (-13) 32767)
/\ LowerMvPrecision (mkMvPrecision false 0)
     (LowerMvPrecision (mkMvPrecision false 0) (mkMv (-13) 32767))
   = LowerMvPrecision (mkMvPrecision false 0) (mkMv (-13) 32767).
Proof.
split.
- apply (LowerMvPrecision_idempotent (mkMvPrecision false 1) (mkMv (-13) 32767));
    unfold is_int16, int16_min, int16_max; simpl; lia.
- apply (LowerMvPrecision_idempotent (mkMvPrecision false 0) (mkMv (-13) 32767));
    unfold is_int16, int16_min, int16_max; simpl; lia.
Defined.

(** What the two reductions compute on sample values, negative ones
  included. *)
Example LowerMvPrecision_samples :
map LowerMvComponentInteger [-13; -12; -11; -4; -3; 3; 4; 11; 12; 32767; -32768]
= [-16; -8; -8; -0; 0; 0; 0; 8; 8; -32768; -32768]
/\ map LowerMvComponentFractional [-3; -2; -1; 0; 1; 2; 3; 32767; -32767]
   = [-2; -2; 0; 0; 0; 2; 2; 32766; -32766].
Proof. split; reflexivity. Qed.

(** X1. When the frame header does not allow high-precision vectors,
  [LowerMvPrecision] leaves no odd component: both components of the
  result are even, and with [force_integer_mv] set both are multiples of 8
  (whole pixels in 1/8-pel units).  The integer snap moves a component by
  at most 4 unless the [int16_t] store wraps (components above 32764). *)
Theorem LowerMvPrecision_granularity (p : MvPrecision) (mvs : MotionVector) :
is_int16 (mv_kRow mvs) -> is_int16 (mv_kColumn mvs) ->
allow_high_precision_mv p = false ->
let lowered := LowerMvPrecision p mvs in
mv_kRow lowered mod 2 = 0 /\ mv_kColumn lowered mod 2 = 0
/\ (force_integer_mv p <> 0 ->
    mv_kRow lowered mod 8 = 0 /\ mv_kColumn lowered mod 8 = 0
    /\ (mv_kRow mvs <= 32764 -> Z.abs (mv_kRow lowered - mv_kRow mvs) <= 4)
    /\ (mv_kColumn mvs <= 32764 ->
        Z.abs (mv_kColumn lowered - mv_kColumn mvs) <= 4)).
Proof.
intros Hr Hc Hp. unfold LowerMvPrecision. rewrite Hp.
assert (Hmul : forall c, is_int16 c ->
          LowerMvComponentInteger c mod 8 = 0
          /\ LowerMvComponentInteger c mod 2 = 0
          /\ (c <= 32764 -> Z.abs (LowerMvComponentInteger c - c) <= 4)).
{ intros c H. destruct (LowerMvComponentInteger_multiple c H) as (k & E & _).
  split; [| split].
  - rewrite E, Z.mul_comm. apply Z.mod_mul. lia.
  - rewrite E. replace (8 * k) with (4 * k * 2) by lia. apply Z.mod_mul. lia.
  - intros Hle. clear E. unfold is_int16, int16_min, int16_max in H.
    destruct (Z_lt_le_dec c 0) as [Hn | Hn].
    + rewrite LowerMvComponentInteger_neg by (unfold int16_min; lia).
      pose proof (Z.div_mod (3 - c) 8 ltac:(lia)).
      pose proof (Z.mod_pos_bound (3 - c) 8 ltac:(lia)).
      rewrite int16_id; [lia |]. unfold is_int16, int16_min, int16_max. lia.
    + rewrite LowerMvComponentInteger_nonneg by (unfold int16_max; lia).
      pose proof (Z.div_mod (c + 3) 8 ltac:(lia)).
      pose proof (Z.mod_pos_bound (c + 3) 8 ltac:(lia)).
      rewrite int16_id; [lia |]. unfold is_int16, int16_min, int16_max. lia. }
destruct (Z.eqb_spec (force_integer_mv p) 0) as [E | E];
  cbn [negb mv_kRow mv_kColumn].
- repeat split; try (now apply LowerMvComponentFractional_result_even).
  all: contradiction.
- destruct (Hmul _ Hr) as (? & ? & ?), (Hmul _ Hc) as (? & ? & ?).
  repeat split; assumption.
Qed.

Lemma LowerMvPrecision_granularity_witness :
let lowered := LowerMvPrecision (mkMvPrecision false 1) (mkMv (-13) 21) in
mv_kRow lowered mod 2 = 0 /\ mv_kColumn lowered mod 2 = 0
/\ (1 <> 0 ->
    mv_kRow lowered mod 8 = 0 /\ mv_kColumn lowered mod 8 = 0
    /\ (-13 <= 32764 -> Z.abs (mv_kRow lowered - -13) <= 4)
    /\ (21 <= 32764 -> Z.abs (mv_kColumn lowered - 21) <= 4)).
Proof.
apply (LowerMvPrecision_granularity (mkMvPrecision false 1) (mkMv (-13) 21));
  [unfold is_int16, int16_min, int16_max; simpl; lia ..| reflexivity].
Defined.

End LowerMvPrecisionFacts.

(** ** [std::sort] *)

(** [std::sort(first, last, comp)] leaves the range sorted with respect to
    [comp]: no later element compares less than an earlier one.  On plain
    integer keys that result is unique (lemma [descending_unique] below), so
    the algorithm chosen to model it, insertion into a sorted list, cannot be
    told apart from the library's. *)
Module StdSort.
Section WithLess.
Context {A : Type} (less : A -> A -> bool).

Fixpoint insert (x : A) (l : list A) : list A :=
  match l with
  | [] => [x]
  | y :: l' => if less x y then x :: y :: l' else y :: insert x l'
  end.

Definition sort (l : list A) : list A := foldr insert [] l.

Lemma insert_perm x l : Permutation (insert x l) (x :: l).
Proof.
  induction l as [| y l IH]; simpl; [reflexivity |].
  destruct (less x y); [reflexivity |].
  rewrite IH. apply perm_swap.
Qed.

Lemma sort_perm l : Permutation (sort l) l.
Proof.
  induction l as [| x l IH]; simpl; [reflexivity |].
  rewrite insert_perm. now constructor.
Qed.

Lemma sort_length l : length (sort l) = length l.
Proof. apply Permutation_length, sort_perm. Qed.

(** Sortedness, for a comparator that orders by decreasing integer key. *)
Context (key : A -> Z) (Hless : forall a b, less a b = (key b <? key a)).

Definition descending (l : list A) : Prop :=
  StronglySorted (fun a b => key b <= key a) l.

Lemma insert_descending x l : descending l -> descending (insert x l).
Proof.
  unfold descending. induction 1 as [| y l Hs IH Hy]; simpl.
  - repeat constructor.
  - rewrite Hless. destruct (Z.ltb_spec (key y) (key x)) as [Hlt | Hge].
    + constructor; [now constructor |].
      constructor; [lia |].
      eapply Forall_impl; [exact Hy |]. simpl. intros; lia.
    + constructor; [exact IH |].
      apply (Permutation_Forall (Permutation_sym (insert_perm x l))).
      constructor; [exact Hge | exact Hy].
Qed.

Lemma sort_descending l : descending (sort l).
Proof.
  induction l as [| x l IH]; simpl; [constructor |].
  now apply insert_descending.
Qed.
End WithLess.

(** A descending list of integers is determined by its elements. *)
Lemma descending_unique (l1 l2 : list Z) :
  descending id l1 -> descending id l2 -> Permutation l1 l2 -> l1 = l2.
Proof.
  unfold descending, id. intros H1. revert l2.
  induction H1 as [| a l1 Hs IH Ha]; intros l2 H2 Hp.
  - now apply Permutation_nil in Hp.
  - destruct H2 as [| b l2 Hs2 Hb].
    + symmetry in Hp. now apply Permutation_nil in Hp.
    + assert (a = b) as <-.
      { assert (Hin1 : In b (a :: l1))
          by (eapply Permutation_in; [symmetry; exact Hp | now left]).
        assert (Hin2 : In a (b :: l2))
          by (eapply Permutation_in; [exact Hp | now left]).
        rewrite Forall_forall in Ha, Hb.
        destruct Hin1 as [-> | Hin1]; [reflexivity |].
        destruct Hin2 as [-> | Hin2]; [reflexivity |].
        apply list_elem_of_In in Hin1, Hin2.
        specialize (Ha _ Hin1). specialize (Hb _ Hin2). lia. }
      f_equal. apply IH; [exact Hs2 |].
      now apply Permutation_cons_inv in Hp.
Qed.
End StdSort.

(** ** Sorting the weight-index stack ([src/motion_vector.cc]) *)

Definition DescendingOrderTwo (a b : Z) : Z * Z :=
  if a <? b then (b, a) else (a, b).

(** Comparator "used for sorting candidate motion vectors in descending
    order of their weights". *)
Definition CompareCandidateMotionVectors (lhs rhs : Z) : bool := lhs >? rhs.

(** The [else] branch of [SortWeightIndexStack]:
    [std::sort(&stack[0], &stack[size], CompareCandidateMotionVectors)]. *)
Definition GenericSortWeightIndexStack (size : Z) (weight_index_stack : list Z)
  : list Z :=
  StdSort.sort CompareCandidateMotionVectors
    (take (Z.to_nat size) weight_index_stack)
  ++ drop (Z.to_nat size) weight_index_stack.

(** [SortWeightIndexStack(size, weight_index_stack)]; the entries are
    [int16_t], the locals [int]. *)
Definition SortWeightIndexStack (size : Z) (weight_index_stack : list Z)
  : list Z :=
  if size <=? 1 then weight_index_stack
  else if size <=? 3 then
    let weight_index_0 := weight_index_stack !!! 0%nat in
    let weight_index_1 := weight_index_stack !!! 1%nat in
    let '(weight_index_0, weight_index_1) :=
      DescendingOrderTwo weight_index_0 weight_index_1 in
    if size =? 3 then
      let weight_index_2 := weight_index_stack !!! 2%nat in
      let '(weight_index_1, weight_index_2) :=
        DescendingOrderTwo weight_index_1 weight_index_2 in
      let '(weight_index_0, weight_index_1) :=
        DescendingOrderTwo weight_index_0 weight_index_1 in
      <[1%nat := int16 weight_index_1]>
        (<[0%nat := int16 weight_index_0]>
           (<[2%nat := int16 weight_index_2]> weight_index_stack))
    else
      <[1%nat := int16 weight_index_1]>
        (<[0%nat := int16 weight_index_0]> weight_index_stack)
  else GenericSortWeightIndexStack size weight_index_stack.

Section SortWeightIndexStackFacts.

Lemma CompareCandidateMotionVectors_key a b :
CompareCandidateMotionVectors a b = (id b <? id a).
Proof. unfold CompareCandidateMotionVectors, id. apply Z.gtb_ltb. Qed.

(** The generic branch yields the descending arrangement of the first
  [size] entries and keeps the rest. *)
Lemma GenericSortWeightIndexStack_spec size w :
let n := Z.to_nat size in
StdSort.descending id (take n (GenericSortWeightIndexStack size w))
/\ Permutation (take n (GenericSortWeightIndexStack size w)) (take n w)
/\ drop n (GenericSortWeightIndexStack size w) = drop n w.
Proof.
intros n. unfold GenericSortWeightIndexStack. fold n.
set (s := StdSort.sort _ _).
assert (Hlen : length s = length (take n w)) by apply StdSort.sort_length.
rewrite length_take in Hlen.
assert (Ht : take n (s ++ drop n w) = s).
{ destruct (decide (n <= length w)%nat) as [Hle | Hgt].
  - rewrite take_app_le by lia. apply take_ge. lia.
  - rewrite (drop_ge w n), app_nil_r by lia. apply take_ge. lia. }
rewrite Ht. repeat split.
- apply (StdSort.sort_descending _ id), CompareCandidateMotionVectors_key.
- apply StdSort.sort_perm.
- destruct (decide (n <= length w)%nat) as [Hle | Hgt].
  + rewrite drop_app_length'; [reflexivity | lia].
  + rewrite !drop_ge; [reflexivity | lia |].
    rewrite length_app, Hlen, length_drop. lia.
Qed.

Ltac order_cases :=
repeat first
  [ progress cbn -[Z.ltb Z.gtb int16]
  | rewrite Z.gtb_ltb
  | match goal with
    | |- context [?a <? ?b] => destruct (Z.ltb_spec a b); try lia
    end ].

(** C4. On a stack prefix of at most three entries the comparison-network
  path of [SortWeightIndexStack] returns exactly the array that the
  generic [std::sort] path with [CompareCandidateMotionVectors] returns,
  whatever the order of the entries and whether or not weights repeat. *)
Theorem SortWeightIndexStack_small_matches_generic
  (size : Z) (weight_index_stack : list Z) :
size <= 3 ->
size <= Z.of_nat (length weight_index_stack) ->
Forall is_int16 weight_index_stack ->
SortWeightIndexStack size weight_index_stack
= GenericSortWeightIndexStack size weight_index_stack.
Proof.
intros H3 Hlen Hint.
assert (C : size <= 1 \/ size = 2 \/ size = 3) by lia.
destruct C as [C | [-> | ->]].
- unfold SortWeightIndexStack, GenericSortWeightIndexStack.
  destruct (Z.leb_spec size 1); [| lia].
  assert (E : size <= 0 \/ size = 1) by lia. destruct E as [E | ->].
  + replace (Z.to_nat size) with 0%nat by lia. reflexivity.
  + change (Z.to_nat 1) with 1%nat.
    destruct weight_index_stack; reflexivity.
- destruct weight_index_stack as [| a [| b rest]]; simpl in Hlen; try lia.
  apply Forall_cons in Hint as [Ha Hint].
  apply Forall_cons in Hint as [Hb _].
  unfold SortWeightIndexStack, GenericSortWeightIndexStack,
    DescendingOrderTwo, CompareCandidateMotionVectors.
  change (Z.to_nat 2) with 2%nat.
  cbn -[Z.ltb Z.gtb int16]. rewrite take_0, drop_0.
  cbn -[Z.ltb Z.gtb int16]. rewrite !Z.gtb_ltb.
  order_cases; rewrite ?int16_id by assumption;
    try reflexivity; repeat (f_equal; try lia).
- destruct weight_index_stack as [| a [| b [| c rest]]];
    simpl in Hlen; try lia.
  apply Forall_cons in Hint as [Ha Hint].
  apply Forall_cons in Hint as [Hb Hint].
  apply Forall_cons in Hint as [Hc _].
  unfold SortWeightIndexStack, GenericSortWeightIndexStack,
    DescendingOrderTwo, CompareCandidateMotionVectors.
  change (Z.to_nat 3) with 3%nat.
  cbn -[Z.ltb Z.gtb int16]. rewrite take_0, drop_0.
  cbn -[Z.ltb Z.gtb int16]. rewrite !Z.gtb_ltb.
  order_cases; rewrite ?int16_id by assumption;
    try reflexivity; repeat (f_equal; try lia).
Qed.

Lemma SortWeightIndexStack_small_matches_generic_witness :
SortWeightIndexStack 3 [15; 47; 15; 9]
= GenericSortWeightIndexStack 3 [15; 47; 15; 9].
Proof.
apply (SortWeightIndexStack_small_matches_generic 3 [15; 47; 15; 9]).
- lia.
- simpl. lia.
- repeat constructor; unfold int16_min, int16_max; lia.
Defined.

Example SortWeightIndexStack_run :
SortWeightIndexStack 3 [15; 47; 15; 9] = [47; 15; 15; 9]
/\ SortWeightIndexStack 2 [15; 47; 15; 9] = [47; 15; 15; 9]
/\ SortWeightIndexStack 4 [15; 47; 15; 9; 60] = [47; 15; 15; 9; 60].
Proof. repeat split; reflexivity. Qed.

End SortWeightIndexStackFacts.

(** ** Output layers of a temporal unit ([src/decoder_impl.h]) *)

Module Output.

(** [TemporalUnit::OutputLayer]; [frame] stands for the
    [RefCountedBufferPtr], identified by a buffer number. *)
Record OutputLayer := mkOutputLayer {
  frame : Z;
  position_in_temporal_unit : Z
}.

(** [OutputLayer::operator<]: "used by std::sort to sort |output_layers| in
    reverse order of |position_in_temporal_unit|". *)
Definition OutputLayer_lt (lhs rhs : OutputLayer) : bool :=
  position_in_temporal_unit lhs >? position_in_temporal_unit rhs.

(** The members of [TemporalUnit] that the output path uses. *)
Record TemporalUnit := mkTemporalUnit {
  output_layers : list OutputLayer;
  output_layer_count : Z
}.

(** Modelled from the spec: the sort at the end of decoding lives in
    [src/decoder_impl.cc], which is not among the sources.  The header says
    "at the end of the decoding process, this array will be sorted in
    reverse order of |position_in_temporal_unit|", with [operator<] as the
    [std::sort] comparator over the [output_layer_count] stored entries. *)
Definition SortOutputLayers (tu : TemporalUnit) : TemporalUnit :=
  let n := Z.to_nat (output_layer_count tu) in
  mkTemporalUnit
    (StdSort.sort OutputLayer_lt (take n (output_layers tu))
     ++ drop n (output_layers tu))
    (output_layer_count tu).

(** Modelled from the spec: [DecoderImpl::DequeueFrame] is in
    [src/decoder_impl.cc], which is not among the sources.  Spec 4.1: the
    table is "sorted in descending order of position_in_temporal_unit so a
    single monotonically-decreasing-index scan reproduces the correct
    multi-layer output order"; header: "DequeueFrame() will then return the
    frames in reverse order (so that the entire process can run with a
    single counter variable)".  The single counter is [output_layer_count]:
    each call hands out entry [output_layer_count - 1] and decrements. *)
Definition DequeueFrame (tu : TemporalUnit)
  : option OutputLayer * TemporalUnit :=
  if 0 <? output_layer_count tu then
    (output_layers tu !! Z.to_nat (output_layer_count tu - 1),
     mkTemporalUnit (output_layers tu) (output_layer_count tu - 1))
  else (None, tu).

(** [calls] successive [DequeueFrame] calls on the same temporal unit. *)
Fixpoint DequeueFrames (calls : nat) (tu : TemporalUnit)
  : list (option OutputLayer) :=
  match calls with
  | O => []
  | S k => let '(out, tu') := DequeueFrame tu in out :: DequeueFrames k tu'
  end.

(** A unit whose layers finished decoding in the order given by
    [positions]; layer [p] is held in buffer [100 + p]. *)
Definition unit_of_positions (positions : list Z) : TemporalUnit :=
  mkTemporalUnit (map (fun p => mkOutputLayer (100 + p) p) positions)
                 (Z.of_nat (length positions)).

Definition dequeued_positions (tu : TemporalUnit) : list (option Z) :=
  map (fmap position_in_temporal_unit)
      (DequeueFrames (Z.to_nat (output_layer_count tu)) (SortOutputLayers tu)).

Section Facts.

Lemma OutputLayer_lt_key a b :
OutputLayer_lt a b
= (position_in_temporal_unit b <? position_in_temporal_unit a).
Proof. unfold OutputLayer_lt. apply Z.gtb_ltb. Qed.

(** Draining the first [n] entries by the decreasing counter yields them
  last to first. *)
Lemma DequeueFrames_take (ls : list OutputLayer) (n : nat) :
(n <= length ls)%nat ->
DequeueFrames n (mkTemporalUnit ls (Z.of_nat n))
= map Some (rev (take n ls)).
Proof.
induction n as [| n IH]; intros Hn.
- now rewrite take_0.
- cbn [DequeueFrames]. unfold DequeueFrame.
  cbn [output_layer_count output_layers].
  destruct (Z.ltb_spec 0 (Z.of_nat (S n))) as [_ | Hc]; [| lia].
  replace (Z.to_nat (Z.of_nat (S n) - 1)) with n by lia.
  replace (Z.of_nat (S n) - 1) with (Z.of_nat n) by lia.
  destruct (lookup_lt_is_Some_2 ls n ltac:(lia)) as [x Hx].
  rewrite Hx, (take_S_r ls n x Hx), rev_app_distr, IH by lia.
  reflexivity.
Qed.

Lemma descending_map_key (l : list OutputLayer) :
StdSort.descending position_in_temporal_unit l ->
StdSort.descending id (map position_in_temporal_unit l).
Proof.
unfold StdSort.descending, id.
induction 1 as [| a l Hs IH Ha]; simpl; constructor; [exact IH |].
now apply Forall_map.
Qed.

(** Whatever the order in which the layers finished decoding, the calls
  return them by increasing position. *)
Lemma dequeued_positions_ascending (positions : list Z) :
exists sorted,
  dequeued_positions (unit_of_positions positions) = map Some (rev sorted)
  /\ StdSort.descending id sorted
  /\ Permutation sorted positions.
Proof.
set (layers := map (fun p => mkOutputLayer (100 + p) p) positions).
exists (map position_in_temporal_unit (StdSort.sort OutputLayer_lt layers)).
assert (Hlen : length layers = length positions) by apply length_map.
assert (Hpos : map position_in_temporal_unit layers = positions).
{ unfold layers. rewrite List.map_map. simpl. apply List.map_id. }
repeat split.
- unfold dequeued_positions, SortOutputLayers, unit_of_positions.
  fold layers. cbn [output_layer_count output_layers].
  rewrite Nat2Z.id, <- Hlen, firstn_all, drop_all, app_nil_r.
  rewrite <- (StdSort.sort_length OutputLayer_lt layers) at 1 2.
  rewrite DequeueFrames_take, firstn_all by lia.
  rewrite <- List.map_rev, !List.map_map. reflexivity.
- apply descending_map_key.
  apply (StdSort.sort_descending _ _ OutputLayer_lt_key).
- rewrite <- Hpos. apply Permutation_map, StdSort.sort_perm.
Qed.

(** C1, as amended.  A temporal unit whose three output layers sit at
  [position_in_temporal_unit] 2, 0 and 1 (stored in any order of
  completion): once [output_layers] is sorted by [operator<], that is in
  descending position, the decreasing-counter scan of [DequeueFrame] makes
  three successive calls return the layers at positions 0, 1, 2, in
  ascending position. *)
Theorem DequeueFrame_three_layers_ascending (positions : list Z) :
Permutation positions [2; 0; 1] ->
dequeued_positions (unit_of_positions positions) = [Some 0; Some 1; Some 2].
Proof.
intros Hp.
destruct (dequeued_positions_ascending positions) as (sorted & -> & Hd & Hs).
assert (E : sorted = [2; 1; 0]).
{ apply StdSort.descending_unique; [exact Hd | |].
  - unfold StdSort.descending, id. repeat constructor; lia.
  - rewrite Hs, Hp. apply perm_skip, perm_swap. }
now rewrite E.
Qed.

Lemma DequeueFrame_three_layers_ascending_witness :
dequeued_positions (unit_of_positions [2; 0; 1]) = [Some 0; Some 1; Some 2].
Proof.
apply (DequeueFrame_three_layers_ascending [2; 0; 1]). reflexivity.
Defined.

(** C1, as stated, fails: for the layers {2,0,1} the successive calls do
  not return positions 2, 1, 0. *)
Lemma DequeueFrame_three_layers_not_descending :
output_layers (SortOutputLayers (unit_of_positions [2; 0; 1]))
  = [mkOutputLayer 102 2; mkOutputLayer 101 1; mkOutputLayer 100 0]
/\ dequeued_positions (unit_of_positions [2; 0; 1])
   <> [Some 2; Some 1; Some 0].
Proof. split; [reflexivity | discriminate]. Qed.

End Facts.
End Output.

(** ** Self-guided restoration weights
       ([src/dsp/x86/loop_restoration_10bit_sse4.cc]) *)

Module Sgr.

(** [SgrProjInfo]: the table index and the two signed multipliers of a
    restoration unit. *)
Record SgrProjInfo := mkSgrProjInfo {
  index : Z;
  multiplier : Z * Z
}.

Record RestorationUnitInfo := mkRestorationUnitInfo {
  sgr_proj_info : SgrProjInfo
}.

Section Weights.
(** [kSgrProjPrecisionBits] is defined in [src/utils/constants.h], which
    is not among the sources; it is a parameter here (7 in libgav1). *)
Variable kSgrProjPrecisionBits : Z.

(** The three weights as [BoxFilterProcess] declares them, all
    [const int16_t]. *)
Definition BoxFilterProcess_weights (restoration_info : RestorationUnitInfo)
  : Z * Z * Z :=
  let w0 := int16 (fst (multiplier (sgr_proj_info restoration_info))) in
  let w1 := int16 (snd (multiplier (sgr_proj_info restoration_info))) in
  let w2 := int16 (Z.shiftl 1 kSgrProjPrecisionBits - w0 - w1) in
  (w0, w1, w2).

(** [BoxFilterProcessPass2] (first radius inactive): [w1] from the unit,
    [w0] derived. *)
Definition BoxFilterProcessPass2_weights
    (restoration_info : RestorationUnitInfo) : Z * Z :=
  let w1 := int16 (snd (multiplier (sgr_proj_info restoration_info))) in
  let w0 := int16 (Z.shiftl 1 kSgrProjPrecisionBits - w1) in
  (w0, w1).

Lemma shiftl_1_bounds :
  0 <= kSgrProjPrecisionBits <= 14 ->
  1 <= Z.shiftl 1 kSgrProjPrecisionBits <= 16384.
Proof.
  intros H. rewrite Z.shiftl_1_l.
  split.
  - pose proof (Z.pow_pos_nonneg 2 kSgrProjPrecisionBits). lia.
  - change 16384 with (2 ^ 14). apply Z.pow_le_mono_r; lia.
Qed.

(** C5. With both box-filter radii active ([BoxFilterProcess]), the three
    fixed-point weights add up to [1 << kSgrProjPrecisionBits] exactly:
    [w0], [w1] are the unit's signed multipliers and [w2] is what
    remains.  The multipliers range over signed bytes, which covers the
    values a bitstream can carry, so no [int16_t] narrowing wraps. *)
Theorem BoxFilterProcess_weights_sum (restoration_info : RestorationUnitInfo) :
  0 <= kSgrProjPrecisionBits <= 14 ->
  is_int8 (fst (multiplier (sgr_proj_info restoration_info))) ->
  is_int8 (snd (multiplier (sgr_proj_info restoration_info))) ->
  let '(w0, w1, w2) := BoxFilterProcess_weights restoration_info in
  w0 + w1 + w2 = Z.shiftl 1 kSgrProjPrecisionBits
  /\ w0 = fst (multiplier (sgr_proj_info restoration_info))
  /\ w1 = snd (multiplier (sgr_proj_info restoration_info)).
Proof.
  intros Hb H0 H1. unfold BoxFilterProcess_weights.
  pose proof (shiftl_1_bounds Hb) as Hs.
  unfold is_int8 in H0, H1.
  rewrite !(int16_id (fst _)), !(int16_id (snd _))
    by (unfold is_int16, int16_min, int16_max; lia).
  rewrite int16_id by (unfold is_int16, int16_min, int16_max; lia).
  repeat split. lia.
Qed.

(** X3. [BoxFilterProcessPass2] is the special case of [BoxFilterProcess]
    it is meant to be: under its own precondition
    [multiplier[0] == 0] (the [assert] on its first line) the weight [w0]
    it derives is the weight [w2] of the two-pass filter and [w1] is the
    same in both, whatever [multiplier[1]] holds; and for a multiplier in
    signed-byte range the two weights add up to
    [1 << kSgrProjPrecisionBits]. *)
Theorem BoxFilterProcessPass2_weights_agree
    (restoration_info : RestorationUnitInfo) :
  fst (multiplier (sgr_proj_info restoration_info)) = 0 ->
  let '(w0, w1, w2) := BoxFilterProcess_weights restoration_info in
  let '(pass2_w0, pass2_w1) :=
    BoxFilterProcessPass2_weights restoration_info in
  w0 = 0 /\ pass2_w1 = w1 /\ pass2_w0 = w2
  /\ (0 <= kSgrProjPrecisionBits <= 14 ->
      is_int8 (snd (multiplier (sgr_proj_info restoration_info))) ->
      pass2_w0 + pass2_w1 = Z.shiftl 1 kSgrProjPrecisionBits).
Proof.
  intros H0. unfold BoxFilterProcess_weights, BoxFilterProcessPass2_weights.
  rewrite H0. change (int16 0) with 0. rewrite Z.sub_0_r.
  repeat split.
  intros Hb H1. pose proof (shiftl_1_bounds Hb) as Hs.
  unfold is_int8 in H1.
  rewrite !(int16_id (snd _))
    by (unfold is_int16, int16_min, int16_max; lia).
  rewrite int16_id by (unfold is_int16, int16_min, int16_max; lia).
  lia.
Qed.
End Weights.

Lemma BoxFilterProcessPass2_weights_agree_witness :
  let '(w0, w1, w2) :=
    BoxFilterProcess_weights 7
      (mkRestorationUnitInfo (mkSgrProjInfo 12 (0, -32))) in
  let '(pass2_w0, pass2_w1) :=
    BoxFilterProcessPass2_weights 7
      (mkRestorationUnitInfo (mkSgrProjInfo 12 (0, -32))) in
  w0 = 0 /\ pass2_w1 = w1 /\ pass2_w0 = w2
  /\ (0 <= 7 <= 14 -> is_int8 (-32) -> pass2_w0 + pass2_w1 = Z.shiftl 1 7).
Proof.
  apply (BoxFilterProcessPass2_weights_agree 7
           (mkRestorationUnitInfo (mkSgrProjInfo 12 (0, -32)))).
  reflexivity.
Defined.

Lemma BoxFilterProcess_weights_sum_witness :
  let '(w0, w1, w2) :=
    BoxFilterProcess_weights 7
      (mkRestorationUnitInfo (mkSgrProjInfo 3 (-96, 95))) in
  w0 + w1 + w2 = Z.shiftl 1 7 /\ w0 = -96 /\ w1 = 95.
Proof.
  apply (BoxFilterProcess_weights_sum 7
           (mkRestorationUnitInfo (mkSgrProjInfo 3 (-96, 95))));
    unfold is_int8; simpl; lia.
Defined.

Example BoxFilterProcess_weights_run :
  BoxFilterProcess_weights 7 (mkRestorationUnitInfo (mkSgrProjInfo 3 (-96, 95)))
  = (-96, 95, 129).
Proof. reflexivity. Qed.

End Sgr.

(** ** Super-resolution row partition ([src/post_filter.cc]) *)

Module SuperRes.

(** One [ApplySuperRes] call issued by [ApplySuperResThreaded]: whether it
    was handed to [thread_pool_->Schedule] or run by the calling thread,
    the first row4x4 of its share ([row4x4_start], through
    [GetBufferOffset]) and the [rows4x4] argument. *)
Record Job := mkJob {
  scheduled_on_pool : bool;
  row4x4_start : Z;
  job_rows4x4 : Z
}.

(** The [for] loop of [ApplySuperResThreaded], [remaining] iterations to
    go. *)
Fixpoint ApplySuperResThreaded_loop (remaining : nat) (i row4x4_start : Z)
    (num_threads thread_pool_rows4x4 current_thread_rows4x4 : Z)
  : list Job :=
  match remaining with
  | O => []
  | S k =>
      (if i <? num_threads - 1
       then mkJob true row4x4_start thread_pool_rows4x4
       else mkJob false row4x4_start current_thread_rows4x4)
      :: ApplySuperResThreaded_loop k (i + 1)
           (row4x4_start + thread_pool_rows4x4)
           num_threads thread_pool_rows4x4 current_thread_rows4x4
  end.

(** [PostFilter::ApplySuperResThreaded], as the list of [ApplySuperRes]
    calls it makes; [thread_count] is [thread_pool_->num_threads()] and
    [rows4x4] is [frame_header_.rows4x4]. Integer division is C++'s. *)
Definition ApplySuperResThreaded (thread_count rows4x4 : Z) : list Job :=
  let num_threads := thread_count + 1 in
  let thread_pool_rows4x4 := Z.quot rows4x4 num_threads in
  let current_thread_rows4x4 :=
    rows4x4 - thread_pool_rows4x4 * (num_threads - 1) in
  ApplySuperResThreaded_loop (Z.to_nat num_threads) 0 0
    num_threads thread_pool_rows4x4 current_thread_rows4x4.

(** Row [r] belongs to the share of job [j]. *)
Definition covers (r : Z) (j : Job) : bool :=
  (row4x4_start j <=? r) && (r <? row4x4_start j + job_rows4x4 j).

(** Number of jobs whose share contains row [r]. *)
Definition times_covered (r : Z) (jobs : list Job) : nat :=
  length (List.filter (covers r) jobs).

Section Facts.

(** The loop in closed form: pool jobs at multiples of the pool share,
  then the calling thread's job. *)
Lemma ApplySuperResThreaded_loop_pool n i start num_threads q c :
i + Z.of_nat n <= num_threads - 1 ->
ApplySuperResThreaded_loop n i start num_threads q c
= map (fun k => mkJob true (start + Z.of_nat k * q) q) (seq 0 n).
Proof.
revert i start. induction n as [| n IH]; intros i start Hi; [reflexivity |].
cbn [ApplySuperResThreaded_loop seq map].
destruct (Z.ltb_spec i (num_threads - 1)); [| lia].
f_equal; [f_equal; lia |].
rewrite IH by lia. rewrite <- seq_shift, List.map_map.
apply map_ext. intros k. f_equal. lia.
Qed.

Lemma ApplySuperResThreaded_loop_app n m i start num_threads q c :
ApplySuperResThreaded_loop (n + m) i start num_threads q c
= ApplySuperResThreaded_loop n i start num_threads q c
  ++ ApplySuperResThreaded_loop m (i + Z.of_nat n)
       (start + Z.of_nat n * q) num_threads q c.
Proof.
revert i start. induction n as [| n IH]; intros i start.
- simpl. do 2 f_equal; lia.
- cbn [Nat.add ApplySuperResThreaded_loop app]. f_equal.
  rewrite IH. do 2 f_equal; lia.
Qed.

Lemma ApplySuperResThreaded_closed thread_count rows4x4 :
0 <= thread_count ->
let q := Z.quot rows4x4 (thread_count + 1) in
ApplySuperResThreaded thread_count rows4x4
= map (fun k => mkJob true (Z.of_nat k * q) q)
      (seq 0 (Z.to_nat thread_count))
  ++ [mkJob false (thread_count * q) (rows4x4 - q * thread_count)].
Proof.
intros Ht q. unfold ApplySuperResThreaded. fold q.
replace (Z.to_nat (thread_count + 1))
  with (Z.to_nat thread_count + 1)%nat by lia.
rewrite ApplySuperResThreaded_loop_app.
rewrite ApplySuperResThreaded_loop_pool by lia.
f_equal.
cbn [ApplySuperResThreaded_loop].
destruct (Z.ltb_spec (0 + Z.of_nat (Z.to_nat thread_count))
            (thread_count + 1 - 1)); [lia |].
f_equal. clearbody q. rewrite Z2Nat.id by lia. f_equal; ring.
Qed.

(** Pool shares [0 .. n-1] of width [q] cover exactly the rows in
  [0, n * q), each once. *)
Lemma times_covered_pool r q n :
0 <= q ->
times_covered r (map (fun k => mkJob true (Z.of_nat k * q) q) (seq 0 n))
= if (0 <=? r) && (r <? Z.of_nat n * q) then 1%nat else 0%nat.
Proof.
intros Hq. unfold times_covered.
induction n as [| n IH].
- change (Z.of_nat 0 * q) with 0.
  destruct (Z.leb_spec 0 r); destruct (Z.ltb_spec r 0);
    try lia; reflexivity.
- rewrite seq_S, map_app, List.filter_app, length_app, IH. clear IH.
  cbn [Nat.add map List.filter]. unfold covers.
  cbn [row4x4_start job_rows4x4].
  assert (0 <= Z.of_nat n * q) by nia.
  replace (Z.of_nat (S n) * q) with (Z.of_nat n * q + q) by lia.
  destruct (Z.leb_spec 0 r);
    destruct (Z.ltb_spec r (Z.of_nat n * q));
    destruct (Z.leb_spec (Z.of_nat n * q) r);
    destruct (Z.ltb_spec r (Z.of_nat n * q + q));
    try lia; reflexivity.
Qed.

(** C9. [ApplySuperResThreaded] splits the frame's rows4x4 over
  [thread_count + 1] workers: each of the [thread_count] pool jobs gets
  [floor(rows4x4 / (thread_count + 1))] rows4x4, starting at consecutive
  multiples of that share; the calling thread comes last and takes the
  remaining [rows4x4 - floor(...) * thread_count] rows, never fewer than a
  pool share; and every row4x4 of the frame lies in exactly one share
  (rows outside the frame in none). *)
Theorem ApplySuperResThreaded_partition (thread_count rows4x4 : Z) :
0 <= thread_count -> 0 <= rows4x4 ->
let share := rows4x4 / (thread_count + 1) in
let jobs := ApplySuperResThreaded thread_count rows4x4 in
jobs = map (fun k => mkJob true (Z.of_nat k * share) share)
           (seq 0 (Z.to_nat thread_count))
       ++ [mkJob false (thread_count * share)
                 (rows4x4 - share * thread_count)]
/\ length jobs = Z.to_nat (thread_count + 1)
/\ share <= rows4x4 - share * thread_count
/\ thread_count * share + (rows4x4 - share * thread_count) = rows4x4
/\ forall r, times_covered r jobs
             = if (0 <=? r) && (r <? rows4x4) then 1%nat else 0%nat.
Proof.
intros Ht Hr share jobs.
assert (Hq : Z.quot rows4x4 (thread_count + 1) = share)
  by (apply Z.quot_div_nonneg; lia).
assert (Hs0 : 0 <= share) by (apply Z.div_pos; lia).
assert (Hmul : (thread_count + 1) * share <= rows4x4)
  by (apply Z.mul_div_le; lia).
assert (Hjobs : jobs
          = map (fun k => mkJob true (Z.of_nat k * share) share)
                (seq 0 (Z.to_nat thread_count))
            ++ [mkJob false (thread_count * share)
                      (rows4x4 - share * thread_count)]).
{ unfold jobs. rewrite ApplySuperResThreaded_closed by lia.
  cbv zeta. rewrite Hq. reflexivity. }
split; [exact Hjobs |].
split; [rewrite Hjobs, length_app, length_map, length_seq; simpl; lia |].
split; [lia |]. split; [lia |].
intros r. rewrite Hjobs. unfold times_covered.
rewrite List.filter_app, length_app.
fold (times_covered r
        (map (fun k => mkJob true (Z.of_nat k * share) share)
             (seq 0 (Z.to_nat thread_count)))).
rewrite times_covered_pool by lia.
rewrite Z2Nat.id by lia.
cbn [List.filter]. unfold covers. cbn [row4x4_start job_rows4x4].
replace (thread_count * share + (rows4x4 - share * thread_count))
  with rows4x4 by lia.
assert (0 <= thread_count * share) by nia.
destruct (Z.leb_spec 0 r);
  destruct (Z.ltb_spec r (thread_count * share));
  destruct (Z.leb_spec (thread_count * share) r);
  destruct (Z.ltb_spec r rows4x4);
  try lia; reflexivity.
Qed.

Lemma ApplySuperResThreaded_partition_witness :
ApplySuperResThreaded 3 34
= [mkJob true 0 8; mkJob true 8 8; mkJob true 16 8; mkJob false 24 10]
/\ forall r, times_covered r (ApplySuperResThreaded 3 34)
             = if (0 <=? r) && (r <? 34) then 1%nat else 0%nat.
Proof.
destruct (ApplySuperResThreaded_partition 3 34 ltac:(lia) ltac:(lia))
  as (Hjobs & _ & _ & _ & Hcov).
split; [exact Hjobs | exact Hcov].
Defined.

End Facts.
End SuperRes.

(** ** Block parameters (shared by motion-vector prediction and the
       deblocking filter) *)

(** [CandidateMotionVector] / the [mv] member of [BlockParameters]: the
    pair [mv[0]], [mv[1]]. *)
Record CandidateMotionVector := mkCandidate {
  mv0 : MotionVector;
  mv1 : MotionVector
}.

Definition CandidateMotionVector_zero : CandidateMotionVector :=
  mkCandidate MotionVector_zero MotionVector_zero.

#[export] Instance MotionVector_inhabited : Inhabited MotionVector :=
  populate MotionVector_zero.
#[export] Instance CandidateMotionVector_inhabited
  : Inhabited CandidateMotionVector := populate CandidateMotionVector_zero.

Definition CandidateMotionVector_eqb (a b : CandidateMotionVector) : bool :=
  MotionVector_eqb (mv0 a) (mv0 b) && MotionVector_eqb (mv1 a) (mv1 b).

(** The members of [BlockParameters] read by the modelled functions.
    Enumerations ([BlockSize], [PredictionMode], [ReferenceFrameType],
    [TransformSize]) are their integer values. *)
Record BlockParameters := mkBlockParameters {
  size : Z;
  skip : bool;
  is_inter : bool;
  is_global_mv_block : bool;
  y_mode : Z;
  reference_frame : Z * Z;
  mv : CandidateMotionVector;
  deblock_filter_level : list Z;
  uv_transform_size : Z
}.

Definition kReferenceFrameNone : Z := -1.
Definition kReferenceFrameIntra : Z := 0.

(** ** Deblocking edge information ([src/post_filter/deblock.cc]) *)

Module Deblock.

(** The part of [PostFilter] the luma edge-info functions read.
    [BlockParameters*] values are addresses; [block_parameters_Find] is
    [block_parameters_.Find(row4x4, column4x4)], [bp_ptr_array] is the array
    of such pointers that [bp_ptr] walks, and [deref] reads the pointee. *)
Record PostFilter := mkPostFilter {
  inter_transform_sizes : Z -> Z -> Z;
  block_parameters_Find : Z -> Z -> Z;
  bp_ptr_array : Z -> Z;
  deref : Z -> BlockParameters
}.

(** Values of the out-parameters [*level], [*step], [*filter_length] after
    the call, with the returned flag. *)
Record EdgeInfo := mkEdgeInfo {
  need_filter : bool;
  level : Z;
  step : Z;
  filter_length : Z
}.

Section WithTables.
(** [kTransformWidth] and [kTransformHeight] come from
    [src/utils/constants.h], not among the sources: parameters. *)
Variables kTransformWidth kTransformHeight : Z -> Z.
Variable pf : PostFilter.

Definition level_at (bp : Z) (filter_id : nat) : Z :=
  deblock_filter_level (deref pf bp) !!! filter_id.

(** "Returns true if skip and is_inter are true for the current block and
    the current row4x4/column4x4 is not in a block boundary." *)
Definition SkipFilter (bp bp_prev : Z) : bool :=
  skip (deref pf bp) && is_inter (deref pf bp) && (bp =? bp_prev).

(** [level_in], [filter_length_in]: what the out-parameters held before
    the call. *)
Definition GetHorizontalDeblockFilterEdgeInfo
    (row4x4 column4x4 : Z) (level_in filter_length_in : Z) : EdgeInfo :=
  let step := kTransformHeight (inter_transform_sizes pf row4x4 column4x4) in
  if row4x4 =? 0 then mkEdgeInfo false level_in step filter_length_in
  else
    let bp := block_parameters_Find pf row4x4 column4x4 in
    let level_this := level_at bp 1 in
    let row4x4_prev := row4x4 - 1 in
    let bp_prev := block_parameters_Find pf row4x4_prev column4x4 in
    let level_prev := level_at bp_prev 1 in
    if (level_this =? 0) && (level_prev =? 0) then
      mkEdgeInfo false level_this step filter_length_in
    else
      let level := if level_this =? 0 then level_prev else level_this in
      if SkipFilter bp bp_prev then
        mkEdgeInfo false level step filter_length_in
      else
        let step_prev :=
          kTransformHeight
            (inter_transform_sizes pf row4x4_prev column4x4) in
        mkEdgeInfo true level step (Z.min step step_prev).

Definition GetVerticalDeblockFilterEdgeInfo
    (row4x4 column4x4 : Z) (bp_ptr : Z) (level_in filter_length_in : Z)
  : EdgeInfo :=
  let bp := bp_ptr_array pf bp_ptr in
  let step := kTransformWidth (inter_transform_sizes pf row4x4 column4x4) in
  if column4x4 =? 0 then mkEdgeInfo false level_in step filter_length_in
  else
    let filter_id := 0%nat in
    let level_this := level_at bp filter_id in
    let column4x4_prev := column4x4 - 1 in
    let bp_prev := bp_ptr_array pf (bp_ptr - 1) in
    let level_prev := level_at bp_prev filter_id in
    if (level_this =? 0) && (level_prev =? 0) then
      mkEdgeInfo false level_this step filter_length_in
    else
      let level := if level_this =? 0 then level_prev else level_this in
      if SkipFilter bp bp_prev then
        mkEdgeInfo false level step filter_length_in
      else
        let step_prev :=
          kTransformWidth
            (inter_transform_sizes pf row4x4 column4x4_prev) in
        mkEdgeInfo true level step (Z.min step step_prev).

Lemma SkipFilter_true bp bp_prev :
  SkipFilter bp bp_prev = true
  <-> skip (deref pf bp) = true /\ is_inter (deref pf bp) = true
      /\ bp = bp_prev.
Proof.
  unfold SkipFilter. rewrite !andb_true_iff, Z.eqb_eq. tauto.
Qed.

(** C7. For a horizontal edge at [(row4x4, column4x4)] and a vertical edge
    reached through [bp_ptr]: the function answers "do not filter"
    exactly when the edge lies on the frame boundary, or the filter
    levels on both sides are zero, or the block is skip-coded and
    inter-coded and both sides are the same block ([bp == bp_prev], the
    edge is not on a prediction-block boundary); and when it answers
    "filter", the filter length is the minimum of the two adjacent
    transform sizes in the filtering direction, the level being this
    side's unless it is zero. *)
Theorem DeblockFilterEdgeInfo_decision
    (row4x4 column4x4 bp_ptr level_in filter_length_in : Z) :
  let h := GetHorizontalDeblockFilterEdgeInfo row4x4 column4x4
             level_in filter_length_in in
  let v := GetVerticalDeblockFilterEdgeInfo row4x4 column4x4 bp_ptr
             level_in filter_length_in in
  let bp_h := block_parameters_Find pf row4x4 column4x4 in
  let bp_h_prev := block_parameters_Find pf (row4x4 - 1) column4x4 in
  let bp_v := bp_ptr_array pf bp_ptr in
  let bp_v_prev := bp_ptr_array pf (bp_ptr - 1) in
  let level_of bp filter_id :=
    deblock_filter_level (deref pf bp) !!! filter_id in
  (need_filter h = false
   <-> row4x4 = 0
       \/ (level_of bp_h 1%nat = 0 /\ level_of bp_h_prev 1%nat = 0)
       \/ (skip (deref pf bp_h) = true /\ is_inter (deref pf bp_h) = true
           /\ bp_h = bp_h_prev))
  /\ (need_filter h = true ->
      filter_length h
      = Z.min (kTransformHeight (inter_transform_sizes pf row4x4 column4x4))
              (kTransformHeight
                 (inter_transform_sizes pf (row4x4 - 1) column4x4))
      /\ level h = (if level_of bp_h 1%nat =? 0 then level_of bp_h_prev 1%nat
                    else level_of bp_h 1%nat)
      /\ level h <> 0)
  /\ (need_filter v = false
      <-> column4x4 = 0
          \/ (level_of bp_v 0%nat = 0 /\ level_of bp_v_prev 0%nat = 0)
          \/ (skip (deref pf bp_v) = true /\ is_inter (deref pf bp_v) = true
              /\ bp_v = bp_v_prev))
  /\ (need_filter v = true ->
      filter_length v
      = Z.min (kTransformWidth (inter_transform_sizes pf row4x4 column4x4))
              (kTransformWidth
                 (inter_transform_sizes pf row4x4 (column4x4 - 1)))
      /\ level v = (if level_of bp_v 0%nat =? 0 then level_of bp_v_prev 0%nat
                    else level_of bp_v 0%nat)
      /\ level v <> 0).
Proof.
  cbv zeta. rewrite <- !SkipFilter_true.
  change (fun bp filter_id => deblock_filter_level (deref pf bp) !!! filter_id)
    with level_at.
  unfold GetHorizontalDeblockFilterEdgeInfo, GetVerticalDeblockFilterEdgeInfo.
  repeat match goal with
         | |- context [?a =? ?b] =>
             destruct (Z.eqb_spec a b); cbn [andb]
         | |- context [if SkipFilter ?a ?b then _ else _] =>
             destruct (SkipFilter a b) eqn:?; cbn [andb]
         end;
    cbn [need_filter filter_length level];
    repeat split; intros;
    solve [ intuition (try congruence; try lia) ].
Qed.
End WithTables.

(** *** Two edges of a skipped inter block

    Transform widths and heights as powers of two; the block parameters
    at address 200 cover columns 2 and 3 of rows 0 and 1, those at address
    100 the columns to their left.  Every block is skip-coded and
    inter-coded, with levels 3 (vertical edges) and 5 (horizontal edges). *)
Definition example_size (transform_size : Z) : Z := Z.shiftl 4 transform_size.

Definition example_filter : PostFilter :=
  mkPostFilter
    (fun _ column4x4 => if column4x4 <? 2 then 0 else 3)
    (fun _ column4x4 => if column4x4 <? 2 then 100 else 200)
    (fun bp_ptr => if bp_ptr <? 5 then 100 else 200)
    (fun _ => mkBlockParameters 4 true true false 13
                (1, kReferenceFrameNone) CandidateMotionVector_zero
                [3; 5; 0; 0] 0).

(** At [(1, 2)]: the horizontal edge is inside the block at 200 and is not
    filtered although its level is 5; the vertical edge separates the
    blocks at 100 and 200 and is filtered with the smaller of the two
    transform widths. *)
Lemma DeblockFilterEdgeInfo_decision_witness :
  let h := GetHorizontalDeblockFilterEdgeInfo example_size example_filter
             1 2 0 0 in
  let v := GetVerticalDeblockFilterEdgeInfo example_size example_filter
             1 2 5 0 0 in
  (need_filter h = false /\ level h = 5)
  /\ (need_filter v = true /\ level v = 3
      /\ filter_length v = Z.min (example_size 3) (example_size 0)).
Proof.
  cbv zeta.
  destruct (DeblockFilterEdgeInfo_decision example_size example_size
              example_filter 1 2 5 0 0) as (Hh & _ & Hv & Hlength).
  cbv zeta in Hh, Hv, Hlength.
  split.
  - split; [| reflexivity].
    apply Hh. right. right. repeat split.
  - assert (need_filter
              (GetVerticalDeblockFilterEdgeInfo example_size example_filter
                 1 2 5 0 0) = true) as Hneed.
    { destruct (need_filter
                  (GetVerticalDeblockFilterEdgeInfo example_size
                     example_filter 1 2 5 0 0)) eqn:E; [reflexivity |].
      exfalso.
      destruct (proj1 Hv eq_refl) as [E' | [[E' _] | (_ & _ & E')]];
        vm_compute in E'; discriminate E'. }
    destruct (Hlength Hneed) as (Hl & Hlevel & _).
    split; [exact Hneed |]. split; [rewrite Hlevel; reflexivity | exact Hl].
Defined.

End Deblock.

(** ** The CDEF working copy ([src/post_filter.cc]) *)

Module Cdef.

(** A pixel buffer: contents by element address.  The frame buffer
    ([Pixel] elements) and the CDEF working copy ([uint16_t] elements) are
    separate objects. *)
Definition buffer := Z -> Z.

Definition store (m : buffer) (addr value : Z) : buffer :=
  fun a => if a =? addr then value else m a.

(** [for (x = first; x < first + count; ++x) body(x)], [count] a numeral. *)
Fixpoint for_each (count : nat) (first : Z) (body : Z -> buffer -> buffer)
    (m : buffer) : buffer :=
  match count with
  | O => m
  | S k => for_each k (first + 1) body (body first m)
  end.

(** [Memset(dst, value, count)]: [count] elements set to [value]. *)
Definition Memset (dst value count : Z) (m : buffer) : buffer :=
  for_each (Z.to_nat count) 0 (fun i m => store m (dst + i) value) m.

(** [memcpy(dst, src, count * sizeof(dst[0]))] between the two buffers. *)
Definition memcpy (source : buffer) (dst src count : Z) (m : buffer) : buffer :=
  for_each (Z.to_nat count) 0 (fun i m => store m (dst + i) (source (src + i))) m.

Section WithConstants.
(** [PostFilter::kCdefLargeValue] ([src/post_filter.h]) and [kCdefBorder]
    ([src/utils/constants.h]) are not among the sources: parameters. *)
Variables kCdefLargeValue kCdefBorder : Z.

(** One iteration of the row loop in the [else] branch of [CopyRows];
    [same_size] is [sizeof(src[0]) == sizeof(dst[0])]. *)
Definition CopyRows_row (same_size : bool) (source : buffer)
    (src block_width unit_width : Z) (is_frame_left is_frame_right : bool)
    (dst : Z) (m : buffer) : buffer :=
  if same_size then
    let m :=
      if is_frame_left
      then Memset (dst - kCdefBorder) kCdefLargeValue kCdefBorder m
      else memcpy source (dst - kCdefBorder) (src - kCdefBorder)
                  kCdefBorder m in
    let m := memcpy source dst src block_width m in
    if is_frame_right
    then Memset (dst + block_width) kCdefLargeValue
                (unit_width + kCdefBorder - block_width) m
    else memcpy source (dst + block_width) (src + block_width)
                (unit_width + kCdefBorder - block_width) m
  else
    let m :=
      for_each (Z.to_nat kCdefBorder) (- kCdefBorder)
        (fun x m => store m (dst + x)
                      (if is_frame_left then kCdefLargeValue
                       else source (src + x))) m in
    let m :=
      for_each (Z.to_nat block_width) 0
        (fun x m => store m (dst + x) (source (src + x))) m in
    for_each (Z.to_nat (unit_width + kCdefBorder - block_width)) block_width
      (fun x m => store m (dst + x)
                    (if is_frame_right then kCdefLargeValue
                     else source (src + x))) m.

(** The two row loops of [CopyRows]. *)
Fixpoint CopyRows_fill (num_rows : nat) (unit_width dst dst_stride : Z)
    (m : buffer) : buffer :=
  match num_rows with
  | O => m
  | S k =>
      CopyRows_fill k unit_width (dst + dst_stride) dst_stride
        (Memset dst kCdefLargeValue (unit_width + 2 * kCdefBorder) m)
  end.

Fixpoint CopyRows_copy (num_rows : nat) (same_size : bool) (source : buffer)
    (src src_stride block_width unit_width : Z)
    (is_frame_left is_frame_right : bool) (dst dst_stride : Z)
    (m : buffer) : buffer :=
  match num_rows with
  | O => m
  | S k =>
      CopyRows_copy k same_size source (src + src_stride) src_stride
        block_width unit_width is_frame_left is_frame_right
        (dst + dst_stride) dst_stride
        (CopyRows_row same_size source src block_width unit_width
           is_frame_left is_frame_right dst m)
  end.

(** [CopyRows<Pixel>]: returns the working copy after the call. *)
Definition CopyRows (same_size : bool) (source : buffer)
    (src src_stride block_width unit_width : Z)
    (is_frame_top is_frame_bottom is_frame_left is_frame_right
       copy_top : bool)
    (num_rows dst dst_stride : Z) (m : buffer) : buffer :=
  if is_frame_top || is_frame_bottom then
    let dst := if is_frame_bottom then dst - kCdefBorder else dst in
    CopyRows_fill (Z.to_nat num_rows) unit_width dst dst_stride m
  else
    let src := if copy_top then src - kCdefBorder * src_stride else src in
    let dst := if copy_top then dst + kCdefBorder else dst in
    CopyRows_copy (Z.to_nat num_rows) same_size source src src_stride
      block_width unit_width is_frame_left is_frame_right dst dst_stride m.
End WithConstants.

(** Settles every integer comparison in the goal that the context
    decides. *)
Ltac decide_ranges :=
  repeat match goal with
         | |- context [?x <=? ?y] =>
             first [ rewrite (proj2 (Z.leb_le x y)) by lia
                   | rewrite (proj2 (Z.leb_gt x y)) by lia ]
         | |- context [?x <? ?y] =>
             first [ rewrite (proj2 (Z.ltb_lt x y)) by lia
                   | rewrite (proj2 (Z.ltb_ge x y)) by lia ]
         end.

Section Facts.
Variables kCdefLargeValue kCdefBorder : Z.
Hypothesis border_nonneg : 0 <= kCdefBorder.

Lemma for_each_store (g : Z -> Z) dst n first m a :
  for_each n first (fun x m => store m (dst + x) (g x)) m a
  = if (dst + first <=? a) && (a <? dst + first + Z.of_nat n)
    then g (a - dst) else m a.
Proof.
  revert first m. induction n as [| n IH]; intros first m.
  - cbn [for_each].
    destruct (Z.leb_spec (dst + first) a);
      destruct (Z.ltb_spec a (dst + first + Z.of_nat 0));
      try reflexivity; lia.
  - cbn [for_each]. rewrite IH. unfold store.
    destruct (Z.leb_spec (dst + (first + 1)) a);
      destruct (Z.ltb_spec a (dst + (first + 1) + Z.of_nat n));
      destruct (Z.leb_spec (dst + first) a);
      destruct (Z.ltb_spec a (dst + first + Z.of_nat (S n)));
      destruct (Z.eqb_spec a (dst + first));
      cbn [andb]; try lia; try reflexivity.
    f_equal. lia.
Qed.

Lemma Memset_at dst v count m a :
  Memset dst v count m a
  = if (dst <=? a) && (a <? dst + count) then v else m a.
Proof.
  unfold Memset. rewrite (for_each_store (fun _ => v)).
  destruct (Z.leb_spec (dst + 0) a);
    destruct (Z.ltb_spec a (dst + 0 + Z.of_nat (Z.to_nat count)));
    destruct (Z.leb_spec dst a);
    destruct (Z.ltb_spec a (dst + count));
    cbn [andb]; try lia; reflexivity.
Qed.

Lemma memcpy_at source dst src count m a :
  memcpy source dst src count m a
  = if (dst <=? a) && (a <? dst + count) then source (src + (a - dst))
    else m a.
Proof.
  unfold memcpy. rewrite (for_each_store (fun x => source (src + x))).
  destruct (Z.leb_spec (dst + 0) a);
    destruct (Z.ltb_spec a (dst + 0 + Z.of_nat (Z.to_nat count)));
    destruct (Z.leb_spec dst a);
    destruct (Z.ltb_spec a (dst + count));
    cbn [andb]; try lia; reflexivity.
Qed.

(** What one copied row holds at offset [x] from [dst]. *)
Definition row_cell (source : buffer) (src block_width : Z)
    (is_frame_left is_frame_right : bool) (x : Z) : Z :=
  if (x <? 0) && is_frame_left then kCdefLargeValue
  else if (block_width <=? x) && is_frame_right then kCdefLargeValue
  else source (src + x).

Lemma CopyRows_row_at same_size source src block_width unit_width
    is_frame_left is_frame_right dst m a :
  0 <= block_width <= unit_width ->
  CopyRows_row kCdefLargeValue kCdefBorder same_size source src
    block_width unit_width is_frame_left is_frame_right dst m a
  = if (dst - kCdefBorder <=? a) && (a <? dst + unit_width + kCdefBorder)
    then row_cell source src block_width is_frame_left is_frame_right
           (a - dst)
    else m a.
Proof.
  intros Hw. unfold CopyRows_row, row_cell.
  destruct same_size, is_frame_left, is_frame_right;
    rewrite ?Memset_at, ?memcpy_at, ?for_each_store;
    rewrite ?Memset_at, ?memcpy_at, ?for_each_store;
    rewrite ?Memset_at, ?memcpy_at, ?for_each_store;
    rewrite ?Z2Nat.id by lia;
    destruct (Z_lt_le_dec a (dst - kCdefBorder));
    destruct (Z_lt_le_dec a dst);
    destruct (Z_lt_le_dec a (dst + block_width));
    destruct (Z_lt_le_dec a (dst + unit_width + kCdefBorder));
    try lia;
    decide_ranges; cbn [andb]; try reflexivity; f_equal; lia.
Qed.

(** Cells of a grid with base [G], row pitch [pitch] and row width
    [W <= pitch]: a cell address determines its row. *)
Lemma grid_row_unique pitch W d X X' :
  0 <= X < W -> 0 <= X' < W -> W <= pitch ->
  d * pitch + X = X' -> d = 0.
Proof.
  intros HX HX' HW E.
  destruct (Z.lt_trichotomy d 0) as [Hn | [Hz | Hp]]; [| exact Hz |].
  - assert (d * pitch <= (-1) * pitch)
      by (apply Z.mul_le_mono_nonneg_r; lia).
    lia.
  - assert (1 * pitch <= d * pitch)
      by (apply Z.mul_le_mono_nonneg_r; lia).
    lia.
Qed.

Section Rows.
Variables (G pitch unit_width : Z).
Hypothesis pitch_wide : unit_width + 2 * kCdefBorder <= pitch.

Lemma grid_cell_row y0 Y X :
  0 <= X < unit_width + 2 * kCdefBorder ->
  (G + y0 * pitch <=? G + Y * pitch + X)
  && (G + Y * pitch + X <? G + y0 * pitch + (unit_width + 2 * kCdefBorder))
  = (Y =? y0).
Proof.
  intros HX.
  destruct (Z.eqb_spec Y y0) as [-> | Hne].
  - destruct (Z.leb_spec (G + y0 * pitch) (G + y0 * pitch + X));
      destruct (Z.ltb_spec (G + y0 * pitch + X)
                  (G + y0 * pitch + (unit_width + 2 * kCdefBorder)));
      cbn [andb]; try lia; reflexivity.
  - destruct (Z.leb_spec (G + y0 * pitch) (G + Y * pitch + X));
      destruct (Z.ltb_spec (G + Y * pitch + X)
                  (G + y0 * pitch + (unit_width + 2 * kCdefBorder)));
      cbn [andb]; try reflexivity.
    exfalso. apply Hne.
    assert (Y - y0 = 0); [| lia].
    apply (grid_row_unique pitch (unit_width + 2 * kCdefBorder)
             (Y - y0) X (G + Y * pitch + X - (G + y0 * pitch)));
      try lia.
Qed.

Lemma CopyRows_fill_grid n y0 dst m Y X :
  dst = G + y0 * pitch ->
  0 <= X < unit_width + 2 * kCdefBorder ->
  CopyRows_fill kCdefLargeValue kCdefBorder n unit_width dst pitch m
    (G + Y * pitch + X)
  = if (y0 <=? Y) && (Y <? y0 + Z.of_nat n) then kCdefLargeValue
    else m (G + Y * pitch + X).
Proof.
  revert y0 dst m. induction n as [| n IH]; intros y0 dst m Hd HX.
  - cbn [CopyRows_fill].
    destruct (Z.leb_spec y0 Y); destruct (Z.ltb_spec Y (y0 + Z.of_nat 0));
      cbn [andb]; try lia; reflexivity.
  - cbn [CopyRows_fill].
    rewrite (IH (y0 + 1)) by (subst dst; lia || ring).
    rewrite Memset_at. subst dst. rewrite grid_cell_row by assumption.
    destruct (Z.leb_spec (y0 + 1) Y);
      destruct (Z.ltb_spec Y (y0 + 1 + Z.of_nat n));
      destruct (Z.leb_spec y0 Y);
      destruct (Z.ltb_spec Y (y0 + Z.of_nat (S n)));
      destruct (Z.eqb_spec Y y0);
      cbn [andb]; try lia; reflexivity.
Qed.

Lemma CopyRows_copy_grid n same_size source src src_stride block_width
    is_frame_left is_frame_right y0 dst m Y X :
  0 <= block_width <= unit_width ->
  dst = G + y0 * pitch + kCdefBorder ->
  0 <= X < unit_width + 2 * kCdefBorder ->
  CopyRows_copy kCdefLargeValue kCdefBorder n same_size source src
    src_stride block_width unit_width is_frame_left is_frame_right
    dst pitch m (G + Y * pitch + X)
  = if (y0 <=? Y) && (Y <? y0 + Z.of_nat n)
    then row_cell source (src + (Y - y0) * src_stride) block_width
           is_frame_left is_frame_right (X - kCdefBorder)
    else m (G + Y * pitch + X).
Proof.
  intros Hw. revert y0 src dst m.
  induction n as [| n IH]; intros y0 src dst m Hd HX.
  - cbn [CopyRows_copy].
    destruct (Z.leb_spec y0 Y); destruct (Z.ltb_spec Y (y0 + Z.of_nat 0));
      cbn [andb]; try lia; reflexivity.
  - cbn [CopyRows_copy].
    rewrite (IH (y0 + 1)) by (subst dst; lia || ring).
    rewrite CopyRows_row_at by assumption. subst dst.
    replace (G + y0 * pitch + kCdefBorder - kCdefBorder)
      with (G + y0 * pitch) by lia.
    replace (G + y0 * pitch + kCdefBorder + unit_width + kCdefBorder)
      with (G + y0 * pitch + (unit_width + 2 * kCdefBorder)) by lia.
    rewrite grid_cell_row by assumption.
    destruct (Z.leb_spec (y0 + 1) Y);
      destruct (Z.ltb_spec Y (y0 + 1 + Z.of_nat n));
      destruct (Z.leb_spec y0 Y);
      destruct (Z.ltb_spec Y (y0 + Z.of_nat (S n)));
      destruct (Z.eqb_spec Y y0);
      cbn [andb]; try lia; try reflexivity.
    + f_equal. ring.
    + subst Y. f_equal; ring.
Qed.

(** Nothing is written outside the rows. *)
Lemma CopyRows_fill_frame n dst m a :
  a < dst \/ dst + Z.of_nat n * pitch <= a ->
  CopyRows_fill kCdefLargeValue kCdefBorder n unit_width dst pitch m a
  = m a.
Proof.
  revert dst m. induction n as [| n IH]; intros dst m Ha;
    [reflexivity |].
  cbn [CopyRows_fill]. rewrite IH by nia. rewrite Memset_at.
  destruct (Z.leb_spec dst a);
    destruct (Z.ltb_spec a (dst + (unit_width + 2 * kCdefBorder)));
    cbn [andb]; try reflexivity.
  nia.
Qed.

Lemma CopyRows_copy_frame n same_size source src src_stride block_width
    is_frame_left is_frame_right dst m a :
  0 <= block_width <= unit_width ->
  a < dst - kCdefBorder \/ dst - kCdefBorder + Z.of_nat n * pitch <= a ->
  CopyRows_copy kCdefLargeValue kCdefBorder n same_size source src
    src_stride block_width unit_width is_frame_left is_frame_right
    dst pitch m a
  = m a.
Proof.
  intros Hw. revert src dst m.
  induction n as [| n IH]; intros src dst m Ha; [reflexivity |].
  cbn [CopyRows_copy]. rewrite IH by nia.
  rewrite CopyRows_row_at by assumption.
  destruct (Z.leb_spec (dst - kCdefBorder) a);
    destruct (Z.ltb_spec a (dst + unit_width + kCdefBorder));
    cbn [andb]; try reflexivity.
  nia.
Qed.
End Rows.

End Facts.

(** The members of [PostFilter] read by [PrepareCdefBlock].  Addresses
    count [Pixel] elements of the frame buffer; [source_buffer_ plane] is
    where plane [plane] starts and [frame_buffer_stride plane] its stride
    in bytes. *)
Record PostFilter := mkPostFilter {
  planes_ : Z;
  width_ : Z;
  height_ : Z;
  subsampling_x_ : Z -> Z;
  subsampling_y_ : Z -> Z;
  frame_buffer_stride : Z -> Z;
  source_buffer_ : Z -> Z
}.

Section PrepareCdefBlock.
(** Constants of [src/utils/constants.h] and [src/post_filter.h] and the
    helpers [MultiplyBy4], [RightShiftWithRounding], [Align] of
    [src/utils/common.h], none of them among the sources: parameters. *)
Variables kCdefLargeValue kCdefBorder : Z.
Variable kRestorationProcessingUnitSizeWithBorders : Z.
Variable MultiplyBy4 : Z -> Z.
Variables RightShiftWithRounding Align : Z -> Z -> Z.

Variable pf : PostFilter.
(** The frame buffer and [sizeof(Pixel)]. *)
Variable frame : buffer.
Variable sizeof_Pixel : Z.

Section Plane.
Variables (block_width4x4 block_height4x4 row_64x64 column_64x64 : Z).
Variable plane : Z.

(** The locals of the loop body, by their names in the source. *)
Definition start_x : Z :=
  Z.shiftr (MultiplyBy4 column_64x64) (subsampling_x_ pf plane).
Definition start_y : Z :=
  Z.shiftr (MultiplyBy4 row_64x64) (subsampling_y_ pf plane).
Definition plane_width : Z :=
  RightShiftWithRounding (width_ pf) (subsampling_x_ pf plane).
Definition plane_height : Z :=
  RightShiftWithRounding (height_ pf) (subsampling_y_ pf plane).
Definition block_width : Z :=
  Z.shiftr (MultiplyBy4 block_width4x4) (subsampling_x_ pf plane).
Definition block_height : Z :=
  Z.shiftr (MultiplyBy4 block_height4x4) (subsampling_y_ pf plane).
Definition unit_width : Z :=
  Align block_width (if 0 <? subsampling_x_ pf plane then 4 else 8).
Definition unit_height : Z :=
  Align block_height (if 0 <? subsampling_y_ pf plane then 4 else 8).
Definition is_frame_left : bool := column_64x64 =? 0.
Definition is_frame_right : bool := plane_width <=? start_x + block_width.
Definition is_frame_top : bool := row_64x64 =? 0.
Definition is_frame_bottom : bool :=
  plane_height <=? start_y + block_height.
Definition src_stride : Z := Z.quot (frame_buffer_stride pf plane) sizeof_Pixel.
Definition src_buffer : Z :=
  source_buffer_ pf plane + start_y * src_stride + start_x.

(** Body of the plane loop of [PrepareCdefBlock<Pixel>]. *)
Definition PrepareCdefBlock_plane (cdef_source cdef_stride : Z)
    (m : buffer) : buffer :=
  let same_size := sizeof_Pixel =? 2 in
  let cdef_src :=
    cdef_source
    + plane * kRestorationProcessingUnitSizeWithBorders
      * kRestorationProcessingUnitSizeWithBorders in
  (* Copy to the top 2 rows. *)
  let m :=
    CopyRows kCdefLargeValue kCdefBorder same_size frame src_buffer
      src_stride block_width unit_width is_frame_top false
      is_frame_left is_frame_right true kCdefBorder cdef_src
      cdef_stride m in
  let cdef_src := cdef_src + (kCdefBorder * cdef_stride + kCdefBorder) in
  (* Copy the body. *)
  let m :=
    CopyRows kCdefLargeValue kCdefBorder same_size frame src_buffer
      src_stride block_width unit_width false false
      is_frame_left is_frame_right false block_height cdef_src
      cdef_stride m in
  let src_buffer' := src_buffer + block_height * src_stride in
  let cdef_src := cdef_src + block_height * cdef_stride in
  (* Copy to bottom rows. *)
  CopyRows kCdefLargeValue kCdefBorder same_size frame src_buffer'
    src_stride block_width unit_width false is_frame_bottom
    is_frame_left is_frame_right false
    (kCdefBorder + unit_height - block_height) cdef_src cdef_stride m.

(** What the working copy of this plane must hold at row [wy], column
    [wx] of the bordered window (both counted from its top-left
    corner): the sentinel on the padding beyond a frame edge, the
    frame's own pixel everywhere else. *)
Definition window_cell (wy wx : Z) : Z :=
  if ((wy <? kCdefBorder) && is_frame_top)
     || ((kCdefBorder + block_height <=? wy) && is_frame_bottom)
     || ((wx <? kCdefBorder) && is_frame_left)
     || ((kCdefBorder + block_width <=? wx) && is_frame_right)
  then kCdefLargeValue
  else frame (src_buffer + (wy - kCdefBorder) * src_stride
              + (wx - kCdefBorder)).
End Plane.

(** The plane loop, [remaining] planes to go. *)
Fixpoint PrepareCdefBlock_loop (remaining : nat) (plane : Z)
    (block_width4x4 block_height4x4 row_64x64 column_64x64 : Z)
    (cdef_source cdef_stride : Z) (m : buffer) : buffer :=
  match remaining with
  | O => m
  | S k =>
      PrepareCdefBlock_loop k (plane + 1) block_width4x4 block_height4x4
        row_64x64 column_64x64 cdef_source cdef_stride
        (PrepareCdefBlock_plane block_width4x4 block_height4x4 row_64x64
           column_64x64 plane cdef_source cdef_stride m)
  end.

(** [PostFilter::PrepareCdefBlock<Pixel>]: the working copy after the
    call. *)
Definition PrepareCdefBlock
    (block_width4x4 block_height4x4 row_64x64 column_64x64 : Z)
    (cdef_source cdef_stride : Z) (m : buffer) : buffer :=
  PrepareCdefBlock_loop (Z.to_nat (planes_ pf)) 0 block_width4x4
    block_height4x4 row_64x64 column_64x64 cdef_source cdef_stride m.
End PrepareCdefBlock.


Section PrepareCdefBlockFacts.
Variables kCdefLargeValue kCdefBorder : Z.
Variable kRestorationProcessingUnitSizeWithBorders : Z.
Variable MultiplyBy4 : Z -> Z.
Variables RightShiftWithRounding Align : Z -> Z -> Z.
Variable pf : PostFilter.
Variable frame : buffer.
Variable sizeof_Pixel : Z.
Variables (block_width4x4 block_height4x4 row_64x64 column_64x64 : Z).
Variables (cdef_source cdef_stride : Z).

Let K2 := kRestorationProcessingUnitSizeWithBorders
          * kRestorationProcessingUnitSizeWithBorders.
Let bw := block_width MultiplyBy4 pf block_width4x4.
Let bh := block_height MultiplyBy4 pf block_height4x4.
Let uw := unit_width MultiplyBy4 Align pf block_width4x4.
Let uh := unit_height MultiplyBy4 Align pf block_height4x4.

(** The geometry a plane's window needs: the aligned unit contains the
    block, a row of the bordered window fits in [cdef_stride], and the
    whole window fits in the plane's slot of the working copy. *)
Definition plane_fits (plane : Z) : Prop :=
  0 <= bw plane <= uw plane
  /\ 0 <= bh plane <= uh plane
  /\ uw plane + 2 * kCdefBorder <= cdef_stride
  /\ (uh plane + 2 * kCdefBorder) * cdef_stride <= K2.

Hypothesis border_nonneg : 0 <= kCdefBorder.

Let body := PrepareCdefBlock_plane kCdefLargeValue kCdefBorder
              kRestorationProcessingUnitSizeWithBorders MultiplyBy4
              RightShiftWithRounding Align pf frame sizeof_Pixel
              block_width4x4 block_height4x4 row_64x64 column_64x64.
Let cell := window_cell kCdefLargeValue kCdefBorder MultiplyBy4
              RightShiftWithRounding pf frame sizeof_Pixel
              block_width4x4 block_height4x4 row_64x64 column_64x64.


Lemma PrepareCdefBlock_plane_window plane m wy wx :
  plane_fits plane ->
  0 <= wy < uh plane + 2 * kCdefBorder ->
  0 <= wx < uw plane + 2 * kCdefBorder ->
  body plane cdef_source cdef_stride m
    (cdef_source + plane * K2 + wy * cdef_stride + wx)
  = cell plane wy wx.
Proof.
  intros (Hbw & Hbh & Hpitch & _) Hwy Hwx.
  unfold body, cell, PrepareCdefBlock_plane, window_cell, CopyRows.
  fold (bw plane) (bh plane) (uw plane) (uh plane).
  replace (plane * kRestorationProcessingUnitSizeWithBorders
           * kRestorationProcessingUnitSizeWithBorders)
    with (plane * K2) by (unfold K2; ring).
  set (G := cdef_source + plane * K2).
  set (top := is_frame_top row_64x64).
  set (bottom := is_frame_bottom _ _ _ _ _ _).
  set (left := is_frame_left column_64x64).
  set (right := is_frame_right _ _ _ _ _ _).
  set (ss := src_stride pf sizeof_Pixel plane).
  set (sb := src_buffer MultiplyBy4 pf sizeof_Pixel row_64x64 column_64x64
               plane).
  cbn [orb].
  assert (Hg := CopyRows_fill_grid kCdefLargeValue kCdefBorder G
                  cdef_stride (uw plane) Hpitch).
  assert (Hc := fun n same source src bwid l r y0 dst m' Y X =>
                  CopyRows_copy_grid kCdefLargeValue kCdefBorder
                    border_nonneg G cdef_stride (uw plane) Hpitch n same
                    source src ss bwid l r y0 dst m' Y X).
  destruct bottom, top; cbn [orb];
    repeat first
      [ rewrite (Hg _ (kCdefBorder + bh plane)) by (assumption || ring)
      | rewrite (Hg _ 0) by (assumption || ring)
      | rewrite (Hc _ _ _ _ _ _ _ (kCdefBorder + bh plane))
          by (assumption || ring)
      | rewrite (Hc _ _ _ _ _ _ _ kCdefBorder) by (assumption || ring)
      | rewrite (Hc _ _ _ _ _ _ _ 0) by (assumption || ring) ];
    rewrite ?Z2Nat.id by lia;
    unfold row_cell;
    destruct (Z_lt_le_dec wy kCdefBorder);
    destruct (Z_lt_le_dec wy (kCdefBorder + bh plane));
    destruct (Z_lt_le_dec wx kCdefBorder);
    destruct (Z_lt_le_dec wx (kCdefBorder + bw plane));
    try lia;
    decide_ranges; cbn [andb orb];
    destruct left, right; cbn [andb orb]; try reflexivity;
    f_equal; ring.
Qed.

Lemma plane_products plane :
  plane_fits plane ->
  0 <= cdef_stride
  /\ 0 <= kCdefBorder * cdef_stride
  /\ 0 <= bh plane * cdef_stride <= uh plane * cdef_stride
  /\ 0 <= K2.
Proof.
  intros (Hbw & Hbh & Hpitch & _).
  assert (0 <= cdef_stride) by lia.
  repeat split.
  - assumption.
  - apply Z.mul_nonneg_nonneg; lia.
  - apply Z.mul_nonneg_nonneg; lia.
  - apply Z.mul_le_mono_nonneg_r; lia.
  - apply Z.square_nonneg.
Qed.

(** A plane's body writes inside its own window only. *)
Lemma PrepareCdefBlock_plane_frame plane m a :
  plane_fits plane ->
  a < cdef_source + plane * K2
  \/ cdef_source + plane * K2
     + (uh plane + 2 * kCdefBorder) * cdef_stride <= a ->
  body plane cdef_source cdef_stride m a = m a.
Proof.
  intros Hfit Ha.
  destruct (plane_products plane Hfit) as (Hs & HB & Hh & _).
  destruct Hfit as (Hbw & Hbh & Hpitch & _).
  unfold body, PrepareCdefBlock_plane, CopyRows.
  fold (bw plane) (bh plane) (uw plane) (uh plane).
  replace (plane * kRestorationProcessingUnitSizeWithBorders
           * kRestorationProcessingUnitSizeWithBorders)
    with (plane * K2) by (unfold K2; ring).
  set (G := cdef_source + plane * K2) in *.
  destruct (is_frame_bottom _ _ _ _ _ _), (is_frame_top row_64x64);
    cbn [orb];
    repeat first
      [ rewrite CopyRows_fill_frame
          by (assumption || (rewrite ?Z2Nat.id by lia; lia))
      | rewrite CopyRows_copy_frame
          by (assumption || (rewrite ?Z2Nat.id by lia; lia)) ];
    reflexivity.
Qed.

Let loop := PrepareCdefBlock_loop kCdefLargeValue kCdefBorder
              kRestorationProcessingUnitSizeWithBorders MultiplyBy4
              RightShiftWithRounding Align pf frame sizeof_Pixel.

Lemma PrepareCdefBlock_loop_frame n plane0 m a :
  (forall q, plane0 <= q < plane0 + Z.of_nat n -> plane_fits q) ->
  a < cdef_source + plane0 * K2 ->
  loop n plane0 block_width4x4 block_height4x4 row_64x64 column_64x64
    cdef_source cdef_stride m a
  = m a.
Proof.
  revert plane0 m. induction n as [| n IH]; intros plane0 m Hfit Ha;
    [reflexivity |].
  cbn [loop PrepareCdefBlock_loop].
  destruct (plane_products plane0 (Hfit plane0 ltac:(lia)))
    as (_ & _ & _ & HK).
  unfold loop in IH. rewrite IH.
  - apply PrepareCdefBlock_plane_frame; [apply Hfit; lia | now left].
  - intros q Hq. apply Hfit. lia.
  - lia.
Qed.

Lemma PrepareCdefBlock_loop_window n plane0 m plane wy wx :
  (forall q, plane0 <= q < plane0 + Z.of_nat n -> plane_fits q) ->
  plane0 <= plane < plane0 + Z.of_nat n ->
  0 <= wy < uh plane + 2 * kCdefBorder ->
  0 <= wx < uw plane + 2 * kCdefBorder ->
  loop n plane0 block_width4x4 block_height4x4 row_64x64 column_64x64
    cdef_source cdef_stride m
    (cdef_source + plane * K2 + wy * cdef_stride + wx)
  = cell plane wy wx.
Proof.
  revert plane0 m. induction n as [| n IH]; intros plane0 m Hfit Hp Hwy Hwx;
    [lia |].
  cbn [loop PrepareCdefBlock_loop].
  destruct (Z.eq_dec plane plane0) as [-> | Hne].
  - pose proof (Hfit plane0 ltac:(lia)) as Hf.
    rewrite PrepareCdefBlock_loop_frame.
    + now apply PrepareCdefBlock_plane_window.
    + intros q Hq. apply Hfit. lia.
    + destruct (plane_products plane0 Hf) as (Hs & _ & _ & _).
      destruct Hf as (_ & _ & Hpitch & Hslot).
      assert (wy * cdef_stride
              <= (uh plane0 + 2 * kCdefBorder - 1) * cdef_stride)
        by (apply Z.mul_le_mono_nonneg_r; lia).
      lia.
  - unfold loop in IH. apply IH; try assumption; [| lia].
    intros q Hq. apply Hfit. lia.
Qed.

(** C6. In the bordered working copy that [PrepareCdefBlock] builds for
    plane [plane], at row [wy] and column [wx] of the window: every
    padding cell beyond a true frame edge holds [kCdefLargeValue] exactly,
    whatever the frame buffer contains: the top border rows of a unit of
    the first row of units ([row_64x64 == 0]), the left border columns of
    a unit of the first column ([column_64x64 == 0]), the rows below the
    block when the block ends at or after the last row of the plane, the
    columns right of the block when it ends at or after the last column.
    Every other cell, interior borders included, holds the frame's own
    pixel at the matching position of the plane. *)
Theorem PrepareCdefBlock_frame_edge_sentinel (m : buffer) (plane wy wx : Z) :
  let subsampling_x := subsampling_x_ pf plane in
  let subsampling_y := subsampling_y_ pf plane in
  let first_column := Z.shiftr (MultiplyBy4 column_64x64) subsampling_x in
  let first_row := Z.shiftr (MultiplyBy4 row_64x64) subsampling_y in
  let columns := Z.shiftr (MultiplyBy4 block_width4x4) subsampling_x in
  let rows := Z.shiftr (MultiplyBy4 block_height4x4) subsampling_y in
  let aligned_columns :=
    Align columns (if 0 <? subsampling_x then 4 else 8) in
  let aligned_rows := Align rows (if 0 <? subsampling_y then 4 else 8) in
  let columns_of_plane := RightShiftWithRounding (width_ pf) subsampling_x in
  let rows_of_plane := RightShiftWithRounding (height_ pf) subsampling_y in
  let stride := Z.quot (frame_buffer_stride pf plane) sizeof_Pixel in
  (forall q, 0 <= q < planes_ pf -> plane_fits q) ->
  0 <= plane < planes_ pf ->
  0 <= wy < aligned_rows + 2 * kCdefBorder ->
  0 <= wx < aligned_columns + 2 * kCdefBorder ->
  let copy :=
    PrepareCdefBlock kCdefLargeValue kCdefBorder
      kRestorationProcessingUnitSizeWithBorders MultiplyBy4
      RightShiftWithRounding Align pf frame sizeof_Pixel
      block_width4x4 block_height4x4 row_64x64 column_64x64
      cdef_source cdef_stride m in
  let above_frame := (wy <? kCdefBorder) && (row_64x64 =? 0) in
  let below_frame :=
    (kCdefBorder + rows <=? wy) && (rows_of_plane <=? first_row + rows) in
  let left_of_frame := (wx <? kCdefBorder) && (column_64x64 =? 0) in
  let right_of_frame :=
    (kCdefBorder + columns <=? wx)
    && (columns_of_plane <=? first_column + columns) in
  copy (cdef_source
        + plane * (kRestorationProcessingUnitSizeWithBorders
                   * kRestorationProcessingUnitSizeWithBorders)
        + wy * cdef_stride + wx)
  = if above_frame || below_frame || left_of_frame || right_of_frame
    then kCdefLargeValue
    else frame (source_buffer_ pf plane + first_row * stride + first_column
                + (wy - kCdefBorder) * stride + (wx - kCdefBorder)).
Proof.
  cbv zeta. intros Hfit Hp Hwy Hwx. unfold PrepareCdefBlock.
  assert (Hfit' : forall q,
             0 <= q < 0 + Z.of_nat (Z.to_nat (planes_ pf)) -> plane_fits q)
    by (intros q Hq; apply Hfit; lia).
  assert (Hp' : 0 <= plane < 0 + Z.of_nat (Z.to_nat (planes_ pf))) by lia.
  exact (PrepareCdefBlock_loop_window (Z.to_nat (planes_ pf)) 0 m plane wy wx
           Hfit' Hp' Hwy Hwx).
Qed.

Lemma PrepareCdefBlock_loop_above n plane0 m a :
  (forall q, plane0 <= q < plane0 + Z.of_nat n -> plane_fits q) ->
  cdef_source + (plane0 + Z.of_nat n) * K2 <= a ->
  loop n plane0 block_width4x4 block_height4x4 row_64x64 column_64x64
    cdef_source cdef_stride m a
  = m a.
Proof.
  revert plane0 m. induction n as [| n IH]; intros plane0 m Hfit Ha;
    [reflexivity |].
  cbn [loop PrepareCdefBlock_loop].
  pose proof (Hfit plane0 ltac:(lia)) as Hf.
  destruct (plane_products plane0 Hf) as (_ & _ & _ & HK).
  unfold loop in IH. rewrite IH.
  - apply PrepareCdefBlock_plane_frame; [exact Hf |]. right.
    destruct Hf as (_ & _ & _ & Hslot).
    assert (0 <= Z.of_nat n * K2) by (apply Z.mul_nonneg_nonneg; lia).
    lia.
  - intros q Hq. apply Hfit. lia.
  - lia.
Qed.

(** X2. [PrepareCdefBlock] stays inside the working copy: it writes no
    element before [cdef_source] and none at or after
    [cdef_source + planes_ * kRestorationProcessingUnitSizeWithBorders^2],
    the end of the last plane's slot of [cdef_block]. *)
Theorem PrepareCdefBlock_stays_in_block (m : buffer) (a : Z) :
  (forall q, 0 <= q < planes_ pf -> plane_fits q) ->
  0 <= planes_ pf ->
  a < cdef_source \/ cdef_source + planes_ pf * K2 <= a ->
  PrepareCdefBlock kCdefLargeValue kCdefBorder
    kRestorationProcessingUnitSizeWithBorders MultiplyBy4
    RightShiftWithRounding Align pf frame sizeof_Pixel
    block_width4x4 block_height4x4 row_64x64 column_64x64
    cdef_source cdef_stride m a
  = m a.
Proof.
  intros Hfit Hplanes Ha. unfold PrepareCdefBlock. fold loop.
  destruct Ha as [Ha | Ha].
  - apply PrepareCdefBlock_loop_frame; [| lia].
    intros q Hq. apply Hfit. lia.
  - apply PrepareCdefBlock_loop_above.
    + intros q Hq. apply Hfit. lia.
    + rewrite Z2Nat.id by lia. lia.
Qed.
End PrepareCdefBlockFacts.

(** *** A concrete unit on the right edge of a 100x60 4:2:0 frame *)

(** The helpers as [src/utils/common.h] writes them, for running the model. *)
Definition MultiplyBy4_impl (x : Z) : Z := Z.shiftl x 2.
Definition RightShiftWithRounding_impl (value bits : Z) : Z :=
  Z.shiftr (value + Z.shiftr (Z.shiftl 1 bits) 1) bits.
Definition Align_impl (value alignment : Z) : Z :=
  Z.land (value + alignment - 1) (Z.lnot (alignment - 1)).

Definition example_filter : PostFilter :=
  mkPostFilter 3 100 60
    (fun plane => if plane =? 0 then 0 else 1)
    (fun plane => if plane =? 0 then 0 else 1)
    (fun plane => if plane =? 0 then 256 else 128)
    (fun plane => 1000 + plane * 100000).

(** Frame contents: every pixel below 251, so none equals the sentinel. *)
Definition example_frame : buffer := fun a => a mod 251.

(** The 64x64 unit at row4x4 0, column4x4 16 of that frame: 10 columns4x4
    and 16 rows4x4 remain, so it touches the top, right and bottom edges
    but not the left one. *)
Definition example_copy : buffer :=
  PrepareCdefBlock 16384 2 72 MultiplyBy4_impl RightShiftWithRounding_impl
    Align_impl example_filter example_frame 1 10 16 0 16 0 68 (fun _ => 0).

Lemma example_fits q :
  0 <= q < planes_ example_filter ->
  plane_fits 2 72 MultiplyBy4_impl Align_impl example_filter 10 16 68 q.
Proof.
  cbn [planes_ example_filter]. intros Hq.
  assert (C : q = 0 \/ q = 1 \/ q = 2) by lia.
  destruct C as [-> | [-> | ->]];
    repeat split; apply Z.leb_le; vm_compute; reflexivity.
Qed.

(** The 64x64 unit at row4x4 0, column4x4 0 of the same frame: it touches
    the top and left edges, and its right border is inside the frame. *)
Definition example_copy_left : buffer :=
  PrepareCdefBlock 16384 2 72 MultiplyBy4_impl RightShiftWithRounding_impl
    Align_impl example_filter example_frame 1 16 16 0 0 0 68 (fun _ => 0).

Lemma example_left_fits q :
  0 <= q < planes_ example_filter ->
  plane_fits 2 72 MultiplyBy4_impl Align_impl example_filter 16 16 68 q.
Proof.
  cbn [planes_ example_filter]. intros Hq.
  assert (C : q = 0 \/ q = 1 \/ q = 2) by lia.
  destruct C as [-> | [-> | ->]];
    repeat split; apply Z.leb_le; vm_compute; reflexivity.
Qed.

Lemma PrepareCdefBlock_frame_edge_sentinel_witness :
  (* top-left corner of the luma window: above the frame *)
  example_copy 0 = 16384
  (* luma, window row 10, right of the 40-pixel block: beyond the frame *)
  /\ example_copy (10 * 68 + 42) = 16384
  (* luma, window row 10, left border: the neighbouring unit's pixel *)
  /\ example_copy (10 * 68 + 1) = example_frame (1000 + 8 * 256 + 64 - 1)
  (* chroma U, window row 33 of 36: below the frame *)
  /\ example_copy (72 * 72 + 34 * 68 + 5) = 16384
  (* first column of units, luma, window row 10, left border: left of the
     frame *)
  /\ example_copy_left (10 * 68 + 1) = 16384
  (* the same row, right border: the neighbouring unit's pixel *)
  /\ example_copy_left (10 * 68 + 66) = example_frame (1000 + 8 * 256 + 64)
  (* chroma V, window row 20, left border: left of the frame *)
  /\ example_copy_left (2 * (72 * 72) + 20 * 68 + 0) = 16384.
Proof.
  pose proof (PrepareCdefBlock_frame_edge_sentinel 16384 2 72
                MultiplyBy4_impl RightShiftWithRounding_impl Align_impl
                example_filter example_frame 1 10 16 0 16 0 68
                ltac:(lia) (fun _ => 0)) as H.
  pose proof (PrepareCdefBlock_frame_edge_sentinel 16384 2 72
                MultiplyBy4_impl RightShiftWithRounding_impl Align_impl
                example_filter example_frame 1 16 16 0 0 0 68
                ltac:(lia) (fun _ => 0)) as L.
  split; [| split; [| split; [| split; [| split; [| split]]]]].
  - exact (H 0 0 0 example_fits ltac:(vm_compute; intuition congruence)
             ltac:(vm_compute; intuition congruence)
             ltac:(vm_compute; intuition congruence)).
  - exact (H 0 10 42 example_fits ltac:(vm_compute; intuition congruence)
             ltac:(vm_compute; intuition congruence)
             ltac:(vm_compute; intuition congruence)).
  - exact (H 0 10 1 example_fits ltac:(vm_compute; intuition congruence)
             ltac:(vm_compute; intuition congruence)
             ltac:(vm_compute; intuition congruence)).
  - exact (H 1 34 5 example_fits ltac:(vm_compute; intuition congruence)
             ltac:(vm_compute; intuition congruence)
             ltac:(vm_compute; intuition congruence)).
  - exact (L 0 10 1 example_left_fits ltac:(vm_compute; intuition congruence)
             ltac:(vm_compute; intuition congruence)
             ltac:(vm_compute; intuition congruence)).
  - exact (L 0 10 66 example_left_fits ltac:(vm_compute; intuition congruence)
             ltac:(vm_compute; intuition congruence)
             ltac:(vm_compute; intuition congruence)).
  - exact (L 2 20 0 example_left_fits ltac:(vm_compute; intuition congruence)
             ltac:(vm_compute; intuition congruence)
             ltac:(vm_compute; intuition congruence)).
Defined.

Lemma PrepareCdefBlock_stays_in_block_witness :
  example_copy (-1) = 0 /\ example_copy (3 * (72 * 72)) = 0.
Proof.
  pose proof (PrepareCdefBlock_stays_in_block 16384 2 72
                MultiplyBy4_impl RightShiftWithRounding_impl Align_impl
                example_filter example_frame 1 10 16 0 16 0 68
                ltac:(lia) (fun _ => 0)) as H.
  split.
  - exact (H (-1) example_fits ltac:(vm_compute; congruence)
             ltac:(left; lia)).
  - exact (H (3 * (72 * 72)) example_fits ltac:(vm_compute; congruence)
             ltac:(right; vm_compute; congruence)).
Defined.

End Cdef.

(** ** Border extension and plane copies ([src/post_filter.cc]) *)

Module Border.
Import Cdef.

(** [ExtendLine<Pixel>(line_start, width, left, right)]; addresses count
    [Pixel] elements.  [src[0]] and [src[width - 1]] are read when their
    [Memset] is called. *)
Definition ExtendLine (line_start width left right : Z) (m : buffer)
  : buffer :=
  let start := line_start in
  let src := start in
  let dst := start - left in
  let m := Memset dst (m src) left m in
  Memset (dst + (left + width)) (m (src + (width - 1))) right m.

(** First loop of [ExtendFrame]: "Copy to left and right borders".
    Returns [src] after the loop with the buffer. *)
Fixpoint ExtendFrame_sides (rows : nat) (src dst stride width left right : Z)
    (m : buffer) : Z * buffer :=
  match rows with
  | O => (src, m)
  | S k =>
      let m := Memset dst (m src) left m in
      let m := Memset (dst + (left + width)) (m (src + (width - 1))) right m in
      ExtendFrame_sides k (src + stride) (dst + stride) stride width left
        right m
  end.

(** The second and third loops of [ExtendFrame]: [rows] times
    [memcpy(dst, src, sizeof(Pixel) * stride); dst += stride]. *)
Fixpoint ExtendFrame_copy (rows : nat) (dst src stride : Z) (m : buffer)
  : buffer :=
  match rows with
  | O => m
  | S k => ExtendFrame_copy k (dst + stride) src stride
             (memcpy m dst src stride m)
  end.

(** [ExtendFrame<Pixel>]; [stride] is in bytes on entry. *)
Definition ExtendFrame (sizeof_Pixel : Z)
    (frame_start width height stride left right top bottom : Z)
    (m : buffer) : buffer :=
  let start := frame_start in
  let stride := Z.quot stride sizeof_Pixel in
  let '(src, m) :=
    ExtendFrame_sides (Z.to_nat height) start (start - left) stride width
      left right m in
  (* Copy to bottom borders. *)
  let dst := src + width + right - stride in
  let src := dst - stride in
  let m := ExtendFrame_copy (Z.to_nat bottom) dst src stride m in
  (* Copy to top borders. *)
  let src := start - left in
  let dst := start - left - top * stride in
  ExtendFrame_copy (Z.to_nat top) dst src stride m.

(** [CopyPlane<Pixel>]: the strides are in bytes on entry. *)
Fixpoint CopyPlane_rows (rows : nat) (src source_stride width dst
    dest_stride : Z) (m : buffer) : buffer :=
  match rows with
  | O => m
  | S k =>
      CopyPlane_rows k (src + source_stride) source_stride width
        (dst + dest_stride) dest_stride (memcpy m dst src width m)
  end.

Definition CopyPlane (sizeof_Pixel : Z)
    (source source_stride width height dest dest_stride : Z) (m : buffer)
  : buffer :=
  let dst := dest in
  let src := source in
  let source_stride := Z.quot source_stride sizeof_Pixel in
  let dest_stride := Z.quot dest_stride sizeof_Pixel in
  CopyPlane_rows (Z.to_nat height) src source_stride width dst dest_stride m.

(** The column of the frame whose pixel a cell at column [x] of the
    extended row repeats, and likewise for rows. *)
Definition nearest (size x : Z) : Z := Z.max 0 (Z.min (size - 1) x).

Section Facts.

Lemma nearest_inside size v : 0 <= v < size -> nearest size v = v.
Proof. unfold nearest. lia. Qed.

Lemma nearest_before size v : 0 < size -> v <= 0 -> nearest size v = 0.
Proof. unfold nearest. lia. Qed.

Lemma nearest_after size v :
  0 < size -> size - 1 <= v -> nearest size v = size - 1.
Proof. unfold nearest. lia. Qed.

Lemma ExtendLine_at line_start width left right m x :
  0 < width -> 0 <= left -> 0 <= right ->
  - left <= x < width + right ->
  ExtendLine line_start width left right m (line_start + x)
  = m (line_start + nearest width x).
Proof.
  intros Hw Hl Hr Hx. unfold ExtendLine, nearest.
  rewrite !Memset_at.
  destruct (Z_lt_le_dec x 0); [| destruct (Z_lt_le_dec x width)];
    decide_ranges; cbn [andb]; try (f_equal; lia).
Qed.

Lemma ExtendLine_outside line_start width left right m a :
  0 <= width -> 0 <= left -> 0 <= right ->
  a < line_start - left \/ line_start + width + right <= a ->
  ExtendLine line_start width left right m a = m a.
Proof.
  intros Hw Hl Hr Ha. unfold ExtendLine. rewrite !Memset_at.
  destruct Ha; decide_ranges; cbn [andb]; rewrite ?andb_false_r; reflexivity.
Qed.

Section Frame.
Variables (stride width left right : Z).
Hypothesis width_positive : 0 < width.
Hypothesis left_nonneg : 0 <= left.
Hypothesis right_nonneg : 0 <= right.
Hypothesis row_fits : left + width + right <= stride.

Lemma ExtendFrame_sides_src rows src dst m :
  fst (ExtendFrame_sides rows src dst stride width left right m)
  = src + Z.of_nat rows * stride.
Proof.
  revert src dst m. induction rows as [| k IH]; intros src dst m.
  - cbn. lia.
  - cbn [ExtendFrame_sides]. rewrite IH. lia.
Qed.

Lemma ExtendFrame_sides_step k start m :
  ExtendFrame_sides (S k) start (start - left) stride width left right m
  = ExtendFrame_sides k (start + stride) (start + stride - left) stride
      width left right (ExtendLine start width left right m).
Proof.
  cbn [ExtendFrame_sides]. unfold ExtendLine. f_equal. ring.
Qed.

(** The first loop writes inside the extended rows only. *)
Lemma ExtendFrame_sides_outside rows start m a :
  (forall y, 0 <= y < Z.of_nat rows ->
     a < start + y * stride - left
     \/ start + y * stride + width + right <= a) ->
  snd (ExtendFrame_sides rows start (start - left) stride width left right m)
    a
  = m a.
Proof.
  revert start m. induction rows as [| k IH]; intros start m Ha;
    [reflexivity |].
  rewrite ExtendFrame_sides_step, IH.
  - apply ExtendLine_outside; try lia.
    specialize (Ha 0 ltac:(lia)). lia.
  - intros y Hy. specialize (Ha (y + 1) ltac:(lia)). lia.
Qed.

Lemma ExtendFrame_sides_at rows start m y x :
  0 <= y < Z.of_nat rows -> - left <= x < width + right ->
  snd (ExtendFrame_sides rows start (start - left) stride width left right m)
    (start + y * stride + x)
  = m (start + y * stride + nearest width x).
Proof.
  revert start m y. induction rows as [| k IH]; intros start m y Hy Hx;
    [lia |].
  rewrite ExtendFrame_sides_step.
  destruct (Z.eq_dec y 0) as [-> | Hne].
  - rewrite ExtendFrame_sides_outside.
    + rewrite Z.mul_0_l, !Z.add_0_r. now apply ExtendLine_at.
    + intros y Hy'. left. assert (0 <= y * stride) by nia. lia.
  - replace (start + y * stride + x)
      with (start + stride + (y - 1) * stride + x) by ring.
    rewrite IH by lia.
    rewrite ExtendLine_outside; try lia.
    + f_equal. ring.
    + right. unfold nearest. assert (0 <= (y - 1) * stride) by nia. lia.
Qed.

End Frame.

Section Copy.
Variable stride : Z.
Hypothesis stride_nonneg : 0 <= stride.

(** [rows] copies of the [stride] elements at [src] to consecutive rows
    from [dst] on, the source lying outside the rows written. *)
Lemma ExtendFrame_copy_outside rows dst src m a :
  a < dst \/ dst + Z.of_nat rows * stride <= a ->
  ExtendFrame_copy rows dst src stride m a = m a.
Proof.
  revert dst m. induction rows as [| k IH]; intros dst m Ha; [reflexivity |].
  cbn [ExtendFrame_copy].
  assert (0 <= Z.of_nat k * stride) by nia.
  rewrite IH by lia.
  rewrite memcpy_at. destruct Ha; decide_ranges; cbn [andb];
    rewrite ?andb_false_r; reflexivity.
Qed.

Lemma ExtendFrame_copy_at rows dst src m j i :
  src + stride <= dst \/ dst + Z.of_nat rows * stride <= src ->
  0 <= j < Z.of_nat rows -> 0 <= i < stride ->
  ExtendFrame_copy rows dst src stride m (dst + j * stride + i)
  = m (src + i).
Proof.
  revert dst m j. induction rows as [| k IH]; intros dst m j Hd Hj Hi;
    [lia |].
  cbn [ExtendFrame_copy].
  assert (0 <= Z.of_nat k * stride) by nia.
  destruct (Z.eq_dec j 0) as [-> | Hne].
  - rewrite ExtendFrame_copy_outside by lia.
    rewrite memcpy_at. decide_ranges. cbn [andb]. f_equal. lia.
  - replace (dst + j * stride + i)
      with (dst + stride + (j - 1) * stride + i) by ring.
    rewrite IH by lia.
    rewrite memcpy_at.
    destruct Hd; decide_ranges; cbn [andb]; rewrite ?andb_false_r;
      reflexivity.
Qed.

End Copy.

(** X4. [ExtendFrame] replicates the frame into its borders: afterwards
    every cell of the extended area, [top] rows above to [bottom] rows
    below the frame and [left] columns before to [right] columns after
    it, holds the value the nearest frame pixel had before the call
    (the pixel itself inside the frame, the row's first or last pixel
    beside it, the first or last row's above and below, the corner pixel
    in the corners).  A row of the frame with its two borders must fit in
    the stride. *)
Theorem ExtendFrame_replicates (sizeof_Pixel : Z)
    (frame_start width height stride left right top bottom : Z)
    (m : buffer) (y x : Z) :
  0 < width -> 0 < height ->
  0 <= left -> 0 <= right -> 0 <= top -> 0 <= bottom ->
  left + width + right <= Z.quot stride sizeof_Pixel ->
  - top <= y < height + bottom -> - left <= x < width + right ->
  ExtendFrame sizeof_Pixel frame_start width height stride left right top
    bottom m
    (frame_start + y * Z.quot stride sizeof_Pixel + x)
  = m (frame_start + nearest height y * Z.quot stride sizeof_Pixel
       + nearest width x).
Proof.
  intros Hw Hh Hl Hr Ht Hb Hfit Hy Hx. unfold ExtendFrame.
  set (s := Z.quot stride sizeof_Pixel) in *.
  assert (Hs : 0 < s) by lia.
  destruct (ExtendFrame_sides _ _ _ _ _ _ _ _) as [src m1] eqn:E.
  assert (Esrc : src = frame_start + height * s).
  { change src with (fst (src, m1)). rewrite <- E, ExtendFrame_sides_src.
    rewrite Z2Nat.id by lia. reflexivity. }
  assert (Em1 : m1 = snd (ExtendFrame_sides (Z.to_nat height) frame_start
                            (frame_start - left) s width left right m))
    by now rewrite E.
  clear E. subst src.
  assert (Hrow : forall y' x', 0 <= y' < height ->
                   - left <= x' < width + right ->
                   m1 (frame_start + y' * s + x')
                   = m (frame_start + y' * s + nearest width x')).
  { intros y' x' Hy' Hx'. rewrite Em1.
    apply ExtendFrame_sides_at; try assumption. lia. }
  clear Em1.
  set (dstB := frame_start + height * s + width + right - s).
  set (m2 := ExtendFrame_copy (Z.to_nat bottom) dstB (dstB - s) s m1).
  assert (Hh1 : s <= height * s) by nia.
  assert (Htop : 0 <= top * s) by nia.
  assert (Hrow2 : forall y' x', 0 <= y' < height + bottom ->
                    - left <= x' < width + right ->
                    m2 (frame_start + y' * s + x')
                    = m (frame_start + nearest height y' * s
                         + nearest width x')).
  { intros y' x' Hy' Hx'.
    destruct (Z_lt_le_dec y' height) as [Hin | Hbelow].
    - unfold m2. rewrite (ExtendFrame_copy_outside s (Z.lt_le_incl _ _ Hs)).
      + rewrite Hrow by lia. rewrite (nearest_inside height) by lia.
        reflexivity.
      + left. unfold dstB.
        assert (y' * s <= (height - 1) * s) by nia. lia.
    - replace (frame_start + y' * s + x')
        with (dstB + (y' - height) * s + (x' - (width + right - s)))
        by (unfold dstB; ring).
      unfold m2. rewrite (ExtendFrame_copy_at s (Z.lt_le_incl _ _ Hs)); try lia.
      replace (dstB - s + (x' - (width + right - s)))
        with (frame_start + (height - 1) * s + x') by (unfold dstB; ring).
      rewrite Hrow by lia. rewrite (nearest_after height) by lia.
      reflexivity. }
  fold m2.
  destruct (Z_lt_le_dec y 0) as [Habove | Hin].
  - replace (frame_start + y * s + x)
      with (frame_start - left - top * s + (y + top) * s + (x + left))
      by ring.
    rewrite (ExtendFrame_copy_at s (Z.lt_le_incl _ _ Hs)); try lia.
    replace (frame_start - left + (x + left))
      with (frame_start + 0 * s + x) by ring.
    rewrite Hrow2 by lia.
    rewrite (nearest_inside height 0), (nearest_before height y) by lia.
    reflexivity.
  - rewrite (ExtendFrame_copy_outside s (Z.lt_le_incl _ _ Hs)).
    + apply Hrow2; lia.
    + right. rewrite Z2Nat.id by lia.
      assert (0 <= y * s) by nia. lia.
Qed.

Lemma ExtendFrame_replicates_witness :
  (* the frame of the comment above [ExtendFrame]: 8x4, borders of 3 *)
  let extended := ExtendFrame 1 100 8 4 16 3 3 3 3 (fun a => a) in
  extended (100 + -3 * 16 + -3) = 100
  /\ extended (100 + 2 * 16 + 10) = 100 + 2 * 16 + 7
  /\ extended (100 + 6 * 16 + 5) = 100 + 3 * 16 + 5.
Proof.
  pose proof (fun y x => ExtendFrame_replicates 1 100 8 4 16 3 3 3 3
                (fun a => a) y x ltac:(lia) ltac:(lia) ltac:(lia) ltac:(lia)
                ltac:(lia) ltac:(lia) ltac:(vm_compute; congruence)) as H.
  split; [| split].
  - exact (H (-3) (-3) ltac:(lia) ltac:(lia)).
  - exact (H 2 10 ltac:(lia) ltac:(lia)).
  - exact (H 6 5 ltac:(lia) ltac:(lia)).
Defined.

(** X5. [ExtendLine] repeats the first pixel of a line over the [left]
    elements before it and the last pixel over the [right] elements after
    it; the line itself and everything outside the two borders keep
    their values. *)
Theorem ExtendLine_replicates (line_start width left right : Z) (m : buffer)
    (a : Z) :
  0 < width -> 0 <= left -> 0 <= right ->
  ExtendLine line_start width left right m a
  = if (line_start - left <=? a) && (a <? line_start + width + right)
    then m (line_start + nearest width (a - line_start))
    else m a.
Proof.
  intros Hw Hl Hr.
  destruct (Z.leb_spec (line_start - left) a);
    destruct (Z.ltb_spec a (line_start + width + right)); cbn [andb].
  - replace a with (line_start + (a - line_start)) at 1 by ring.
    apply ExtendLine_at; lia.
  - apply ExtendLine_outside; lia.
  - apply ExtendLine_outside; lia.
  - apply ExtendLine_outside; lia.
Qed.

Lemma ExtendLine_replicates_witness :
  map (ExtendLine 10 4 2 3 (fun a => 7 * a)) [7; 8; 9; 10; 13; 14; 16; 17]
  = [49; 70; 70; 70; 91; 91; 91; 119].
Proof.
  pose proof (ExtendLine_replicates 10 4 2 3 (fun a => 7 * a)) as H.
  cbn [map].
  rewrite !H by lia. reflexivity.
Defined.

Section Plane.
Variables (source_stride dest_stride width : Z).
Hypothesis width_fits : 0 <= width <= dest_stride.

(** No element of the [rows] source rows from [src] on lies in one of the
    [rows] destination rows from [dst] on. *)
Definition apart (rows : Z) (src dst : Z) : Prop :=
  forall y x j, 0 <= y < rows -> 0 <= x < width -> 0 <= j < rows ->
    src + y * source_stride + x < dst + j * dest_stride
    \/ dst + j * dest_stride + width <= src + y * source_stride + x.

Lemma CopyPlane_rows_outside rows src dst m a :
  (forall j, 0 <= j < Z.of_nat rows ->
     a < dst + j * dest_stride \/ dst + j * dest_stride + width <= a) ->
  CopyPlane_rows rows src source_stride width dst dest_stride m a = m a.
Proof.
  revert src dst m. induction rows as [| k IH]; intros src dst m Ha;
    [reflexivity |].
  cbn [CopyPlane_rows]. rewrite IH.
  - rewrite memcpy_at. specialize (Ha 0 ltac:(lia)).
    destruct Ha; decide_ranges; cbn [andb]; rewrite ?andb_false_r;
      reflexivity.
  - intros j Hj. specialize (Ha (j + 1) ltac:(lia)). lia.
Qed.

Lemma CopyPlane_rows_at rows src dst m y x :
  apart (Z.of_nat rows) src dst ->
  0 <= y < Z.of_nat rows -> 0 <= x < width ->
  CopyPlane_rows rows src source_stride width dst dest_stride m
    (dst + y * dest_stride + x)
  = m (src + y * source_stride + x).
Proof.
  revert src dst m y. induction rows as [| k IH]; intros src dst m y Hd Hy Hx;
    [lia |].
  cbn [CopyPlane_rows].
  destruct (Z.eq_dec y 0) as [-> | Hne].
  - rewrite CopyPlane_rows_outside.
    + rewrite memcpy_at. decide_ranges. cbn [andb]. f_equal. lia.
    + intros j Hj. left. assert (0 <= j * dest_stride) by nia. lia.
  - replace (dst + y * dest_stride + x)
      with (dst + dest_stride + (y - 1) * dest_stride + x) by ring.
    rewrite IH; try lia.
    + rewrite memcpy_at.
      replace (src + source_stride + (y - 1) * source_stride + x)
        with (src + y * source_stride + x) by ring.
      destruct (Hd y x 0 ltac:(lia) ltac:(lia) ltac:(lia));
        decide_ranges; cbn [andb]; rewrite ?andb_false_r; reflexivity.
    + intros y' x' j Hy' Hx' Hj.
      specialize (Hd (y' + 1) x' (j + 1) ltac:(lia) ltac:(lia) ltac:(lia)).
      lia.
Qed.
End Plane.

(** X6. [CopyPlane] makes the destination a copy of the source: each of the
    [height] rows of [width] destination elements ends up holding what
    the matching source element held before the call, provided a row fits
    in the destination stride and no source element lies in a destination
    row; elements outside the destination rows are not written. *)
Theorem CopyPlane_copies (sizeof_Pixel : Z)
    (source source_stride width height dest dest_stride : Z) (m : buffer) :
  let ss := Z.quot source_stride sizeof_Pixel in
  let ds := Z.quot dest_stride sizeof_Pixel in
  0 <= width <= ds ->
  apart ss ds width height source dest ->
  let copy :=
    CopyPlane sizeof_Pixel source source_stride width height dest
      dest_stride m in
  (forall y x, 0 <= y < height -> 0 <= x < width ->
     copy (dest + y * ds + x) = m (source + y * ss + x))
  /\ (forall a,
        (forall j, 0 <= j < height ->
           a < dest + j * ds \/ dest + j * ds + width <= a) ->
        copy a = m a).
Proof.
  intros ss ds Hw Hd copy. unfold copy, CopyPlane. fold ss ds. split.
  - intros y x Hy Hx. apply CopyPlane_rows_at; try lia.
    intros y' x' j Hy' Hx' Hj. apply Hd; lia.
  - intros a Ha. apply CopyPlane_rows_outside; try lia.
    intros j Hj. apply Ha. lia.
Qed.

Lemma CopyPlane_copies_witness :
  let copy := CopyPlane 2 0 16 3 2 100 40 (fun a => a * a) in
  copy (100 + 1 * 20 + 2) = (0 + 1 * 8 + 2) * (0 + 1 * 8 + 2)
  /\ copy 103 = 103 * 103.
Proof.
  destruct (CopyPlane_copies 2 0 16 3 2 100 40 (fun a => a * a)
              ltac:(vm_compute; intuition congruence)
              ltac:(unfold apart; change (16 `quot` 2) with 8;
                    change (40 `quot` 2) with 20; intros; lia))
    as [Hin Hout].
  split.
  - exact (Hin 1 2 ltac:(lia) ltac:(lia)).
  - apply Hout. change (40 `quot` 2) with 20. intros j Hj. lia.
Defined.

End Facts.
End Border.

(** ** Chroma edges and the per-plane edge information
    ([src/post_filter/deblock.cc], [src/post_filter.cc]) *)

Module DeblockChroma.

(** What the chroma edge-info functions and
    [PostFilter::GetDeblockFilterEdgeInfo] read of [PostFilter].
    [BlockParameters*] values are addresses, as in [Deblock]; [frame_level]
    is [frame_header_.loop_filter.level]. *)
Record PostFilter := mkPostFilter {
  subsampling_x_ : Z -> Z;
  subsampling_y_ : Z -> Z;
  frame_level : Z -> Z;
  inter_transform_sizes_ : Z -> Z -> Z;
  block_parameters_Find : Z -> Z -> Z;
  bp_ptr_array : Z -> Z;
  deref : Z -> BlockParameters
}.

(** The out-parameters of the chroma functions after the call. *)
Record EdgeInfoUV := mkEdgeInfoUV {
  need_filter_u : bool;
  need_filter_v : bool;
  level_u : Z;
  level_v : Z;
  step : Z;
  filter_length : Z
}.

Section WithTables.
(** Declared in [src/utils/constants.h], [src/post_filter.h] and
    [src/utils/common.h], none of them among the sources: parameters. *)
Variables kTransformWidth kTransformHeight : Z -> Z.
Variables kPlaneY kPlaneU kPlaneV : Z.
Variables kLoopFilterTypeVertical kLoopFilterTypeHorizontal : Z.
Variable kDeblockFilterLevelIndex : Z -> Z -> Z.
Variable GetDeblockPosition : Z -> Z -> Z.
Variable kPlaneResidualSize : Z -> Z -> Z -> Z.
Variables kBlockWidthPixels kBlockHeightPixels : Z -> Z.
Variable MultiplyBy4 : Z -> Z.
Variable pf : PostFilter.

Definition level_at (bp : Z) (filter_id : Z) : Z :=
  deblock_filter_level (deref pf bp) !!! Z.to_nat filter_id.

Definition SkipFilter (bp bp_prev : Z) : bool :=
  skip (deref pf bp) && is_inter (deref pf bp) && (bp =? bp_prev).

(** The block guarded by [need_filter_u] (and its twin for [v]) in the
    two chroma functions: the flag and the level of one plane after it. *)
Definition plane_level (need_filter : bool) (level_in : Z)
    (bp bp_prev filter_id : Z) : bool * Z :=
  if need_filter then
    let level_this := level_at bp filter_id in
    if level_this =? 0 then
      let level_prev := level_at bp_prev filter_id in
      if level_prev =? 0 then (false, level_this) else (true, level_prev)
    else (true, level_this)
  else (false, level_in).

(** [level_u_in], [level_v_in], [filter_length_in]: what the
    out-parameters held before the call. *)
Definition GetHorizontalDeblockFilterEdgeInfoUV (row4x4 column4x4 : Z)
    (level_u_in level_v_in filter_length_in : Z) : EdgeInfoUV :=
  let subsampling_x := subsampling_x_ pf kPlaneU in
  let subsampling_y := subsampling_y_ pf kPlaneU in
  let row4x4 := GetDeblockPosition row4x4 subsampling_y in
  let column4x4 := GetDeblockPosition column4x4 subsampling_x in
  let bp := block_parameters_Find pf row4x4 column4x4 in
  let step := kTransformHeight (uv_transform_size (deref pf bp)) in
  if row4x4 =? subsampling_y then
    mkEdgeInfoUV false false level_u_in level_v_in step filter_length_in
  else
    let need_filter_u := negb (frame_level pf (kPlaneU + 1) =? 0) in
    let need_filter_v := negb (frame_level pf (kPlaneV + 1) =? 0) in
    let filter_id_u :=
      kDeblockFilterLevelIndex kPlaneU kLoopFilterTypeHorizontal in
    let filter_id_v :=
      kDeblockFilterLevelIndex kPlaneV kLoopFilterTypeHorizontal in
    let row4x4_prev := row4x4 - Z.shiftl 1 subsampling_y in
    let bp_prev := block_parameters_Find pf row4x4_prev column4x4 in
    let '(need_filter_u, level_u) :=
      plane_level need_filter_u level_u_in bp bp_prev filter_id_u in
    let '(need_filter_v, level_v) :=
      plane_level need_filter_v level_v_in bp bp_prev filter_id_v in
    if negb need_filter_u && negb need_filter_v then
      mkEdgeInfoUV need_filter_u need_filter_v level_u level_v step
        filter_length_in
    else if SkipFilter bp bp_prev then
      mkEdgeInfoUV false false level_u level_v step filter_length_in
    else
      let step_prev :=
        kTransformHeight (uv_transform_size (deref pf bp_prev)) in
      mkEdgeInfoUV need_filter_u need_filter_v level_u level_v step
        (Z.min step step_prev).

Definition GetVerticalDeblockFilterEdgeInfoUV (row4x4 column4x4 : Z)
    (bp_ptr : Z) (level_u_in level_v_in filter_length_in : Z) : EdgeInfoUV :=
  let subsampling_x := subsampling_x_ pf kPlaneU in
  let subsampling_y := subsampling_y_ pf kPlaneU in
  let row4x4 := GetDeblockPosition row4x4 subsampling_y in
  let column4x4 := GetDeblockPosition column4x4 subsampling_x in
  let bp := bp_ptr_array pf bp_ptr in
  let step := kTransformWidth (uv_transform_size (deref pf bp)) in
  if column4x4 =? subsampling_x then
    mkEdgeInfoUV false false level_u_in level_v_in step filter_length_in
  else
    let need_filter_u := negb (frame_level pf (kPlaneU + 1) =? 0) in
    let need_filter_v := negb (frame_level pf (kPlaneV + 1) =? 0) in
    let filter_id_u :=
      kDeblockFilterLevelIndex kPlaneU kLoopFilterTypeVertical in
    let filter_id_v :=
      kDeblockFilterLevelIndex kPlaneV kLoopFilterTypeVertical in
    let bp_prev := bp_ptr_array pf (bp_ptr - Z.shiftl 1 subsampling_x) in
    let '(need_filter_u, level_u) :=
      plane_level need_filter_u level_u_in bp bp_prev filter_id_u in
    let '(need_filter_v, level_v) :=
      plane_level need_filter_v level_v_in bp bp_prev filter_id_v in
    if negb need_filter_u && negb need_filter_v then
      mkEdgeInfoUV need_filter_u need_filter_v level_u level_v step
        filter_length_in
    else if SkipFilter bp bp_prev then
      mkEdgeInfoUV false false level_u level_v step filter_length_in
    else
      let step_prev :=
        kTransformWidth (uv_transform_size (deref pf bp_prev)) in
      mkEdgeInfoUV need_filter_u need_filter_v level_u level_v step
        (Z.min step step_prev).

(** [PostFilter::GetDeblockFilterEdgeInfo<type>] of [src/post_filter.cc];
    [horizontal] is [type == kLoopFilterTypeHorizontal]. *)
Definition GetDeblockFilterEdgeInfo (horizontal : bool)
    (plane row4x4 column4x4 subsampling_x subsampling_y : Z)
    (level_in filter_length_in : Z) : Deblock.EdgeInfo :=
  let type :=
    if horizontal then kLoopFilterTypeHorizontal
    else kLoopFilterTypeVertical in
  let row4x4 := GetDeblockPosition row4x4 subsampling_y in
  let column4x4 := GetDeblockPosition column4x4 subsampling_x in
  let bp := block_parameters_Find pf row4x4 column4x4 in
  let transform_size :=
    if plane =? kPlaneY then inter_transform_sizes_ pf row4x4 column4x4
    else uv_transform_size (deref pf bp) in
  let step :=
    if horizontal then kTransformHeight transform_size
    else kTransformWidth transform_size in
  if (horizontal && (row4x4 =? subsampling_y))
     || (negb horizontal && (column4x4 =? subsampling_x))
  then Deblock.mkEdgeInfo false level_in step filter_length_in
  else
    let filter_id := kDeblockFilterLevelIndex plane type in
    let level_this := level_at bp filter_id in
    let row4x4_prev :=
      if horizontal then row4x4 - Z.shiftl 1 subsampling_y else row4x4 in
    let column4x4_prev :=
      if horizontal then column4x4
      else column4x4 - Z.shiftl 1 subsampling_x in
    let bp_prev := block_parameters_Find pf row4x4_prev column4x4_prev in
    let level_prev := level_at bp_prev filter_id in
    if (level_this =? 0) && (level_prev =? 0) then
      Deblock.mkEdgeInfo false level_this step filter_length_in
    else
      let level := if level_this =? 0 then level_prev else level_this in
      let size :=
        kPlaneResidualSize (size (deref pf bp)) subsampling_x
          subsampling_y in
      let prediction_masks :=
        if horizontal then kBlockHeightPixels size - 1
        else kBlockWidthPixels size - 1 in
      let pixel_position :=
        MultiplyBy4 (if horizontal then Z.shiftr row4x4 subsampling_y
                     else Z.shiftr column4x4 subsampling_x) in
      let is_border := Z.land pixel_position prediction_masks =? 0 in
      let '(skip, skip_prev) :=
        (skip (deref pf bp) && is_inter (deref pf bp),
         skip (deref pf bp_prev) && is_inter (deref pf bp_prev)) in
      if negb skip || negb skip_prev || is_border then
        let transform_size_prev :=
          if plane =? kPlaneY
          then inter_transform_sizes_ pf row4x4_prev column4x4_prev
          else uv_transform_size (deref pf bp_prev) in
        let step_prev :=
          if horizontal then kTransformHeight transform_size_prev
          else kTransformWidth transform_size_prev in
        Deblock.mkEdgeInfo true level step (Z.min step step_prev)
      else Deblock.mkEdgeInfo false level step filter_length_in.

(** What a chroma edge-info function has to answer for an edge between
    the blocks at [bp] and [bp_prev]: [at_frame_edge] says that the edge
    is the first one of the plane, [table] is [kTransformHeight] or
    [kTransformWidth], [id_u], [id_v] index [deblock_filter_level]. *)
Definition chroma_decision (info : EdgeInfoUV) (at_frame_edge : Prop)
    (table : Z -> Z) (bp bp_prev id_u id_v : Z) : Prop :=
  let chosen id :=
    if level_at bp id =? 0 then level_at bp_prev id else level_at bp id in
  let wanted plane id :=
    ~ at_frame_edge /\ frame_level pf (plane + 1) <> 0
    /\ (level_at bp id <> 0 \/ level_at bp_prev id <> 0)
    /\ SkipFilter bp bp_prev = false in
  (need_filter_u info = true <-> wanted kPlaneU id_u)
  /\ (need_filter_v info = true <-> wanted kPlaneV id_v)
  /\ (need_filter_u info = true ->
      level_u info = chosen id_u /\ level_u info <> 0)
  /\ (need_filter_v info = true ->
      level_v info = chosen id_v /\ level_v info <> 0)
  /\ (need_filter_u info = true \/ need_filter_v info = true ->
      filter_length info
      = Z.min (table (uv_transform_size (deref pf bp)))
              (table (uv_transform_size (deref pf bp_prev))))
  /\ step info = table (uv_transform_size (deref pf bp)).

Lemma nonzero_flag x : negb (x =? 0) = true <-> x <> 0.
Proof. destruct (Z.eqb_spec x 0); cbn; intuition congruence. Qed.

Lemma plane_level_spec need level_in bp bp_prev id :
  let chosen :=
    if level_at bp id =? 0 then level_at bp_prev id else level_at bp id in
  (fst (plane_level need level_in bp bp_prev id) = true
   <-> need = true /\ (level_at bp id <> 0 \/ level_at bp_prev id <> 0))
  /\ (fst (plane_level need level_in bp bp_prev id) = true ->
      snd (plane_level need level_in bp bp_prev id) = chosen
      /\ snd (plane_level need level_in bp bp_prev id) <> 0).
Proof.
  cbv zeta. unfold plane_level.
  destruct need;
    repeat match goal with
           | |- context [?a =? ?b] => destruct (Z.eqb_spec a b)
           end;
    cbn [fst snd]; repeat split; intros;
    solve [ intuition (try congruence; try lia) ].
Qed.

(** Names the compound terms of the goal, so that case analysis works on
    variables. *)
Ltac name_terms :=
  repeat match goal with
         | |- context [level_at ?b ?i] => generalize (level_at b i); intro
         | |- context [frame_level pf ?p] =>
             generalize (frame_level pf p); intro
         | |- context [SkipFilter ?a ?b] => generalize (SkipFilter a b); intro
         | |- context [kTransformHeight ?t] =>
             generalize (kTransformHeight t); intro
         | |- context [kTransformWidth ?t] =>
             generalize (kTransformWidth t); intro
         | |- context [GetDeblockPosition ?a ?b] =>
             generalize (GetDeblockPosition a b); intro
         | |- context [subsampling_x_ pf ?p] =>
             generalize (subsampling_x_ pf p); intro
         | |- context [subsampling_y_ pf ?p] =>
             generalize (subsampling_y_ pf p); intro
         end.

(** [flag = true <-> wanted] and [flag = true -> ...] once [flag] is a
    constant and the context holds what is known of the plane. *)
Ltac flag_iff :=
  split;
  [ intros Hflag;
    first [ discriminate Hflag
          | repeat split; first [assumption | reflexivity | congruence] ]
  | intros (? & ? & ? & ?);
    first [ reflexivity | discriminate | congruence
          | exfalso;
            match goal with
            | Hn : ~ (_ /\ _) |- _ => apply Hn; split; assumption
            end ] ].

Ltac flag_implies :=
  intros Hflag;
  first [ discriminate Hflag | split; first [assumption | congruence] ].

Ltac settle_conditions :=
  repeat match goal with
         | |- context [?a =? ?b] =>
             destruct (Z.eqb_spec a b); cbn [andb orb negb]
         | |- context [if SkipFilter ?a ?b then _ else _] =>
             destruct (SkipFilter a b) eqn:?; cbn [andb orb negb]
         end.

(** X7. The chroma edge-info functions, for a horizontal edge at
    [(row4x4, column4x4)] and a vertical edge reached through [bp_ptr]:
    plane U (and likewise V) is filtered exactly when the edge is not the
    first one of the plane, the frame's loop-filter level of that plane is
    not zero, the block's level or the previous block's is not zero, and
    [SkipFilter] does not hold; the level used is the block's own unless
    it is zero; both planes share one step and one filter length, the
    minimum of the two blocks' chroma transform sizes in the filtering
    direction. *)
Theorem DeblockFilterEdgeInfoUV_decision
    (row4x4 column4x4 bp_ptr level_u_in level_v_in filter_length_in : Z) :
  let sx := subsampling_x_ pf kPlaneU in
  let sy := subsampling_y_ pf kPlaneU in
  let row := GetDeblockPosition row4x4 sy in
  let column := GetDeblockPosition column4x4 sx in
  chroma_decision
    (GetHorizontalDeblockFilterEdgeInfoUV row4x4 column4x4 level_u_in
       level_v_in filter_length_in)
    (row = sy) kTransformHeight
    (block_parameters_Find pf row column)
    (block_parameters_Find pf (row - Z.shiftl 1 sy) column)
    (kDeblockFilterLevelIndex kPlaneU kLoopFilterTypeHorizontal)
    (kDeblockFilterLevelIndex kPlaneV kLoopFilterTypeHorizontal)
  /\ chroma_decision
       (GetVerticalDeblockFilterEdgeInfoUV row4x4 column4x4 bp_ptr
          level_u_in level_v_in filter_length_in)
       (column = sx) kTransformWidth
       (bp_ptr_array pf bp_ptr)
       (bp_ptr_array pf (bp_ptr - Z.shiftl 1 sx))
       (kDeblockFilterLevelIndex kPlaneU kLoopFilterTypeVertical)
       (kDeblockFilterLevelIndex kPlaneV kLoopFilterTypeVertical).
Proof.
  cbv zeta.
  unfold chroma_decision, GetHorizontalDeblockFilterEdgeInfoUV,
    GetVerticalDeblockFilterEdgeInfoUV.
  split.
  all: match goal with
       | |- context [if ?a =? ?b then _ else _] =>
           destruct (Z.eqb_spec a b) as [Hedge | Hedge]
       end;
    [cbn [need_filter_u need_filter_v level_u level_v step filter_length];
     repeat split; intros; solve [ intuition congruence ] |].
  all: repeat match goal with
         | |- context [plane_level ?need ?l ?b ?p ?id] =>
             let H := fresh "Hplane" in
             pose proof (plane_level_spec need l b p id) as H;
             destruct (plane_level need l b p id) as [[|] ?];
             cbn [fst snd] in H; rewrite nonzero_flag in H;
             [destruct H as [[H _] Hlevel];
              specialize (H eq_refl); specialize (Hlevel eq_refl);
              destruct H, Hlevel
             |destruct H as [[_ H] _];
              assert (~ _) by (intros Hwanted; discriminate (H Hwanted));
              clear H]
         end.
  all: match goal with
       | |- context [if SkipFilter ?a ?b then _ else _] =>
           destruct (SkipFilter a b) eqn:?
       end.
  all: cbn [andb orb negb need_filter_u need_filter_v level_u level_v step
            filter_length].
  all: split; [flag_iff | split; [flag_iff | ]].
  all: split; [flag_implies | split; [flag_implies |]].
  all: split; [| reflexivity].
  all: intros [Hflag | Hflag]; first [discriminate Hflag | reflexivity].
Qed.

(** X8. [GetDeblockFilterEdgeInfo] of [src/post_filter.cc], for either
    filter direction and any plane: it answers "do not filter" exactly
    when the edge is the first one of the plane, or the levels on both
    sides are zero, or both blocks are skip-coded inter blocks and the
    edge is not on a prediction-block border; when it answers "filter",
    the filter length is the minimum of the two transform sizes (luma:
    [inter_transform_sizes_], chroma: [uv_transform_size]) and the level
    is this side's unless that is zero. *)
Theorem GetDeblockFilterEdgeInfo_decision (horizontal : bool)
    (plane row4x4 column4x4 subsampling_x subsampling_y : Z)
    (level_in filter_length_in : Z) :
  let info :=
    GetDeblockFilterEdgeInfo horizontal plane row4x4 column4x4
      subsampling_x subsampling_y level_in filter_length_in in
  let row := GetDeblockPosition row4x4 subsampling_y in
  let column := GetDeblockPosition column4x4 subsampling_x in
  let row_prev :=
    if horizontal then row - Z.shiftl 1 subsampling_y else row in
  let column_prev :=
    if horizontal then column else column - Z.shiftl 1 subsampling_x in
  let bp := block_parameters_Find pf row column in
  let bp_prev := block_parameters_Find pf row_prev column_prev in
  let id :=
    kDeblockFilterLevelIndex plane
      (if horizontal then kLoopFilterTypeHorizontal
       else kLoopFilterTypeVertical) in
  let table := if horizontal then kTransformHeight else kTransformWidth in
  let transform_size r c b :=
    if plane =? kPlaneY then inter_transform_sizes_ pf r c
    else uv_transform_size (deref pf b) in
  let residual :=
    kPlaneResidualSize (size (deref pf bp)) subsampling_x subsampling_y in
  let is_border :=
    Z.land
      (MultiplyBy4 (if horizontal then Z.shiftr row subsampling_y
                    else Z.shiftr column subsampling_x))
      ((if horizontal then kBlockHeightPixels residual
        else kBlockWidthPixels residual) - 1)
    = 0 in
  (Deblock.need_filter info = false
   <-> (if horizontal then row = subsampling_y else column = subsampling_x)
       \/ (level_at bp id = 0 /\ level_at bp_prev id = 0)
       \/ (skip (deref pf bp) && is_inter (deref pf bp) = true
           /\ skip (deref pf bp_prev) && is_inter (deref pf bp_prev) = true
           /\ ~ is_border))
  /\ (Deblock.need_filter info = true ->
      Deblock.filter_length info
      = Z.min (table (transform_size row column bp))
              (table (transform_size row_prev column_prev bp_prev))
      /\ Deblock.level info
         = (if level_at bp id =? 0 then level_at bp_prev id
            else level_at bp id)
      /\ Deblock.level info <> 0)
  /\ Deblock.step info = table (transform_size row column bp).
Proof.
  cbv zeta. unfold GetDeblockFilterEdgeInfo.
  destruct horizontal; cbn [andb orb negb]; rewrite ?orb_false_r;
    repeat match goal with
           | |- context [if plane =? kPlaneY then ?a else ?b] =>
               generalize (if plane =? kPlaneY then a else b); intro
           | |- context [skip ?b && is_inter ?b] =>
               generalize (skip b && is_inter b); intro
           end;
    name_terms; settle_conditions;
    repeat match goal with b : bool |- _ => destruct b end;
    cbn [andb orb negb Deblock.need_filter Deblock.filter_length
         Deblock.level Deblock.step];
    repeat split; intros;
    solve [ intuition congruence ].
Qed.

End WithTables.
End DeblockChroma.

(** ** Deblocking filter levels ([src/post_filter/deblock.cc]) *)

Module DeblockLevels.

(** The members of [ObuFrameHeader] read by
    [ComputeDeblockFilterLevelsHelper]; arrays are functions of the
    index. *)
Record ObuFrameHeader := mkFrameHeader {
  delta_lf_multi : bool;
  loop_filter_level : Z -> Z;
  loop_filter_delta_enabled : bool;
  loop_filter_ref_deltas : Z -> Z;
  loop_filter_mode_deltas : Z -> Z;
  segmentation_feature_data : Z -> Z -> Z
}.

(** [uint8_t deblock_filter_levels[kNumReferenceFrameTypes][2]], by
    reference frame and mode id. *)
Definition Levels := Z -> Z -> Z.

Definition set_level (t : Levels) (reference_frame mode_id value : Z)
  : Levels :=
  fun r m =>
    if (r =? reference_frame) && (m =? mode_id) then value else t r m.

(** Conversion of an [int] to [uint8_t]. *)
Definition uint8 (z : Z) : Z := z mod 256.

Section Helper.
(** [kMaxLoopFilterValue], [kSegmentFeatureLoopFilterYVertical] and
    [kNumReferenceFrameTypes] are declared in [src/utils/constants.h],
    [Clip3] and [LeftShift] in [src/utils/common.h]; none of them is among
    the sources: parameters. *)
Variables kMaxLoopFilterValue kSegmentFeatureLoopFilterYVertical : Z.
Variable kNumReferenceFrameTypes : Z.
Variable Clip3 : Z -> Z -> Z -> Z.
Variable LeftShift : Z -> Z -> Z.

(** The loop over [reference_frame] with its inner loop over [mode_id],
    [remaining] reference frames to go. *)
Fixpoint reference_frame_loop (remaining : nat) (reference_frame : Z)
    (frame_header : ObuFrameHeader) (level shift : Z) (t : Levels)
  : Levels :=
  match remaining with
  | O => t
  | S k =>
      let entry (mode_id : Z) : Z :=
        uint8
          (Clip3
             (level
              + LeftShift
                  (loop_filter_ref_deltas frame_header reference_frame
                   + loop_filter_mode_deltas frame_header mode_id)
                  shift)
             0 kMaxLoopFilterValue) in
      let t := set_level t reference_frame 0 (entry 0) in
      let t := set_level t reference_frame 1 (entry 1) in
      reference_frame_loop k (reference_frame + 1) frame_header level shift t
  end.

(** 7.14.5: the table after the call. *)
Definition ComputeDeblockFilterLevelsHelper (frame_header : ObuFrameHeader)
    (segment_id level_index : Z) (delta_lf : Z -> Z)
    (deblock_filter_levels : Levels) : Levels :=
  let delta :=
    delta_lf (if delta_lf_multi frame_header then level_index else 0) in
  let level :=
    uint8 (Clip3 (loop_filter_level frame_header level_index + delta) 0
             kMaxLoopFilterValue) in
  let feature := kSegmentFeatureLoopFilterYVertical + level_index in
  let level :=
    uint8
      (Clip3
         (level + segmentation_feature_data frame_header segment_id feature)
         0 kMaxLoopFilterValue) in
  if negb (loop_filter_delta_enabled frame_header) then
    (* memset(deblock_filter_levels, level, kNumReferenceFrameTypes * 2) *)
    fun r m =>
      if (0 <=? r) && (r <? kNumReferenceFrameTypes) && (0 <=? m) && (m <? 2)
      then level
      else deblock_filter_levels r m
  else
    let shift := Z.shiftr level 5 in
    let t :=
      set_level deblock_filter_levels kReferenceFrameIntra 0
        (uint8
           (Clip3
              (level
               + LeftShift
                   (loop_filter_ref_deltas frame_header kReferenceFrameIntra)
                   shift)
              0 kMaxLoopFilterValue)) in
    reference_frame_loop
      (Z.to_nat (kNumReferenceFrameTypes - (kReferenceFrameIntra + 1)))
      (kReferenceFrameIntra + 1) frame_header level shift t.

Section Facts.
Hypothesis Clip3_between :
  forall value low high, low <= high -> low <= Clip3 value low high <= high.
Hypothesis max_is_byte : 0 <= kMaxLoopFilterValue <= 255.
Hypothesis intra_in_table : kReferenceFrameIntra < kNumReferenceFrameTypes.

Lemma clipped_level value :
  0 <= uint8 (Clip3 value 0 kMaxLoopFilterValue) <= kMaxLoopFilterValue.
Proof.
  pose proof (Clip3_between value 0 kMaxLoopFilterValue ltac:(lia)).
  unfold uint8. rewrite Z.mod_small; lia.
Qed.

Lemma reference_frame_loop_at n first frame_header level shift t r m :
  reference_frame_loop n first frame_header level shift t r m
  = if (first <=? r) && (r <? first + Z.of_nat n) && (0 <=? m) && (m <? 2)
    then uint8
           (Clip3
              (level
               + LeftShift
                   (loop_filter_ref_deltas frame_header r
                    + loop_filter_mode_deltas frame_header m)
                   shift)
              0 kMaxLoopFilterValue)
    else t r m.
Proof.
  revert first t. induction n as [| k IH]; intros first t.
  - cbn [reference_frame_loop].
    destruct (Z.leb_spec first r); destruct (Z.ltb_spec r (first + Z.of_nat 0));
      cbn [andb]; try reflexivity. lia.
  - cbn [reference_frame_loop]. rewrite IH. unfold set_level.
    destruct (Z.eqb_spec r first) as [-> | Hr].
    + destruct (Z.eqb_spec m 0) as [-> | H0];
        [| destruct (Z.eqb_spec m 1) as [-> | H1]];
        Cdef.decide_ranges; cbn [andb]; try reflexivity.
      destruct (Z.leb_spec 0 m); destruct (Z.ltb_spec m 2); cbn [andb];
        try reflexivity. lia.
    + cbn [andb].
      destruct (Z.leb_spec first r); destruct (Z.leb_spec (first + 1) r);
        destruct (Z.ltb_spec r (first + Z.of_nat (S k)));
        destruct (Z.ltb_spec r (first + 1 + Z.of_nat k));
        cbn [andb]; try reflexivity; lia.
Qed.

(** X9. [ComputeDeblockFilterLevelsHelper] leaves every entry it writes
    within [0, kMaxLoopFilterValue].  Without per-reference deltas
    ([loop_filter.delta_enabled] off) all [kNumReferenceFrameTypes * 2]
    entries get one and the same level; with them, every entry is written
    except [[kReferenceFrameIntra][1]], which keeps the value it had
    ("never used. So it does not have to be populated").  Entries outside
    the table are not touched.  [Clip3] is only assumed to return a value
    between its bounds, [kMaxLoopFilterValue] to fit in a byte, and the
    table to have a row for [kReferenceFrameIntra]. *)
Theorem ComputeDeblockFilterLevelsHelper_range
    (frame_header : ObuFrameHeader) (segment_id level_index : Z)
    (delta_lf : Z -> Z) (deblock_filter_levels : Levels) :
  let computed :=
    ComputeDeblockFilterLevelsHelper frame_header segment_id level_index
      delta_lf deblock_filter_levels in
  let in_table r m :=
    0 <= r < kNumReferenceFrameTypes /\ 0 <= m < 2 in
  let skipped r m :=
    loop_filter_delta_enabled frame_header = true
    /\ r = kReferenceFrameIntra /\ m = 1 in
  (forall r m, in_table r m -> ~ skipped r m ->
     0 <= computed r m <= kMaxLoopFilterValue)
  /\ (forall r m, skipped r m \/ ~ in_table r m ->
        computed r m = deblock_filter_levels r m)
  /\ (loop_filter_delta_enabled frame_header = false ->
      forall r m r' m', in_table r m -> in_table r' m' ->
        computed r m = computed r' m').
Proof.
  cbv zeta. unfold kReferenceFrameIntra in intra_in_table.
  unfold ComputeDeblockFilterLevelsHelper, kReferenceFrameIntra.
  destruct (loop_filter_delta_enabled frame_header); cbn [negb].
  - set (n := Z.to_nat _).
    assert (Hn : Z.of_nat n = Z.max 0 (kNumReferenceFrameTypes - 1))
      by (unfold n; lia).
    clearbody n.
    split; [| split; [| discriminate]].
    + intros r m [Hr Hm] Hskip.
      rewrite reference_frame_loop_at. unfold set_level.
      destruct (Z.eq_dec r 0) as [-> | Hr0].
      * assert (m = 0) as -> by (destruct (Z.eq_dec m 1); [tauto | lia]).
        cbn [andb Z.eqb Z.leb Z.add Z.compare]. apply clipped_level.
      * Cdef.decide_ranges. cbn [andb]. apply clipped_level.
    + intros r m Hout.
      rewrite reference_frame_loop_at. unfold set_level.
      destruct Hout as [(_ & -> & ->) | Hout]; [reflexivity |].
      destruct (Z.leb_spec (0 + 1) r); cbn [andb];
        [destruct (Z.ltb_spec r (0 + 1 + Z.of_nat n)); cbn [andb];
         [destruct (Z.leb_spec 0 m); cbn [andb];
          [destruct (Z.ltb_spec m 2); [lia |] |] |] |];
        destruct (Z.eqb_spec r 0); destruct (Z.eqb_spec m 0);
        cbn [andb]; try reflexivity; lia.
  - split; [| split].
    + intros r m [Hr Hm] _. Cdef.decide_ranges. cbn [andb].
      apply clipped_level.
    + intros r m [(Habs & _) | Hout]; [discriminate |].
      destruct (Z.leb_spec 0 r); destruct (Z.ltb_spec r kNumReferenceFrameTypes);
        destruct (Z.leb_spec 0 m); destruct (Z.ltb_spec m 2);
        cbn [andb]; try reflexivity; lia.
    + intros _ r m r' m' [Hr Hm] [Hr' Hm']. Cdef.decide_ranges.
      reflexivity.
Qed.
End Facts.
End Helper.

(** [Clip3] as [src/utils/common.h] writes it, for running the model. *)
Definition Clip3_impl (value low high : Z) : Z :=
  if value <? low then low else if high <? value then high else value.

Definition example_loop_filter_header : ObuFrameHeader :=
  mkFrameHeader true (fun i => 40 + i) true (fun r => 2 * r - 6)
    (fun m => 3 * m) (fun _ _ => 30).

Definition example_levels : Levels :=
  ComputeDeblockFilterLevelsHelper 63 3 8 Clip3_impl Z.shiftl
    example_loop_filter_header 0 1 (fun _ => -4) (fun _ _ => 255).

Lemma ComputeDeblockFilterLevelsHelper_range_witness :
  0 <= example_levels 7 1 <= 63 /\ example_levels 0 1 = 255
  /\ example_levels 8 0 = 255.
Proof.
  destruct (ComputeDeblockFilterLevelsHelper_range 63 3 8 Clip3_impl Z.shiftl
              ltac:(unfold Clip3_impl; intros value low high H;
                    destruct (Z.ltb_spec value low);
                    [| destruct (Z.ltb_spec high value)]; lia)
              ltac:(lia) ltac:(reflexivity) example_loop_filter_header 0 1
              (fun _ => -4) (fun _ _ => 255))
    as (Hin & Hout & _).
  split; [| split].
  - apply Hin; [lia |]. intros (_ & H & _). discriminate H.
  - apply Hout. left. repeat split.
  - apply Hout. right. lia.
Defined.

Example ComputeDeblockFilterLevelsHelper_run :
  map (fun r => (example_levels r 0, example_levels r 1)) [0; 1; 7]
  = [(51, 255); (55, 61); (63, 63)].
Proof. reflexivity. Qed.

End DeblockLevels.

(** ** Motion-vector stack construction ([src/motion_vector.cc]) *)

Module MvPred.

(** *** Outcomes

    The functions below store into fixed-size arrays and run loops whose
    stride comes from block-size tables.  A store outside its array is
    undefined behaviour in C++ and a loop whose stride is not positive never
    ends; the model makes both observable. *)
Inductive result (A : Type) : Type :=
| Ok (a : A)
| OutOfBounds
| Unfinished.
Arguments Ok {A} a.
Arguments OutOfBounds {A}.
Arguments Unfinished {A}.

#[export] Instance result_ret : MRet result := fun A a => Ok a.
#[export] Instance result_bind : MBind result :=
  fun A B f r =>
    match r with
    | Ok a => f a
    | OutOfBounds => OutOfBounds
    | Unfinished => Unfinished
    end.

(** [array[i] = v] on an array of fixed length. *)
Definition store_at {A} (array : list A) (i : Z) (v : A) : result (list A) :=
  if (0 <=? i) && (i <? Z.of_nat (length array))
  then Ok (<[Z.to_nat i := v]> array)
  else OutOfBounds.

(** [std::find_if(first, first + count, pred) - first], or [None] for
    "not found". *)
Fixpoint find_if {A} (pred : A -> bool) (array : list A) (count : nat)
  : option Z :=
  match count, array with
  | S k, x :: rest =>
      if pred x then Some 0
      else match find_if pred rest k with
           | Some i => Some (i + 1)
           | None => None
           end
  | _, _ => None
  end.

(** *** Data *)

Record GlobalMotion := mkGlobalMotion {
  gm_type : Z;
  params : list Z
}.

(** The members of [ObuFrameHeader] read here. *)
Record ObuFrameHeader := mkFrameHeader {
  precision : MvPrecision;
  use_ref_frame_mvs : bool;
  columns4x4 : Z;
  rows4x4 : Z;
  order_hint : Z;
  global_motion : Z -> GlobalMotion
}.

Record TemporalMotionField := mkMotionField {
  field_mv : Z -> Z -> MotionVector;
  field_reference_offset : Z -> Z -> Z
}.

(** [Tile], as seen from a block.  Its member functions are defined in
    [src/tile.h], not among the sources, so they are fields here; a
    [BlockParameters**] walk along a row or column of the tile is a walk
    over the arguments of [Parameters]. *)
Record Tile := mkTile {
  frame_header : ObuFrameHeader;
  order_hint_shift_bits : Z;
  current_frame_order_hint : Z -> Z;
  IsInside : Z -> Z -> bool;
  IsTopInside : Z -> bool;
  IsLeftInside : Z -> bool;
  IsTopLeftInside : Z -> Z -> bool;
  HasParameters : Z -> Z -> bool;
  Parameters : Z -> Z -> BlockParameters
}.

(** [Tile::Block]. *)
Record Block := mkBlock {
  tile : Tile;
  row4x4 : Z;
  column4x4 : Z;
  width4x4 : Z;
  height4x4 : Z;
  width : Z;
  height : Z;
  block_size : Z;
  bp : BlockParameters;
  top_available : bool;
  left_available : bool
}.

(** [PredictionParameters]: the candidate stack, its weight-index stack,
    the two counts and the global motion vectors. *)
Record PredictionParameters := mkPredictionParameters {
  ref_mv_stack : list CandidateMotionVector;
  weight_index_stack : list Z;
  nearest_mv_count : Z;
  ref_mv_count : Z;
  global_mv : MotionVector * MotionVector
}.

Record MvContexts := mkMvContexts {
  zero_mv : Z;
  new_mv : Z;
  reference_mv : Z
}.

(** Constants, tables and helpers declared outside the sources
    ([src/utils/constants.h], [src/utils/common.h], [src/utils/types.h],
    [src/utils/bit_mask_set.h], [src/utils/reference_info.h]). *)
Record Constants := mkConstants {
  kNum4x4BlocksWide : Z -> Z;
  kNum4x4BlocksHigh : Z -> Z;
  kBlock64x64 : Z;
  kMaxLeastSquaresSamples : Z;
  kWarpedModelPrecisionBits : Z;
  kMaxFrameDistance : Z;
  kProjectionMvClamp : Z;
  kProjectionMvDivisionLookup : Z -> Z;
  kInvalidMvValue : Z;
  kGlobalMotionTransformationTypeIdentity : Z;
  kGlobalMotionTransformationTypeTranslation : Z;
  kNumGlobalMotionTransformationTypes : Z;
  (* kPredictionModeNewMvMask.Contains, kTemporalScanMask.Contains *)
  kPredictionModeNewMvMask : Z -> bool;
  kTemporalScanMask : Z -> bool;
  IsGlobalMvBlock : bool -> Z -> bool;
  GetRelativeDistance : Z -> Z -> Z -> Z;
  RightShiftWithRoundingSigned : Z -> Z -> Z;
  Clip3 : Z -> Z -> Z -> Z;
  MultiplyBy2 : Z -> Z;
  MultiplyBy4 : Z -> Z;
  MultiplyBy8 : Z -> Z;
  DivideBy2 : Z -> Z;
  (* the value [SetWeightIndexStackEntry(index, weight)] stores and the
     value [IncreaseWeight(index, weight)] turns an entry into *)
  WeightIndexStackEntry : Z -> Z -> Z;
  IncreasedWeight : Z -> Z -> Z
}.

(** Modelled from the spec: the stack's capacity, "ordered array (<= 8
    entries)", "8-slot capacity"; [kMaxRefMvStackSize] itself is declared in
    [src/utils/constants.h], not among the sources. *)
Definition kMaxRefMvStackSize : Z := 8.

(** "Entry at index i is computed as: Clip3(std::max(kBlockWidthPixels[i],
    kBlockHeightPixels[i], 16, 112))." *)
Definition kWarpValidThreshold : list Z :=
  [16; 16; 16; 16; 16; 16; 32; 16; 16; 16; 32;
   64; 32; 32; 32; 64; 64; 64; 64; 112; 112; 112].

(** The in/out arguments shared by the scans: [*found_new_mv],
    [*found_match], [*zero_mv_context] (absent when the pointer is null),
    [*num_mv_found] and [*prediction_parameters]. *)
Record Search := mkSearch {
  found_new_mv : bool;
  found_match : bool;
  zero_mv_context : option Z;
  num_mv_found : Z;
  pp : PredictionParameters
}.

Definition set_pp (s : Search) (p : PredictionParameters) : Search :=
  mkSearch (found_new_mv s) (found_match s) (zero_mv_context s)
           (num_mv_found s) p.

Definition set_num_mv_found (s : Search) (n : Z) : Search :=
  mkSearch (found_new_mv s) (found_match s) (zero_mv_context s) n (pp s).

Definition set_zero_mv_context (s : Search) (z : Z) : Search :=
  mkSearch (found_new_mv s) (found_match s)
           (match zero_mv_context s with Some _ => Some z | None => None end)
           (num_mv_found s) (pp s).

Definition set_found (s : Search) (new_mv_found match_found : bool) : Search :=
  mkSearch new_mv_found match_found (zero_mv_context s) (num_mv_found s)
           (pp s).

Definition nth_mv (c : CandidateMotionVector) (i : Z) : MotionVector :=
  if i =? 0 then mv0 c else mv1 c.

Definition nth_ref (r : Z * Z) (i : Z) : Z := if i =? 0 then fst r else snd r.

Definition nth_global (g : MotionVector * MotionVector) (i : Z) : MotionVector :=
  if i =? 0 then fst g else snd g.

Definition negate_mv (m : MotionVector) : MotionVector :=
  mkMv (int16 (mv_kRow m * -1)) (int16 (mv_kColumn m * -1)).

(** [for (i = first; i < bound; i += step) body(i)] with a loop-invariant
    [step]. *)
Fixpoint for_loop {S : Type} (fuel : nat) (i bound step : Z)
    (body : Z -> S -> result S) (s : S) : result S :=
  match fuel with
  | O => if i <? bound then Unfinished else Ok s
  | S f =>
      if i <? bound
      then s' ← body i s; for_loop f (i + step) bound step body s'
      else Ok s
  end.

Section Model.
Variable K : Constants.
Variable block : Block.

Let fh := frame_header (tile block).

(** 7.9.3. *)
Definition GetMvProjection (mv : MotionVector) (numerator denominator : Z)
  : MotionVector :=
  let numerator :=
    Clip3 K numerator (- kMaxFrameDistance K) (kMaxFrameDistance K) in
  let project (component : Z) : Z :=
    int16
      (Clip3 K
         (RightShiftWithRoundingSigned K
            (component * numerator
             * kProjectionMvDivisionLookup K denominator) 14)
         (- kProjectionMvClamp K) (kProjectionMvClamp K)) in
  mkMv (project (mv_kRow mv)) (project (mv_kColumn mv)).

(** 7.10.2.1. *)
Definition SetupGlobalMv (index : Z) : MotionVector :=
  let reference_type := nth_ref (reference_frame (bp block)) index in
  let gm := global_motion fh reference_type in
  let param (i : nat) : Z := params gm !!! i in
  let global_motion_type :=
    if negb (reference_type =? kReferenceFrameIntra) then gm_type gm
    else kNumGlobalMotionTransformationTypes K in
  if (reference_type =? kReferenceFrameIntra)
     || (global_motion_type =? kGlobalMotionTransformationTypeIdentity K)
  then MotionVector_zero
  else if global_motion_type =? kGlobalMotionTransformationTypeTranslation K
  then
    LowerMvPrecision (precision fh)
      (mkMv (int16 (Z.shiftr (param 0%nat) (kWarpedModelPrecisionBits K - 3)))
            (int16 (Z.shiftr (param 1%nat) (kWarpedModelPrecisionBits K - 3))))
  else
    let x := MultiplyBy4 K (column4x4 block) + DivideBy2 K (width block) - 1 in
    let y := MultiplyBy4 K (row4x4 block) + DivideBy2 K (height block) - 1 in
    let xc := (param 2%nat - Z.shiftl 1 (kWarpedModelPrecisionBits K)) * x
              + param 3%nat * y + param 0%nat in
    let yc := param 4%nat * x
              + (param 5%nat - Z.shiftl 1 (kWarpedModelPrecisionBits K)) * y
              + param 1%nat in
    if allow_high_precision_mv (precision fh) then
      mkMv (int16 (RightShiftWithRoundingSigned K yc
                     (kWarpedModelPrecisionBits K - 3)))
           (int16 (RightShiftWithRoundingSigned K xc
                     (kWarpedModelPrecisionBits K - 3)))
    else
      LowerMvPrecision (precision fh)
        (mkMv (int16 (MultiplyBy2 K
                        (RightShiftWithRoundingSigned K yc
                           (kWarpedModelPrecisionBits K - 2))))
              (int16 (MultiplyBy2 K
                        (RightShiftWithRoundingSigned K xc
                           (kWarpedModelPrecisionBits K - 2))))).

(** [prediction_parameters->IncreaseWeight(index, weight)]. *)
Definition IncreaseWeight (p : PredictionParameters) (index weight : Z)
  : result PredictionParameters :=
  w ← store_at (weight_index_stack p) index
        (IncreasedWeight K
           (weight_index_stack p !!! Z.to_nat index) weight);
  mret (mkPredictionParameters (ref_mv_stack p) w (nearest_mv_count p)
          (ref_mv_count p) (global_mv p)).

(** [prediction_parameters->SetWeightIndexStackEntry(index, weight)]. *)
Definition SetWeightIndexStackEntry (p : PredictionParameters)
    (index weight : Z) : result PredictionParameters :=
  w ← store_at (weight_index_stack p) index
        (WeightIndexStackEntry K index weight);
  mret (mkPredictionParameters (ref_mv_stack p) w (nearest_mv_count p)
          (ref_mv_count p) (global_mv p)).

(** [ref_mv_stack[index] = candidate]. *)
Definition set_ref_mv (p : PredictionParameters) (index : Z)
    (candidate : CandidateMotionVector) : result PredictionParameters :=
  st ← store_at (ref_mv_stack p) index candidate;
  mret (mkPredictionParameters st (weight_index_stack p)
          (nearest_mv_count p) (ref_mv_count p) (global_mv p)).

(** The common tail of [SearchStack] and
    [AddTemporalReferenceMvCandidate]: raise the weight of a candidate
    already on the stack, or append it if there is room. *)
Definition add_candidate (same : CandidateMotionVector -> bool)
    (candidate_mv : CandidateMotionVector) (weight : Z) (s : Search)
  : result Search :=
  match find_if same (ref_mv_stack (pp s)) (Z.to_nat (num_mv_found s)) with
  | Some position =>
      p ← IncreaseWeight (pp s) position weight;
      mret (set_pp s p)
  | None =>
      if kMaxRefMvStackSize <=? num_mv_found s then mret s
      else
        p ← set_ref_mv (pp s) (num_mv_found s) candidate_mv;
        p ← SetWeightIndexStackEntry p (num_mv_found s) weight;
        mret (set_num_mv_found (set_pp s p) (num_mv_found s + 1))
  end.

(** 7.10.2.8 ([is_compound] false) and 7.10.2.9 ([is_compound] true). *)
Definition SearchStack (is_compound : bool) (mv_bp : BlockParameters)
    (index weight : Z) (s : Search) : result Search :=
  let global_type (i : Z) :=
    gm_type (global_motion fh (nth_ref (reference_frame (bp block)) i)) in
  let candidate_mv :=
    if is_compound then
      mkCandidate
        (if IsGlobalMvBlock K (is_global_mv_block mv_bp) (global_type 0)
         then fst (global_mv (pp s)) else mv0 (mv mv_bp))
        (if IsGlobalMvBlock K (is_global_mv_block mv_bp) (global_type 1)
         then snd (global_mv (pp s)) else mv1 (mv mv_bp))
    else
      mkCandidate
        (if IsGlobalMvBlock K (is_global_mv_block mv_bp) (global_type 0)
         then fst (global_mv (pp s)) else nth_mv (mv mv_bp) index)
        MotionVector_zero in
  let s :=
    set_found s
      (found_new_mv s || kPredictionModeNewMvMask K (y_mode mv_bp)) true in
  add_candidate
    (fun ref_mv =>
       if is_compound then CandidateMotionVector_eqb ref_mv candidate_mv
       else MotionVector_eqb (mv0 ref_mv) (mv0 candidate_mv))
    candidate_mv weight s.

(** 7.10.2.7. *)
Definition AddReferenceMvCandidate (mv_bp : BlockParameters)
    (is_compound : bool) (weight : Z) (s : Search) : result Search :=
  if negb (is_inter mv_bp) then mret s
  else if is_compound then
    if (fst (reference_frame mv_bp) =? fst (reference_frame (bp block)))
       && (snd (reference_frame mv_bp) =? snd (reference_frame (bp block)))
    then SearchStack true mv_bp 0 weight s
    else mret s
  else
    for_loop 2 0 2 1
      (fun i s =>
         if nth_ref (reference_frame mv_bp) i
            =? fst (reference_frame (bp block))
         then SearchStack false mv_bp i weight s
         else mret s)
      s.

Definition GetMinimumStep (block_width_or_height4x4 delta_row_or_column : Z)
  : Z :=
  if 16 <=? block_width_or_height4x4 then 4
  else if delta_row_or_column <? -1 then 2
  else 0.

(** The [do ... while (bps < end_bps)] loop of [ScanRow]; [offset] is
    [bps] minus its initial value. *)
Fixpoint ScanRow_loop (fuel : nat) (offset : Z)
    (mv_row mv_column min_step end_bps : Z) (is_compound : bool)
    (s : Search) : result Search :=
  match fuel with
  | O => Unfinished
  | S f =>
      let mv_bp := Parameters (tile block) mv_row (mv_column + offset) in
      let step :=
        Z.max (Z.min (width4x4 block) (kNum4x4BlocksWide K (size mv_bp)))
              min_step in
      s ← AddReferenceMvCandidate mv_bp is_compound (MultiplyBy2 K step) s;
      let offset := offset + step in
      if offset <? end_bps
      then ScanRow_loop f offset mv_row mv_column min_step end_bps
             is_compound s
      else mret s
  end.

(** 7.10.2.2. *)
Definition ScanRow (mv_column delta_row : Z) (is_compound : bool)
    (s : Search) : result Search :=
  let mv_row := row4x4 block + delta_row in
  if negb (IsTopInside (tile block) (mv_row + 1)) then mret s
  else
    let min_step := GetMinimumStep (width4x4 block) delta_row in
    let end_bps :=
      Z.min (Z.min (width4x4 block) (columns4x4 fh - column4x4 block)) 16 in
    ScanRow_loop 16 0 mv_row mv_column min_step end_bps is_compound s.

Fixpoint ScanColumn_loop (fuel : nat) (offset : Z)
    (mv_row mv_column min_step end_bps : Z) (is_compound : bool)
    (s : Search) : result Search :=
  match fuel with
  | O => Unfinished
  | S f =>
      let mv_bp := Parameters (tile block) (mv_row + offset) mv_column in
      let step :=
        Z.max (Z.min (height4x4 block) (kNum4x4BlocksHigh K (size mv_bp)))
              min_step in
      s ← AddReferenceMvCandidate mv_bp is_compound (MultiplyBy2 K step) s;
      let offset := offset + step in
      if offset <? end_bps
      then ScanColumn_loop f offset mv_row mv_column min_step end_bps
             is_compound s
      else mret s
  end.

(** 7.10.2.3. *)
Definition ScanColumn (mv_row delta_column : Z) (is_compound : bool)
    (s : Search) : result Search :=
  let mv_column := column4x4 block + delta_column in
  if negb (IsLeftInside (tile block) (mv_column + 1)) then mret s
  else
    let min_step := GetMinimumStep (height4x4 block) delta_column in
    let end_bps :=
      Z.min (Z.min (height4x4 block) (rows4x4 fh - row4x4 block)) 16 in
    ScanColumn_loop 16 0 mv_row mv_column min_step end_bps is_compound s.

(** 7.10.2.4. *)
Definition ScanPoint (delta_row delta_column : Z) (is_compound : bool)
    (s : Search) : result Search :=
  let mv_row := row4x4 block + delta_row in
  let mv_column := column4x4 block + delta_column in
  if negb (IsInside (tile block) mv_row mv_column)
     || negb (HasParameters (tile block) mv_row mv_column)
  then mret s
  else
    let mv_bp := Parameters (tile block) mv_row mv_column in
    if fst (reference_frame mv_bp) =? kReferenceFrameNone then mret s
    else AddReferenceMvCandidate mv_bp is_compound 4 s.

(** 7.10.2.6. *)
Definition AddTemporalReferenceMvCandidate (delta_row delta_column : Z)
    (is_compound : bool) (motion_field : TemporalMotionField) (s : Search)
  : result Search :=
  let mv_row := Z.lor (row4x4 block + delta_row) 1 in
  let mv_column := Z.lor (column4x4 block + delta_column) 1 in
  if negb (IsInside (tile block) mv_row mv_column) then mret s
  else
    let x8 := Z.shiftr mv_column 1 in
    let y8 := Z.shiftr mv_row 1 in
    let at_origin := (delta_row =? 0) && (delta_column =? 0) in
    let s := if at_origin then set_zero_mv_context s 1 else s in
    let temporal_mv := field_mv motion_field y8 x8 in
    if mv_kRow temporal_mv =? kInvalidMvValue K then mret s
    else
      let temporal_reference_offset :=
        field_reference_offset motion_field y8 x8 in
      let projected (i : Z) : MotionVector :=
        let reference_offset :=
          GetRelativeDistance K (order_hint fh)
            (current_frame_order_hint (tile block)
               (nth_ref (reference_frame (bp block)) i))
            (order_hint_shift_bits (tile block)) in
        if negb (reference_offset =? 0) then
          LowerMvPrecision (precision fh)
            (GetMvProjection temporal_mv reference_offset
               temporal_reference_offset)
        else MotionVector_zero in
      let far (a b : Z) : bool := 16 <=? Z.abs (a - b) in
      let g0 := fst (global_mv (pp s)) in
      let g1 := snd (global_mv (pp s)) in
      if is_compound then
        let candidate_mv := mkCandidate (projected 0) (projected 1) in
        let s :=
          if at_origin then
            set_zero_mv_context s
              (Z.b2z
                 (far (mv_kRow (mv0 candidate_mv)) (mv_kRow g0)
                  || far (mv_kColumn (mv0 candidate_mv)) (mv_kColumn g0)
                  || far (mv_kRow (mv1 candidate_mv)) (mv_kRow g1)
                  || far (mv_kColumn (mv1 candidate_mv)) (mv_kColumn g1)))
          else s in
        add_candidate
          (fun ref_mv => CandidateMotionVector_eqb ref_mv candidate_mv)
          candidate_mv 2 s
      else
        let candidate_mv := projected 0 in
        let s :=
          if at_origin then
            set_zero_mv_context s
              (Z.b2z (far (mv_kRow candidate_mv) (mv_kRow g0)
                      || far (mv_kColumn candidate_mv) (mv_kColumn g0)))
          else s in
        add_candidate
          (fun ref_mv => MotionVector_eqb (mv0 ref_mv) candidate_mv)
          (mkCandidate candidate_mv MotionVector_zero) 2 s.

(** Part of 7.10.2.5. *)
Definition IsWithinTheSame64x64Block (delta_row delta_column : Z) : bool :=
  let row := Z.land (row4x4 block) 15 + delta_row in
  let column := Z.land (column4x4 block) 15 + delta_column in
  (0 <=? row) && (row <? 16) && (0 <=? column) && (column <? 16).

(** 7.10.2.5. *)
Definition TemporalScan (is_compound : bool)
    (motion_field : TemporalMotionField) (s : Search) : result Search :=
  let step_w := if 16 <=? width4x4 block then 4 else 2 in
  let step_h := if 16 <=? height4x4 block then 4 else 2 in
  s ← for_loop 16 0 (Z.min (height4x4 block) 16) step_h
        (fun row s =>
           for_loop 16 0 (Z.min (width4x4 block) 16) step_w
             (fun column s =>
                AddTemporalReferenceMvCandidate row column is_compound
                  motion_field s)
             s)
        s;
  if kTemporalScanMask K (block_size block) then
    let temporal_sample_positions :=
      [(height4x4 block, -2);
       (height4x4 block, width4x4 block);
       (height4x4 block - 2, width4x4 block)] in
    foldl
      (fun r position =>
         s ← r;
         let '(row, column) := position in
         if negb (IsWithinTheSame64x64Block row column) then mret s
         else AddTemporalReferenceMvCandidate row column is_compound
                motion_field s)
      (mret s) temporal_sample_positions
  else mret s.

(** The four local arrays of [ExtraSearch]: [ref_id_count[2]],
    [ref_id[2][2]], [ref_diff_count[2]], [ref_diff[2][2]]. *)
Record ExtraCompound := mkExtraCompound {
  ref_id_count : list Z;
  ref_id : list (list MotionVector);
  ref_diff_count : list Z;
  ref_diff : list (list MotionVector)
}.

Definition ExtraCompound_init : ExtraCompound :=
  mkExtraCompound [0; 0]
    [[MotionVector_zero; MotionVector_zero];
     [MotionVector_zero; MotionVector_zero]]
    [0; 0]
    [[MotionVector_zero; MotionVector_zero];
     [MotionVector_zero; MotionVector_zero]].

(** [table[j][count[j]] = mv; ++count[j];] *)
Definition push_at (count : list Z) (table : list (list MotionVector))
    (j : Z) (mv : MotionVector)
  : result (list Z * list (list MotionVector)) :=
  let c := count !!! Z.to_nat j in
  row ← store_at (table !!! Z.to_nat j) c mv;
  table ← store_at table j row;
  count ← store_at count j (c + 1);
  mret (count, table).

(** Part of 7.10.2.13. *)
Definition AddExtraCompoundMvCandidate (mv_row mv_column : Z)
    (reference_frame_sign_bias : Z -> bool) (e : ExtraCompound)
  : result ExtraCompound :=
  let bp' := Parameters (tile block) mv_row mv_column in
  for_loop 2 0 2 1
    (fun i e =>
       let candidate_reference_frame := nth_ref (reference_frame bp') i in
       if candidate_reference_frame <=? kReferenceFrameIntra then mret e
       else
         for_loop 2 0 2 1
           (fun j e =>
              let candidate_mv := nth_mv (mv bp') i in
              let block_reference_frame :=
                nth_ref (reference_frame (bp block)) j in
              if (candidate_reference_frame =? block_reference_frame)
                 && (ref_id_count e !!! Z.to_nat j <? 2)
              then
                '(count, table) ←
                  push_at (ref_id_count e) (ref_id e) j candidate_mv;
                mret (mkExtraCompound count table (ref_diff_count e)
                        (ref_diff e))
              else if ref_diff_count e !!! Z.to_nat j <? 2 then
                let candidate_mv :=
                  if negb (Bool.eqb
                             (reference_frame_sign_bias
                                candidate_reference_frame)
                             (reference_frame_sign_bias
                                block_reference_frame))
                  then negate_mv candidate_mv else candidate_mv in
                '(count, table) ←
                  push_at (ref_diff_count e) (ref_diff e) j candidate_mv;
                mret (mkExtraCompound (ref_id_count e) (ref_id e) count
                        table)
              else mret e)
           e)
    e.

(** Part of 7.10.2.13. *)
Definition AddExtraSingleMvCandidate (mv_row mv_column : Z)
    (reference_frame_sign_bias : Z -> bool) (s : Search) : result Search :=
  let bp' := Parameters (tile block) mv_row mv_column in
  let block_reference_frame := fst (reference_frame (bp block)) in
  for_loop 2 0 2 1
    (fun i s =>
       let candidate_reference_frame := nth_ref (reference_frame bp') i in
       if candidate_reference_frame <=? kReferenceFrameIntra then mret s
       else
         let candidate_mv := nth_mv (mv bp') i in
         let candidate_mv :=
           if negb (Bool.eqb
                      (reference_frame_sign_bias candidate_reference_frame)
                      (reference_frame_sign_bias block_reference_frame))
           then negate_mv candidate_mv else candidate_mv in
         let stack := ref_mv_stack (pp s) in
         if (negb (num_mv_found s =? 0)
             && MotionVector_eqb (mv0 (stack !!! 0%nat)) candidate_mv)
            || ((num_mv_found s =? 2)
                && MotionVector_eqb (mv0 (stack !!! 1%nat)) candidate_mv)
         then mret s
         else
           p ← set_ref_mv (pp s) (num_mv_found s)
                 (mkCandidate candidate_mv MotionVector_zero);
           p ← SetWeightIndexStackEntry p (num_mv_found s) 0;
           mret (set_num_mv_found (set_pp s p) (num_mv_found s + 1)))
    s.

(** The inner loop of [ExtraSearch] for one [pass]; it ends when [i]
    reaches [num4x4] or at one of the two [break]s. *)
Fixpoint ExtraSearch_pass (fuel : nat) (pass i num4x4 : Z)
    (is_compound : bool) (reference_frame_sign_bias : Z -> bool)
    (e : ExtraCompound) (s : Search) : result (ExtraCompound * Search) :=
  if negb (i <? num4x4) then mret (e, s)
  else
    match fuel with
    | O => Unfinished
    | S f =>
        let mv_row := row4x4 block + (if pass =? 0 then -1 else i) in
        let mv_column := column4x4 block + (if pass =? 0 then i else -1) in
        if negb (IsTopLeftInside (tile block) (mv_row + 1) (mv_column + 1))
        then mret (e, s)
        else
          '(e, s, stop) ←
            (if is_compound then
               e ← AddExtraCompoundMvCandidate mv_row mv_column
                     reference_frame_sign_bias e;
               mret (e, s, false)
             else
               s ← AddExtraSingleMvCandidate mv_row mv_column
                     reference_frame_sign_bias s;
               mret (e, s, 2 <=? num_mv_found s));
          if stop : bool then mret (e, s)
          else
            let bp' := Parameters (tile block) mv_row mv_column in
            let i :=
              i + (if pass =? 0 then kNum4x4BlocksWide K (size bp')
                   else kNum4x4BlocksHigh K (size bp')) in
            ExtraSearch_pass f pass i num4x4 is_compound
              reference_frame_sign_bias e s
    end.

(** The neighbour passes of [ExtraSearch]:
    [for (pass = 0; pass < 2 && *num_mv_found < 2; ++pass)]. *)
Definition ExtraSearch_passes (is_compound : bool)
    (reference_frame_sign_bias : Z -> bool) (s : Search)
  : result (ExtraCompound * Search) :=
  let num4x4 :=
    Z.min (Z.min (Z.min (Z.min (width4x4 block)
                           (columns4x4 fh - column4x4 block))
                    (height4x4 block))
             (rows4x4 fh - row4x4 block))
          16 in
  '(e, s) ←
    (if num_mv_found s <? 2
     then ExtraSearch_pass 16 0 0 num4x4 is_compound
            reference_frame_sign_bias ExtraCompound_init s
     else mret (ExtraCompound_init, s));
  if num_mv_found s <? 2
  then ExtraSearch_pass 16 1 0 num4x4 is_compound
         reference_frame_sign_bias e s
  else mret (e, s).

(** "Merge compound mode extra search into mv stack": component [i] of
    [combined_mvs[0]] and [combined_mvs[1]] is filled from the same-reference
    hits, then the different-reference hits, then the global vector. *)
Definition combined_mvs (e : ExtraCompound)
    (g : MotionVector * MotionVector)
  : CandidateMotionVector * CandidateMotionVector :=
  let component (i : nat) (g : MotionVector) : list MotionVector :=
    take (Z.to_nat (ref_id_count e !!! i)) (ref_id e !!! i)
    ++ take (Z.to_nat (ref_diff_count e !!! i)) (ref_diff e !!! i)
    ++ [g; g] in
  (mkCandidate (component 0%nat (fst g) !!! 0%nat)
               (component 1%nat (snd g) !!! 0%nat),
   mkCandidate (component 0%nat (fst g) !!! 1%nat)
               (component 1%nat (snd g) !!! 1%nat)).

(** The compound branch after the passes. *)
Definition ExtraSearch_merge_compound (e : ExtraCompound) (s : Search)
  : result Search :=
  let '(combined0, combined1) := combined_mvs e (global_mv (pp s)) in
  p ←
    (if num_mv_found s =? 1 then
       p ← set_ref_mv (pp s) 1
             (if CandidateMotionVector_eqb combined0
                   (ref_mv_stack (pp s) !!! 0%nat)
              then combined1 else combined0);
       SetWeightIndexStackEntry p 1 0
     else
       p ← set_ref_mv (pp s) 0 combined0;
       p ← SetWeightIndexStackEntry p 0 0;
       p ← set_ref_mv p 1 combined1;
       SetWeightIndexStackEntry p 1 0);
  mret (set_num_mv_found (set_pp s p) 2).

(** The "single prediction mode" branch after the passes:
    [for (int i = *num_mv_found; i < 2; ++i)]. *)
Definition ExtraSearch_fill_single (s : Search) : result Search :=
  p ← for_loop 2 (num_mv_found s) 2 1
        (fun i p =>
           p ← set_ref_mv p i
                 (mkCandidate (fst (global_mv p))
                              (mv1 (ref_mv_stack p !!! Z.to_nat i)));
           SetWeightIndexStackEntry p i 0)
        (pp s);
  mret (set_pp s p).

(** 7.10.2.12. *)
Definition ExtraSearch (is_compound : bool)
    (reference_frame_sign_bias : Z -> bool) (s : Search) : result Search :=
  '(e, s) ← ExtraSearch_passes is_compound reference_frame_sign_bias s;
  if is_compound then ExtraSearch_merge_compound e s
  else ExtraSearch_fill_single s.

(** 7.10.2.14 (part 2): [(new_mv_context, reference_mv_context)]. *)
Definition ComputeContexts (found_new_mv : bool)
    (nearest_matches total_matches : Z) : Z * Z :=
  if nearest_matches =? 0 then (Z.min total_matches 1, total_matches)
  else if nearest_matches =? 1
  then (3 - Z.b2z found_new_mv, 2 + total_matches)
  else (5 - Z.b2z found_new_mv, 5).

(** The locals of [FindMvStack] whose addresses are handed to the scans. *)
Record Locals := mkLocals {
  l_found_new_mv : bool;
  l_found_row_match : bool;
  l_found_column_match : bool;
  l_dummy_bool : bool;
  l_zero_mv : option Z;
  l_num_mv_found : Z;
  l_pp : PredictionParameters
}.

(** A call [scan(..., new_ref, match_ref, &num_mv_found,
    prediction_parameters)] where [new_ref] is [&found_new_mv] or
    [&dummy_bool] and [match_ref] is [&found_row_match] or
    [&found_column_match]. *)
Definition scan_with (use_found_new_mv use_row_match : bool)
    (scan : Search -> result Search) (l : Locals) : result Locals :=
  s ← scan (mkSearch
              (if use_found_new_mv then l_found_new_mv l else l_dummy_bool l)
              (if use_row_match then l_found_row_match l
               else l_found_column_match l)
              (l_zero_mv l) (l_num_mv_found l) (l_pp l));
  mret (mkLocals
          (if use_found_new_mv then found_new_mv s else l_found_new_mv l)
          (if use_row_match then found_match s else l_found_row_match l)
          (if use_row_match then l_found_column_match l else found_match s)
          (if use_found_new_mv then l_dummy_bool l else found_new_mv s)
          (zero_mv_context s) (num_mv_found s) (pp s)).

(** The two [SortWeightIndexStack] calls of [FindMvStack]: the nearest
    sub-range and the remaining sub-range, each on its own. *)
Definition sort_weight_index_stacks (num_mv_found : Z)
    (p : PredictionParameters) : PredictionParameters :=
  let w := SortWeightIndexStack (nearest_mv_count p) (weight_index_stack p) in
  let n := Z.to_nat (nearest_mv_count p) in
  let w :=
    take n w
    ++ SortWeightIndexStack (num_mv_found - nearest_mv_count p) (drop n w) in
  mkPredictionParameters (ref_mv_stack p) w (nearest_mv_count p)
    (ref_mv_count p) (global_mv p).

(** [FindMvStack] up to and including the last scan: everything before
    [if (num_mv_found < 2)]. *)
Definition FindMvStack_scans (is_compound : bool)
    (motion_field : TemporalMotionField) (contexts : option MvContexts)
    (prediction_parameters : PredictionParameters)
  : result (Z * Locals) :=
  let p := prediction_parameters in
  let g0 := SetupGlobalMv 0 in
  let g1 := if is_compound then SetupGlobalMv 1 else snd (global_mv p) in
  let p := mkPredictionParameters (ref_mv_stack p) (weight_index_stack p)
             (nearest_mv_count p) (ref_mv_count p) (g0, g1) in
  let l := mkLocals false false false false None 0 p in
  l ← scan_with true true (ScanRow (column4x4 block) (-1) is_compound) l;
  l ← scan_with true false (ScanColumn (row4x4 block) (-1) is_compound) l;
  l ← (if Z.max (width4x4 block) (height4x4 block) <=? 16
       then scan_with true true
              (ScanPoint (-1) (width4x4 block) is_compound) l
       else mret l);
  let nearest_matches :=
    Z.b2z (l_found_row_match l) + Z.b2z (l_found_column_match l) in
  let p := l_pp l in
  let p := mkPredictionParameters (ref_mv_stack p) (weight_index_stack p)
             (l_num_mv_found l) (ref_mv_count p) (global_mv p) in
  let l := mkLocals (l_found_new_mv l) (l_found_row_match l)
             (l_found_column_match l) false
             (match contexts with Some _ => Some 0 | None => None end)
             (l_num_mv_found l) p in
  l ← (if use_ref_frame_mvs fh
       then scan_with true true (TemporalScan is_compound motion_field) l
       else mret l);
  l ← scan_with false true (ScanPoint (-1) (-1) is_compound) l;
  l ← for_loop 2 0 2 1
        (fun i l =>
           let delta := if i =? 0 then -3 else -5 in
           l ← (if (i =? 0) || (1 <? height4x4 block)
                then scan_with false true
                       (ScanRow (Z.lor (column4x4 block) 1)
                          (delta + Z.land (row4x4 block) 1) is_compound) l
                else mret l);
           if (i =? 0) || (1 <? width4x4 block)
           then scan_with false false
                  (ScanColumn (Z.lor (row4x4 block) 1)
                     (delta + Z.land (column4x4 block) 1) is_compound) l
           else mret l)
        l;
  mret (nearest_matches, l).

(** [FindMvStack]: the contexts (when [contexts] is not null) and the
    prediction parameters after the call. *)
Definition FindMvStack (is_compound : bool)
    (reference_frame_sign_bias : Z -> bool)
    (motion_field : TemporalMotionField) (contexts : option MvContexts)
    (prediction_parameters : PredictionParameters)
  : result (option MvContexts * PredictionParameters) :=
  '(nearest_matches, l) ←
    FindMvStack_scans is_compound motion_field contexts
      prediction_parameters;
  s ← (if l_num_mv_found l <? 2 then
         ExtraSearch is_compound reference_frame_sign_bias
           (mkSearch (l_found_new_mv l) (l_found_row_match l) (l_zero_mv l)
              (l_num_mv_found l) (l_pp l))
       else
         mret (mkSearch (l_found_new_mv l) (l_found_row_match l)
                 (l_zero_mv l) (l_num_mv_found l)
                 (sort_weight_index_stacks (l_num_mv_found l) (l_pp l))));
  let total_matches :=
    Z.b2z (l_found_row_match l) + Z.b2z (l_found_column_match l) in
  let contexts :=
    match contexts, l_zero_mv l with
    | Some _, Some z =>
        let '(new_mv_context, reference_mv_context) :=
          ComputeContexts (l_found_new_mv l) nearest_matches total_matches in
        Some (mkMvContexts z new_mv_context reference_mv_context)
    | _, _ => None
    end in
  let p := pp s in
  mret (contexts,
        mkPredictionParameters (ref_mv_stack p) (weight_index_stack p)
          (nearest_mv_count p) (num_mv_found s) (global_mv p)).

(** *** Warp samples *)

(** [*num_warp_samples], [*num_samples_scanned] and
    [candidates[kMaxLeastSquaresSamples][4]]. *)
Record WarpSamples := mkWarpSamples {
  num_warp_samples : Z;
  num_samples_scanned : Z;
  candidates : list (list Z)
}.

(** 7.10.4.2. *)
Definition AddSample (delta_row delta_column : Z) (w : WarpSamples)
  : result WarpSamples :=
  if kMaxLeastSquaresSamples K <=? num_samples_scanned w then mret w
  else
    let mv_row := row4x4 block + delta_row in
    let mv_column := column4x4 block + delta_column in
    if negb (IsInside (tile block) mv_row mv_column)
       || negb (HasParameters (tile block) mv_row mv_column)
    then mret w
    else
      let bp' := Parameters (tile block) mv_row mv_column in
      if negb (fst (reference_frame bp') =? fst (reference_frame (bp block)))
         || negb (snd (reference_frame bp') =? kReferenceFrameNone)
      then mret w
      else
        let scanned := num_samples_scanned w + 1 in
        let candidate_height4x4 := kNum4x4BlocksHigh K (size bp') in
        let candidate_row :=
          Z.land mv_row (Z.lnot (candidate_height4x4 - 1)) in
        let candidate_width4x4 := kNum4x4BlocksWide K (size bp') in
        let candidate_column :=
          Z.land mv_column (Z.lnot (candidate_width4x4 - 1)) in
        let candidate_bp :=
          Parameters (tile block) candidate_row candidate_column in
        let mv_diff_row :=
          Z.abs (mv_kRow (mv0 (mv candidate_bp))
                 - mv_kRow (mv0 (mv (bp block)))) in
        let mv_diff_column :=
          Z.abs (mv_kColumn (mv0 (mv candidate_bp))
                 - mv_kColumn (mv0 (mv (bp block)))) in
        let is_valid :=
          mv_diff_row + mv_diff_column
          <=? kWarpValidThreshold !!! Z.to_nat (block_size block) in
        if negb is_valid && (1 <? scanned)
        then mret (mkWarpSamples (num_warp_samples w) scanned (candidates w))
        else
          let mid_y :=
            MultiplyBy4 K candidate_row
            + MultiplyBy2 K candidate_height4x4 - 1 in
          let mid_x :=
            MultiplyBy4 K candidate_column
            + MultiplyBy2 K candidate_width4x4 - 1 in
          c ← store_at (candidates w) (num_warp_samples w)
                [MultiplyBy8 K mid_y;
                 MultiplyBy8 K mid_x;
                 MultiplyBy8 K mid_y + mv_kRow (mv0 (mv candidate_bp));
                 MultiplyBy8 K mid_x + mv_kColumn (mv0 (mv candidate_bp))];
          mret (mkWarpSamples
                  (if is_valid then num_warp_samples w + 1
                   else num_warp_samples w)
                  scanned c).

(** The [for] loop over the row above ([along_row] true) or the column to
    the left of the block, whose stride [step] is set by each iteration. *)
Fixpoint FindWarpSamples_loop (fuel : nat) (along_row : bool) (i bound : Z)
    (w : WarpSamples) : result WarpSamples :=
  if negb (i <? bound) then mret w
  else
    match fuel with
    | O => Unfinished
    | S f =>
        let source_size :=
          if along_row
          then size (Parameters (tile block) (row4x4 block - 1)
                       (column4x4 block + i))
          else size (Parameters (tile block) (row4x4 block + i)
                       (column4x4 block - 1)) in
        let step :=
          if along_row
          then Z.min (width4x4 block) (kNum4x4BlocksWide K source_size)
          else Z.min (height4x4 block) (kNum4x4BlocksHigh K source_size) in
        w ← (if along_row then AddSample (-1) i w else AddSample i (-1) w);
        FindWarpSamples_loop f along_row (i + step) bound w
    end.

(** [FindWarpSamples] up to its last statement. *)
Definition FindWarpSamples_scan (w : WarpSamples) : result WarpSamples :=
  let top_left := true in
  let top_right := true in
  '(top_left, top_right, w) ←
    (if top_available block then
       let source_size :=
         size (Parameters (tile block) (row4x4 block - 1) (column4x4 block)) in
       let source_width4x4 := kNum4x4BlocksWide K source_size in
       if width4x4 block <=? source_width4x4 then
         let column_offset :=
           - Z.land (column4x4 block) (source_width4x4 - 1) in
         let top_left := if column_offset <? 0 then false else top_left in
         let top_right :=
           if width4x4 block <? column_offset + source_width4x4
           then false else top_right in
         w ← AddSample (-1) 0 w;
         mret (top_left, top_right, w)
       else
         w ← FindWarpSamples_loop (Z.to_nat (width4x4 block)) true 0
               (Z.min (width4x4 block) (columns4x4 fh - column4x4 block)) w;
         mret (top_left, top_right, w)
     else mret (top_left, top_right, w));
  '(top_left, w) ←
    (if left_available block then
       let source_size :=
         size (Parameters (tile block) (row4x4 block) (column4x4 block - 1)) in
       let source_height4x4 := kNum4x4BlocksHigh K source_size in
       if height4x4 block <=? source_height4x4 then
         let row_offset := - Z.land (row4x4 block) (source_height4x4 - 1) in
         let top_left := if row_offset <? 0 then false else top_left in
         w ← AddSample 0 (-1) w;
         mret (top_left, w)
       else
         w ← FindWarpSamples_loop (Z.to_nat (height4x4 block)) false 0
               (Z.min (height4x4 block) (rows4x4 fh - row4x4 block)) w;
         mret (top_left, w)
     else mret (top_left, w));
  w ← (if top_left : bool then AddSample (-1) (-1) w else mret w);
  if top_right && (block_size block <=? kBlock64x64 K)
  then AddSample (-1) (width4x4 block) w
  else mret w.

(** [FindWarpSamples]. *)
Definition FindWarpSamples (w : WarpSamples) : result WarpSamples :=
  w ← FindWarpSamples_scan w;
  mret (if (num_warp_samples w =? 0) && (0 <? num_samples_scanned w)
        then mkWarpSamples 1 (num_samples_scanned w) (candidates w)
        else w).
End Model.

(** *** Reasoning about outcomes *)

(** [r] is a defined result that satisfies [P]. *)
Definition yields {A} (r : result A) (P : A -> Prop) : Prop :=
  exists a, r = Ok a /\ P a.

Lemma yields_ret {A} (a : A) (P : A -> Prop) : P a -> yields (mret a) P.
Proof. intros H. exists a. split; [reflexivity | exact H]. Qed.

Lemma yields_bind {A B} (r : result A) (f : A -> result B)
    (P : A -> Prop) (Q : B -> Prop) :
  yields r P -> (forall a, P a -> yields (f a) Q) -> yields (r ≫= f) Q.
Proof. intros (a & -> & Ha) Hf. exact (Hf a Ha). Qed.

Lemma yields_impl {A} (r : result A) (P Q : A -> Prop) :
  yields r P -> (forall a, P a -> Q a) -> yields r Q.
Proof. intros (a & -> & Ha) H. exists a. auto. Qed.

Lemma store_at_yields {A} (array : list A) i v (P : list A -> Prop) :
  0 <= i < Z.of_nat (length array) ->
  P (<[Z.to_nat i := v]> array) ->
  yields (store_at array i v) P.
Proof.
  intros Hi HP. unfold store_at.
  destruct (Z.leb_spec 0 i); [| lia].
  destruct (Z.ltb_spec i (Z.of_nat (length array))); [| lia].
  exists (<[Z.to_nat i := v]> array). split; [reflexivity | exact HP].
Qed.

Lemma find_if_bound {A} (pred : A -> bool) array count i :
  find_if pred array count = Some i ->
  0 <= i < Z.of_nat count /\ i < Z.of_nat (length array).
Proof.
  revert array i. induction count as [| k IH]; intros array i;
    [destruct array; discriminate |].
  destruct array as [| x rest]; [discriminate |].
  simpl. destruct (pred x).
  - intros [= <-]. lia.
  - destruct (find_if pred rest k) as [j |] eqn:E; [| discriminate].
    intros [= <-]. specialize (IH rest j E). lia.
Qed.

(** A counted loop whose body keeps an invariant finishes, given a positive
    stride and one unit of fuel per index below the bound. *)
Lemma for_loop_yields {S} (Inv : S -> Prop) fuel i bound step body (s : S) :
  1 <= step ->
  bound - i <= Z.of_nat fuel ->
  (forall j t, i <= j < bound -> Inv t -> yields (body j t) Inv) ->
  Inv s ->
  yields (for_loop fuel i bound step body s) Inv.
Proof.
  intros Hstep. revert i s.
  induction fuel as [| f IH]; intros i s Hfuel Hbody Hs; cbn [for_loop].
  - destruct (Z.ltb_spec i bound); [lia |]. now apply yields_ret.
  - destruct (Z.ltb_spec i bound); [| now apply yields_ret].
    eapply yields_bind; [apply Hbody; [lia | exact Hs] |].
    intros t Ht. apply IH; [lia | | exact Ht].
    intros j u Hj. apply Hbody. lia.
Qed.

Section Invariants.
Variable K : Constants.
Variable block : Block.

(** Both stacks are the arrays of [kMaxRefMvStackSize] entries that
    [PredictionParameters] declares. *)
Definition stack_ok (p : PredictionParameters) : Prop :=
  Z.of_nat (length (ref_mv_stack p)) = kMaxRefMvStackSize
  /\ Z.of_nat (length (weight_index_stack p)) = kMaxRefMvStackSize.

Definition search_ok (s : Search) : Prop :=
  0 <= num_mv_found s <= kMaxRefMvStackSize /\ stack_ok (pp s).

(** [s'] is a later state of the search [s]: still within capacity, no
    candidate lost, [nearest_mv_count] untouched. *)
Definition advances (s s' : Search) : Prop :=
  search_ok s'
  /\ num_mv_found s <= num_mv_found s'
  /\ nearest_mv_count (pp s') = nearest_mv_count (pp s)
  /\ global_mv (pp s') = global_mv (pp s).

Lemma advances_refl s : search_ok s -> advances s s.
Proof. intros H. repeat split; try apply H; lia. Qed.

Lemma advances_trans s1 s2 s3 :
  advances s1 s2 -> advances s2 s3 -> advances s1 s3.
Proof.
  intros (_ & H12 & Hn12 & Hg12) (H3 & H23 & Hn23 & Hg23).
  repeat split; try apply H3; try lia; congruence.
Qed.

Lemma IncreaseWeight_yields p index weight :
  stack_ok p -> 0 <= index < kMaxRefMvStackSize ->
  yields (IncreaseWeight K p index weight)
    (fun p' => stack_ok p' /\ ref_mv_stack p' = ref_mv_stack p
               /\ nearest_mv_count p' = nearest_mv_count p
               /\ global_mv p' = global_mv p).
Proof.
  intros [Hs Hw] Hi. unfold IncreaseWeight.
  eapply yields_bind.
  - apply store_at_yields with (P := fun w => Z.of_nat (length w)
                                               = kMaxRefMvStackSize);
      [lia | now rewrite length_insert].
  - intros w Hlen. apply yields_ret. repeat split; assumption.
Qed.

Lemma SetWeightIndexStackEntry_yields p index weight :
  stack_ok p -> 0 <= index < kMaxRefMvStackSize ->
  yields (SetWeightIndexStackEntry K p index weight)
    (fun p' => stack_ok p' /\ ref_mv_stack p' = ref_mv_stack p
               /\ nearest_mv_count p' = nearest_mv_count p
               /\ global_mv p' = global_mv p
               /\ weight_index_stack p' !! Z.to_nat index
                  = Some (WeightIndexStackEntry K index weight)
               /\ forall j, j <> Z.to_nat index ->
                    weight_index_stack p' !! j = weight_index_stack p !! j).
Proof.
  intros [Hs Hw] Hi. unfold SetWeightIndexStackEntry.
  eapply yields_bind.
  - apply store_at_yields
      with (P := fun w => w = <[Z.to_nat index :=
                                 WeightIndexStackEntry K index weight]>
                                (weight_index_stack p));
      [lia | reflexivity].
  - intros w ->. apply yields_ret. unfold stack_ok.
    cbn [ref_mv_stack weight_index_stack nearest_mv_count global_mv].
    rewrite length_insert.
    repeat split; try assumption.
    + apply list_lookup_insert_eq. lia.
    + intros j Hj. now apply list_lookup_insert_ne.
Qed.

Lemma set_ref_mv_yields p index candidate :
  stack_ok p -> 0 <= index < kMaxRefMvStackSize ->
  yields (set_ref_mv p index candidate)
    (fun p' => stack_ok p'
               /\ weight_index_stack p' = weight_index_stack p
               /\ nearest_mv_count p' = nearest_mv_count p
               /\ global_mv p' = global_mv p
               /\ ref_mv_stack p' !! Z.to_nat index = Some candidate
               /\ forall j, j <> Z.to_nat index ->
                    ref_mv_stack p' !! j = ref_mv_stack p !! j).
Proof.
  intros [Hs Hw] Hi. unfold set_ref_mv.
  eapply yields_bind.
  - apply store_at_yields
      with (P := fun st => st = <[Z.to_nat index := candidate]>
                                  (ref_mv_stack p));
      [lia | reflexivity].
  - intros st ->. apply yields_ret. unfold stack_ok.
    cbn [ref_mv_stack weight_index_stack nearest_mv_count global_mv].
    rewrite length_insert.
    repeat split; try assumption.
    + apply list_lookup_insert_eq. lia.
    + intros j Hj. now apply list_lookup_insert_ne.
Qed.

(** Appending or re-weighting a candidate keeps the search within
    capacity. *)
Lemma add_candidate_yields same candidate_mv weight s :
  search_ok s -> yields (add_candidate K same candidate_mv weight s) (advances s).
Proof.
  intros Hok. pose proof Hok as [Hn Hst]. unfold add_candidate.
  destruct (find_if same _ _) as [position |] eqn:Hfind.
  - apply find_if_bound in Hfind.
    eapply yields_bind;
      [apply IncreaseWeight_yields; [exact Hst | lia] |].
    intros p (Hp & _ & Hnear & Hg). apply yields_ret.
    repeat split; cbn; try apply Hp; try lia; assumption.
  - destruct (Z.leb_spec kMaxRefMvStackSize (num_mv_found s)).
    + apply yields_ret. now apply advances_refl.
    + eapply yields_bind;
        [apply set_ref_mv_yields; [exact Hst | lia] |].
      intros p (Hp & _ & Hnear & Hg & _).
      eapply yields_bind;
        [apply SetWeightIndexStackEntry_yields; [exact Hp | lia] |].
      intros p' (Hp' & _ & Hnear' & Hg' & _). apply yields_ret.
      repeat split; cbn; try apply Hp'; try lia; congruence.
Qed.

Lemma SearchStack_yields is_compound mv_bp index weight s :
  search_ok s ->
  yields (SearchStack K block is_compound mv_bp index weight s) (advances s).
Proof.
  intros Hok. unfold SearchStack.
  eapply yields_impl; [apply add_candidate_yields; exact Hok |].
  intros s' H. exact H.
Qed.

Lemma AddReferenceMvCandidate_yields mv_bp is_compound weight s :
  search_ok s ->
  yields (AddReferenceMvCandidate K block mv_bp is_compound weight s)
    (advances s).
Proof.
  intros Hok. unfold AddReferenceMvCandidate.
  destruct (negb (is_inter mv_bp));
    [apply yields_ret; now apply advances_refl |].
  destruct is_compound.
  - destruct (_ && _);
      [now apply SearchStack_yields
      | apply yields_ret; now apply advances_refl].
  - apply for_loop_yields; [lia | simpl; lia | | now apply advances_refl].
    intros j t _ Ht. destruct (_ =? _).
    + eapply yields_impl; [apply SearchStack_yields, Ht |].
      intros t'. now apply advances_trans.
    + now apply yields_ret.
Qed.

(** The block-size tables hold positive counts and the block is not
    empty: what makes every data-dependent stride positive. *)
Hypothesis wide_positive : forall sz, 1 <= kNum4x4BlocksWide K sz.
Hypothesis high_positive : forall sz, 1 <= kNum4x4BlocksHigh K sz.
Hypothesis width4x4_positive : 1 <= width4x4 block.
Hypothesis height4x4_positive : 1 <= height4x4 block.

Lemma ScanRow_loop_yields fuel offset mv_row mv_column min_step end_bps
    is_compound s :
  (1 <= fuel)%nat -> end_bps - offset <= Z.of_nat fuel -> 0 <= min_step ->
  search_ok s ->
  yields (ScanRow_loop K block fuel offset mv_row mv_column min_step end_bps
            is_compound s)
    (advances s).
Proof.
  revert offset s. induction fuel as [| f IH]; intros offset s Hf Hend Hmin Hok;
    [lia |].
  cbn [ScanRow_loop].
  eapply yields_bind; [apply AddReferenceMvCandidate_yields, Hok |].
  intros s1 H1.
  set (step := Z.max _ min_step).
  assert (1 <= step).
  { unfold step. pose proof (wide_positive (size (Parameters (tile block)
      mv_row (mv_column + offset)))). lia. }
  destruct (Z.ltb_spec (offset + step) end_bps).
  - eapply yields_impl; [apply IH; try lia; apply H1 |].
    intros s2. now apply advances_trans.
  - now apply yields_ret.
Qed.

Lemma GetMinimumStep_nonneg a b : 0 <= GetMinimumStep a b.
Proof.
  unfold GetMinimumStep. destruct (16 <=? a); [lia |].
  destruct (b <? -1); lia.
Qed.

Lemma ScanRow_yields mv_column delta_row is_compound s :
  search_ok s ->
  yields (ScanRow K block mv_column delta_row is_compound s) (advances s).
Proof.
  intros Hok. unfold ScanRow.
  destruct (negb _); [apply yields_ret; now apply advances_refl |].
  apply ScanRow_loop_yields;
    [lia | simpl; lia | apply GetMinimumStep_nonneg | exact Hok].
Qed.

Lemma ScanColumn_loop_yields fuel offset mv_row mv_column min_step end_bps
    is_compound s :
  (1 <= fuel)%nat -> end_bps - offset <= Z.of_nat fuel -> 0 <= min_step ->
  search_ok s ->
  yields (ScanColumn_loop K block fuel offset mv_row mv_column min_step
            end_bps is_compound s)
    (advances s).
Proof.
  revert offset s. induction fuel as [| f IH]; intros offset s Hf Hend Hmin Hok;
    [lia |].
  cbn [ScanColumn_loop].
  eapply yields_bind; [apply AddReferenceMvCandidate_yields, Hok |].
  intros s1 H1.
  set (step := Z.max _ min_step).
  assert (1 <= step).
  { unfold step. pose proof (high_positive (size (Parameters (tile block)
      (mv_row + offset) mv_column))). lia. }
  destruct (Z.ltb_spec (offset + step) end_bps).
  - eapply yields_impl; [apply IH; try lia; apply H1 |].
    intros s2. now apply advances_trans.
  - now apply yields_ret.
Qed.

Lemma ScanColumn_yields mv_row delta_column is_compound s :
  search_ok s ->
  yields (ScanColumn K block mv_row delta_column is_compound s) (advances s).
Proof.
  intros Hok. unfold ScanColumn.
  destruct (negb _); [apply yields_ret; now apply advances_refl |].
  apply ScanColumn_loop_yields;
    [lia | simpl; lia | apply GetMinimumStep_nonneg | exact Hok].
Qed.

Lemma ScanPoint_yields delta_row delta_column is_compound s :
  search_ok s ->
  yields (ScanPoint K block delta_row delta_column is_compound s)
    (advances s).
Proof.
  intros Hok. unfold ScanPoint.
  destruct (_ || _); [apply yields_ret; now apply advances_refl |].
  destruct (_ =? _); [apply yields_ret; now apply advances_refl |].
  now apply AddReferenceMvCandidate_yields.
Qed.

Lemma set_zero_mv_context_advances s z :
  search_ok s -> advances s (set_zero_mv_context s z).
Proof. intros H. repeat split; cbn; try apply H; lia. Qed.

Lemma AddTemporalReferenceMvCandidate_yields delta_row delta_column
    is_compound motion_field s :
  search_ok s ->
  yields (AddTemporalReferenceMvCandidate K block delta_row delta_column
            is_compound motion_field s)
    (advances s).
Proof.
  intros Hok. unfold AddTemporalReferenceMvCandidate.
  destruct (negb _); [apply yields_ret; now apply advances_refl |].
  set (s1 := if _ && _ then set_zero_mv_context s 1 else s).
  assert (H1 : advances s s1).
  { unfold s1. destruct (_ && _);
      [now apply set_zero_mv_context_advances | now apply advances_refl]. }
  destruct (_ =? kInvalidMvValue K); [now apply yields_ret |].
  destruct is_compound.
  - match goal with
    | |- yields (add_candidate _ _ _ _ ?t) _ =>
        assert (H2 : advances s1 t)
    end.
    { destruct (_ && _);
        [apply set_zero_mv_context_advances | apply advances_refl];
        apply H1. }
    eapply yields_impl; [apply add_candidate_yields, H2 |].
    intros s3 H3. eauto using advances_trans.
  - match goal with
    | |- yields (add_candidate _ _ _ _ ?t) _ =>
        assert (H2 : advances s1 t)
    end.
    { destruct (_ && _);
        [apply set_zero_mv_context_advances | apply advances_refl];
        apply H1. }
    eapply yields_impl; [apply add_candidate_yields, H2 |].
    intros s3 H3. eauto using advances_trans.
Qed.

Lemma TemporalScan_yields is_compound motion_field s :
  search_ok s ->
  yields (TemporalScan K block is_compound motion_field s) (advances s).
Proof.
  intros Hok. unfold TemporalScan.
  eapply yields_bind.
  - apply for_loop_yields with (Inv := advances s);
      [destruct (16 <=? _); lia | simpl; lia | | now apply advances_refl].
    intros row t _ Ht.
    apply for_loop_yields with (Inv := advances s);
      [destruct (16 <=? _); lia | simpl; lia | | exact Ht].
    intros column u _ Hu.
    eapply yields_impl;
      [apply AddTemporalReferenceMvCandidate_yields, Hu |].
    intros u'. now apply advances_trans.
  - intros s1 H1. destruct (kTemporalScanMask K _); [| now apply yields_ret].
    cbn [foldl].
    repeat match goal with
           | |- yields (_ ≫= _) _ => eapply yields_bind
           | |- yields (mret _) _ => apply yields_ret; eassumption
           | |- yields (if ?c then _ else _) _ => destruct c
           | |- yields (AddTemporalReferenceMvCandidate _ _ _ _ _ _ ?t) _ =>
               eapply yields_impl;
               [ apply AddTemporalReferenceMvCandidate_yields;
                 match goal with H : advances _ t |- _ => apply H end
               | intros ? ?; eapply advances_trans; eassumption ]
           | |- forall _, _ -> _ => intros ? ?
           end.
Qed.

(** *** The extra search *)

(** The local arrays of [ExtraSearch] have their declared shape and the
    counts stay within them. *)
Definition counts_ok (count : list Z) (table : list (list MotionVector))
  : Prop :=
  length count = 2%nat /\ Forall (fun c => 0 <= c <= 2) count
  /\ length table = 2%nat /\ Forall (fun row => length row = 2%nat) table.

Definition extra_ok (e : ExtraCompound) : Prop :=
  counts_ok (ref_id_count e) (ref_id e)
  /\ counts_ok (ref_diff_count e) (ref_diff e).

Lemma ExtraCompound_init_ok : extra_ok ExtraCompound_init.
Proof.
  unfold extra_ok, counts_ok, ExtraCompound_init. cbn.
  repeat split; repeat constructor; lia.
Qed.

Lemma push_at_yields count table j mv :
  counts_ok count table -> 0 <= j < 2 -> count !!! Z.to_nat j < 2 ->
  yields (push_at count table j mv)
    (fun '(count', table') => counts_ok count' table').
Proof.
  intros (Hc & Hcr & Ht & Htr) Hj Hlt. unfold push_at.
  assert (Hjn : (Z.to_nat j < 2)%nat) by lia.
  pose proof (Forall_lookup_total_1 _ count (Z.to_nat j) Hcr
                ltac:(lia)) as Hcj.
  pose proof (Forall_lookup_total_1 _ table (Z.to_nat j) Htr
                ltac:(lia)) as Htj.
  cbn beta in Hcj, Htj.
  eapply yields_bind.
  { apply store_at_yields
      with (P := fun row => length row = 2%nat);
      [lia | now rewrite length_insert]. }
  intros row Hrow.
  eapply yields_bind.
  { apply store_at_yields
      with (P := fun t => length t = 2%nat
                          /\ Forall (fun row => length row = 2%nat) t);
      [lia |].
    split; [now rewrite length_insert | now apply Forall_insert]. }
  intros table' [Ht' Htr'].
  eapply yields_bind.
  { apply store_at_yields
      with (P := fun c => length c = 2%nat
                          /\ Forall (fun c => 0 <= c <= 2) c);
      [lia |].
    split; [now rewrite length_insert | apply Forall_insert; [exact Hcr | lia]]. }
  intros count' [Hc' Hcr']. apply yields_ret. repeat split; assumption.
Qed.

Lemma AddExtraCompoundMvCandidate_yields mv_row mv_column bias e :
  extra_ok e ->
  yields (AddExtraCompoundMvCandidate block mv_row mv_column bias e) extra_ok.
Proof.
  intros He. unfold AddExtraCompoundMvCandidate.
  apply for_loop_yields; [lia | simpl; lia | | exact He].
  intros i e1 _ He1. destruct (_ <=? kReferenceFrameIntra);
    [now apply yields_ret |].
  apply for_loop_yields; [lia | simpl; lia | | exact He1].
  intros j e2 Hj [Hid Hdiff].
  destruct (_ && _) eqn:Hsame.
  - apply andb_true_iff in Hsame as [_ Hlt]. apply Z.ltb_lt in Hlt.
    eapply yields_bind; [apply push_at_yields; [exact Hid | lia | exact Hlt] |].
    intros [count table] Hct. apply yields_ret. split; assumption.
  - destruct (ref_diff_count e2 !!! Z.to_nat j <? 2) eqn:Hlt;
      [| apply yields_ret; now split].
    apply Z.ltb_lt in Hlt.
    eapply yields_bind;
      [apply push_at_yields; [exact Hdiff | lia | exact Hlt] |].
    intros [count table] Hct. apply yields_ret. split; assumption.
Qed.

(** [s'] comes from [s] by at most [k] appended candidates. *)
Definition grows (k : Z) (s s' : Search) : Prop :=
  stack_ok (pp s')
  /\ num_mv_found s <= num_mv_found s' <= num_mv_found s + k
  /\ nearest_mv_count (pp s') = nearest_mv_count (pp s)
  /\ global_mv (pp s') = global_mv (pp s).

Lemma grows_refl s : stack_ok (pp s) -> grows 0 s s.
Proof. intros H. repeat split; try apply H; lia. Qed.

Lemma grows_trans j k s1 s2 s3 :
  grows j s1 s2 -> grows k s2 s3 -> grows (j + k) s1 s3.
Proof.
  intros (_ & H12 & Hn12 & Hg12) (H3 & H23 & Hn23 & Hg23).
  repeat split; try apply H3; try lia; congruence.
Qed.

Lemma grows_weaken j k s s' : j <= k -> grows j s s' -> grows k s s'.
Proof.
  intros Hjk (H1 & H2 & H3 & H4). repeat split; try apply H1; try lia;
    assumption.
Qed.

Lemma AddExtraSingleMvCandidate_yields mv_row mv_column bias s :
  stack_ok (pp s) -> 0 <= num_mv_found s < 2 ->
  yields (AddExtraSingleMvCandidate K block mv_row mv_column bias s)
    (grows 2 s).
Proof.
  intros Hst Hn. unfold AddExtraSingleMvCandidate.
  assert (Hbody : forall i t,
             stack_ok (pp t) -> 0 <= num_mv_found t <= 2 ->
             yields
               ((fun i s =>
                   let candidate_reference_frame :=
                     nth_ref
                       (reference_frame
                          (Parameters (tile block) mv_row mv_column)) i in
                   if candidate_reference_frame <=? kReferenceFrameIntra
                   then mret s
                   else
                     let candidate_mv :=
                       nth_mv (mv (Parameters (tile block) mv_row mv_column))
                         i in
                     let candidate_mv :=
                       if negb (Bool.eqb (bias candidate_reference_frame)
                                  (bias (fst (reference_frame (bp block)))))
                       then negate_mv candidate_mv else candidate_mv in
                     let stack := ref_mv_stack (pp s) in
                     if (negb (num_mv_found s =? 0)
                         && MotionVector_eqb (mv0 (stack !!! 0%nat))
                              candidate_mv)
                        || ((num_mv_found s =? 2)
                            && MotionVector_eqb (mv0 (stack !!! 1%nat))
                                 candidate_mv)
                     then mret s
                     else
                       p ← set_ref_mv (pp s) (num_mv_found s)
                             (mkCandidate candidate_mv MotionVector_zero);
                       p ← SetWeightIndexStackEntry K p (num_mv_found s) 0;
                       mret (set_num_mv_found (set_pp s p)
                               (num_mv_found s + 1))) i t)
               (grows 1 t)).
  { intros i t Ht Hnt. cbv beta zeta.
    destruct (_ <=? kReferenceFrameIntra);
      [apply yields_ret, grows_weaken with (j := 0);
       [lia | now apply grows_refl] |].
    destruct (_ || _);
      [apply yields_ret, grows_weaken with (j := 0);
       [lia | now apply grows_refl] |].
    eapply yields_bind;
      [apply set_ref_mv_yields; [exact Ht | unfold kMaxRefMvStackSize; lia] |].
    intros p (Hp & _ & Hnear & Hg & _).
    eapply yields_bind;
      [apply SetWeightIndexStackEntry_yields;
       [exact Hp | unfold kMaxRefMvStackSize; lia] |].
    intros p' (Hp' & _ & Hnear' & Hg' & _). apply yields_ret.
    repeat split; cbn; try apply Hp'; try lia; congruence. }
  cbn [for_loop]. change (0 <? 2) with true. cbv iota.
  eapply yields_bind; [apply Hbody; [exact Hst | lia] |].
  intros s1 H1. change (0 + 1 <? 2) with true. cbv iota.
  eapply yields_bind; [apply Hbody; [apply H1 | destruct H1 as (_ & ? & _); lia] |].
  intros s2 H2. change (0 + 1 + 1 <? 2) with false. cbv iota.
  apply yields_ret. exact (grows_trans 1 1 _ _ _ H1 H2).
Qed.

(** One pass of the extra search: the neighbour walk ends, the local
    arrays keep their shape, at most three candidates are on the stack
    afterwards, and compound prediction leaves the stack alone. *)
Lemma ExtraSearch_pass_yields fuel pass i num4x4 is_compound bias e s :
  num4x4 - i <= Z.of_nat fuel ->
  extra_ok e -> stack_ok (pp s) -> 0 <= num_mv_found s < 2 ->
  yields (ExtraSearch_pass K block fuel pass i num4x4 is_compound bias e s)
    (fun '(e', s') =>
       extra_ok e' /\ grows 3 s s' /\ num_mv_found s' <= 3
       /\ (is_compound = true -> s' = s)).
Proof.
  assert (Hdone : forall e s, extra_ok e -> stack_ok (pp s) ->
             0 <= num_mv_found s < 2 ->
             extra_ok e /\ grows 3 s s /\ num_mv_found s <= 3
             /\ (is_compound = true -> s = s)).
  { intros e0 s0 He0 Hs0 Hn0. split; [exact He0 |].
    split; [| split; [lia | reflexivity]].
    apply grows_weaken with (j := 0); [lia | now apply grows_refl]. }
  revert i e s. induction fuel as [| f IH]; intros i e s Hfuel He Hst Hn.
  - cbn [ExtraSearch_pass]. destruct (Z.ltb_spec i num4x4); [lia |].
    apply yields_ret. now apply Hdone.
  - cbn [ExtraSearch_pass]. destruct (Z.ltb_spec i num4x4); cbn [negb];
      [| apply yields_ret; now apply Hdone].
    destruct (negb (IsTopLeftInside _ _ _));
      [apply yields_ret; now apply Hdone |].
    set (mv_row := row4x4 block + _). set (mv_column := column4x4 block + _).
    set (incr := if pass =? 0 then _ else _).
    assert (Hincr : 1 <= incr).
    { unfold incr. destruct (pass =? 0);
        [apply wide_positive | apply high_positive]. }
    destruct is_compound.
    + eapply yields_bind.
      { eapply yields_bind;
          [apply AddExtraCompoundMvCandidate_yields, He |].
        intros e1 He1.
        apply yields_ret with (P := fun '(e', s', stop) =>
                                      extra_ok e' /\ s' = s /\ stop = false).
        auto. }
      intros [[e1 s1] stop] (He1 & -> & ->).
      eapply yields_impl; [apply IH; try assumption; lia |].
      intros [e2 s2] H2. exact H2.
    + eapply yields_bind.
      { eapply yields_bind;
          [apply AddExtraSingleMvCandidate_yields; assumption |].
        intros s1 H1.
        apply yields_ret with (P := fun '(e', s', stop) =>
                                      e' = e /\ grows 2 s s'
                                      /\ stop = (2 <=? num_mv_found s')).
        auto. }
      intros [[e1 s1] stop] (-> & H1 & ->).
      pose proof H1 as (Hst1 & Hn1 & Hnear1 & Hg1).
      destruct (Z.leb_spec 2 (num_mv_found s1)).
      * apply yields_ret. split; [exact He |].
        split; [apply grows_weaken with (j := 2); [lia | exact H1] |].
        split; [lia | discriminate].
      * eapply yields_impl; [apply IH; try assumption; lia |].
        intros [e2 s2] (He2 & (Hst2 & Hn2 & Hnear2 & Hg2) & Hle2 & _).
        split; [exact He2 |]. split; [| split; [lia | discriminate]].
        repeat split; try apply Hst2; try lia; congruence.
Qed.

Lemma ExtraSearch_passes_yields is_compound bias s :
  stack_ok (pp s) -> 0 <= num_mv_found s < 2 ->
  yields (ExtraSearch_passes K block is_compound bias s)
    (fun '(e', s') =>
       extra_ok e' /\ grows 3 s s' /\ num_mv_found s' <= 3
       /\ (is_compound = true -> s' = s)).
Proof.
  intros Hst Hn. unfold ExtraSearch_passes.
  set (num4x4 := Z.min _ 16).
  destruct (Z.ltb_spec (num_mv_found s) 2); [| lia].
  eapply yields_bind.
  { apply ExtraSearch_pass_yields;
      [unfold num4x4; simpl; lia | apply ExtraCompound_init_ok
      | exact Hst | exact Hn]. }
  intros [e1 s1] (He1 & H1 & Hle1 & Hc1).
  pose proof H1 as (Hst1 & Hn1 & Hnear1 & Hg1).
  destruct (Z.ltb_spec (num_mv_found s1) 2).
  - eapply yields_impl;
      [apply ExtraSearch_pass_yields;
       [unfold num4x4; simpl; lia | exact He1 | exact Hst1 | lia] |].
    intros [e2 s2] (He2 & (Hst2 & Hn2 & Hnear2 & Hg2) & Hle2 & Hc2).
    split; [exact He2 |]. split; [| split; [exact Hle2 |]].
    + repeat split; try apply Hst2; try lia; congruence.
    + intros Hc. rewrite (Hc2 Hc). now apply Hc1.
  - apply yields_ret. repeat split; try apply Hst1; try lia; try assumption;
      apply He1.
Qed.

Lemma ExtraSearch_merge_compound_yields e s :
  stack_ok (pp s) -> 0 <= num_mv_found s < 2 ->
  yields (ExtraSearch_merge_compound K e s)
    (fun s' => stack_ok (pp s') /\ num_mv_found s' = 2
               /\ nearest_mv_count (pp s') = nearest_mv_count (pp s)
               /\ global_mv (pp s') = global_mv (pp s)).
Proof.
  intros Hst Hn. unfold ExtraSearch_merge_compound.
  destruct (combined_mvs e (global_mv (pp s))) as [combined0 combined1].
  eapply yields_bind
    with (P := fun p => stack_ok p
                        /\ nearest_mv_count p = nearest_mv_count (pp s)
                        /\ global_mv p = global_mv (pp s)).
  - destruct (num_mv_found s =? 1).
    + eapply yields_bind;
        [apply set_ref_mv_yields; [exact Hst | unfold kMaxRefMvStackSize; lia] |].
      intros p (Hp & _ & Hnear & Hg & _).
      eapply yields_impl;
        [apply SetWeightIndexStackEntry_yields;
         [exact Hp | unfold kMaxRefMvStackSize; lia] |].
      intros p' (Hp' & _ & Hnear' & Hg' & _).
      split; [exact Hp' | split; congruence].
    + eapply yields_bind;
        [apply set_ref_mv_yields; [exact Hst | unfold kMaxRefMvStackSize; lia] |].
      intros p1 (Hp1 & _ & Hnear1 & Hg1 & _).
      eapply yields_bind;
        [apply SetWeightIndexStackEntry_yields;
         [exact Hp1 | unfold kMaxRefMvStackSize; lia] |].
      intros p2 (Hp2 & _ & Hnear2 & Hg2 & _).
      eapply yields_bind;
        [apply set_ref_mv_yields; [exact Hp2 | unfold kMaxRefMvStackSize; lia] |].
      intros p3 (Hp3 & _ & Hnear3 & Hg3 & _).
      eapply yields_impl;
        [apply SetWeightIndexStackEntry_yields;
         [exact Hp3 | unfold kMaxRefMvStackSize; lia] |].
      intros p4 (Hp4 & _ & Hnear4 & Hg4 & _).
      split; [exact Hp4 | split; congruence].
  - intros p (Hp & Hnear & Hg). apply yields_ret.
    repeat split; cbn; try apply Hp; assumption.
Qed.

(** What the single-prediction fill promises about slot [i]. *)
Definition filled_with_global (g : MotionVector) (p' : PredictionParameters)
    (i : Z) : Prop :=
  mv0 (ref_mv_stack p' !!! Z.to_nat i) = g
  /\ weight_index_stack p' !! Z.to_nat i = Some (WeightIndexStackEntry K i 0).

Lemma fill_slot_yields p i :
  stack_ok p -> 0 <= i < 2 ->
  yields
    (p1 ← set_ref_mv p i
            (mkCandidate (fst (global_mv p))
                         (mv1 (ref_mv_stack p !!! Z.to_nat i)));
     SetWeightIndexStackEntry K p1 i 0)
    (fun p' =>
       stack_ok p'
       /\ nearest_mv_count p' = nearest_mv_count p
       /\ global_mv p' = global_mv p
       /\ filled_with_global (fst (global_mv p)) p' i
       /\ forall j, j <> Z.to_nat i ->
            ref_mv_stack p' !! j = ref_mv_stack p !! j
            /\ weight_index_stack p' !! j = weight_index_stack p !! j).
Proof.
  intros Hst Hi.
  eapply yields_bind;
    [apply set_ref_mv_yields; [exact Hst | unfold kMaxRefMvStackSize; lia] |].
  intros p1 (Hp1 & Hw1 & Hnear1 & Hg1 & Hat1 & Hother1).
  eapply yields_impl;
    [apply SetWeightIndexStackEntry_yields;
     [exact Hp1 | unfold kMaxRefMvStackSize; lia] |].
  intros p2 (Hp2 & Hs2 & Hnear2 & Hg2 & Hat2 & Hother2).
  split; [exact Hp2 |]. split; [congruence |]. split; [congruence |].
  split.
  - split; [| exact Hat2].
    rewrite Hs2. now rewrite (list_lookup_total_correct _ _ _ Hat1).
  - intros j Hj. split.
    + rewrite Hs2. now apply Hother1.
    + rewrite (Hother2 j Hj). now rewrite Hw1.
Qed.

Lemma ExtraSearch_fill_single_yields s :
  stack_ok (pp s) -> 0 <= num_mv_found s ->
  yields (ExtraSearch_fill_single K s)
    (fun s' =>
       stack_ok (pp s')
       /\ num_mv_found s' = num_mv_found s
       /\ nearest_mv_count (pp s') = nearest_mv_count (pp s)
       /\ global_mv (pp s') = global_mv (pp s)
       /\ forall i, num_mv_found s <= i < 2 ->
            filled_with_global (fst (global_mv (pp s))) (pp s') i).
Proof.
  intros Hst Hn. unfold ExtraSearch_fill_single.
  assert (C : num_mv_found s = 0 \/ num_mv_found s = 1 \/ 2 <= num_mv_found s)
    by lia.
  destruct C as [E | [E | E]].
  - rewrite E. cbn [for_loop]. change (0 <? 2) with true. cbv iota.
    eapply yields_bind.
    { eapply yields_bind; [apply fill_slot_yields; [exact Hst | lia] |].
      intros p1 (Hp1 & Hnear1 & Hg1 & Hat1 & Hother1).
      change (0 + 1 <? 2) with true. cbv iota.
      eapply yields_bind; [apply fill_slot_yields; [exact Hp1 | lia] |].
      intros p2 (Hp2 & Hnear2 & Hg2 & Hat2 & Hother2).
      change (0 + 1 + 1 <? 2) with false. cbv iota.
      apply yields_ret
        with (P := fun p' =>
                     stack_ok p'
                     /\ nearest_mv_count p' = nearest_mv_count (pp s)
                     /\ global_mv p' = global_mv (pp s)
                     /\ forall i, 0 <= i < 2 ->
                          filled_with_global (fst (global_mv (pp s))) p' i).
      split; [exact Hp2 |]. split; [congruence |]. split; [congruence |].
      intros i Hi. assert (Ci : i = 0 \/ i = 1) by lia.
      destruct Ci as [-> | ->].
      - destruct Hat1 as [Hm Hw].
        destruct (Hother2 0%nat ltac:(simpl; lia)) as [Hs0 Hw0].
        split.
        + change (Z.to_nat 0) with 0%nat in *.
          rewrite !list_lookup_total_alt in *. now rewrite Hs0.
        + change (Z.to_nat 0) with 0%nat in *. now rewrite Hw0.
      - rewrite Hg1 in Hat2. exact Hat2. }
    intros p (Hp & Hnear & Hg & Hfill). apply yields_ret.
    repeat split; cbn; try apply Hp; try assumption; apply Hfill; lia.
  - rewrite E. cbn [for_loop]. change (1 <? 2) with true. cbv iota.
    eapply yields_bind.
    { eapply yields_bind; [apply fill_slot_yields; [exact Hst | lia] |].
      intros p1 (Hp1 & Hnear1 & Hg1 & Hat1 & Hother1).
      change (1 + 1 <? 2) with false. cbv iota.
      apply yields_ret
        with (P := fun p' =>
                     stack_ok p'
                     /\ nearest_mv_count p' = nearest_mv_count (pp s)
                     /\ global_mv p' = global_mv (pp s)
                     /\ filled_with_global (fst (global_mv (pp s))) p' 1).
      repeat split; try apply Hp1; try assumption; apply Hat1. }
    intros p (Hp & Hnear & Hg & Hfill). apply yields_ret.
    repeat split; cbn; try apply Hp; try assumption;
      assert (i = 1) as -> by lia; apply Hfill.
  - cbn [for_loop].
    destruct (Z.ltb_spec (num_mv_found s) 2); [lia |].
    cbn. apply yields_ret.
    repeat split; cbn; try apply Hst; try reflexivity; lia.
Qed.

(** 7.10.2.12 as a whole: it ends, the stack stays within capacity, no
    candidate is lost, and compound prediction leaves exactly two. *)
Lemma ExtraSearch_yields is_compound bias s :
  stack_ok (pp s) -> 0 <= num_mv_found s < 2 ->
  yields (ExtraSearch K block is_compound bias s)
    (fun s' =>
       grows 3 s s' /\ num_mv_found s' <= 3
       /\ (is_compound = true -> num_mv_found s' = 2)).
Proof.
  intros Hst Hn. unfold ExtraSearch.
  eapply yields_bind; [apply ExtraSearch_passes_yields; assumption |].
  intros [e1 s1] (He1 & H1 & Hle1 & Hc1).
  pose proof H1 as (Hst1 & Hn1 & Hnear1 & Hg1).
  destruct is_compound.
  - rewrite (Hc1 eq_refl).
    eapply yields_impl;
      [apply ExtraSearch_merge_compound_yields; assumption |].
    intros s2 (Hst2 & Hn2 & Hnear2 & Hg2).
    repeat split; try apply Hst2; try lia; assumption.
  - eapply yields_impl;
      [apply ExtraSearch_fill_single_yields; [exact Hst1 | lia] |].
    intros s2 (Hst2 & Hn2 & Hnear2 & Hg2 & _).
    repeat split; try apply Hst2; try lia; try congruence.
Qed.

(** *** [FindMvStack] *)

Lemma SortWeightIndexStack_length size w :
  length (SortWeightIndexStack size w) = length w.
Proof.
  unfold SortWeightIndexStack, GenericSortWeightIndexStack.
  destruct (size <=? 1); [reflexivity |].
  destruct (size <=? 3).
  - destruct (DescendingOrderTwo _ _) as [a b].
    destruct (size =? 3).
    + destruct (DescendingOrderTwo b _) as [b' c].
      destruct (DescendingOrderTwo a b') as [a' b''].
      now rewrite !length_insert.
    + now rewrite !length_insert.
  - rewrite length_app, StdSort.sort_length, length_take, length_drop. lia.
Qed.

Lemma sort_weight_index_stacks_ok num p :
  stack_ok p ->
  stack_ok (sort_weight_index_stacks num p)
  /\ nearest_mv_count (sort_weight_index_stacks num p) = nearest_mv_count p
  /\ ref_mv_stack (sort_weight_index_stacks num p) = ref_mv_stack p.
Proof.
  intros [Hs Hw]. unfold sort_weight_index_stacks, stack_ok.
  cbn [ref_mv_stack weight_index_stack nearest_mv_count].
  repeat split; try assumption.
  rewrite length_app, SortWeightIndexStack_length, length_take, length_drop,
    SortWeightIndexStack_length.
  lia.
Qed.

Definition locals_ok (l : Locals) : Prop :=
  0 <= l_num_mv_found l <= kMaxRefMvStackSize /\ stack_ok (l_pp l).

(** [l'] is a later state of the locals [l]. *)
Definition follows (l l' : Locals) : Prop :=
  locals_ok l'
  /\ l_num_mv_found l <= l_num_mv_found l'
  /\ nearest_mv_count (l_pp l') = nearest_mv_count (l_pp l)
  /\ global_mv (l_pp l') = global_mv (l_pp l).

Lemma follows_refl l : locals_ok l -> follows l l.
Proof. intros H. repeat split; try apply H; lia. Qed.

Lemma follows_trans l1 l2 l3 : follows l1 l2 -> follows l2 l3 -> follows l1 l3.
Proof.
  intros (_ & H12 & Hn12 & Hg12) (H3 & H23 & Hn23 & Hg23).
  repeat split; try apply H3; try lia; congruence.
Qed.

Lemma scan_with_yields use_new use_row scan l :
  (forall s, search_ok s -> yields (scan s) (advances s)) ->
  locals_ok l ->
  yields (scan_with use_new use_row scan l) (follows l).
Proof.
  intros Hscan Hl. unfold scan_with.
  eapply yields_bind; [apply Hscan; exact Hl |].
  intros s (Hs & Hn & Hnear & Hg). apply yields_ret.
  repeat split; cbn; try apply Hs; try lia; assumption.
Qed.

Lemma FindMvStack_scans_yields is_compound motion_field contexts p :
  stack_ok p ->
  yields (FindMvStack_scans K block is_compound motion_field contexts p)
    (fun '(nearest_matches, l) =>
       locals_ok l
       /\ 0 <= nearest_mv_count (l_pp l) <= l_num_mv_found l).
Proof.
  intros Hp. unfold FindMvStack_scans.
  set (l0 := mkLocals false false false false None 0 _).
  assert (H0 : locals_ok l0).
  { unfold l0, locals_ok, stack_ok, kMaxRefMvStackSize. cbn.
    split; [lia | exact Hp]. }
  eapply yields_bind;
    [apply scan_with_yields; [intros; now apply ScanRow_yields | exact H0] |].
  intros l1 H1.
  eapply yields_bind;
    [apply scan_with_yields;
     [intros; now apply ScanColumn_yields | apply H1] |].
  intros l2 H2.
  eapply yields_bind with (P := follows l2).
  { destruct (_ <=? 16);
      [apply scan_with_yields;
       [intros; now apply ScanPoint_yields | apply H2]
      | apply yields_ret, follows_refl, H2]. }
  intros l3 H3.
  set (l4 := mkLocals _ _ _ false _ (l_num_mv_found l3) _).
  assert (H4 : locals_ok l4
               /\ nearest_mv_count (l_pp l4) = l_num_mv_found l4).
  { unfold l4, locals_ok, stack_ok. cbn. destruct H3 as ((Hn & Hs) & _).
    repeat split; try apply Hn; apply Hs. }
  destruct H4 as [H4 Hnear4].
  eapply yields_bind with (P := follows l4).
  { destruct (use_ref_frame_mvs _);
      [apply scan_with_yields;
       [intros; now apply TemporalScan_yields | exact H4]
      | apply yields_ret, follows_refl, H4]. }
  intros l5 H5.
  eapply yields_bind;
    [apply scan_with_yields;
     [intros; now apply ScanPoint_yields | apply H5] |].
  intros l6 H6.
  assert (H46 : follows l4 l6) by (eapply follows_trans; eassumption).
  eapply yields_bind with (P := follows l4).
  { apply for_loop_yields; [lia | simpl; lia | | exact H46].
    intros i l Hi Hl.
    eapply yields_bind with (P := follows l4).
    { destruct (_ || _); [| now apply yields_ret].
      eapply yields_impl;
        [apply scan_with_yields;
         [intros; now apply ScanRow_yields | apply Hl] |].
      intros l'. now apply follows_trans. }
    intros l' Hl'.
    destruct (_ || _); [| now apply yields_ret].
    eapply yields_impl;
      [apply scan_with_yields;
       [intros; now apply ScanColumn_yields | apply Hl'] |].
    intros l''. now apply follows_trans. }
  intros l7 (Hok7 & Hn7 & Hnear7 & _). apply yields_ret.
  split; [exact Hok7 |]. rewrite Hnear7, Hnear4.
  destruct H4 as [? _]. lia.
Qed.

(** C2. For every block and every input (tile contents, headers, motion
    field, prediction mode), [FindMvStack] runs to completion without ever
    storing outside the [kMaxRefMvStackSize] = 8 slots of [ref_mv_stack]
    (the result is [Ok], neither [OutOfBounds] nor [Unfinished]), and on
    return [nearest_mv_count <= ref_mv_count <= 8]. *)
Theorem FindMvStack_capacity (is_compound : bool)
    (reference_frame_sign_bias : Z -> bool)
    (motion_field : TemporalMotionField) (contexts : option MvContexts)
    (prediction_parameters : PredictionParameters) :
  stack_ok prediction_parameters ->
  exists contexts' p,
    FindMvStack K block is_compound reference_frame_sign_bias motion_field
      contexts prediction_parameters
    = Ok (contexts', p)
    /\ Z.of_nat (length (ref_mv_stack p)) = kMaxRefMvStackSize
    /\ 0 <= nearest_mv_count p <= ref_mv_count p
    /\ ref_mv_count p <= 8.
Proof.
  intros Hp.
  assert (H : yields
                (FindMvStack K block is_compound reference_frame_sign_bias
                   motion_field contexts prediction_parameters)
                (fun '(_, p) =>
                   Z.of_nat (length (ref_mv_stack p)) = kMaxRefMvStackSize
                   /\ 0 <= nearest_mv_count p <= ref_mv_count p
                   /\ ref_mv_count p <= 8)).
  { unfold FindMvStack.
    eapply yields_bind; [apply FindMvStack_scans_yields, Hp |].
    intros [nearest_matches l] ((Hn & Hst) & Hnear).
    eapply yields_bind
      with (P := fun s => stack_ok (pp s)
                          /\ l_num_mv_found l <= num_mv_found s <= 8
                          /\ nearest_mv_count (pp s)
                             = nearest_mv_count (l_pp l)).
    - destruct (Z.ltb_spec (l_num_mv_found l) 2).
      + eapply yields_impl;
          [apply ExtraSearch_yields; [exact Hst | cbn; lia] |].
        intros s ((Hs & Hgrow & Hnear' & _) & Hle & _). cbn in Hgrow, Hnear'.
        repeat split; try apply Hs; try lia; assumption.
      + apply yields_ret. cbn.
        destruct (sort_weight_index_stacks_ok (l_num_mv_found l) (l_pp l) Hst)
          as (Hs & Hnear' & _).
        unfold kMaxRefMvStackSize in Hn.
        repeat split; try apply Hs; try lia; assumption.
    - intros s (Hs & Hnum & Hnear'). apply yields_ret. cbn.
      split; [apply Hs |]. lia. }
  destruct H as ([contexts' p] & E & HP). exists contexts', p.
  split; [exact E | exact HP].
Qed.

(** *** Warp samples *)

(** Counts within [candidates[kMaxLeastSquaresSamples][4]]: never more
    valid samples than scanned ones, never more scanned than the array
    holds. *)
Definition warp_ok (w : WarpSamples) : Prop :=
  0 <= num_warp_samples w <= num_samples_scanned w
  /\ num_samples_scanned w <= kMaxLeastSquaresSamples K
  /\ Z.of_nat (length (candidates w)) = kMaxLeastSquaresSamples K.

Lemma AddSample_yields delta_row delta_column w :
  warp_ok w -> yields (AddSample K block delta_row delta_column w) warp_ok.
Proof.
  intros (Hc & Hs & Hlen). unfold AddSample.
  destruct (Z.leb_spec (kMaxLeastSquaresSamples K) (num_samples_scanned w));
    [apply yields_ret; now repeat split |].
  destruct (_ || _); [apply yields_ret; now repeat split |].
  destruct (_ || _); [apply yields_ret; now repeat split |].
  destruct (negb _ && _).
  - apply yields_ret. unfold warp_ok. cbn. repeat split; try lia.
  - eapply yields_bind.
    + apply store_at_yields
        with (P := fun c => Z.of_nat (length c) = kMaxLeastSquaresSamples K);
        [lia | now rewrite length_insert].
    + intros c Hc'. apply yields_ret. unfold warp_ok. cbn.
      destruct (_ <=? _); repeat split; try lia; exact Hc'.
Qed.

Lemma FindWarpSamples_loop_yields fuel along_row i bound w :
  bound - i <= Z.of_nat fuel -> warp_ok w ->
  yields (FindWarpSamples_loop K block fuel along_row i bound w) warp_ok.
Proof.
  revert i w. induction fuel as [| f IH]; intros i w Hfuel Hw;
    cbn [FindWarpSamples_loop].
  - destruct (Z.ltb_spec i bound); [lia |]. now apply yields_ret.
  - destruct (Z.ltb_spec i bound); cbn [negb]; [| now apply yields_ret].
    set (step := if along_row then Z.min _ _ else Z.min _ _).
    assert (1 <= step).
    { unfold step. destruct along_row.
      - pose proof (wide_positive
                      (size (Parameters (tile block) (row4x4 block - 1)
                               (column4x4 block + i)))). lia.
      - pose proof (high_positive
                      (size (Parameters (tile block) (row4x4 block + i)
                               (column4x4 block - 1)))). lia. }
    eapply yields_bind.
    + destruct along_row; apply AddSample_yields, Hw.
    + intros w' Hw'. apply IH; [lia | exact Hw'].
Qed.

Lemma FindWarpSamples_scan_yields w :
  warp_ok w -> yields (FindWarpSamples_scan K block w) warp_ok.
Proof.
  intros Hw. unfold FindWarpSamples_scan.
  eapply yields_bind with (P := fun '(_, _, w') => warp_ok w').
  { destruct (top_available block); [| now apply yields_ret].
    destruct (_ <=? _).
    - eapply yields_bind; [apply AddSample_yields, Hw |].
      intros w' Hw'. now apply yields_ret.
    - eapply yields_bind;
        [apply FindWarpSamples_loop_yields; [lia | exact Hw] |].
      intros w' Hw'. now apply yields_ret. }
  intros [[top_left top_right] w1] Hw1.
  eapply yields_bind with (P := fun '(_, w') => warp_ok w').
  { destruct (left_available block); [| now apply yields_ret].
    destruct (_ <=? _).
    - eapply yields_bind; [apply AddSample_yields, Hw1 |].
      intros w' Hw'. now apply yields_ret.
    - eapply yields_bind;
        [apply FindWarpSamples_loop_yields; [lia | exact Hw1] |].
      intros w' Hw'. now apply yields_ret. }
  intros [top_left' w2] Hw2.
  eapply yields_bind with (P := warp_ok).
  { destruct top_left'; [apply AddSample_yields, Hw2 | now apply yields_ret]. }
  intros w3 Hw3.
  destruct (_ && _); [apply AddSample_yields, Hw3 | now apply yields_ret].
Qed.

(** C8. [FindWarpSamples] runs to completion with every store inside
    [candidates]; it never counts more than [kMaxLeastSquaresSamples]
    scanned samples nor more valid samples than scanned ones; and its last
    statement turns "no valid sample although at least one was scanned"
    into [num_warp_samples = 1], leaving every other outcome of the scan as
    it is. *)
Theorem FindWarpSamples_forces_one (w : WarpSamples) :
  warp_ok w ->
  exists scanned final,
    FindWarpSamples_scan K block w = Ok scanned
    /\ FindWarpSamples K block w = Ok final
    /\ 0 <= num_warp_samples scanned <= num_samples_scanned scanned
    /\ num_samples_scanned scanned <= kMaxLeastSquaresSamples K
    /\ num_samples_scanned final = num_samples_scanned scanned
    /\ candidates final = candidates scanned
    /\ num_warp_samples final
       = (if (num_warp_samples scanned =? 0)
             && (0 <? num_samples_scanned scanned)
          then 1 else num_warp_samples scanned)
    /\ num_warp_samples final <= kMaxLeastSquaresSamples K
    /\ (0 < num_samples_scanned final -> 1 <= num_warp_samples final).
Proof.
  intros Hw.
  destruct (FindWarpSamples_scan_yields w Hw) as (scanned & E & Hc & Hs & Hlen).
  exists scanned. unfold FindWarpSamples. rewrite E. cbn.
  eexists. split; [reflexivity |]. split; [reflexivity |].
  destruct (Z.eqb_spec (num_warp_samples scanned) 0);
    destruct (Z.ltb_spec 0 (num_samples_scanned scanned));
    cbn; repeat split; try lia.
Qed.

(** *** What [ExtraSearch] does to the count *)


End Invariants.

(** *** Concrete blocks

    An instance of the constants and helpers for running the model: the 22
    AV1 block sizes with their widths and heights in 4x4 units, and plain
    implementations of the helpers. *)

Definition block_sizes_wide : list Z :=
  [1; 1; 1; 2; 2; 2; 2; 4; 4; 4; 4; 4; 8; 8; 8; 8; 16; 16; 16; 16; 32; 32].
Definition block_sizes_high : list Z :=
  [1; 2; 4; 1; 2; 4; 8; 1; 2; 4; 8; 16; 2; 4; 8; 16; 4; 8; 16; 32; 16; 32].

Definition table_or_one (table : list Z) (sz : Z) : Z :=
  match table !! Z.to_nat sz with Some n => n | None => 1 end.

Definition RightShiftWithRoundingSigned_impl (value bits : Z) : Z :=
  let round v := Z.shiftr (v + Z.shiftr (Z.shiftl 1 bits) 1) bits in
  if 0 <=? value then round value else - round (- value).

Definition example_constants : Constants :=
  mkConstants
    (table_or_one block_sizes_wide) (table_or_one block_sizes_high)
    18 8 16 31 16383
    (fun d => if d =? 0 then 0 else Z.quot 16384 d)
    (-32768) 0 1 4
    (fun y_mode => existsb (Z.eqb y_mode) [16; 19; 20; 21; 22; 24])
    (fun sz => existsb (Z.eqb sz) [4; 5; 6; 8; 9; 10; 12; 13; 14])
    (fun is_global type => is_global && (1 <? type))
    (fun a b _ => a - b)
    RightShiftWithRoundingSigned_impl
    (fun value low high =>
       if value <? low then low else if high <? value then high else value)
    (fun x => Z.shiftl x 1) (fun x => Z.shiftl x 2) (fun x => Z.shiftl x 3)
    (fun x => Z.shiftr x 1)
    (fun index weight => Z.shiftl weight 3 + 7 - index)
    (fun old weight => old + Z.shiftl weight 3).

Lemma table_or_one_positive table sz :
  Forall (fun n => 1 <= n) table -> 1 <= table_or_one table sz.
Proof.
  intros H. unfold table_or_one.
  destruct (table !! Z.to_nat sz) as [n |] eqn:E; [| lia].
  exact (Forall_lookup_1 _ _ _ _ H E).
Qed.

Lemma example_wide_positive sz : 1 <= kNum4x4BlocksWide example_constants sz.
Proof.
  apply table_or_one_positive. unfold block_sizes_wide.
  repeat constructor; lia.
Qed.

Lemma example_high_positive sz : 1 <= kNum4x4BlocksHigh example_constants sz.
Proof.
  apply table_or_one_positive. unfold block_sizes_high.
  repeat constructor; lia.
Qed.

(** An 8x8 inter block (size 4) predicted from [reference] with vector
    [(row, column)]. *)
Definition inter_block (reference : Z) (row column : Z) : BlockParameters :=
  mkBlockParameters 4 false true false 13 (reference, kReferenceFrameNone)
    (mkCandidate (mkMv row column) MotionVector_zero) [0; 0; 0; 0] 0.

(** A 64x64 frame in one tile; translational global motion, which makes
    the global vector (2, -4); no temporal vectors; [decoded r c] says which 4x4 positions already hold block
    parameters, all of them those of [neighbour]. *)
Definition example_header : ObuFrameHeader :=
  mkFrameHeader (mkMvPrecision false 0) false 16 16 0
    (fun _ => mkGlobalMotion 1 [16384; -32768; 65536; 0; 0; 65536]).

Definition example_tile (decoded : Z -> Z -> bool) (neighbour : BlockParameters)
  : Tile :=
  mkTile example_header 0 (fun _ => 0)
    (fun r c => (0 <=? r) && (r <? 16) && (0 <=? c) && (c <? 16))
    (fun r => 0 <? r) (fun c => 0 <? c)
    (fun r c => (0 <? r) && (0 <? c))
    decoded (fun _ _ => neighbour).

Definition example_field : TemporalMotionField :=
  mkMotionField (fun _ _ => mkMv (-32768) (-32768)) (fun _ _ => 0).

Definition empty_parameters : PredictionParameters :=
  mkPredictionParameters (replicate 8 CandidateMotionVector_zero)
    (replicate 8 0) 0 0 (MotionVector_zero, MotionVector_zero).


(** The second block of the first row; the block to its left was predicted
    from [reference] with vector (4, -8). *)
Definition second_block (reference : Z) : Block :=
  mkBlock (example_tile (fun r c => (r <? 2) && (c <? 2))
             (inter_block reference 4 (-8)))
    0 2 2 2 8 8 4 (inter_block 1 0 0) false true.

Definition no_sign_bias : Z -> bool := fun _ => false.

Definition empty_samples : WarpSamples :=
  mkWarpSamples 0 0 (replicate 8 [0; 0; 0; 0]).

(** The second block of the first row again, its left neighbour predicted
    from the same reference but with a vector far from the block's own. *)
Definition diverging_block : Block :=
  mkBlock (example_tile (fun r c => (r <? 2) && (c <? 2))
             (inter_block 1 40 (-80)))
    0 2 2 2 8 8 4 (inter_block 1 0 0) false true.

Lemma empty_parameters_ok : stack_ok empty_parameters.
Proof. split; reflexivity. Qed.

Lemma FindMvStack_capacity_witness :
  exists contexts' p,
    FindMvStack example_constants (second_block 1) false no_sign_bias
      example_field (Some (mkMvContexts 0 0 0)) empty_parameters
    = Ok (contexts', p)
    /\ Z.of_nat (length (ref_mv_stack p)) = kMaxRefMvStackSize
    /\ 0 <= nearest_mv_count p <= ref_mv_count p
    /\ ref_mv_count p <= 8.
Proof.
  apply (FindMvStack_capacity example_constants (second_block 1)
           example_wide_positive example_high_positive).
  - simpl. lia.
  - simpl. lia.
  - exact empty_parameters_ok.
Defined.

Lemma FindWarpSamples_forces_one_witness :
  exists scanned final,
    FindWarpSamples_scan example_constants diverging_block empty_samples
    = Ok scanned
    /\ FindWarpSamples example_constants diverging_block empty_samples
       = Ok final
    /\ 0 <= num_warp_samples scanned <= num_samples_scanned scanned
    /\ num_samples_scanned scanned <= 8
    /\ num_samples_scanned final = num_samples_scanned scanned
    /\ candidates final = candidates scanned
    /\ num_warp_samples final
       = (if (num_warp_samples scanned =? 0)
             && (0 <? num_samples_scanned scanned)
          then 1 else num_warp_samples scanned)
    /\ num_warp_samples final <= 8
    /\ (0 < num_samples_scanned final -> 1 <= num_warp_samples final).
Proof.
  apply (FindWarpSamples_forces_one example_constants diverging_block
           example_wide_positive example_high_positive).
  - simpl. lia.
  - simpl. lia.
  - unfold warp_ok. simpl. lia.
Defined.

(** The fallback at work: the only neighbour is scanned and rejected, and
    the count of valid samples comes out as 1 all the same. *)
Example FindWarpSamples_fallback_run :
  FindWarpSamples_scan example_constants diverging_block empty_samples
  = Ok (mkWarpSamples 0 1
          ([24; 24; 64; -56] :: replicate 7 [0; 0; 0; 0]))
  /\ FindWarpSamples example_constants diverging_block empty_samples
     = Ok (mkWarpSamples 1 1
             ([24; 24; 64; -56] :: replicate 7 [0; 0; 0; 0])).
Proof. split; reflexivity. Qed.










(** *** Candidates on the stack

    What the scans and the extra search do to the candidates already
    found: the relation [keeps] below holds between the search state
    before and after each of them. *)

Lemma MotionVector_eqb_eq a b : MotionVector_eqb a b = true <-> a = b.
Proof.
  destruct a as [ar ac], b as [br bc]. unfold MotionVector_eqb.
  cbn [mv_kRow mv_kColumn]. rewrite andb_true_iff, !Z.eqb_eq.
  split; [intros [-> ->]; reflexivity | intros [= -> ->]; now split].
Qed.

Lemma CandidateMotionVector_eqb_eq a b :
  CandidateMotionVector_eqb a b = true <-> a = b.
Proof.
  destruct a as [a0 a1], b as [b0 b1]. unfold CandidateMotionVector_eqb.
  cbn [mv0 mv1]. rewrite andb_true_iff, !MotionVector_eqb_eq.
  split; [intros [-> ->]; reflexivity | intros [= -> ->]; now split].
Qed.

(** A successful sequence has a successful first step. *)
Lemma bind_Ok {A B} (r : result A) (k : A -> result B) (b : B) :
  (a ← r; k a) = Ok b -> exists a, r = Ok a /\ k a = Ok b.
Proof. destruct r as [a | |]; [| discriminate ..]. intros H. now exists a. Qed.

Lemma yields_Ok {A} (r : result A) (P : A -> Prop) (a : A) :
  yields r P -> r = Ok a -> P a.
Proof. intros (a' & E & H) E'. rewrite E in E'. now injection E' as <-. Qed.

(** [std::find_if] returning [last]: no element of the range satisfies the
    predicate. *)
Lemma find_if_None {A} (pred : A -> bool) (array : list A) (count : nat) x :
  find_if pred array count = None -> x ∈ take count array -> pred x = false.
Proof.
  revert array. induction count as [| k IH]; intros [| y rest]; cbn;
    try (intros _ Hin; now apply elem_of_nil in Hin).
  destruct (pred y) eqn:Ey; [discriminate |].
  destruct (find_if pred rest k) eqn:Ef; [discriminate |]. intros _ Hin.
  apply elem_of_cons in Hin as [-> | Hin]; [exact Ey |].
  now apply (IH rest).
Qed.

(** A loop whose body keeps [ok] and moves along the preorder [R]. *)
Lemma for_loop_moves {S} (ok : S -> Prop) (R : S -> S -> Prop)
    (body : Z -> S -> result S) (first bound step : Z) :
  0 <= step ->
  (forall s, R s s) ->
  (forall a b c, R a b -> R b c -> R a c) ->
  (forall i s s', first <= i < bound -> ok s -> body i s = Ok s' ->
     ok s' /\ R s s') ->
  forall fuel i s s', first <= i -> ok s ->
    for_loop fuel i bound step body s = Ok s' -> ok s' /\ R s s'.
Proof.
  intros Hstep Hrefl Htrans Hbody. induction fuel as [| f IH];
    intros i s s' Hi Hok; cbn [for_loop].
  - destruct (i <? bound); [discriminate |]. intros [= <-]. auto.
  - destruct (Z.ltb_spec i bound); [| intros [= <-]; auto].
    intros E. apply bind_Ok in E as (s1 & E1 & E2).
    destruct (Hbody i s s1 ltac:(lia) Hok E1) as [Hok1 HR1].
    destruct (IH (i + step) s1 s' ltac:(lia) Hok1 E2) as [Hok' HR'].
    split; [exact Hok' | eauto].
Qed.

(** The candidates found so far: the first [*num_mv_found] entries of
    [ref_mv_stack]. *)
Definition found (s : Search) : list CandidateMotionVector :=
  take (Z.to_nat (num_mv_found s)) (ref_mv_stack (pp s)).

(** What a prediction mode compares of a candidate: both vectors with
    compound prediction, [mv[0]] alone otherwise. *)
Definition candidate_key (is_compound : bool) (c : CandidateMotionVector)
  : CandidateMotionVector :=
  if is_compound then c else mkCandidate (mv0 c) MotionVector_zero.

Definition distinct (is_compound : bool) (s : Search) : Prop :=
  NoDup (candidate_key is_compound <$> found s).

(** [*zero_mv_context], when there is one, is 0 or 1. *)
Definition zero_ok (z : option Z) : Prop :=
  match z with Some v => 0 <= v <= 1 | None => True end.

(** From [s] to [s'] candidates were only appended, none became a
    duplicate, and the zero-vector context stayed a flag. *)
Definition keeps (is_compound : bool) (s s' : Search) : Prop :=
  found s `prefix_of` found s'
  /\ (distinct is_compound s -> distinct is_compound s')
  /\ (is_Some (zero_mv_context s') <-> is_Some (zero_mv_context s))
  /\ (zero_ok (zero_mv_context s) -> zero_ok (zero_mv_context s')).

Lemma keeps_refl c s : keeps c s s.
Proof. repeat split; auto. Qed.

Lemma keeps_trans c s1 s2 s3 : keeps c s1 s2 -> keeps c s2 s3 -> keeps c s1 s3.
Proof.
  intros (Hp & Hd & Hz & Hv) (Hp' & Hd' & Hz' & Hv').
  repeat split; try tauto. now transitivity (found s2).
Qed.

(** [keeps] reads the count, the stack and the context only. *)
Lemma keeps_fields c s1 s1' s2 s2' :
  num_mv_found s1' = num_mv_found s1 ->
  ref_mv_stack (pp s1') = ref_mv_stack (pp s1) ->
  zero_mv_context s1' = zero_mv_context s1 ->
  num_mv_found s2' = num_mv_found s2 ->
  ref_mv_stack (pp s2') = ref_mv_stack (pp s2) ->
  zero_mv_context s2' = zero_mv_context s2 ->
  keeps c s1 s2 -> keeps c s1' s2'.
Proof.
  unfold keeps, distinct, found. intros -> -> -> -> -> ->. auto.
Qed.

(** A function of the search that [keeps] the candidates. *)
Definition tracks (is_compound : bool) (f : Search -> result Search) : Prop :=
  forall s s', search_ok s -> f s = Ok s' ->
    search_ok s' /\ keeps is_compound s s'.

Section Candidates.
Variable K : Constants.
Variable block : Block.
Hypothesis wide_positive : forall sz, 1 <= kNum4x4BlocksWide K sz.
Hypothesis high_positive : forall sz, 1 <= kNum4x4BlocksHigh K sz.
Hypothesis width4x4_positive : 1 <= width4x4 block.
Hypothesis height4x4_positive : 1 <= height4x4 block.

(** Appending at [*num_mv_found]. *)
Lemma found_append s p candidate :
  0 <= num_mv_found s ->
  (Z.to_nat (num_mv_found s) < length (ref_mv_stack (pp s)))%nat ->
  ref_mv_stack p
  = <[Z.to_nat (num_mv_found s) := candidate]> (ref_mv_stack (pp s)) ->
  found (set_num_mv_found (set_pp s p) (num_mv_found s + 1))
  = found s ++ [candidate].
Proof.
  intros Hn Hlen Hp. unfold found, set_num_mv_found, set_pp.
  cbn [num_mv_found pp].
  rewrite Hp. replace (Z.to_nat (num_mv_found s + 1))
    with (S (Z.to_nat (num_mv_found s))) by lia.
  rewrite (take_S_r _ _ candidate) by now apply list_lookup_insert_eq.
  now rewrite take_insert_ge by lia.
Qed.

Lemma keeps_append c s s' candidate :
  found s' = found s ++ [candidate] ->
  zero_mv_context s' = zero_mv_context s ->
  (forall r, r ∈ found s ->
     candidate_key c r <> candidate_key c candidate) ->
  keeps c s s'.
Proof.
  intros Hf Hz Hnew. unfold keeps, distinct. rewrite Hf, Hz.
  repeat split; auto.
  - now apply prefix_app_r.
  - intros Hd. rewrite fmap_app. apply NoDup_app. repeat split.
    + exact Hd.
    + intros k Hk Hin. apply list_elem_of_fmap in Hk as (r & -> & Hr).
      apply list_elem_of_singleton in Hin. now apply (Hnew r).
    + apply NoDup_singleton.
Qed.

Lemma add_candidate_tracks c same candidate weight :
  (forall r, same r = true
             <-> candidate_key c r = candidate_key c candidate) ->
  tracks c (add_candidate K same candidate weight).
Proof.
  intros Hsame s s' Hok E.
  split.
  { apply (yields_Ok _ _ _ (add_candidate_yields K same candidate weight s
                              Hok) E). }
  pose proof Hok as [Hn [Hlen _]]. unfold add_candidate in E.
  unfold kMaxRefMvStackSize in *.
  destruct (find_if same _ _) as [position |] eqn:Hfind.
  - apply bind_Ok in E as (p & Ep & E). injection E as <-.
    unfold IncreaseWeight in Ep. apply bind_Ok in Ep as (w & _ & Ep).
    injection Ep as <-.
    eapply keeps_fields; [..| apply (keeps_refl c s)]; reflexivity.
  - destruct (Z.leb_spec 8 (num_mv_found s)) as [Hfull | Hroom].
    + injection E as <-. apply keeps_refl.
    + apply bind_Ok in E as (p & Ep & E).
      apply bind_Ok in E as (p' & Ep' & E). injection E as <-.
      unfold set_ref_mv in Ep. apply bind_Ok in Ep as (st & Est & Ep).
      injection Ep as <-.
      unfold SetWeightIndexStackEntry in Ep'.
      apply bind_Ok in Ep' as (w & _ & Ep'). injection Ep' as <-.
      unfold store_at in Est.
      destruct (_ && _); [| discriminate]. injection Est as <-.
      apply (keeps_append c _ _ candidate).
      * apply found_append; [lia | lia | reflexivity].
      * reflexivity.
      * intros r Hr Hkey. apply Hsame in Hkey.
        now rewrite (find_if_None _ _ _ r Hfind Hr) in Hkey.
Qed.

Lemma SearchStack_tracks c mv_bp index weight :
  tracks c (SearchStack K block c mv_bp index weight).
Proof.
  intros s s' Hok E. unfold SearchStack in E.
  match type of E with
  | add_candidate _ ?same ?candidate _ ?s0 = _ =>
      destruct (add_candidate_tracks c same candidate weight) with s0 s'
        as [Hok' Hkeeps]; [| exact Hok | exact E |]
  end.
  - intros r. destruct c; cbn [candidate_key mv0].
    + apply CandidateMotionVector_eqb_eq.
    + rewrite MotionVector_eqb_eq. split; [now intros -> | now intros [= ->]].
  - split; [exact Hok' |].
    eapply keeps_fields; [..| exact Hkeeps]; reflexivity.
Qed.

Lemma tracks_ret c : tracks c mret.
Proof. intros s s' Hok [= <-]. split; [exact Hok | apply keeps_refl]. Qed.

Lemma tracks_loop c body first bound step fuel :
  0 <= step ->
  (forall i, tracks c (body i)) ->
  tracks c (for_loop fuel first bound step body).
Proof.
  intros Hstep Hbody s s' Hok E.
  eapply (for_loop_moves search_ok (keeps c) body first bound step); eauto.
  - apply keeps_refl.
  - apply keeps_trans.
  - intros i t t' _ Ht Et. now apply (Hbody i).
  - lia.
Qed.

Lemma AddReferenceMvCandidate_tracks c mv_bp weight :
  tracks c (AddReferenceMvCandidate K block mv_bp c weight).
Proof.
  unfold AddReferenceMvCandidate.
  destruct (negb _); [apply tracks_ret |].
  destruct c.
  - destruct (_ && _); [apply SearchStack_tracks | apply tracks_ret].
  - apply tracks_loop; [lia |]. intros i.
    destruct (_ =? _); [apply SearchStack_tracks | apply tracks_ret].
Qed.

Lemma tracks_bind c (f g : Search -> result Search) :
  tracks c f -> tracks c g -> tracks c (fun s => s1 ← f s; g s1).
Proof.
  intros Hf Hg s s' Hok E. cbv beta in E.
  apply bind_Ok in E as (s1 & E1 & E2).
  destruct (Hf s s1 Hok E1) as [Hok1 H1].
  destruct (Hg s1 s' Hok1 E2) as [Hok' H2].
  split; [exact Hok' | now apply keeps_trans with s1].
Qed.

Lemma ScanRow_loop_tracks c fuel offset mv_row mv_column min_step end_bps :
  tracks c (ScanRow_loop K block fuel offset mv_row mv_column min_step
              end_bps c).
Proof.
  revert offset. induction fuel as [| f IH]; intros offset s s' Hok E;
    cbn [ScanRow_loop] in E; [discriminate |].
  apply bind_Ok in E as (s1 & E1 & E2).
  destruct (AddReferenceMvCandidate_tracks c _ _ s s1 Hok E1) as [Hok1 H1].
  destruct (_ <? _).
  - destruct (IH _ s1 s' Hok1 E2) as [Hok' H2].
    split; [exact Hok' | now apply keeps_trans with s1].
  - injection E2 as <-. now split.
Qed.

Lemma ScanRow_tracks c mv_column delta_row :
  tracks c (ScanRow K block mv_column delta_row c).
Proof.
  unfold ScanRow. destruct (negb _); [apply tracks_ret |].
  apply ScanRow_loop_tracks.
Qed.

Lemma ScanColumn_loop_tracks c fuel offset mv_row mv_column min_step end_bps :
  tracks c (ScanColumn_loop K block fuel offset mv_row mv_column min_step
              end_bps c).
Proof.
  revert offset. induction fuel as [| f IH]; intros offset s s' Hok E;
    cbn [ScanColumn_loop] in E; [discriminate |].
  apply bind_Ok in E as (s1 & E1 & E2).
  destruct (AddReferenceMvCandidate_tracks c _ _ s s1 Hok E1) as [Hok1 H1].
  destruct (_ <? _).
  - destruct (IH _ s1 s' Hok1 E2) as [Hok' H2].
    split; [exact Hok' | now apply keeps_trans with s1].
  - injection E2 as <-. now split.
Qed.

Lemma ScanColumn_tracks c mv_row delta_column :
  tracks c (ScanColumn K block mv_row delta_column c).
Proof.
  unfold ScanColumn. destruct (negb _); [apply tracks_ret |].
  apply ScanColumn_loop_tracks.
Qed.

Lemma ScanPoint_tracks c delta_row delta_column :
  tracks c (ScanPoint K block delta_row delta_column c).
Proof.
  unfold ScanPoint. destruct (_ || _); [apply tracks_ret |].
  destruct (_ =? _); [apply tracks_ret |].
  apply AddReferenceMvCandidate_tracks.
Qed.

Lemma set_zero_mv_context_keeps c z s :
  0 <= z <= 1 -> search_ok s ->
  search_ok (set_zero_mv_context s z) /\ keeps c s (set_zero_mv_context s z).
Proof.
  intros Hz Hok. split; [exact Hok |].
  unfold keeps, distinct, found, set_zero_mv_context.
  cbn [num_mv_found pp zero_mv_context].
  destruct (zero_mv_context s); repeat split; auto; cbn; try lia;
    intros [? [=]].
Qed.

Lemma AddTemporalReferenceMvCandidate_tracks c delta_row delta_column
    motion_field :
  tracks c (AddTemporalReferenceMvCandidate K block delta_row delta_column c
              motion_field).
Proof.
  intros s s' Hok E. unfold AddTemporalReferenceMvCandidate in E.
  destruct (negb _); [now apply (tracks_ret c) |].
  set (s1 := if (_ =? 0) && (_ =? 0) then set_zero_mv_context s 1 else s)
    in E.
  assert (H1 : search_ok s1 /\ keeps c s s1).
  { unfold s1. destruct (_ && _); [| split; [exact Hok | apply keeps_refl]].
    apply set_zero_mv_context_keeps; [lia | exact Hok]. }
  destruct H1 as [Hok1 H1]. clearbody s1.
  destruct (_ =? kInvalidMvValue K).
  { injection E as <-. now split. }
  assert (Hflag : forall b : bool, 0 <= Z.b2z b <= 1) by (intros []; cbn; lia).
  destruct c.
  - match type of E with
    | add_candidate _ ?same ?candidate _ ?s2 = _ =>
        assert (H2 : search_ok s2 /\ keeps true s1 s2);
        [| destruct H2 as [Hok2 H2];
           destruct (add_candidate_tracks true same candidate 2) with s2 s'
             as [Hok' H'];
           [intros r; apply CandidateMotionVector_eqb_eq
           | exact Hok2 | exact E |] ]
    end.
    + destruct (_ && _); [| split; [exact Hok1 | apply keeps_refl]].
      apply set_zero_mv_context_keeps; [apply Hflag | exact Hok1].
    + split; [exact Hok' |].
      apply keeps_trans with s1; [exact H1 |].
      eapply keeps_trans; [exact H2 | exact H'].
  - match type of E with
    | add_candidate _ ?same ?candidate _ ?s2 = _ =>
        assert (H2 : search_ok s2 /\ keeps false s1 s2);
        [| destruct H2 as [Hok2 H2];
           destruct (add_candidate_tracks false same candidate 2) with s2 s'
             as [Hok' H'];
           [| exact Hok2 | exact E |] ]
    end.
    + destruct (_ && _); [| split; [exact Hok1 | apply keeps_refl]].
      apply set_zero_mv_context_keeps; [apply Hflag | exact Hok1].
    + intros r. cbn [candidate_key mv0]. rewrite MotionVector_eqb_eq.
      split; [now intros -> | now intros [= ->]].
    + split; [exact Hok' |].
      apply keeps_trans with s1; [exact H1 |].
      eapply keeps_trans; [exact H2 | exact H'].
Qed.

Lemma TemporalScan_tracks c motion_field :
  tracks c (TemporalScan K block c motion_field).
Proof.
  intros s s' Hok E. unfold TemporalScan in E.
  apply bind_Ok in E as (s1 & E1 & E).
  assert (H1 : search_ok s1 /\ keeps c s s1).
  { revert E1. apply tracks_loop; [destruct (_ <=? _); lia | | exact Hok].
    intros row. apply tracks_loop; [destruct (_ <=? _); lia |].
    intros column. apply AddTemporalReferenceMvCandidate_tracks. }
  destruct H1 as [Hok1 H1].
  destruct (kTemporalScanMask K _);
    [| injection E as <-; now split].
  cbn [foldl] in E.
  assert (Hstep : forall row column,
            tracks c (fun s =>
                        if negb (IsWithinTheSame64x64Block block row column)
                        then mret s
                        else AddTemporalReferenceMvCandidate K block row
                               column c motion_field s)).
  { intros row column t t' Ht Et.
    destruct (negb (IsWithinTheSame64x64Block block row column));
      [exact (tracks_ret c t t' Ht Et) |].
    exact (AddTemporalReferenceMvCandidate_tracks c row column motion_field
             t t' Ht Et). }
  apply bind_Ok in E as (s4 & E & E4).
  apply bind_Ok in E as (s3 & E & E3).
  apply bind_Ok in E as (s2 & E & E2).
  injection E as <-.
  destruct (Hstep _ _ _ _ Hok1 E2) as [Hok2 H2].
  destruct (Hstep _ _ _ _ Hok2 E3) as [Hok3 H3].
  destruct (Hstep _ _ _ _ Hok3 E4) as [Hok4 H4].
  split; [exact Hok4 |].
  eauto using keeps_trans.
Qed.

(** The search state that the locals of [FindMvStack] stand for. *)
Definition search_of (l : Locals) : Search :=
  mkSearch (l_found_new_mv l) (l_found_row_match l) (l_zero_mv l)
    (l_num_mv_found l) (l_pp l).

Lemma scan_with_tracks c use_new use_row scan l l' :
  tracks c scan -> locals_ok l ->
  scan_with use_new use_row scan l = Ok l' ->
  locals_ok l' /\ keeps c (search_of l) (search_of l').
Proof.
  intros Hscan Hl E. unfold scan_with in E.
  apply bind_Ok in E as (s & E & El). injection El as <-.
  apply Hscan in E as [Hok Hkeeps]; [| exact Hl].
  split; [exact Hok |].
  eapply keeps_fields; [..| exact Hkeeps]; reflexivity.
Qed.

Lemma FindMvStack_scans_tracks c motion_field contexts p nearest_matches l :
  stack_ok p ->
  FindMvStack_scans K block c motion_field contexts p
  = Ok (nearest_matches, l) ->
  locals_ok l
  /\ 0 <= nearest_matches <= 2
  /\ distinct c (search_of l)
  /\ (is_Some (l_zero_mv l) <-> is_Some contexts)
  /\ zero_ok (l_zero_mv l).
Proof.
  intros Hp E. unfold FindMvStack_scans in E.
  set (l0 := mkLocals false false false false None 0 _) in E.
  assert (H0 : locals_ok l0).
  { unfold l0, locals_ok, stack_ok, kMaxRefMvStackSize. cbn.
    split; [lia | exact Hp]. }
  assert (D0 : distinct c (search_of l0)) by apply NoDup_nil_2.
  apply bind_Ok in E as (l1 & E1 & E).
  apply scan_with_tracks with (c := c) in E1 as [H1 K1];
    [| apply ScanRow_tracks | exact H0].
  apply bind_Ok in E as (l2 & E2 & E).
  apply scan_with_tracks with (c := c) in E2 as [H2 K2];
    [| apply ScanColumn_tracks | exact H1].
  apply bind_Ok in E as (l3 & E3 & E).
  assert (H3 : locals_ok l3 /\ keeps c (search_of l2) (search_of l3)).
  { destruct (_ <=? 16).
    - apply scan_with_tracks with (c := c) in E3;
        [exact E3 | apply ScanPoint_tracks | exact H2].
    - injection E3 as <-. split; [exact H2 | apply keeps_refl]. }
  destruct H3 as [H3 K3]. clear E3.
  assert (D3 : distinct c (search_of l3)) by (apply K3, K2, K1, D0).
  set (nearest := Z.b2z (l_found_row_match l3)
                  + Z.b2z (l_found_column_match l3)) in E.
  assert (Hnearest : 0 <= nearest <= 2)
    by (unfold nearest;
        destruct (l_found_row_match l3), (l_found_column_match l3);
        cbn; lia).
  set (l4 := mkLocals _ _ _ false _ (l_num_mv_found l3) _) in E.
  assert (H4 : locals_ok l4).
  { unfold l4, locals_ok, stack_ok. cbn. destruct H3 as (Hn & Hs).
    repeat split; try apply Hn; apply Hs. }
  assert (D4 : distinct c (search_of l4)) by exact D3.
  assert (Z4 : (is_Some (l_zero_mv l4) <-> is_Some contexts)
               /\ zero_ok (l_zero_mv l4)).
  { unfold l4. cbn [l_zero_mv]. destruct contexts; cbn;
      repeat split; auto; try lia; intros [? [=]]. }
  destruct Z4 as [Zs4 Zv4].
  apply bind_Ok in E as (l5 & E5 & E).
  assert (H5 : locals_ok l5 /\ keeps c (search_of l4) (search_of l5)).
  { destruct (use_ref_frame_mvs _).
    - apply scan_with_tracks with (c := c) in E5;
        [exact E5 | apply TemporalScan_tracks | exact H4].
    - injection E5 as <-. split; [exact H4 | apply keeps_refl]. }
  destruct H5 as [H5 K5]. clear E5.
  apply bind_Ok in E as (l6 & E6 & E).
  apply scan_with_tracks with (c := c) in E6 as [H6 K6];
    [| apply ScanPoint_tracks | exact H5].
  apply bind_Ok in E as (l7 & E7 & E). injection E as <- <-.
  assert (H7 : locals_ok l7 /\ keeps c (search_of l6) (search_of l7)).
  { revert E7.
    apply (for_loop_moves locals_ok
             (fun a b => keeps c (search_of a) (search_of b)))
      with (first := 0);
      [lia | intros; apply keeps_refl
      | intros a b d; apply keeps_trans | | lia | exact H6].
    intros i t t' _ Ht Et.
    apply bind_Ok in Et as (t1 & Et1 & Et2).
    assert (Ht1 : locals_ok t1 /\ keeps c (search_of t) (search_of t1)).
    { destruct (_ || _).
      - apply scan_with_tracks with (c := c) in Et1;
          [exact Et1 | apply ScanRow_tracks | exact Ht].
      - injection Et1 as <-. split; [exact Ht | apply keeps_refl]. }
    destruct Ht1 as [Ht1 Kt1]. clear Et1.
    destruct (_ || _).
    - apply scan_with_tracks with (c := c) in Et2 as [Ht2 Kt2];
        [| apply ScanColumn_tracks | exact Ht1].
      split; [exact Ht2 | now apply keeps_trans with (search_of t1)].
    - injection Et2 as <-. now split. }
  destruct H7 as [H7 K7].
  assert (K47 : keeps c (search_of l4) (search_of l7))
    by eauto using keeps_trans.
  destruct K47 as (_ & Kd & Kz & Kv).
  split; [exact H7 |]. split; [exact Hnearest |].
  split; [now apply Kd |]. split; [| now apply Kv].
  cbn [search_of zero_mv_context] in Kz. tauto.
Qed.

(** One round of the loop of [AddExtraSingleMvCandidate] once the
    candidate is computed. *)
Definition extra_single_step (candidate_mv : MotionVector) (s : Search)
  : result Search :=
  let stack := ref_mv_stack (pp s) in
  if (negb (num_mv_found s =? 0)
      && MotionVector_eqb (mv0 (stack !!! 0%nat)) candidate_mv)
     || ((num_mv_found s =? 2)
         && MotionVector_eqb (mv0 (stack !!! 1%nat)) candidate_mv)
  then mret s
  else
    p ← set_ref_mv (pp s) (num_mv_found s)
          (mkCandidate candidate_mv MotionVector_zero);
    p ← SetWeightIndexStackEntry K p (num_mv_found s) 0;
    mret (set_num_mv_found (set_pp s p) (num_mv_found s + 1)).

Lemma extra_single_step_keeps candidate_mv s s' :
  stack_ok (pp s) -> 0 <= num_mv_found s <= 2 ->
  extra_single_step candidate_mv s = Ok s' ->
  keeps false s s' /\ stack_ok (pp s')
  /\ num_mv_found s <= num_mv_found s' <= num_mv_found s + 1.
Proof.
  intros Hst Hn E. pose proof Hst as [Hlen Hw].
  assert (Hidx : 0 <= num_mv_found s < kMaxRefMvStackSize)
    by (unfold kMaxRefMvStackSize; lia).
  unfold kMaxRefMvStackSize in Hlen. unfold extra_single_step in E.
  destruct (_ || _) eqn:Hdup.
  { injection E as <-. split; [apply keeps_refl |]. split; [exact Hst | lia]. }
  apply bind_Ok in E as (p & Ep & E).
  apply bind_Ok in E as (p' & Ep' & E). injection E as <-.
  destruct (yields_Ok _ _ _ (set_ref_mv_yields _ _ _ Hst Hidx) Ep)
    as (Hp & _).
  destruct (yields_Ok _ _ _
              (SetWeightIndexStackEntry_yields K _ _ 0 Hp Hidx) Ep')
    as (Hp' & Hstack' & _).
  unfold set_ref_mv in Ep. apply bind_Ok in Ep as (st & Est & Ep).
  injection Ep as <-. cbn [ref_mv_stack] in Hstack'.
  unfold store_at in Est.
  destruct ((0 <=? _) && _); [| discriminate].
  injection Est as <-.
  split; [| split; [exact Hp' | cbn; lia]].
  apply (keeps_append false _ _ (mkCandidate candidate_mv MotionVector_zero)).
  - apply found_append; [lia | lia | exact Hstack'].
  - reflexivity.
  - intros r Hr. cbn [candidate_key mv0]. intros [= Hkey].
    apply orb_false_iff in Hdup as [H0 H1].
    unfold found in Hr. apply list_elem_of_lookup in Hr as (i & Hi).
    apply lookup_take_Some in Hi as [Hi Hlt].
    apply list_lookup_total_correct in Hi.
    assert (Hm : MotionVector_eqb (mv0 r) candidate_mv = true)
      by now apply MotionVector_eqb_eq.
    destruct i as [| [| i]]; [| | lia]; subst r.
    + rewrite Hm, andb_true_r in H0.
      destruct (Z.eqb_spec (num_mv_found s) 0); [lia | discriminate].
    + rewrite Hm, andb_true_r in H1.
      destruct (Z.eqb_spec (num_mv_found s) 2); [discriminate | lia].
Qed.

Lemma AddExtraSingleMvCandidate_keeps mv_row mv_column bias s s' :
  stack_ok (pp s) -> 0 <= num_mv_found s < 2 ->
  AddExtraSingleMvCandidate K block mv_row mv_column bias s = Ok s' ->
  keeps false s s' /\ stack_ok (pp s') /\ 0 <= num_mv_found s'.
Proof.
  intros Hst Hn E. unfold AddExtraSingleMvCandidate in E.
  cbn [for_loop] in E. change (0 <? 2) with true in E.
  change (0 + 1 <? 2) with true in E. change (0 + 1 + 1 <? 2) with false in E.
  cbv iota in E.
  apply bind_Ok in E as (s1 & E1 & E). apply bind_Ok in E as (s2 & E2 & E).
  injection E as <-.
  assert (H1 : keeps false s s1 /\ stack_ok (pp s1)
               /\ num_mv_found s <= num_mv_found s1 <= num_mv_found s + 1).
  { destruct (_ <=? kReferenceFrameIntra).
    - injection E1 as <-. split; [apply keeps_refl |]. split; [exact Hst | lia].
    - apply (extra_single_step_keeps _ s s1 Hst ltac:(lia) E1). }
  destruct H1 as (K1 & Hst1 & Hn1). clear E1.
  assert (H2 : keeps false s1 s2 /\ stack_ok (pp s2)
               /\ num_mv_found s1 <= num_mv_found s2 <= num_mv_found s1 + 1).
  { destruct (_ <=? kReferenceFrameIntra).
    - injection E2 as <-. split; [apply keeps_refl |].
      split; [exact Hst1 | lia].
    - apply (extra_single_step_keeps _ s1 s2 Hst1 ltac:(lia) E2). }
  destruct H2 as (K2 & Hst2 & Hn2).
  split; [now apply keeps_trans with s1 |]. split; [exact Hst2 | lia].
Qed.

Lemma ExtraSearch_pass_keeps fuel pass i num4x4 bias e s e' s' :
  stack_ok (pp s) -> 0 <= num_mv_found s < 2 ->
  ExtraSearch_pass K block fuel pass i num4x4 false bias e s = Ok (e', s') ->
  keeps false s s' /\ stack_ok (pp s') /\ 0 <= num_mv_found s'.
Proof.
  revert i e s. induction fuel as [| f IH]; intros i e s Hst Hn E;
    cbn [ExtraSearch_pass] in E.
  - destruct (negb _); [| discriminate]. injection E as <- <-.
    split; [apply keeps_refl |]. split; [exact Hst | lia].
  - destruct (negb (i <? num4x4));
      [injection E as <- <-;
       (split; [apply keeps_refl |]; split; [exact Hst | lia]) |].
    destruct (negb (IsTopLeftInside _ _ _));
      [injection E as <- <-;
       (split; [apply keeps_refl |]; split; [exact Hst | lia]) |].
    apply bind_Ok in E as ([[e1 s1] stop] & E1 & E).
    apply bind_Ok in E1 as (s1' & E1 & Eret). injection Eret as <- <- <-.
    destruct (AddExtraSingleMvCandidate_keeps _ _ _ _ _ Hst Hn E1)
      as (K1 & Hst1 & Hn1).
    destruct (Z.leb_spec 2 (num_mv_found s1')).
    + injection E as <- <-. split; [exact K1 |]. split; [exact Hst1 | lia].
    + destruct (IH _ _ _ Hst1 ltac:(lia) E) as (K2 & Hst2 & Hn2).
      split; [now apply keeps_trans with s1' | now split].
Qed.

Lemma ExtraSearch_fill_single_keeps c s s' :
  0 <= num_mv_found s ->
  ExtraSearch_fill_single K s = Ok s' -> keeps c s s'.
Proof.
  intros Hn E. unfold ExtraSearch_fill_single in E.
  apply bind_Ok in E as (p & Ep & E). injection E as <-.
  set (n := Z.to_nat (num_mv_found s)).
  assert (H : True /\ take n (ref_mv_stack p) = take n (ref_mv_stack (pp s))).
  { revert Ep.
    apply (for_loop_moves (fun _ => True)
             (fun a b => take n (ref_mv_stack b) = take n (ref_mv_stack a)))
      with (first := num_mv_found s); try lia; auto.
    - intros a b d Hab Hbd. congruence.
    - intros i t t' Hi _ Et. split; [exact I |].
      apply bind_Ok in Et as (t1 & Et1 & Et2).
      unfold set_ref_mv in Et1. apply bind_Ok in Et1 as (st & Est & Et1).
      injection Et1 as <-.
      unfold SetWeightIndexStackEntry in Et2.
      apply bind_Ok in Et2 as (w & _ & Et2). injection Et2 as <-.
      cbn [ref_mv_stack]. unfold store_at in Est.
      destruct (_ && _); [| discriminate]. injection Est as <-.
      apply take_insert_ge. unfold n. lia. }
  destruct H as [_ H].
  unfold keeps, distinct, found. cbn [set_pp num_mv_found pp zero_mv_context].
  fold n. rewrite H. repeat split; auto.
Qed.

Lemma ExtraSearch_single_keeps bias s s' :
  stack_ok (pp s) -> 0 <= num_mv_found s < 2 ->
  ExtraSearch K block false bias s = Ok s' -> keeps false s s'.
Proof.
  intros Hst Hn E. unfold ExtraSearch in E.
  apply bind_Ok in E as ([e2 s2] & Epass & E).
  unfold ExtraSearch_passes in Epass.
  apply bind_Ok in Epass as ([e1 s1] & E1 & E2).
  destruct (Z.ltb_spec (num_mv_found s) 2); [| lia].
  destruct (ExtraSearch_pass_keeps _ _ _ _ _ _ _ _ _ Hst Hn E1)
    as (K1 & Hst1 & Hn1).
  assert (H2 : keeps false s1 s2 /\ 0 <= num_mv_found s2).
  { destruct (Z.ltb_spec (num_mv_found s1) 2).
    - destruct (ExtraSearch_pass_keeps _ _ _ _ _ _ _ _ _ Hst1
                  ltac:(lia) E2) as (K2 & _ & Hn2). now split.
    - injection E2 as <- <-. split; [apply keeps_refl | lia]. }
  destruct H2 as [K2 Hn2].
  apply keeps_trans with s1; [exact K1 |].
  apply keeps_trans with s2; [exact K2 |].
  now apply ExtraSearch_fill_single_keeps.
Qed.

(** The three steps of [FindMvStack], taken apart: the scans, then the
    extra search or the two sorts, then the contexts and the count. *)
Lemma FindMvStack_steps c bias motion_field contexts p :
  stack_ok p ->
  exists nearest_matches l s,
    FindMvStack_scans K block c motion_field contexts p
    = Ok (nearest_matches, l)
    /\ (if l_num_mv_found l <? 2
        then ExtraSearch K block c bias (search_of l) = Ok s
             /\ (c = true -> num_mv_found s = 2)
        else s = mkSearch (l_found_new_mv l) (l_found_row_match l)
                   (l_zero_mv l) (l_num_mv_found l)
                   (sort_weight_index_stacks (l_num_mv_found l) (l_pp l)))
    /\ FindMvStack K block c bias motion_field contexts p
       = Ok (match contexts, l_zero_mv l with
             | Some _, Some z =>
                 let '(new_mv_context, reference_mv_context) :=
                   ComputeContexts (l_found_new_mv l) nearest_matches
                     (Z.b2z (l_found_row_match l)
                      + Z.b2z (l_found_column_match l)) in
                 Some (mkMvContexts z new_mv_context reference_mv_context)
             | _, _ => None
             end,
             mkPredictionParameters (ref_mv_stack (pp s))
               (weight_index_stack (pp s)) (nearest_mv_count (pp s))
               (num_mv_found s) (global_mv (pp s))).
Proof.
  intros Hp.
  destruct (FindMvStack_scans_yields K block wide_positive high_positive
              width4x4_positive height4x4_positive c motion_field contexts
              p Hp)
    as ([nearest_matches l] & E & (Hn & Hst) & _).
  exists nearest_matches, l. unfold FindMvStack. rewrite E.
  cbn [mbind result_bind]. fold (search_of l).
  destruct (Z.ltb_spec (l_num_mv_found l) 2) as [Hlt | Hge].
  - destruct (ExtraSearch_yields K block wide_positive high_positive c bias
                (search_of l) Hst ltac:(cbn; lia))
      as (s & Es & _ & _ & Hc).
    exists s. rewrite Es.
    split; [reflexivity |]. split; [| reflexivity].
    split; [reflexivity | exact Hc].
  - eexists. split; [reflexivity |]. split; reflexivity.
Qed.

(** X12. [FindMvStack] returns (no store outside the stack, every loop
    ends) with candidates that are pairwise different: in single
    prediction mode the first vectors [mv[0]] of the [ref_mv_count]
    candidates are pairwise different; in compound mode, whenever more
    than two candidates are returned, the candidates (both vectors
    together) are pairwise different. *)
Theorem FindMvStack_candidates_distinct (is_compound : bool)
    (reference_frame_sign_bias : Z -> bool)
    (motion_field : TemporalMotionField) (contexts : option MvContexts)
    (prediction_parameters : PredictionParameters) :
  stack_ok prediction_parameters ->
  exists contexts' p,
    FindMvStack K block is_compound reference_frame_sign_bias motion_field
      contexts prediction_parameters
    = Ok (contexts', p)
    /\ let candidates :=
         take (Z.to_nat (ref_mv_count p)) (ref_mv_stack p) in
       (is_compound = false -> NoDup (mv0 <$> candidates))
       /\ (is_compound = true -> 2 < ref_mv_count p -> NoDup candidates).
Proof.
  intros Hp.
  destruct (FindMvStack_steps is_compound reference_frame_sign_bias
              motion_field contexts prediction_parameters Hp)
    as (nearest_matches & l & s & E & Es & ->).
  destruct (FindMvStack_scans_tracks _ _ _ _ _ _ Hp E)
    as ((Hn & Hst) & _ & Hd & _).
  eexists _, _. split; [reflexivity |]. cbn [ref_mv_count ref_mv_stack].
  assert (H : (is_compound = true /\ num_mv_found s <= 2)
              \/ distinct is_compound
                   (mkSearch false false None (num_mv_found s) (pp s))).
  { destruct (Z.ltb_spec (l_num_mv_found l) 2) as [Hlt | Hge].
    - destruct Es as [Es Hc]. destruct is_compound.
      + left. split; [reflexivity |]. rewrite (Hc eq_refl). lia.
      + right.
        apply (ExtraSearch_single_keeps _ (search_of l) _ Hst
                 ltac:(cbn; lia)) in Es
          as (_ & Hkeep & _).
        exact (Hkeep Hd).
    - right. subst s. exact Hd. }
  unfold distinct, found in H. cbn [num_mv_found pp] in H.
  split.
  - intros ->. destruct H as [[[=] _] | H].
    unfold candidate_key in H.
    rewrite (list_fmap_compose mv0
               (fun v => mkCandidate v MotionVector_zero)) in H.
    exact (NoDup_fmap_1 _ _ H).
  - intros -> Hmore. destruct H as [[_ H] | H]; [lia |].
    unfold candidate_key in H. now rewrite list_fmap_id in H.
Qed.

Lemma ComputeContexts_range found_new nearest_matches total_matches :
  0 <= nearest_matches <= 2 -> 0 <= total_matches <= 2 ->
  0 <= fst (ComputeContexts found_new nearest_matches total_matches) <= 5
  /\ 0 <= snd (ComputeContexts found_new nearest_matches total_matches) <= 5.
Proof.
  intros Hn Ht. unfold ComputeContexts.
  destruct (nearest_matches =? 0); [cbn; lia |].
  destruct (nearest_matches =? 1); destruct found_new; cbn; lia.
Qed.

(** X10. [FindMvStack] returns; it writes the contexts exactly when the
    caller passes a non-null [contexts], and then [zero_mv] is 0 or 1 and
    [new_mv] and [reference_mv] lie in 0..5, whatever the tile holds. *)
Theorem FindMvStack_contexts_range (is_compound : bool)
    (reference_frame_sign_bias : Z -> bool)
    (motion_field : TemporalMotionField) (contexts : option MvContexts)
    (prediction_parameters : PredictionParameters) :
  stack_ok prediction_parameters ->
  exists contexts' p,
    FindMvStack K block is_compound reference_frame_sign_bias motion_field
      contexts prediction_parameters
    = Ok (contexts', p)
    /\ (is_Some contexts' <-> is_Some contexts)
    /\ forall written, contexts' = Some written ->
         0 <= zero_mv written <= 1 /\ 0 <= new_mv written <= 5
         /\ 0 <= reference_mv written <= 5.
Proof.
  intros Hp.
  destruct (FindMvStack_steps is_compound reference_frame_sign_bias
              motion_field contexts prediction_parameters Hp)
    as (nearest_matches & l & s & E & _ & ->).
  destruct (FindMvStack_scans_tracks _ _ _ _ _ _ Hp E)
    as (_ & Hnear & _ & Hsome & Hz).
  eexists _, _. split; [reflexivity |].
  pose proof (ComputeContexts_range (l_found_new_mv l) nearest_matches
                (Z.b2z (l_found_row_match l)
                 + Z.b2z (l_found_column_match l)) Hnear
                ltac:(destruct (l_found_row_match l),
                        (l_found_column_match l); cbn; lia)) as Hc.
  destruct (ComputeContexts _ _ _) as [new_mv_context reference_mv_context].
  cbn [fst snd] in Hc.
  destruct contexts as [given |], (l_zero_mv l) as [z |]; cbn [zero_ok] in Hz.
  - split; [split; intros _; eauto |].
    intros written [= <-]. cbn. tauto.
  - exfalso. destruct Hsome as [_ Hsome].
    destruct (Hsome ltac:(eauto)) as [? [=]].
  - exfalso. destruct Hsome as [Hsome _].
    destruct (Hsome ltac:(eauto)) as [? [=]].
  - split; [split; intros [? [=]] |]. intros written [=].
Qed.

(** X11. The global motion vector set up by [SetupGlobalMv] is already at
    the precision of the frame header: [LowerMvPrecision] leaves it as it
    is, for every reference, every global-motion type and every
    parameter. *)
Theorem SetupGlobalMv_lowered (index : Z) :
  LowerMvPrecision (precision (frame_header (tile block)))
    (SetupGlobalMv K block index)
  = SetupGlobalMv K block index.
Proof.
  assert (Hidem : forall a b,
            LowerMvPrecision (precision (frame_header (tile block)))
              (LowerMvPrecision (precision (frame_header (tile block)))
                 (mkMv (int16 a) (int16 b)))
            = LowerMvPrecision (precision (frame_header (tile block)))
                (mkMv (int16 a) (int16 b))).
  { intros a b. unfold LowerMvPrecision.
    destruct (allow_high_precision_mv _); [reflexivity |].
    destruct (negb _); cbn [mv_kRow mv_kColumn].
    - now rewrite !LowerMvComponentInteger_idem by apply int16_range.
    - now rewrite !LowerMvComponentFractional_idem by apply int16_range. }
  unfold SetupGlobalMv.
  destruct (_ || _).
  - unfold LowerMvPrecision.
    destruct (allow_high_precision_mv _); [reflexivity |].
    destruct (negb _); reflexivity.
  - destruct (_ =? kGlobalMotionTransformationTypeTranslation K);
      [apply Hidem |].
    destruct (allow_high_precision_mv _) eqn:Hhigh; [| apply Hidem].
    unfold LowerMvPrecision. now rewrite Hhigh.
Qed.
End Candidates.

(** An 8x8 compound block predicted from the references 1 and 4 with the
    vectors [(row, column)] and [(row1, column1)]. *)
Definition compound_block (row column row1 column1 : Z) : BlockParameters :=
  mkBlockParameters 4 false true false 13 (1, 4)
    (mkCandidate (mkMv row column) (mkMv row1 column1)) [0; 0; 0; 0] 0.

(** The tile of [example_tile] with the two rows above and the two columns
    left of position (2, 2) decoded: four 8x8 neighbours with different
    vectors, all compound or all single. *)
Definition crowded_tile (compound : bool) : Tile :=
  mkTile example_header 0 (fun _ => 0)
    (fun r c => (0 <=? r) && (r <? 16) && (0 <=? c) && (c <? 16))
    (fun r => 0 <? r) (fun c => 0 <? c)
    (fun r c => (0 <? r) && (0 <? c))
    (fun r c => (r <? 2) || ((r <? 4) && (c <? 2)))
    (fun r c =>
       if compound then
         if r <? 2 then
           if c <? 2 then compound_block 20 24 (-4) 8
           else if c <? 4 then compound_block 4 (-8) 12 16
           else compound_block (-12) 8 4 4
         else compound_block 12 16 (-8) 4
       else
         if r <? 2 then
           if c <? 2 then inter_block 1 20 24
           else if c <? 4 then inter_block 1 4 (-8)
           else inter_block 1 (-12) 8
         else inter_block 1 12 16).

(** The 8x8 block at (2, 2) of that tile. *)
Definition crowded_block (compound : bool) : Block :=
  mkBlock (crowded_tile compound) 2 2 2 2 8 8 4
    (if compound then compound_block 0 0 0 0 else inter_block 1 0 0)
    true true.

Lemma FindMvStack_candidates_distinct_witness :
  (exists contexts' p,
     FindMvStack example_constants (crowded_block false) false no_sign_bias
       example_field None empty_parameters
     = Ok (contexts', p)
     /\ let candidates :=
          take (Z.to_nat (ref_mv_count p)) (ref_mv_stack p) in
        (false = false -> NoDup (mv0 <$> candidates))
        /\ (false = true -> 2 < ref_mv_count p -> NoDup candidates))
  /\ (exists contexts' p,
        FindMvStack example_constants (crowded_block true) true no_sign_bias
          example_field None empty_parameters
        = Ok (contexts', p)
        /\ let candidates :=
             take (Z.to_nat (ref_mv_count p)) (ref_mv_stack p) in
           (true = false -> NoDup (mv0 <$> candidates))
           /\ (true = true -> 2 < ref_mv_count p -> NoDup candidates)).
Proof.
  split.
  - apply (FindMvStack_candidates_distinct example_constants
             (crowded_block false) example_wide_positive
             example_high_positive).
    + simpl. lia.
    + simpl. lia.
    + exact empty_parameters_ok.
  - apply (FindMvStack_candidates_distinct example_constants
             (crowded_block true) example_wide_positive
             example_high_positive).
    + simpl. lia.
    + simpl. lia.
    + exact empty_parameters_ok.
Defined.

(** Both runs return four candidates: the vectors of the four neighbours. *)
Example FindMvStack_crowded_run :
  (exists contexts' p,
     FindMvStack example_constants (crowded_block false) false no_sign_bias
       example_field None empty_parameters
     = Ok (contexts', p)
     /\ ref_mv_count p = 4
     /\ mv0 <$> take 4 (ref_mv_stack p)
        = [mkMv 4 (-8); mkMv 12 16; mkMv (-12) 8; mkMv 20 24])
  /\ (exists contexts' p,
        FindMvStack example_constants (crowded_block true) true no_sign_bias
          example_field None empty_parameters
        = Ok (contexts', p)
        /\ ref_mv_count p = 4
        /\ take 4 (ref_mv_stack p)
           = [mkCandidate (mkMv 4 (-8)) (mkMv 12 16);
              mkCandidate (mkMv 12 16) (mkMv (-8) 4);
              mkCandidate (mkMv (-12) 8) (mkMv 4 4);
              mkCandidate (mkMv 20 24) (mkMv (-4) 8)]).
Proof.
  split; do 2 eexists; (split; [vm_compute; reflexivity |]);
    split; reflexivity.
Qed.

Lemma FindMvStack_contexts_range_witness :
  exists contexts' p,
    FindMvStack example_constants (second_block 1) false no_sign_bias
      example_field (Some (mkMvContexts 0 0 0)) empty_parameters
    = Ok (contexts', p)
    /\ (is_Some contexts' <-> is_Some (Some (mkMvContexts 0 0 0)))
    /\ forall written, contexts' = Some written ->
         0 <= zero_mv written <= 1 /\ 0 <= new_mv written <= 5
         /\ 0 <= reference_mv written <= 5.
Proof.
  apply (FindMvStack_contexts_range example_constants (second_block 1)
           example_wide_positive example_high_positive).
  - simpl. lia.
  - simpl. lia.
  - exact empty_parameters_ok.
Defined.

End MvPred.

(** ** Motion field set-up ([src/motion_vector.cc], 7.9.1 and 7.9.2) *)

Module MotionField.

(** What [MotionFieldProjection] and [SetupMotionField] read of the frame
    header, of the current frame and of a reference frame. *)
Record ObuFrameHeader := mkFrameHeader {
  rows4x4 : Z;
  columns4x4 : Z;
  order_hint : Z;
  reference_frame_index : Z -> Z
}.

Record RefCountedBuffer := mkRefCountedBuffer {
  buffer_rows4x4 : Z;
  buffer_columns4x4 : Z;
  (* IsIntraFrame(frame_type()) *)
  is_intra_frame : bool;
  (* order_hint(reference_frame) *)
  buffer_order_hint : Z -> Z
}.

(** The arguments of one call of [dsp->motion_field_projection_kernel]
    that [SetupMotionField] chooses; the others (the source frame's motion
    vectors and order hints, [order_hint_shift_bits]) follow from
    [source]. *)
Record Projection := mkProjection {
  source : Z;
  reference_to_current_with_sign : Z;
  dst_sign : Z;
  y8_start : Z;
  y8_end : Z;
  x8_start : Z;
  x8_end : Z
}.

Section SetupMotionField.

(** From [src/utils/constants.h], [src/utils/types.h] and
    [src/utils/common.h]. *)
Variable kMaxFrameDistance : Z.
Variable kReferenceFrameLast : Z.
Variable kReferenceFrameLast2 : Z.
Variable kReferenceFrameGolden : Z.
Variable kReferenceFrameBackward : Z.
Variable kReferenceFrameAlternate2 : Z.
Variable kReferenceFrameAlternate : Z.
Variable DivideBy2 : Z -> Z.
Variable GetRelativeDistance : Z -> Z -> Z -> Z.

(** [TemporalMotionField] and the projection kernel of the dsp table. *)
Variable TemporalMotionField : Type.
Variable motion_field_projection_kernel :
  Projection -> TemporalMotionField -> TemporalMotionField.

Variable frame_header : ObuFrameHeader.
Variable current_frame : RefCountedBuffer.
Variable reference_frames : Z -> RefCountedBuffer.
Variable order_hint_shift_bits : Z.

(** 7.9.2: the value returned and the motion field after the call. *)
Definition MotionFieldProjection (source : Z)
    (reference_to_current_with_sign dst_sign : Z)
    (y8_start y8_end x8_start x8_end : Z)
    (motion_field : TemporalMotionField) : bool * TemporalMotionField :=
  let source_index :=
    reference_frame_index frame_header (source - kReferenceFrameLast) in
  let source_frame := reference_frames source_index in
  if negb (buffer_rows4x4 source_frame =? rows4x4 frame_header)
     || negb (buffer_columns4x4 source_frame =? columns4x4 frame_header)
     || is_intra_frame source_frame
  then (false, motion_field)
  else if kMaxFrameDistance <? reference_to_current_with_sign
  then (true, motion_field)
  else
    (true,
     motion_field_projection_kernel
       (mkProjection source reference_to_current_with_sign dst_sign
          y8_start y8_end x8_start x8_end)
       motion_field).

(** 7.9.1. *)
Definition SetupMotionField (row4x4_start row4x4_end : Z)
    (column4x4_start column4x4_end : Z)
    (motion_field : TemporalMotionField) : TemporalMotionField :=
  let y8_start := DivideBy2 row4x4_start in
  let y8_end := DivideBy2 (Z.min row4x4_end (rows4x4 frame_header)) in
  let x8_start := DivideBy2 column4x4_start in
  let x8_end := DivideBy2 (Z.min column4x4_end (columns4x4 frame_header)) in
  let last_index := reference_frame_index frame_header 0 in
  let last_alternate_order_hint :=
    buffer_order_hint (reference_frames last_index)
      kReferenceFrameAlternate in
  let current_gold_order_hint :=
    buffer_order_hint current_frame kReferenceFrameGolden in
  let project source distance sign motion_field :=
    MotionFieldProjection source distance sign y8_start y8_end x8_start
      x8_end motion_field in
  let distance_to reference :=
    GetRelativeDistance (buffer_order_hint current_frame reference)
      (order_hint frame_header) order_hint_shift_bits in
  let motion_field :=
    if negb (last_alternate_order_hint =? current_gold_order_hint) then
      let reference_offset_last := - distance_to kReferenceFrameLast in
      if Z.abs reference_offset_last <=? kMaxFrameDistance
      then snd (project kReferenceFrameLast reference_offset_last (-1)
                  motion_field)
      else motion_field
    else motion_field in
  let ref_stamp := 1 in
  (* [a > 0 && MotionFieldProjection(...)]: no call when [a <= 0] *)
  let forward reference '(ref_stamp, motion_field) :=
    let reference_offset := distance_to reference in
    if 0 <? reference_offset then
      let '(projected, motion_field) :=
        project reference reference_offset 0 motion_field in
      (if projected then ref_stamp - 1 else ref_stamp, motion_field)
    else (ref_stamp, motion_field) in
  let state := forward kReferenceFrameBackward (ref_stamp, motion_field) in
  let state := forward kReferenceFrameAlternate2 state in
  let state :=
    if 0 <=? fst state then forward kReferenceFrameAlternate state
    else state in
  let '(ref_stamp, motion_field) := state in
  if 0 <=? ref_stamp then
    let reference_offset_last2 := - distance_to kReferenceFrameLast2 in
    if Z.abs reference_offset_last2 <=? kMaxFrameDistance
    then snd (project kReferenceFrameLast2 reference_offset_last2 (-1)
                motion_field)
    else motion_field
  else motion_field.


(** The kernel that only records how it is called. *)
Definition record_call (call : Projection) (calls : list Projection)
  : list Projection :=
  calls ++ [call].

End SetupMotionField.

Section Facts.
Variable kMaxFrameDistance : Z.
Variable kReferenceFrameLast : Z.
Variable kReferenceFrameLast2 : Z.
Variable kReferenceFrameGolden : Z.
Variable kReferenceFrameBackward : Z.
Variable kReferenceFrameAlternate2 : Z.
Variable kReferenceFrameAlternate : Z.
Variable DivideBy2 : Z -> Z.
Variable GetRelativeDistance : Z -> Z -> Z -> Z.
Variable frame_header : ObuFrameHeader.
Variable current_frame : RefCountedBuffer.
Variable reference_frames : Z -> RefCountedBuffer.
Variable order_hint_shift_bits : Z.

(** The kernel calls of one [SetupMotionField], in order. *)
Definition projections (row4x4_start row4x4_end : Z)
    (column4x4_start column4x4_end : Z) : list Projection :=
  SetupMotionField kMaxFrameDistance kReferenceFrameLast
    kReferenceFrameLast2 kReferenceFrameGolden kReferenceFrameBackward
    kReferenceFrameAlternate2 kReferenceFrameAlternate DivideBy2
    GetRelativeDistance (list Projection) record_call frame_header
    current_frame reference_frames order_hint_shift_bits row4x4_start
    row4x4_end column4x4_start column4x4_end [].

Lemma foldl_record_call (calls more : list Projection) :
  foldl (fun field call => record_call call field) calls more = calls ++ more.
Proof.
  revert calls. induction more as [| call more IH]; intros calls; cbn.
  - now rewrite app_nil_r.
  - rewrite IH. unfold record_call. now rewrite <- app_assoc.
Qed.

(** One [MotionFieldProjection]: the value returned and the kernel calls
    made, whatever the kernel and the motion field are. *)
Lemma MotionFieldProjection_calls reference distance sign y8s y8e x8s x8e :
  exists (projected : bool) (calls : list Projection),
    (forall (T : Type) (kernel : Projection -> T -> T) (field : T),
       MotionFieldProjection kMaxFrameDistance kReferenceFrameLast T kernel
         frame_header reference_frames reference distance sign y8s y8e x8s x8e
         field
       = (projected, foldl (fun field call => kernel call field) field calls))
    /\ (length calls <= 1)%nat
    /\ (projected = false -> calls = [])
    /\ Forall (fun call =>
                 call = mkProjection reference distance sign y8s y8e x8s x8e
                 /\ distance <= kMaxFrameDistance)
         calls
    /\ source <$> calls `sublist_of` [reference].
Proof.
  unfold MotionFieldProjection.
  destruct (_ || _).
  - exists false, []. repeat split; auto. apply sublist_nil_l.
  - destruct (Z.ltb_spec kMaxFrameDistance distance).
    + exists true, []. repeat split; auto. apply sublist_nil_l.
    + exists true, [mkProjection reference distance sign y8s y8e x8s x8e].
      repeat split; auto. discriminate.
Qed.

(** What one kernel call of [SetupMotionField] has to satisfy. *)
Definition projection_ok (y8s y8e x8s x8e : Z) (call : Projection) : Prop :=
  - kMaxFrameDistance <= reference_to_current_with_sign call
    <= kMaxFrameDistance
  /\ (dst_sign call = -1 \/ dst_sign call = 0)
  /\ y8_start call = y8s /\ y8_end call = y8e
  /\ x8_start call = x8s /\ x8_end call = x8e.

(** The blocks for [kReferenceFrameLast] and [kReferenceFrameLast2]. *)
Lemma backward_block reference distance y8s y8e x8s x8e :
  exists calls : list Projection,
    (forall (T : Type) (kernel : Projection -> T -> T) (field : T),
       (if Z.abs distance <=? kMaxFrameDistance
        then snd (MotionFieldProjection kMaxFrameDistance kReferenceFrameLast
                    T kernel frame_header reference_frames reference distance
                    (-1) y8s y8e x8s x8e field)
        else field)
       = foldl (fun field call => kernel call field) field calls)
    /\ (length calls <= 1)%nat
    /\ Forall (projection_ok y8s y8e x8s x8e) calls
    /\ source <$> calls `sublist_of` [reference].
Proof.
  destruct (MotionFieldProjection_calls reference distance (-1) y8s y8e x8s x8e)
    as (projected & calls & E & Hlen & _ & Hcalls & Hsource).
  destruct (Z.leb_spec (Z.abs distance) kMaxFrameDistance).
  - exists calls. split; [intros; now rewrite E |]. split; [exact Hlen |].
    split; [| exact Hsource].
    eapply Forall_impl; [exact Hcalls |]. intros call [-> Hhigh].
    unfold projection_ok. cbn. repeat split; auto; lia.
  - exists []. repeat split; auto. apply sublist_nil_l.
Qed.

(** The blocks for [kReferenceFrameBackward], [kReferenceFrameAlternate2]
    and [kReferenceFrameAlternate]: [ref_stamp] goes down exactly when the
    projection returns true. *)
Lemma forward_block reference distance y8s y8e x8s x8e :
  exists (projected : bool) (calls : list Projection),
    (forall (T : Type) (kernel : Projection -> T -> T) (ref_stamp : Z)
            (field : T),
       (if 0 <? distance
        then
          let '(projected, field) :=
            MotionFieldProjection kMaxFrameDistance kReferenceFrameLast T
              kernel frame_header reference_frames reference distance 0 y8s y8e
              x8s x8e field in
          (if projected then ref_stamp - 1 else ref_stamp, field)
        else (ref_stamp, field))
       = (if projected then ref_stamp - 1 else ref_stamp,
          foldl (fun field call => kernel call field) field calls))
    /\ (length calls <= if projected then 1 else 0)%nat
    /\ Forall (projection_ok y8s y8e x8s x8e) calls
    /\ source <$> calls `sublist_of` [reference].
Proof.
  destruct (MotionFieldProjection_calls reference distance 0 y8s y8e x8s x8e)
    as (projected & calls & E & Hlen & Hnone & Hcalls & Hsource).
  destruct (Z.ltb_spec 0 distance).
  - exists projected, calls. split; [intros; now rewrite E |].
    split; [| split; [| exact Hsource]].
    + destruct projected; [exact Hlen |]. now rewrite Hnone.
    + eapply Forall_impl; [exact Hcalls |]. intros call [-> Hhigh].
      unfold projection_ok. cbn. repeat split; auto; lia.
  - exists false, []. repeat split; auto. apply sublist_nil_l.
Qed.

Ltac in_order :=
  first
    [ apply sublist_nil_l
    | assumption
    | apply sublist_app; [assumption | in_order]
    | apply sublist_inserts_r; assumption
    | apply sublist_inserts_l; in_order ].

Ltac walk E1 E2 E3 E4 E5 :=
  repeat first
    [ rewrite E1 | rewrite E2 | rewrite E3 | rewrite E4 | rewrite E5
    | progress cbn [fst snd negb]
    | progress cbv beta iota
    | match goal with
      | |- context [negb (?a =? ?b)] => destruct (Z.eqb_spec a b)
      | |- context [if ?p then _ else _] => is_var p; destruct p
      | |- context [if ?a <=? ?b then _ else _] =>
          destruct (Z.leb_spec a b)
      end ].

(** X13. [SetupMotionField] runs the projection kernel as the list
    [projections] says (the motion field it returns is the kernels applied in
    that order, whatever the kernel does), at most three times, never with a
    distance outside [-kMaxFrameDistance, kMaxFrameDistance], with
    [dst_sign] 0 or -1 and always on the 8x8 range of the call; the
    references are taken in the order Last, Backward, Alternate2, Alternate,
    Last2. *)
Theorem SetupMotionField_projections
    (row4x4_start row4x4_end column4x4_start column4x4_end : Z) :
  let calls :=
    projections row4x4_start row4x4_end column4x4_start column4x4_end in
  (forall (TemporalMotionField : Type)
          (kernel : Projection -> TemporalMotionField -> TemporalMotionField)
          (motion_field : TemporalMotionField),
     SetupMotionField kMaxFrameDistance kReferenceFrameLast
       kReferenceFrameLast2 kReferenceFrameGolden kReferenceFrameBackward
       kReferenceFrameAlternate2 kReferenceFrameAlternate DivideBy2
       GetRelativeDistance TemporalMotionField kernel frame_header
       current_frame reference_frames order_hint_shift_bits row4x4_start
       row4x4_end column4x4_start column4x4_end motion_field
     = foldl (fun field call => kernel call field) motion_field calls)
  /\ (length calls <= 3)%nat
  /\ Forall
       (fun call =>
          - kMaxFrameDistance <= reference_to_current_with_sign call
            <= kMaxFrameDistance
          /\ (dst_sign call = -1 \/ dst_sign call = 0)
          /\ y8_start call = DivideBy2 row4x4_start
          /\ y8_end call
             = DivideBy2 (Z.min row4x4_end (rows4x4 frame_header))
          /\ x8_start call = DivideBy2 column4x4_start
          /\ x8_end call
             = DivideBy2 (Z.min column4x4_end (columns4x4 frame_header)))
       calls
  /\ source <$> calls
     `sublist_of` [kReferenceFrameLast; kReferenceFrameBackward;
                   kReferenceFrameAlternate2; kReferenceFrameAlternate;
                   kReferenceFrameLast2].
Proof.
  cbv zeta. unfold projections, SetupMotionField. cbv beta zeta.
  set (y8s := DivideBy2 row4x4_start).
  set (y8e := DivideBy2 (Z.min row4x4_end _)).
  set (x8s := DivideBy2 column4x4_start).
  set (x8e := DivideBy2 (Z.min column4x4_end _)).
  match goal with
  | |- _ /\ _ /\ Forall ?P _ /\ _ =>
      change P with (projection_ok y8s y8e x8s x8e)
  end.
  destruct (backward_block kReferenceFrameLast
              (- GetRelativeDistance
                   (buffer_order_hint current_frame kReferenceFrameLast)
                   (order_hint frame_header) order_hint_shift_bits)
              y8s y8e x8s x8e)
    as (c1 & E1 & L1 & F1 & S1).
  destruct (forward_block kReferenceFrameBackward
              (GetRelativeDistance
                 (buffer_order_hint current_frame kReferenceFrameBackward)
                 (order_hint frame_header) order_hint_shift_bits)
              y8s y8e x8s x8e)
    as (p2 & c2 & E2 & L2 & F2 & S2).
  destruct (forward_block kReferenceFrameAlternate2
              (GetRelativeDistance
                 (buffer_order_hint current_frame kReferenceFrameAlternate2)
                 (order_hint frame_header) order_hint_shift_bits)
              y8s y8e x8s x8e)
    as (p3 & c3 & E3 & L3 & F3 & S3).
  destruct (forward_block kReferenceFrameAlternate
              (GetRelativeDistance
                 (buffer_order_hint current_frame kReferenceFrameAlternate)
                 (order_hint frame_header) order_hint_shift_bits)
              y8s y8e x8s x8e)
    as (p4 & c4 & E4 & L4 & F4 & S4).
  destruct (backward_block kReferenceFrameLast2
              (- GetRelativeDistance
                   (buffer_order_hint current_frame kReferenceFrameLast2)
                   (order_hint frame_header) order_hint_shift_bits)
              y8s y8e x8s x8e)
    as (c5 & E5 & L5 & F5 & S5).
  split; [intros T kernel field | split; [| split]].
  - walk E1 E2 E3 E4 E5;
      rewrite ?foldl_record_call, ?foldl_app; cbn [app foldl];
      try reflexivity; try lia.
  - walk E1 E2 E3 E4 E5;
      rewrite ?foldl_record_call, ?length_app; cbn [app length]; lia.
  - walk E1 E2 E3 E4 E5;
      rewrite ?foldl_record_call; cbn [app];
      rewrite ?Forall_app; repeat split;
      solve [assumption | apply Forall_nil_2 | lia].
  - walk E1 E2 E3 E4 E5;
      rewrite ?foldl_record_call; cbn [app];
      rewrite <- ?app_assoc, ?fmap_app;
      change [kReferenceFrameLast; kReferenceFrameBackward;
              kReferenceFrameAlternate2; kReferenceFrameAlternate;
              kReferenceFrameLast2]
        with ([kReferenceFrameLast]
              ++ [kReferenceFrameBackward]
              ++ [kReferenceFrameAlternate2]
              ++ [kReferenceFrameAlternate] ++ [kReferenceFrameLast2]);
      in_order.
Qed.

End Facts.

(** A 64x64 frame with order hint 10 whose seven references have order
    hints 8, 6, 4, 7, 12, 14 and 16; each reference frame has the frame's
    size and is an inter frame. *)
Definition example_frame_header : ObuFrameHeader :=
  mkFrameHeader 16 16 10 (fun i => i).

Definition example_current_frame : RefCountedBuffer :=
  mkRefCountedBuffer 16 16 false
    (fun reference => nth (Z.to_nat reference) [0; 8; 6; 4; 7; 12; 14; 16] 0).

Definition example_reference_frames (index : Z) : RefCountedBuffer :=
  mkRefCountedBuffer 16 16 false (fun reference => 9 - reference).

Definition example_projections : list Projection :=
  projections 31 1 2 4 5 6 7 (fun x => Z.shiftr x 1) (fun a b _ => a - b)
    example_frame_header example_current_frame example_reference_frames 7
    0 16 0 16.

(** A run: [kReferenceFrameLast] is projected, then
    [kReferenceFrameBackward] and [kReferenceFrameAlternate2]; after these
    two [ref_stamp] is -1 and the other references are not projected. *)
Example SetupMotionField_run :
  example_projections
  = [mkProjection 1 2 (-1) 0 8 0 8; mkProjection 5 2 0 0 8 0 8;
     mkProjection 6 4 0 0 8 0 8].
Proof. reflexivity. Qed.

End MotionField.

(** ** Deblocking one superblock row ([src/post_filter.cc]) *)

Module DeblockRow.

(** The calls [ApplyDeblockFilterForOneSuperBlockRow] makes, with their
    arguments [(plane, row4x4_start, column4x4_start, unit_id)]. *)
Inductive FilterCall :=
| VerticalDeblockFilterNoMask (plane row4x4 column4x4 unit_id : Z)
| HorizontalDeblockFilterNoMask (plane row4x4 column4x4 unit_id : Z).

Definition call_plane (call : FilterCall) : Z :=
  match call with
  | VerticalDeblockFilterNoMask plane _ _ _
  | HorizontalDeblockFilterNoMask plane _ _ _ => plane
  end.

Definition call_row4x4 (call : FilterCall) : Z :=
  match call with
  | VerticalDeblockFilterNoMask _ row4x4 _ _
  | HorizontalDeblockFilterNoMask _ row4x4 _ _ => row4x4
  end.

Section ApplyDeblockFilterForOneSuperBlockRow.

(** [kNum4x4InLoopFilterMaskUnit] and [kPlaneY] come from
    [src/utils/constants.h]; [planes_] is the member of [PostFilter], the
    other three are read from [frame_header_]. *)
Variable kNum4x4InLoopFilterMaskUnit : Z.
Variable kPlaneY : Z.
Variable planes_ : Z.
Variable rows4x4 : Z.
Variable columns4x4 : Z.
Variable loop_filter_level : Z -> Z.

(** [for (column4x4 = 0; column4x4 < frame_header_.columns4x4;
    column4x4 += kNum4x4InLoopFilterMaskUnit)]: the calls made and the value
    of [column4x4] after the loop; [None] when the fuel runs out. *)
Fixpoint column_loop (fuel : nat) (plane row4x4 column4x4 : Z)
    (calls : list FilterCall) : option (Z * list FilterCall) :=
  if column4x4 <? columns4x4 then
    match fuel with
    | O => None
    | S f =>
        let calls :=
          calls ++ [VerticalDeblockFilterNoMask plane row4x4 column4x4 0] in
        let calls :=
          if negb (column4x4 =? 0)
          then calls
               ++ [HorizontalDeblockFilterNoMask plane row4x4
                     (column4x4 - kNum4x4InLoopFilterMaskUnit) 0]
          else calls in
        column_loop f plane row4x4
          (column4x4 + kNum4x4InLoopFilterMaskUnit) calls
    end
  else Some (column4x4, calls).

(** [for (int y = 0; y < sb4x4; y += 16)], with its [break]. *)
Fixpoint row_loop (fuel : nat) (plane row4x4_start sb4x4 y : Z)
    (calls : list FilterCall) : option (list FilterCall) :=
  if y <? sb4x4 then
    match fuel with
    | O => None
    | S f =>
        let row4x4 := row4x4_start + y in
        if rows4x4 <=? row4x4 then Some calls
        else
          match column_loop (Z.to_nat columns4x4) plane row4x4 0 calls with
          | None => None
          | Some (column4x4, calls) =>
              let calls :=
                calls
                ++ [HorizontalDeblockFilterNoMask plane row4x4
                      (column4x4 - kNum4x4InLoopFilterMaskUnit) 0] in
              row_loop f plane row4x4_start sb4x4 (y + 16) calls
          end
    end
  else Some calls.

(** [for (int plane = kPlaneY; plane < planes_; ++plane)], with its
    [continue]. *)
Fixpoint plane_loop (fuel : nat) (row4x4_start sb4x4 plane : Z)
    (calls : list FilterCall) : option (list FilterCall) :=
  if plane <? planes_ then
    match fuel with
    | O => None
    | S f =>
        if negb (plane =? kPlaneY) && (loop_filter_level (plane + 1) =? 0)
        then plane_loop f row4x4_start sb4x4 (plane + 1) calls
        else
          match row_loop (Z.to_nat sb4x4) plane row4x4_start sb4x4 0 calls
          with
          | None => None
          | Some calls => plane_loop f row4x4_start sb4x4 (plane + 1) calls
          end
    end
  else Some calls.

Definition ApplyDeblockFilterForOneSuperBlockRow (row4x4_start sb4x4 : Z)
  : option (list FilterCall) :=
  plane_loop (Z.to_nat (planes_ - kPlaneY)) row4x4_start sb4x4 kPlaneY [].

(** Every horizontal call comes after the vertical calls of its own unit
    and of the unit to its right (when there is one). *)
Definition ordered (calls : list FilterCall) : Prop :=
  forall before after plane row4x4 column4x4 unit_id,
    calls
    = before
      ++ HorizontalDeblockFilterNoMask plane row4x4 column4x4 unit_id
      :: after ->
    VerticalDeblockFilterNoMask plane row4x4 column4x4 0 ∈ before
    /\ (column4x4 + kNum4x4InLoopFilterMaskUnit < columns4x4 ->
        VerticalDeblockFilterNoMask plane row4x4
          (column4x4 + kNum4x4InLoopFilterMaskUnit) 0 ∈ before).

(** [call] is one of the two calls for a unit of the row [row4x4] of
    [plane]. *)
Definition unit_call (plane row4x4 : Z) (call : FilterCall) : Prop :=
  exists j, 0 <= j /\ kNum4x4InLoopFilterMaskUnit * j < columns4x4
    /\ (call = VerticalDeblockFilterNoMask plane row4x4
                 (kNum4x4InLoopFilterMaskUnit * j) 0
        \/ call = HorizontalDeblockFilterNoMask plane row4x4
                    (kNum4x4InLoopFilterMaskUnit * j) 0).

(** [call] belongs to the superblock row: a filtered plane, a row of 64x64
    units inside the superblock row and the frame. *)
Definition row_call (row4x4_start sb4x4 : Z) (call : FilterCall) : Prop :=
  exists plane t,
    kPlaneY <= plane < planes_
    /\ (plane = kPlaneY \/ loop_filter_level (plane + 1) <> 0)
    /\ 0 <= t /\ 16 * t < sb4x4 /\ row4x4_start + 16 * t < rows4x4
    /\ unit_call plane (row4x4_start + 16 * t) call.

End ApplyDeblockFilterForOneSuperBlockRow.

Section Facts.
Variable kNum4x4InLoopFilterMaskUnit : Z.
Variable kPlaneY : Z.
Variable planes_ : Z.
Variable rows4x4 : Z.
Variable columns4x4 : Z.
Variable loop_filter_level : Z -> Z.
Hypothesis unit_positive : 0 < kNum4x4InLoopFilterMaskUnit.
Hypothesis columns_positive : 0 < columns4x4.

Local Abbreviation k := kNum4x4InLoopFilterMaskUnit.
Local Abbreviation vertical := VerticalDeblockFilterNoMask.
Local Abbreviation horizontal := HorizontalDeblockFilterNoMask.
Local Abbreviation ordered := (ordered k columns4x4).
Local Abbreviation unit_call := (unit_call k columns4x4).

Definition good (calls : list FilterCall) : Prop :=
  NoDup calls /\ ordered calls.

Lemma ordered_snoc calls call :
  ordered calls ->
  (forall plane row4x4 column4x4 unit_id,
     call = horizontal plane row4x4 column4x4 unit_id ->
     vertical plane row4x4 column4x4 0 ∈ calls
     /\ (column4x4 + k < columns4x4 ->
         vertical plane row4x4 (column4x4 + k) 0 ∈ calls)) ->
  ordered (calls ++ [call]).
Proof.
  intros Ho Hc before after plane row4x4 column4x4 unit_id E.
  destruct after as [| z after _] using rev_ind.
  - apply app_inj_tail in E as [-> ->]. eapply Hc. reflexivity.
  - rewrite app_comm_cons, app_assoc in E.
    apply app_inj_tail in E as [-> ->]. eapply Ho. reflexivity.
Qed.

Lemma good_snoc calls call :
  good calls -> call ∉ calls ->
  (forall plane row4x4 column4x4 unit_id,
     call = horizontal plane row4x4 column4x4 unit_id ->
     vertical plane row4x4 column4x4 0 ∈ calls
     /\ (column4x4 + k < columns4x4 ->
         vertical plane row4x4 (column4x4 + k) 0 ∈ calls)) ->
  good (calls ++ [call]).
Proof.
  intros [Hn Ho] Hnew Hc. split; [| now apply ordered_snoc].
  apply NoDup_app. repeat split; [exact Hn | | apply NoDup_singleton].
  intros x Hx Hin. apply list_elem_of_singleton in Hin. now subst.
Qed.


(** The inner loop, from [column4x4 = k * i] on: it ends at the first
    multiple [k * n] not below [columns4x4], having made the two calls of
    each unit but the last horizontal one. *)
Lemma column_loop_spec plane row4x4 (calls0 : list FilterCall) fuel :
  (forall x, x ∈ calls0 ->
     call_plane x <> plane \/ call_row4x4 x <> row4x4) ->
  forall i (calls : list FilterCall),
    0 <= i -> columns4x4 - k * i <= Z.of_nat fuel ->
    (0 < i -> k * (i - 1) < columns4x4) ->
    good calls ->
    (forall x, x ∈ calls
               <-> x ∈ calls0
                   \/ exists j, 0 <= j < i
                        /\ (x = vertical plane row4x4 (k * j) 0
                            \/ (j < i - 1 /\ x = horizontal plane row4x4 (k * j) 0))) ->
    exists n calls',
      column_loop k columns4x4 fuel plane row4x4 (k * i) calls
      = Some (k * n, calls')
      /\ i <= n /\ columns4x4 <= k * n
      /\ (0 < n -> k * (n - 1) < columns4x4)
      /\ good calls'
      /\ (forall x, x ∈ calls'
                    <-> x ∈ calls0
                        \/ exists j, 0 <= j < n
                             /\ (x = vertical plane row4x4 (k * j) 0
                                 \/ (j < n - 1
                                     /\ x = horizontal plane row4x4 (k * j) 0))).
Proof.
  intros Hfresh. induction fuel as [| f IH]; intros i calls Hi Hfuel Hprev
    Hgood Hin; cbn [column_loop].
  - destruct (Z.ltb_spec (k * i) columns4x4); [lia |].
    exists i, calls. split; [reflexivity |]. split; [lia |].
    split; [lia |]. split; [exact Hprev |]. split; [exact Hgood | exact Hin].
  - destruct (Z.ltb_spec (k * i) columns4x4) as [Hlt | Hge];
      [| exists i, calls; split; [reflexivity |]; split; [lia |];
         split; [lia |]; split; [exact Hprev |];
         split; [exact Hgood | exact Hin]].
    set (calls1 := calls ++ [vertical plane row4x4 (k * i) 0]).
    assert (Hin1 : forall x, x ∈ calls1
                     <-> x ∈ calls0
                         \/ exists j, 0 <= j < i + 1
                              /\ (x = vertical plane row4x4 (k * j) 0
                                  \/ (j < i - 1
                                      /\ x = horizontal plane row4x4 (k * j) 0))).
    { intros x. unfold calls1. rewrite elem_of_app, Hin,
        list_elem_of_singleton.
      split.
      - intros [[Hx | (j & Hj & Hx)] | ->]; [now left | |].
        + right. exists j. split; [lia | exact Hx].
        + right. exists i. split; [lia | now left].
      - intros [Hx | (j & Hj & [Hx | Hx])]; [now left; left | |].
        + destruct (Z.eq_dec j i) as [-> | Hne]; [now right |].
          left; right. exists j. split; [lia | now left].
        + left; right. exists j. split; [lia | now right]. }
    assert (Hgood1 : good calls1).
    { apply good_snoc; [exact Hgood | | intros ? ? ? ? [=]].
      rewrite Hin. intros [Hx | (j & Hj & [[= Hx] | [_ [=]]])].
      - destruct (Hfresh _ Hx) as [Hp | Hp]; cbn in Hp; congruence.
      - nia. }
    set (calls2 := if negb (k * i =? 0) then _ else calls1).
    replace (k * i + k) with (k * (i + 1)) by lia.
    assert (H2 : good calls2
                 /\ forall x, x ∈ calls2
                      <-> x ∈ calls0
                          \/ exists j, 0 <= j < i + 1
                               /\ (x = vertical plane row4x4 (k * j) 0
                                   \/ (j < i + 1 - 1
                                       /\ x = horizontal plane row4x4 (k * j) 0))).
    { unfold calls2. destruct (Z.eqb_spec (k * i) 0) as [H0 | H0]; cbn [negb].
      - assert (i = 0) by nia. subst i. split; [exact Hgood1 |].
        intros x. rewrite Hin1. split.
        + intros [Hx | (j & Hj & [Hx | [Hj' Hx]])]; [now left | |];
            right; exists j; (split; [lia |]); [now left | lia].
        + intros [Hx | (j & Hj & [Hx | [Hj' Hx]])]; [now left | |];
            right; exists j; (split; [lia |]); [now left | lia].
      - assert (0 < i) by nia.
        replace (k * i - k) with (k * (i - 1)) by lia.
        split.
        + apply good_snoc; [exact Hgood1 | |].
          * rewrite Hin1.
            intros [Hx | (j & Hj & [[=] | [Hj' [= Hx]]])].
            -- destruct (Hfresh _ Hx) as [Hp | Hp]; cbn in Hp; congruence.
            -- nia.
          * intros p r c u [= <- <- <- <-]. split.
            -- apply Hin1. right. exists (i - 1). split; [lia | now left].
            -- intros _. apply Hin1. right. exists i. split; [lia |].
               left. f_equal. lia.
        + intros x. rewrite elem_of_app, Hin1, list_elem_of_singleton.
          split.
          * intros [[Hx | (j & Hj & [Hx | [Hj' Hx]])] | ->]; [now left | | |];
              right.
            -- exists j. split; [lia | now left].
            -- exists j. split; [lia | right; split; [lia | exact Hx]].
            -- exists (i - 1). split; [lia | right; split; [lia | easy]].
          * intros [Hx | (j & Hj & [Hx | [Hj' Hx]])]; [now left; left | |].
            -- left; right. exists j. split; [lia | now left].
            -- destruct (Z.eq_dec j (i - 1)) as [-> | Hne]; [now right |].
               left; right. exists j.
               split; [lia | right; split; [lia | exact Hx]]. }
    destruct H2 as [Hgood2 Hin2].
    destruct (IH (i + 1) calls2 ltac:(lia) ltac:(nia)
                ltac:(intros _; replace (i + 1 - 1) with i by lia; exact Hlt)
                Hgood2 Hin2)
      as (n & calls' & E & Hn & Hend & Hlast & Hgood' & Hin').
    exists n, calls'. split; [exact E |]. split; [lia |].
    split; [exact Hend |]. split; [exact Hlast |].
    split; [exact Hgood' | exact Hin'].
Qed.


Lemma unit_call_place plane row4x4 x :
  unit_call plane row4x4 x -> call_plane x = plane /\ call_row4x4 x = row4x4.
Proof. intros (j & _ & _ & [-> | ->]); split; reflexivity. Qed.

(** One row of units: the inner loop and the horizontal call after it. *)
Lemma unit_row_spec plane row4x4 (calls0 : list FilterCall) :
  good calls0 ->
  (forall x, x ∈ calls0 ->
     call_plane x <> plane \/ call_row4x4 x <> row4x4) ->
  exists column4x4 calls1,
    column_loop k columns4x4 (Z.to_nat columns4x4) plane row4x4 0 calls0
    = Some (column4x4, calls1)
    /\ good (calls1 ++ [horizontal plane row4x4 (column4x4 - k) 0])
    /\ forall x,
         x ∈ calls1 ++ [horizontal plane row4x4 (column4x4 - k) 0]
         <-> x ∈ calls0 \/ unit_call plane row4x4 x.
Proof.
  intros Hgood Hfresh.
  destruct (column_loop_spec plane row4x4 calls0 (Z.to_nat columns4x4)
              Hfresh 0 calls0 ltac:(lia) ltac:(lia) ltac:(lia) Hgood)
    as (n & calls1 & E & Hn & Hend & Hlast & Hgood1 & Hin1).
  { intros x. split; [now left | intros [Hx | (j & Hj & _)]; [exact Hx | lia]]. }
  rewrite Z.mul_0_r in E. exists (k * n), calls1.
  assert (0 < n) by nia. specialize (Hlast ltac:(lia)).
  replace (k * n - k) with (k * (n - 1)) by lia.
  split; [exact E |]. split.
  - apply good_snoc; [exact Hgood1 | |].
    + rewrite Hin1. intros [Hx | (j & Hj & [[=] | [Hj' [= Heq]]])]; [| nia].
      destruct (Hfresh _ Hx) as [Hp | Hp]; cbn in Hp; congruence.
    + intros p r c u [= <- <- <- <-]. split.
      * apply Hin1. right. exists (n - 1). split; [lia | now left].
      * lia.
  - intros x. rewrite elem_of_app, Hin1, list_elem_of_singleton.
    unfold DeblockRow.unit_call. split.
    + intros [[Hx | (j & Hj & [Hx | [Hj' Hx]])] | ->]; [now left | | |];
        right.
      * exists j. split; [lia |]. split; [nia | now left].
      * exists j. split; [lia |]. split; [nia | now right].
      * exists (n - 1). split; [lia |]. split; [lia | now right].
    + intros [Hx | (j & Hj & Hlt & [Hx | Hx])]; [now left; left | |].
      * left; right. exists j. split; [nia | now left].
      * destruct (Z.eq_dec j (n - 1)) as [-> | Hne]; [now right |].
        left; right. exists j. split; [nia | right; split; [nia | exact Hx]].
Qed.

(** [call] belongs to one of the rows of units of [plane] in the
    superblock row. *)
Definition plane_call (row4x4_start sb4x4 plane : Z) (call : FilterCall)
  : Prop :=
  exists t, 0 <= t /\ 16 * t < sb4x4 /\ row4x4_start + 16 * t < rows4x4
    /\ unit_call plane (row4x4_start + 16 * t) call.

Lemma row_loop_spec plane row4x4_start sb4x4 (calls0 : list FilterCall) fuel :
  (forall x, x ∈ calls0 -> call_plane x <> plane) ->
  forall t (calls : list FilterCall),
    0 <= t -> sb4x4 - 16 * t <= Z.of_nat fuel ->
    (0 < t -> 16 * (t - 1) < sb4x4
              /\ row4x4_start + 16 * (t - 1) < rows4x4) ->
    good calls ->
    (forall x, x ∈ calls
               <-> x ∈ calls0
                   \/ exists t', 0 <= t' < t
                        /\ unit_call plane (row4x4_start + 16 * t') x) ->
    exists calls',
      row_loop k rows4x4 columns4x4 fuel plane row4x4_start sb4x4 (16 * t)
        calls
      = Some calls'
      /\ good calls'
      /\ forall x, x ∈ calls'
                   <-> x ∈ calls0 \/ plane_call row4x4_start sb4x4 plane x.
Proof.
  intros Hfresh.
  assert (Hstop : forall t (calls : list FilterCall),
            0 <= t ->
            (0 < t -> 16 * (t - 1) < sb4x4
                      /\ row4x4_start + 16 * (t - 1) < rows4x4) ->
            sb4x4 <= 16 * t \/ rows4x4 <= row4x4_start + 16 * t ->
            (forall x, x ∈ calls
                       <-> x ∈ calls0
                           \/ exists t', 0 <= t' < t
                                /\ unit_call plane (row4x4_start + 16 * t')
                                     x) ->
            forall x, x ∈ calls
                      <-> x ∈ calls0
                          \/ plane_call row4x4_start sb4x4 plane x).
  { intros t calls Ht Hprev Hend Hin x. rewrite Hin. unfold plane_call.
    split.
    - intros [Hx | (t' & Ht' & Hx)]; [now left |]. right. exists t'.
      repeat split; try lia; exact Hx.
    - intros [Hx | (t' & Ht' & Hsb & Hrow & Hx)]; [now left |]. right.
      exists t'. split; [lia | exact Hx]. }
  induction fuel as [| f IH]; intros t calls Ht Hfuel Hprev Hgood Hin;
    cbn [row_loop].
  - destruct (Z.ltb_spec (16 * t) sb4x4); [lia |].
    exists calls. split; [reflexivity |]. split; [exact Hgood |].
    apply (Hstop t); auto.
  - destruct (Z.ltb_spec (16 * t) sb4x4) as [Hlt | Hge];
      [| exists calls; split; [reflexivity |]; split; [exact Hgood |];
         apply (Hstop t); auto].
    destruct (Z.leb_spec rows4x4 (row4x4_start + 16 * t)) as [Hout | Hrow];
      [exists calls; split; [reflexivity |]; split; [exact Hgood |];
       apply (Hstop t); auto |].
    destruct (unit_row_spec plane (row4x4_start + 16 * t) calls Hgood)
      as (column4x4 & calls1 & E & Hgood1 & Hin1).
    { intros x Hx. apply Hin in Hx as [Hx | (t' & Ht' & Hx)].
      - left. now apply Hfresh.
      - right. apply unit_call_place in Hx as [_ ->]. lia. }
    rewrite E. replace (16 * t + 16) with (16 * (t + 1)) by lia.
    apply IH; [lia | lia | | exact Hgood1 |].
    + intros _. replace (t + 1 - 1) with t by lia. now split.
    + intros x. rewrite Hin1, Hin. split.
      * intros [[Hx | (t' & Ht' & Hx)] | Hx]; [now left | |]; right.
        -- exists t'. split; [lia | exact Hx].
        -- exists t. split; [lia | exact Hx].
      * intros [Hx | (t' & Ht' & Hx)]; [now left; left |].
        destruct (Z.eq_dec t' t) as [-> | Hne]; [now right |].
        left; right. exists t'. split; [lia | exact Hx].
Qed.

Lemma plane_call_place row4x4_start sb4x4 plane x :
  plane_call row4x4_start sb4x4 plane x -> call_plane x = plane.
Proof. intros (t & _ & _ & _ & Hx). now apply unit_call_place in Hx. Qed.

Lemma plane_loop_spec row4x4_start sb4x4 fuel :
  forall plane (calls : list FilterCall),
    kPlaneY <= plane -> planes_ - plane <= Z.of_nat fuel ->
    good calls ->
    (forall x, x ∈ calls
               <-> exists p, kPlaneY <= p < plane /\ p < planes_
                     /\ (p = kPlaneY \/ loop_filter_level (p + 1) <> 0)
                     /\ plane_call row4x4_start sb4x4 p x) ->
    exists calls',
      plane_loop k kPlaneY planes_ rows4x4 columns4x4 loop_filter_level fuel
        row4x4_start sb4x4 plane calls
      = Some calls'
      /\ good calls'
      /\ forall x, x ∈ calls'
                   <-> row_call k kPlaneY planes_ rows4x4 columns4x4
                         loop_filter_level row4x4_start sb4x4 x.
Proof.
  assert (Hstop : forall plane (calls : list FilterCall),
            planes_ <= plane ->
            (forall x, x ∈ calls
               <-> exists p, kPlaneY <= p < plane /\ p < planes_
                     /\ (p = kPlaneY \/ loop_filter_level (p + 1) <> 0)
                     /\ plane_call row4x4_start sb4x4 p x) ->
            forall x, x ∈ calls
                      <-> row_call k kPlaneY planes_ rows4x4 columns4x4
                            loop_filter_level row4x4_start sb4x4 x).
  { intros plane calls Hend Hin x. rewrite Hin. unfold row_call, plane_call.
    split.
    - intros (p & Hp & Hlt & Hlevel & t & Hx). exists p, t.
      split; [lia |]. split; [exact Hlevel | exact Hx].
    - intros (p & t & Hp & Hlevel & Hx). exists p.
      split; [lia |]. split; [lia |]. split; [exact Hlevel |].
      exists t. exact Hx. }
  induction fuel as [| f IH]; intros plane calls Hplane Hfuel Hgood Hin;
    cbn [plane_loop].
  - destruct (Z.ltb_spec plane planes_); [lia |].
    exists calls. split; [reflexivity |]. split; [exact Hgood |].
    now apply (Hstop plane).
  - destruct (Z.ltb_spec plane planes_) as [Hlt | Hge];
      [| exists calls; split; [reflexivity |]; split; [exact Hgood |];
         now apply (Hstop plane)].
    destruct (negb (plane =? kPlaneY) && (loop_filter_level (plane + 1) =? 0))
      eqn:Hskip.
    + apply IH; [lia | lia | exact Hgood |].
      intros x. rewrite Hin. split.
      * intros (p & Hp & Hx). exists p. split; [lia | exact Hx].
      * intros (p & Hp & Hpl & Hlevel & Hx). exists p.
        destruct (Z.eq_dec p plane) as [-> | Hne];
          [| split; [lia |]; split; [lia |]; split; assumption].
        apply andb_true_iff in Hskip as [Hy Hzero].
        apply negb_true_iff, Z.eqb_neq in Hy. apply Z.eqb_eq in Hzero.
        destruct Hlevel; congruence.
    + destruct (row_loop_spec plane row4x4_start sb4x4 calls
                  (Z.to_nat sb4x4)
                  ltac:(intros x Hx; apply Hin in Hx
                          as (p & Hp & _ & _ & Hx);
                        apply plane_call_place in Hx; lia)
                  0 calls ltac:(lia) ltac:(lia) ltac:(lia) Hgood)
        as (calls1 & E & Hgood1 & Hin1).
      { intros x. split; [now left |].
        intros [Hx | (t' & Ht' & _)]; [exact Hx | lia]. }
      rewrite Z.mul_0_r in E. rewrite E.
      apply IH; [lia | lia | exact Hgood1 |].
      intros x. rewrite Hin1, Hin. split.
      * intros [(p & Hp & Hx) | Hx].
        -- exists p. split; [lia | exact Hx].
        -- exists plane. split; [lia |]. split; [lia |]. split; [| exact Hx].
           apply andb_false_iff in Hskip as [Hy | Hzero].
           ++ apply negb_false_iff, Z.eqb_eq in Hy. now left.
           ++ apply Z.eqb_neq in Hzero. now right.
      * intros (p & Hp & Hpl & Hlevel & Hx).
        destruct (Z.eq_dec p plane) as [-> | Hne]; [now right |].
        left. exists p. split; [lia |]. split; [lia |]. split; assumption.
Qed.

(** X14. On a frame with at least one column of 4x4 blocks,
    [ApplyDeblockFilterForOneSuperBlockRow] ends and makes each call once:
    for every filtered plane (luma, and each chroma plane whose loop-filter
    level is not 0), every row of 64x64 units of the superblock row inside
    the frame and every unit of that row, one vertical and one horizontal
    call, and no other call; each horizontal call comes after the vertical
    calls for its own unit and for the unit to its right. *)
Theorem ApplyDeblockFilterForOneSuperBlockRow_calls (row4x4_start sb4x4 : Z) :
  exists calls,
    ApplyDeblockFilterForOneSuperBlockRow k kPlaneY planes_ rows4x4
      columns4x4 loop_filter_level row4x4_start sb4x4
    = Some calls
    /\ NoDup calls
    /\ ordered calls
    /\ forall call,
         call ∈ calls
         <-> row_call k kPlaneY planes_ rows4x4 columns4x4 loop_filter_level
               row4x4_start sb4x4 call.
Proof.
  unfold ApplyDeblockFilterForOneSuperBlockRow.
  destruct (plane_loop_spec row4x4_start sb4x4 (Z.to_nat (planes_ - kPlaneY))
              kPlaneY [] ltac:(lia) ltac:(lia))
    as (calls & E & [Hnodup Hordered] & Hin).
  - split; [apply NoDup_nil_2 |].
    intros [| y before] after plane row4x4 column4x4 unit_id [=].
  - intros x. split; [intros Hx; now apply elem_of_nil in Hx |].
    intros (p & Hp & _). lia.
  - exists calls. split; [exact E |]. split; [exact Hnodup |].
    split; [exact Hordered | exact Hin].
Qed.

End Facts.

(** A 160x80 frame with three planes, the loop-filter level of the U plane
    being 0, and a 128x128 superblock row. *)
Definition example_level (index : Z) : Z := if index =? 2 then 0 else 32.

Lemma ApplyDeblockFilterForOneSuperBlockRow_calls_witness :
  exists calls,
    ApplyDeblockFilterForOneSuperBlockRow 16 0 3 20 40 example_level 0 32
    = Some calls
    /\ NoDup calls
    /\ ordered 16 40 calls
    /\ forall call,
         call ∈ calls <-> row_call 16 0 3 20 40 example_level 0 32 call.
Proof.
  apply (ApplyDeblockFilterForOneSuperBlockRow_calls 16 0 3 20 40
           example_level);
    lia.
Defined.

(** The calls for one plane and one row of three units. *)
Example ApplyDeblockFilterForOneSuperBlockRow_run :
  ApplyDeblockFilterForOneSuperBlockRow 16 0 1 4 40 example_level 0 16
  = Some [VerticalDeblockFilterNoMask 0 0 0 0;
          VerticalDeblockFilterNoMask 0 0 16 0;
          HorizontalDeblockFilterNoMask 0 0 0 0;
          VerticalDeblockFilterNoMask 0 0 32 0;
          HorizontalDeblockFilterNoMask 0 0 16 0;
          HorizontalDeblockFilterNoMask 0 0 32 0].
Proof. reflexivity. Qed.

End DeblockRow.

(** ** The input block of loop restoration
    ([src/post_filter/loop_restoration.cc]) *)

Module Restoration.
Import Cdef Border.

Section PrepareLoopRestorationBlock.

(** From [src/utils/constants.h]. *)
Variable kRestorationVerticalBorder : Z.
Variable kRestorationHorizontalBorder : Z.

(** [CopyTwoRows]: the memory and [*dst] after the call. *)
Fixpoint CopyTwoRows_loop (count : nat) (src src_stride dst dst_stride
    width : Z) (m : buffer) : Z * buffer :=
  match count with
  | O => (dst, m)
  | S n =>
      CopyTwoRows_loop n (src + src_stride) src_stride (dst + dst_stride)
        dst_stride width (memcpy m dst src width m)
  end.

Definition CopyTwoRows (src src_stride dst dst_stride width : Z) (m : buffer)
  : Z * buffer :=
  CopyTwoRows_loop (Z.to_nat (kRestorationVerticalBorder - 1)) src src_stride
    dst dst_stride width m.

(** The [do ... while (--h != 0)] loop ("Main body"): [*dst] and the memory
    after it; [None] when the fuel runs out. *)
Fixpoint main_body (fuel : nat) (h cdef_ptr cdef_stride dst dest_stride
    width : Z) (m : buffer) : option (Z * buffer) :=
  match fuel with
  | O => None
  | S f =>
      let m := memcpy m dst cdef_ptr width m in
      let cdef_ptr := cdef_ptr + cdef_stride in
      let dst := dst + dest_stride in
      let h := h - 1 in
      if negb (h =? 0)
      then main_body f h cdef_ptr cdef_stride dst dest_stride width m
      else Some (dst, m)
  end.

(** Addresses count [Pixel]s; the three strides arrive in bytes.  The loop
    counter [h] is the fuel of the main body, so that the result is [None]
    when [h] is not positive on entry (the counter would have to wrap
    around). *)
Definition PrepareLoopRestorationBlock (sizeof_Pixel : Z)
    (cdef_buffer cdef_stride deblock_buffer deblock_stride dest
     dest_stride width height : Z)
    (frame_top_border frame_bottom_border : bool) (m : buffer)
  : option buffer :=
  let cdef_stride := Z.quot cdef_stride sizeof_Pixel in
  let deblock_stride := Z.quot deblock_stride sizeof_Pixel in
  let dest_stride := Z.quot dest_stride sizeof_Pixel in
  let cdef_ptr :=
    cdef_buffer - (kRestorationVerticalBorder - 1) * cdef_stride
    - kRestorationHorizontalBorder in
  let deblock_ptr := deblock_buffer - kRestorationHorizontalBorder in
  let dst := dest in
  let h := height in
  let '(h, cdef_ptr, deblock_ptr, dst, m) :=
    if frame_top_border
    then (h + (kRestorationVerticalBorder - 1), cdef_ptr, deblock_ptr, dst, m)
    else
      let '(dst, m) :=
        CopyTwoRows deblock_ptr deblock_stride dst dest_stride
          (width + 2 * kRestorationHorizontalBorder) m in
      (h, cdef_ptr + (kRestorationVerticalBorder - 1) * cdef_stride,
       deblock_ptr + 4 * deblock_stride, dst, m) in
  let h :=
    if frame_bottom_border then h + (kRestorationVerticalBorder - 1) else h in
  match main_body (Z.to_nat h) h cdef_ptr cdef_stride dst dest_stride
          (width + 2 * kRestorationHorizontalBorder) m with
  | None => None
  | Some (dst, m) =>
      if negb frame_bottom_border then
        let deblock_ptr :=
          deblock_ptr + (kRestorationVerticalBorder - 1) * deblock_stride in
        Some (snd (CopyTwoRows deblock_ptr deblock_stride dst dest_stride
                     (width + 2 * kRestorationHorizontalBorder) m))
      else Some m
  end.

End PrepareLoopRestorationBlock.

Section Facts.

(** Row copies into rows of width [width] that are [dest_stride] apart. *)
Section Rows.
Variables (dest_stride width : Z).
Hypothesis width_fits : 0 <= width <= dest_stride.

(** [a] is in none of the [rows] rows from [dst] on. *)
Definition outside (rows dst a : Z) : Prop :=
  forall j, 0 <= j < rows ->
    a < dst + j * dest_stride \/ dst + j * dest_stride + width <= a.

(** [m'] is [m] with cell [(j, x)] of the [rows] rows from [dst] on
    replaced by the value [m] has at [source_of j x]. *)
Definition copies (rows : Z) (source_of : Z -> Z -> Z) (dst : Z)
    (m m' : buffer) : Prop :=
  (forall j x, 0 <= j < rows -> 0 <= x < width ->
     m' (dst + j * dest_stride + x) = m (source_of j x))
  /\ (forall a, outside rows dst a -> m' a = m a).

Lemma copies_rows (rows : nat) src source_stride dst m :
  (forall y x, 0 <= y < Z.of_nat rows -> 0 <= x < width ->
     outside (Z.of_nat rows) dst (src + y * source_stride + x)) ->
  copies (Z.of_nat rows) (fun j x => src + j * source_stride + x) dst m
    (CopyPlane_rows rows src source_stride width dst dest_stride m).
Proof.
  intros Hd. split.
  - intros j x Hj Hx. apply CopyPlane_rows_at; try assumption.
    intros y' x' j' Hy' Hx' Hj'. now apply Hd.
  - intros a Ha. now apply CopyPlane_rows_outside.
Qed.

Lemma copies_seq rows1 rows2 source1 source2 dst m m1 m2 :
  0 <= rows1 -> 0 <= rows2 ->
  copies rows1 source1 dst m m1 ->
  copies rows2 source2 (dst + rows1 * dest_stride) m1 m2 ->
  (forall j x, 0 <= j < rows2 -> 0 <= x < width ->
     outside rows1 dst (source2 j x)) ->
  copies (rows1 + rows2)
    (fun j x => if j <? rows1 then source1 j x else source2 (j - rows1) x)
    dst m m2.
Proof.
  intros H1 H2 [Hin1 Hout1] [Hin2 Hout2] Hsrc. split.
  - intros j x Hj Hx. destruct (Z.ltb_spec j rows1) as [Hlt | Hge].
    + rewrite Hout2; [now apply Hin1 |].
      intros j' Hj'. left.
      assert ((j + 1) * dest_stride <= (rows1 + j') * dest_stride) by nia.
      lia.
    + replace (dst + j * dest_stride + x)
        with (dst + rows1 * dest_stride + (j - rows1) * dest_stride + x)
        by ring.
      rewrite Hin2 by lia. apply Hout1, Hsrc; lia.
  - intros a Ha. rewrite Hout2, Hout1; [reflexivity | |].
    + intros j Hj. apply Ha. lia.
    + intros j Hj. specialize (Ha (rows1 + j) ltac:(lia)). lia.
Qed.


(** Three row copies one after the other, into consecutive rows. *)
Lemma copies_three (n1 n2 n3 : nat) s1 ss1 s2 ss2 s3 ss3 dst m :
  let rows := Z.of_nat n1 + Z.of_nat n2 + Z.of_nat n3 in
  let source_of j x :=
    if j <? Z.of_nat n1 then s1 + j * ss1 + x
    else if j <? Z.of_nat n1 + Z.of_nat n2
         then s2 + (j - Z.of_nat n1) * ss2 + x
         else s3 + (j - Z.of_nat n1 - Z.of_nat n2) * ss3 + x in
  (forall j x, 0 <= j < rows -> 0 <= x < width ->
     outside rows dst (source_of j x)) ->
  copies rows source_of dst m
    (CopyPlane_rows n3 s3 ss3 width
       (dst + Z.of_nat n1 * dest_stride + Z.of_nat n2 * dest_stride)
       dest_stride
       (CopyPlane_rows n2 s2 ss2 width (dst + Z.of_nat n1 * dest_stride)
          dest_stride
          (CopyPlane_rows n1 s1 ss1 width dst dest_stride m))).
Proof.
  intros rows source_of Hsrc.
  assert (Hlater : forall first count a,
            0 <= first -> first + count <= rows ->
            outside rows dst a ->
            outside count (dst + first * dest_stride) a).
  { intros first count a Hf Hc Ha j Hj.
    specialize (Ha (first + j) ltac:(lia)). lia. }
  assert (H1 : copies (Z.of_nat n1) (fun j x => s1 + j * ss1 + x) dst m
                 (CopyPlane_rows n1 s1 ss1 width dst dest_stride m)).
  { apply copies_rows. intros y x Hy Hx.
    specialize (Hsrc y x ltac:(lia) Hx). unfold source_of in Hsrc.
    destruct (Z.ltb_spec y (Z.of_nat n1)); [| lia].
    intros j Hj. apply Hsrc. lia. }
  assert (H2 : copies (Z.of_nat n2) (fun j x => s2 + j * ss2 + x)
                 (dst + Z.of_nat n1 * dest_stride)
                 (CopyPlane_rows n1 s1 ss1 width dst dest_stride m)
                 (CopyPlane_rows n2 s2 ss2 width
                    (dst + Z.of_nat n1 * dest_stride) dest_stride
                    (CopyPlane_rows n1 s1 ss1 width dst dest_stride m))).
  { apply copies_rows. intros y x Hy Hx.
    specialize (Hsrc (Z.of_nat n1 + y) x ltac:(lia) Hx).
    unfold source_of in Hsrc.
    destruct (Z.ltb_spec (Z.of_nat n1 + y) (Z.of_nat n1)); [lia |].
    destruct (Z.ltb_spec (Z.of_nat n1 + y) (Z.of_nat n1 + Z.of_nat n2));
      [| lia].
    replace (Z.of_nat n1 + y - Z.of_nat n1) with y in Hsrc by lia.
    apply (Hlater (Z.of_nat n1) (Z.of_nat n2)); [lia | lia | exact Hsrc]. }
  pose proof (copies_seq (Z.of_nat n1) (Z.of_nat n2) _ _ _ _ _ _
                ltac:(lia) ltac:(lia) H1 H2) as H12.
  cbv beta in H12.
  assert (H12' : copies (Z.of_nat n1 + Z.of_nat n2)
                   (fun j x =>
                      if j <? Z.of_nat n1 then s1 + j * ss1 + x
                      else s2 + (j - Z.of_nat n1) * ss2 + x)
                   dst m
                   (CopyPlane_rows n2 s2 ss2 width
                      (dst + Z.of_nat n1 * dest_stride) dest_stride
                      (CopyPlane_rows n1 s1 ss1 width dst dest_stride m))).
  { apply H12. intros j x Hj Hx.
    specialize (Hsrc (Z.of_nat n1 + j) x ltac:(lia) Hx).
    unfold source_of in Hsrc.
    destruct (Z.ltb_spec (Z.of_nat n1 + j) (Z.of_nat n1)); [lia |].
    destruct (Z.ltb_spec (Z.of_nat n1 + j) (Z.of_nat n1 + Z.of_nat n2));
      [| lia].
    replace (Z.of_nat n1 + j - Z.of_nat n1) with j in Hsrc by lia.
    intros j' Hj'. apply Hsrc. lia. }
  clear H12.
  set (m2 := CopyPlane_rows n2 _ _ _ _ _ _) in *.
  assert (H3 : copies (Z.of_nat n3) (fun j x => s3 + j * ss3 + x)
                 (dst + (Z.of_nat n1 + Z.of_nat n2) * dest_stride) m2
                 (CopyPlane_rows n3 s3 ss3 width
                    (dst + (Z.of_nat n1 + Z.of_nat n2) * dest_stride)
                    dest_stride m2)).
  { apply copies_rows. intros y x Hy Hx.
    specialize (Hsrc (Z.of_nat n1 + Z.of_nat n2 + y) x ltac:(lia) Hx).
    unfold source_of in Hsrc.
    destruct (Z.ltb_spec (Z.of_nat n1 + Z.of_nat n2 + y) (Z.of_nat n1));
      [lia |].
    destruct (Z.ltb_spec (Z.of_nat n1 + Z.of_nat n2 + y)
                (Z.of_nat n1 + Z.of_nat n2)); [lia |].
    replace (Z.of_nat n1 + Z.of_nat n2 + y - Z.of_nat n1 - Z.of_nat n2)
      with y in Hsrc by lia.
    apply (Hlater (Z.of_nat n1 + Z.of_nat n2) (Z.of_nat n3));
      [lia | lia | exact Hsrc]. }
  replace (dst + Z.of_nat n1 * dest_stride + Z.of_nat n2 * dest_stride)
    with (dst + (Z.of_nat n1 + Z.of_nat n2) * dest_stride) by ring.
  destruct (copies_seq (Z.of_nat n1 + Z.of_nat n2) (Z.of_nat n3) _ _ _ _ _ _
              ltac:(lia) ltac:(lia) H12' H3)
    as [Hin Hout].
  { intros j x Hj Hx.
    specialize (Hsrc (Z.of_nat n1 + Z.of_nat n2 + j) x ltac:(lia) Hx).
    unfold source_of in Hsrc.
    destruct (Z.ltb_spec (Z.of_nat n1 + Z.of_nat n2 + j) (Z.of_nat n1));
      [lia |].
    destruct (Z.ltb_spec (Z.of_nat n1 + Z.of_nat n2 + j)
                (Z.of_nat n1 + Z.of_nat n2)); [lia |].
    replace (Z.of_nat n1 + Z.of_nat n2 + j - Z.of_nat n1 - Z.of_nat n2)
      with j in Hsrc by lia.
    intros j' Hj'. apply Hsrc. lia. }
  split; [| exact Hout].
  intros j x Hj Hx. rewrite (Hin j x Hj Hx). unfold source_of.
  destruct (Z.ltb_spec j (Z.of_nat n1 + Z.of_nat n2));
    destruct (Z.ltb_spec j (Z.of_nat n1)); try lia; try reflexivity.
  f_equal. lia.
Qed.

Lemma copies_three_as (n1 n2 n3 : nat) s1 ss1 s2 ss2 s3 ss3 dst dst2 dst3 m
    rows (source : Z -> Z -> Z) :
  dst2 = dst + Z.of_nat n1 * dest_stride ->
  dst3 = dst + Z.of_nat n1 * dest_stride + Z.of_nat n2 * dest_stride ->
  rows = Z.of_nat n1 + Z.of_nat n2 + Z.of_nat n3 ->
  (forall j x, 0 <= j < rows ->
     source j x
     = if j <? Z.of_nat n1 then s1 + j * ss1 + x
       else if j <? Z.of_nat n1 + Z.of_nat n2
            then s2 + (j - Z.of_nat n1) * ss2 + x
            else s3 + (j - Z.of_nat n1 - Z.of_nat n2) * ss3 + x) ->
  (forall j x, 0 <= j < rows -> 0 <= x < width ->
     outside rows dst (source j x)) ->
  copies rows source dst m
    (CopyPlane_rows n3 s3 ss3 width dst3 dest_stride
       (CopyPlane_rows n2 s2 ss2 width dst2 dest_stride
          (CopyPlane_rows n1 s1 ss1 width dst dest_stride m))).
Proof.
  intros -> -> -> Hsource Hsrc.
  destruct (copies_three n1 n2 n3 s1 ss1 s2 ss2 s3 ss3 dst m) as [Hin Hout].
  { intros j x Hj Hx. rewrite <- Hsource by exact Hj. now apply Hsrc. }
  split; [| exact Hout].
  intros j x Hj Hx. rewrite Hin by assumption. now rewrite Hsource.
Qed.

End Rows.

Lemma CopyTwoRows_loop_rows count src src_stride dst dst_stride width m :
  CopyTwoRows_loop count src src_stride dst dst_stride width m
  = (dst + Z.of_nat count * dst_stride,
     CopyPlane_rows count src src_stride width dst dst_stride m).
Proof.
  revert src dst m. induction count as [| n IH]; intros src dst m.
  - cbn. f_equal. lia.
  - cbn [CopyTwoRows_loop CopyPlane_rows]. rewrite IH. f_equal. lia.
Qed.

Lemma main_body_step f h cdef_ptr cdef_stride dst dest_stride width m :
  main_body (S f) h cdef_ptr cdef_stride dst dest_stride width m
  = if negb (h - 1 =? 0)
    then main_body f (h - 1) (cdef_ptr + cdef_stride) cdef_stride
           (dst + dest_stride) dest_stride width
           (memcpy m dst cdef_ptr width m)
    else Some (dst + dest_stride, memcpy m dst cdef_ptr width m).
Proof. reflexivity. Qed.

Lemma main_body_rows fuel cdef_ptr cdef_stride dst dest_stride width m :
  main_body (S fuel) (Z.of_nat (S fuel)) cdef_ptr cdef_stride dst dest_stride
    width m
  = Some (dst + Z.of_nat (S fuel) * dest_stride,
          CopyPlane_rows (S fuel) cdef_ptr cdef_stride width dst dest_stride
            m).
Proof.
  revert cdef_ptr dst m. induction fuel as [| f IH]; intros cdef_ptr dst m.
  - cbn. do 2 f_equal. lia.
  - rewrite main_body_step.
    replace (Z.of_nat (S (S f)) - 1) with (Z.of_nat (S f)) by lia.
    destruct (Z.eqb_spec (Z.of_nat (S f)) 0); [lia |]. cbn [negb].
    rewrite IH. change (CopyPlane_rows (S (S f)) cdef_ptr cdef_stride width
                          dst dest_stride m)
      with (CopyPlane_rows (S f) (cdef_ptr + cdef_stride) cdef_stride width
              (dst + dest_stride) dest_stride
              (memcpy m dst cdef_ptr width m)).
    do 2 f_equal. lia.
Qed.


Section Block.
Variable kRestorationVerticalBorder : Z.
Variable kRestorationHorizontalBorder : Z.
Variables (sizeof_Pixel cdef_buffer cdef_stride deblock_buffer deblock_stride
           dest dest_stride width height : Z).
Variables (frame_top_border frame_bottom_border : bool).

(** Where cell [(j, x)] of the block comes from: the rows of the cdef buffer
    from [kRestorationVerticalBorder - 1] rows above the unit on, but for
    the first and the last [kRestorationVerticalBorder - 1] rows away from
    the frame border, which come from the deblock buffer. *)
Definition block_source (j x : Z) : Z :=
  let cdef_stride := Z.quot cdef_stride sizeof_Pixel in
  let deblock_stride := Z.quot deblock_stride sizeof_Pixel in
  let border := kRestorationVerticalBorder - 1 in
  if (j <? border) && negb frame_top_border then
    deblock_buffer - kRestorationHorizontalBorder + j * deblock_stride + x
  else if (border + height <=? j) && negb frame_bottom_border then
    deblock_buffer - kRestorationHorizontalBorder
    + ((if frame_top_border then 0 else 4) + border + (j - border - height))
      * deblock_stride
    + x
  else
    cdef_buffer - kRestorationHorizontalBorder + (j - border) * cdef_stride
    + x.

End Block.

(** X15. For a unit of positive height whose rows fit the stride of the
    block, and when no cell read lies in the block itself,
    [PrepareLoopRestorationBlock] fills exactly the
    [height + 2 * (kRestorationVerticalBorder - 1)] rows of
    [width + 2 * kRestorationHorizontalBorder] cells from [dest] on: cell
    [(j, x)] receives what the memory held at [block_source j x] before the
    call (cdef rows in the body and at a frame border, deblock rows above
    and below otherwise), and every other address keeps its value. *)
Theorem PrepareLoopRestorationBlock_layout
    (kRestorationVerticalBorder kRestorationHorizontalBorder : Z)
    (sizeof_Pixel cdef_buffer cdef_stride deblock_buffer deblock_stride dest
     dest_stride width height : Z)
    (frame_top_border frame_bottom_border : bool) (m : buffer) :
  let ds := Z.quot dest_stride sizeof_Pixel in
  let w := width + 2 * kRestorationHorizontalBorder in
  let rows := height + 2 * (kRestorationVerticalBorder - 1) in
  let source :=
    block_source kRestorationVerticalBorder kRestorationHorizontalBorder
      sizeof_Pixel cdef_buffer cdef_stride deblock_buffer deblock_stride
      height frame_top_border frame_bottom_border in
  1 <= kRestorationVerticalBorder -> 0 < height -> 0 <= w <= ds ->
  (forall j x, 0 <= j < rows -> 0 <= x < w ->
     outside ds w rows dest (source j x)) ->
  exists block,
    PrepareLoopRestorationBlock kRestorationVerticalBorder
      kRestorationHorizontalBorder sizeof_Pixel cdef_buffer cdef_stride
      deblock_buffer deblock_stride dest dest_stride width height
      frame_top_border frame_bottom_border m
    = Some block
    /\ (forall j x, 0 <= j < rows -> 0 <= x < w ->
          block (dest + j * ds + x) = m (source j x))
    /\ (forall a, outside ds w rows dest a -> block a = m a).
Proof.
  intros ds w rows source Hborder Hheight Hw Hsrc.
  unfold PrepareLoopRestorationBlock. cbv zeta.
  fold ds w. set (cs := Z.quot cdef_stride sizeof_Pixel) in *.
  set (dbs := Z.quot deblock_stride sizeof_Pixel) in *.
  unfold CopyTwoRows. rewrite !CopyTwoRows_loop_rows.
  set (b := Z.to_nat (kRestorationVerticalBorder - 1)).
  assert (Hb : Z.of_nat b = kRestorationVerticalBorder - 1) by lia.
  rewrite Hb.
  destruct frame_top_border, frame_bottom_border; cbv beta iota; cbn [negb];
    match goal with
    | |- context [main_body (Z.to_nat ?h) ?h _ _ _ _ _ _] =>
        destruct (Z.to_nat h) as [| n] eqn:En; [lia |];
        replace h with (Z.of_nat (S n)) by lia
    end;
    rewrite main_body_rows; cbv beta iota;
    rewrite ?CopyTwoRows_loop_rows; cbn [snd];
    (eexists; split; [reflexivity |]).
  - refine (copies_three_as ds w Hw 0 (S n) 0 0 0 _ cs 0 0 dest dest
              (dest + Z.of_nat 0 * ds + Z.of_nat (S n) * ds) m
              rows source _ _ _ _ Hsrc); try lia.
    intros j x Hj. unfold source, block_source. fold cs dbs.
    rewrite !andb_false_r. change (Z.of_nat 0) with 0.
    destruct (Z.ltb_spec j 0); [lia |].
    destruct (Z.ltb_spec j (0 + Z.of_nat (S n))); lia.
  - refine (copies_three_as ds w Hw 0 (S n) b 0 0 _ cs _ dbs dest dest _ m
              rows source _ _ _ _ Hsrc); try lia.
    intros j x Hj. unfold source, block_source. fold cs dbs.
    rewrite andb_false_r, andb_true_r. change (Z.of_nat 0) with 0.
    destruct (Z.ltb_spec j 0); [lia |].
    destruct (Z.ltb_spec j (0 + Z.of_nat (S n)));
      destruct (Z.leb_spec (kRestorationVerticalBorder - 1 + height) j);
      lia.
  - refine (copies_three_as ds w Hw b (S n) 0 _ dbs _ cs 0 0 dest _
              (dest + Z.of_nat b * ds + Z.of_nat (S n) * ds) m
              rows source _ _ _ _ Hsrc); try lia.
    intros j x Hj. unfold source, block_source. fold cs dbs.
    rewrite andb_false_r, andb_true_r.
    destruct (Z.ltb_spec j (Z.of_nat b));
      destruct (Z.ltb_spec j (kRestorationVerticalBorder - 1)); try lia.
    destruct (Z.ltb_spec j (Z.of_nat b + Z.of_nat (S n))); lia.
  - refine (copies_three_as ds w Hw b (S n) b _ dbs _ cs _ dbs dest _ _ m
              rows source _ _ _ _ Hsrc); try lia.
    intros j x Hj. unfold source, block_source. fold cs dbs.
    rewrite !andb_true_r.
    destruct (Z.ltb_spec j (Z.of_nat b));
      destruct (Z.ltb_spec j (kRestorationVerticalBorder - 1)); try lia.
    destruct (Z.ltb_spec j (Z.of_nat b + Z.of_nat (S n)));
      destruct (Z.leb_spec (kRestorationVerticalBorder - 1 + height) j);
      lia.
Qed.

End Facts.

Lemma PrepareLoopRestorationBlock_layout_witness :
  exists block,
    PrepareLoopRestorationBlock 3 3 2 1000 128 5000 128 10000 28 8 4 false
      false (fun a => a)
    = Some block
    /\ (forall j x, 0 <= j < 8 -> 0 <= x < 14 ->
          block (10000 + j * 14 + x)
          = block_source 3 3 2 1000 128 5000 128 4 false false j x)
    /\ (forall a, outside 14 14 8 10000 a -> block a = a).
Proof.
  apply (PrepareLoopRestorationBlock_layout 3 3 2 1000 128 5000 128 10000 28
           8 4 false false (fun a => a)); try lia.
  - change (Z.quot 28 2) with 14. lia.
  - change (Z.quot 28 2) with 14. intros j x Hj Hx j' Hj'. left.
    unfold block_source. change (Z.quot 128 2) with 64.
    cbn [negb]. rewrite !andb_true_r.
    destruct (j <? 3 - 1); [lia |]. destruct (3 - 1 + 4 <=? j); lia.
Defined.

(** The rows behind the witness, by their first cell: two deblock rows,
    the four cdef rows of the unit, then the deblock rows 6 and 7. *)
Example PrepareLoopRestorationBlock_run :
  (fun block => map (fun j => block (10000 + j * 14)) [0; 1; 2; 3; 4; 5; 6; 7])
    <$> PrepareLoopRestorationBlock 3 3 2 1000 128 5000 128 10000 28 8 4
          false false (fun a => a)
  = Some [4997; 5061; 997; 1061; 1125; 1189; 5381; 5445].
Proof. reflexivity. Qed.

End Restoration.

(** ** CDEF on one superblock row ([src/post_filter.cc]) *)

Module CdefRow.

(** One call [ApplyCdefForOneUnit<Pixel>(cdef_block_, index,
    block_width4x4, block_height4x4, row4x4, column4x4)];
    [pixel_uint16] says that [Pixel] is [uint16_t]. *)
Record UnitCall := mkUnitCall {
  pixel_uint16 : bool;
  index : Z;
  block_width4x4 : Z;
  block_height4x4 : Z;
  row4x4 : Z;
  column4x4 : Z
}.

Section ApplyCdefForOneSuperBlockRow.

(** [DivideBy16] is from [src/utils/common.h]; the others are members of
    [PostFilter] ([rows4x4] and [columns4x4] those of [frame_header_]).
    The build has [LIBGAV1_MAX_BITDEPTH >= 10]. *)
Variable DivideBy16 : Z -> Z.
Variable rows4x4 : Z.
Variable columns4x4 : Z.
Variable bitdepth_ : Z.
Variable cdef_index_ : Z -> Z -> Z.

Definition step_64x64 : Z := 16.

(** [for (int column4x4 = 0; column4x4 < frame_header_.columns4x4;
    column4x4 += step_64x64)]; [None] when the fuel runs out. *)
Fixpoint cdef_column_loop (fuel : nat) (row4x4 column4x4 : Z)
    (calls : list UnitCall) : option (list UnitCall) :=
  if column4x4 <? columns4x4 then
    match fuel with
    | O => None
    | S f =>
        let index :=
          cdef_index_ (DivideBy16 row4x4) (DivideBy16 column4x4) in
        let block_width4x4 := Z.min step_64x64 (columns4x4 - column4x4) in
        let block_height4x4 := Z.min step_64x64 (rows4x4 - row4x4) in
        let calls :=
          calls
          ++ [mkUnitCall (10 <=? bitdepth_) index block_width4x4
                block_height4x4 row4x4 column4x4] in
        cdef_column_loop f row4x4 (column4x4 + step_64x64) calls
    end
  else Some calls.

(** [for (int y = 0; y < sb4x4; y += step_64x64)], with its [break]. *)
Fixpoint cdef_row_loop (fuel : nat) (row4x4_start sb4x4 y : Z)
    (calls : list UnitCall) : option (list UnitCall) :=
  if y <? sb4x4 then
    match fuel with
    | O => None
    | S f =>
        let row4x4 := row4x4_start + y in
        if rows4x4 <=? row4x4 then Some calls
        else
          match cdef_column_loop (Z.to_nat columns4x4) row4x4 0 calls with
          | None => None
          | Some calls =>
              cdef_row_loop f row4x4_start sb4x4 (y + step_64x64) calls
          end
    end
  else Some calls.

Definition ApplyCdefForOneSuperBlockRow (row4x4_start sb4x4 : Z)
  : option (list UnitCall) :=
  cdef_row_loop (Z.to_nat sb4x4) row4x4_start sb4x4 0 [].

(** The call for the unit at [(row4x4, column4x4)]. *)
Definition unit_at (row4x4 column4x4 : Z) : UnitCall :=
  mkUnitCall (10 <=? bitdepth_)
    (cdef_index_ (DivideBy16 row4x4) (DivideBy16 column4x4))
    (Z.min 16 (columns4x4 - column4x4)) (Z.min 16 (rows4x4 - row4x4))
    row4x4 column4x4.

(** The 4x4 block [(r, c)] lies in the unit of [call]. *)
Definition covers (call : UnitCall) (r c : Z) : Prop :=
  row4x4 call <= r < row4x4 call + block_height4x4 call
  /\ column4x4 call <= c < column4x4 call + block_width4x4 call.

Lemma cdef_column_loop_spec row (calls0 : list UnitCall) fuel :
  (forall x, x ∈ calls0 -> row4x4 x <> row) ->
  forall i (calls : list UnitCall),
    0 <= i -> columns4x4 - 16 * i <= Z.of_nat fuel ->
    (0 < i -> 16 * (i - 1) < columns4x4) ->
    NoDup calls ->
    (forall x, x ∈ calls
               <-> x ∈ calls0
                   \/ exists j, 0 <= j < i /\ x = unit_at row (16 * j)) ->
    exists calls',
      cdef_column_loop fuel row (16 * i) calls = Some calls'
      /\ NoDup calls'
      /\ (forall x, x ∈ calls'
                    <-> x ∈ calls0
                        \/ exists j, 0 <= j /\ 16 * j < columns4x4
                             /\ x = unit_at row (16 * j)).
Proof.
  intros Hfresh.
  assert (Hstop : forall i (calls : list UnitCall),
            0 <= i -> (0 < i -> 16 * (i - 1) < columns4x4) ->
            columns4x4 <= 16 * i ->
            (forall x, x ∈ calls
               <-> x ∈ calls0
                   \/ exists j, 0 <= j < i /\ x = unit_at row (16 * j)) ->
            forall x, x ∈ calls
               <-> x ∈ calls0
                   \/ exists j, 0 <= j /\ 16 * j < columns4x4
                        /\ x = unit_at row (16 * j)).
  { intros i calls Hi Hprev Hend Hin x. rewrite Hin. split.
    - intros [Hx | (j & Hj & Hx)]; [now left |]. right. exists j.
      split; [lia |]. split; [lia | exact Hx].
    - intros [Hx | (j & Hj & Hlt & Hx)]; [now left |]. right. exists j.
      split; [lia | exact Hx]. }
  induction fuel as [| f IH]; intros i calls Hi Hfuel Hprev Hnodup Hin;
    cbn [cdef_column_loop].
  - destruct (Z.ltb_spec (16 * i) columns4x4); [lia |].
    exists calls. split; [reflexivity |]. split; [exact Hnodup |].
    now apply (Hstop i).
  - destruct (Z.ltb_spec (16 * i) columns4x4) as [Hlt | Hge];
      [| exists calls; split; [reflexivity |]; split; [exact Hnodup |];
         now apply (Hstop i)].
    fold (unit_at row (16 * i)).
    unfold step_64x64. replace (16 * i + 16) with (16 * (i + 1)) by lia.
    apply IH; [lia | lia | | |].
    + intros _. replace (i + 1 - 1) with i by lia. exact Hlt.
    + apply NoDup_app. split; [exact Hnodup |].
      split; [| apply NoDup_singleton].
      intros x Hx Hsame. apply list_elem_of_singleton in Hsame. subst x.
      apply Hin in Hx as [Hx | (j & Hj & Hx)].
      * now apply Hfresh in Hx.
      * apply (f_equal column4x4) in Hx. cbn in Hx. lia.
    + intros x. rewrite elem_of_app, Hin, list_elem_of_singleton. split.
      * intros [[Hx | (j & Hj & Hx)] | ->]; [now left | |]; right.
        -- exists j. split; [lia | exact Hx].
        -- exists i. split; [lia | reflexivity].
      * intros [Hx | (j & Hj & Hx)]; [now left; left |].
        destruct (Z.eq_dec j i) as [-> | Hne]; [now right |].
        left; right. exists j. split; [lia | exact Hx].
Qed.

(** [call] is the call for a unit of the superblock row. *)
Definition cdef_row_call (row4x4_start sb4x4 : Z) (call : UnitCall) : Prop :=
  exists t j, 0 <= t /\ 16 * t < sb4x4 /\ row4x4_start + 16 * t < rows4x4
    /\ 0 <= j /\ 16 * j < columns4x4
    /\ call = unit_at (row4x4_start + 16 * t) (16 * j).

Lemma cdef_row_loop_spec row4x4_start sb4x4 fuel :
  forall t (calls : list UnitCall),
    0 <= t -> sb4x4 - 16 * t <= Z.of_nat fuel ->
    (0 < t -> 16 * (t - 1) < sb4x4
              /\ row4x4_start + 16 * (t - 1) < rows4x4) ->
    NoDup calls ->
    (forall x, x ∈ calls
               <-> exists t' j, 0 <= t' < t /\ 0 <= j
                     /\ 16 * j < columns4x4
                     /\ x = unit_at (row4x4_start + 16 * t') (16 * j)) ->
    exists calls',
      cdef_row_loop fuel row4x4_start sb4x4 (16 * t) calls = Some calls'
      /\ NoDup calls'
      /\ forall x, x ∈ calls' <-> cdef_row_call row4x4_start sb4x4 x.
Proof.
  assert (Hstop : forall t (calls : list UnitCall),
            0 <= t ->
            (0 < t -> 16 * (t - 1) < sb4x4
                      /\ row4x4_start + 16 * (t - 1) < rows4x4) ->
            sb4x4 <= 16 * t \/ rows4x4 <= row4x4_start + 16 * t ->
            (forall x, x ∈ calls
               <-> exists t' j, 0 <= t' < t /\ 0 <= j
                     /\ 16 * j < columns4x4
                     /\ x = unit_at (row4x4_start + 16 * t') (16 * j)) ->
            forall x, x ∈ calls <-> cdef_row_call row4x4_start sb4x4 x).
  { intros t calls Ht Hprev Hend Hin x. rewrite Hin. unfold cdef_row_call. split.
    - intros (t' & j & Ht' & Hx). exists t', j.
      split; [lia |]. split; [lia |]. split; [lia | exact Hx].
    - intros (t' & j & Ht' & Hsb & Hrow & Hx). exists t', j.
      split; [lia | exact Hx]. }
  induction fuel as [| f IH]; intros t calls Ht Hfuel Hprev Hnodup Hin;
    cbn [cdef_row_loop].
  - destruct (Z.ltb_spec (16 * t) sb4x4); [lia |].
    exists calls. split; [reflexivity |]. split; [exact Hnodup |].
    apply (Hstop t); auto.
  - destruct (Z.ltb_spec (16 * t) sb4x4) as [Hlt | Hge];
      [| exists calls; split; [reflexivity |]; split; [exact Hnodup |];
         apply (Hstop t); auto].
    destruct (Z.leb_spec rows4x4 (row4x4_start + 16 * t)) as [Hout | Hrow];
      [exists calls; split; [reflexivity |]; split; [exact Hnodup |];
       apply (Hstop t); auto |].
    destruct (cdef_column_loop_spec (row4x4_start + 16 * t) calls
                (Z.to_nat columns4x4)
                ltac:(intros x Hx; apply Hin in Hx
                          as (t' & j & Ht' & _ & _ & ->); cbn; lia)
                0 calls ltac:(lia) ltac:(lia) ltac:(lia) Hnodup)
      as (calls1 & E & Hnodup1 & Hin1).
    { intros x. split; [now left |].
      intros [Hx | (j & Hj & _)]; [exact Hx | lia]. }
    rewrite Z.mul_0_r in E. rewrite E.
    unfold step_64x64. replace (16 * t + 16) with (16 * (t + 1)) by lia.
    apply IH; [lia | lia | | exact Hnodup1 |].
    + intros _. replace (t + 1 - 1) with t by lia. now split.
    + intros x. rewrite Hin1, Hin. split.
      * intros [(t' & j & Ht' & Hx) | (j & Hx)].
        -- exists t', j. split; [lia | exact Hx].
        -- exists t, j. split; [lia | exact Hx].
      * intros (t' & j & Ht' & Hx).
        destruct (Z.eq_dec t' t) as [-> | Hne]; [right; now exists j |].
        left. exists t', j. split; [lia | exact Hx].
Qed.

(** X16. [ApplyCdefForOneSuperBlockRow] ends and calls
    [ApplyCdefForOneUnit] once per 64x64 unit: each call has the cdef index
    of its unit, a width and a height between 1 and 16 blocks, and stays
    inside the frame; every 4x4 block of the superblock row that lies inside
    the frame is covered by exactly one of the calls. *)
Theorem ApplyCdefForOneSuperBlockRow_tiles (row4x4_start sb4x4 : Z) :
  exists calls,
    ApplyCdefForOneSuperBlockRow row4x4_start sb4x4 = Some calls
    /\ NoDup calls
    /\ (forall call, call ∈ calls ->
          call = unit_at (row4x4 call) (column4x4 call)
          /\ 1 <= block_width4x4 call <= 16
          /\ 1 <= block_height4x4 call <= 16
          /\ row4x4_start <= row4x4 call
          /\ row4x4 call + block_height4x4 call <= rows4x4
          /\ 0 <= column4x4 call
          /\ column4x4 call + block_width4x4 call <= columns4x4)
    /\ (forall r c,
          row4x4_start <= r < row4x4_start + sb4x4 -> r < rows4x4 ->
          0 <= c < columns4x4 ->
          exists call,
            call ∈ calls /\ covers call r c
            /\ forall other, other ∈ calls -> covers other r c ->
                 other = call).
Proof.
  unfold ApplyCdefForOneSuperBlockRow.
  destruct (cdef_row_loop_spec row4x4_start sb4x4 (Z.to_nat sb4x4) 0 []
              ltac:(lia) ltac:(lia) ltac:(lia) NoDup_nil_2)
    as (calls & E & Hnodup & Hin).
  { intros x. split; [intros Hx; now apply elem_of_nil in Hx |].
    intros (t' & j & Ht' & _). lia. }
  rewrite Z.mul_0_r in E. exists calls.
  split; [exact E |]. split; [exact Hnodup |]. split.
  - intros call Hcall.
    apply Hin in Hcall as (t & j & Ht & Hsb & Hrow & Hj & Hcol & ->).
    cbn. repeat split; try lia.
  - intros r c Hr Hrows Hc.
    set (t := (r - row4x4_start) / 16). set (j := c / 16).
    assert (Ht : 16 * t <= r - row4x4_start < 16 * t + 16).
    { unfold t. pose proof (Z.div_mod (r - row4x4_start) 16 ltac:(lia)).
      pose proof (Z.mod_pos_bound (r - row4x4_start) 16 ltac:(lia)). lia. }
    assert (Hj : 16 * j <= c < 16 * j + 16).
    { unfold j. pose proof (Z.div_mod c 16 ltac:(lia)).
      pose proof (Z.mod_pos_bound c 16 ltac:(lia)). lia. }
    exists (unit_at (row4x4_start + 16 * t) (16 * j)). split; [| split].
    + apply Hin. exists t, j. repeat split; try lia.
    + unfold covers. cbn. lia.
    + intros other Hother Hcovers.
      apply Hin in Hother as (t' & j' & Ht' & Hsb & Hrow & Hj' & Hcol & ->).
      unfold covers in Hcovers. cbn in Hcovers.
      assert (t' = t) by lia. assert (j' = j) by lia. now subst.
Qed.

End ApplyCdefForOneSuperBlockRow.

(** The last superblock row of a 160x80 frame: three units, four blocks
    high, the last one eight blocks wide. *)
Example ApplyCdefForOneSuperBlockRow_run :
  ApplyCdefForOneSuperBlockRow (fun x => Z.shiftr x 4) 20 40 8
    (fun r c => 10 * r + c) 16 16
  = Some [mkUnitCall false 10 16 4 16 0; mkUnitCall false 11 16 4 16 16;
          mkUnitCall false 12 8 4 16 32].
Proof. reflexivity. Qed.

End CdefRow.

(** ** The workers of the threaded deblocking filter
    ([src/post_filter.cc]) *)

Module DeblockWorker.

(** One turn of the [while] loop of [DeblockFilterWorker] that enters the
    body: the worker that took the job, the index [job_index /
    jobs_per_plane] into [planes] and [row_unit]. *)
Record Job := mkJob {
  worker : nat;
  plane_index : Z;
  row_unit : Z
}.

(** What the workers share: the atomic [job_counter], and for this model
    the jobs taken so far and, for each worker, whether it is still in its
    loop. *)
Record Shared := mkShared {
  job_counter : Z;
  jobs : list Job;
  in_loop : list bool
}.

Section DeblockFilterWorker.
Variable jobs_per_plane : Z.
Variable num_planes : Z.

Definition total_jobs : Z := jobs_per_plane * num_planes.

(** One evaluation of the loop condition
    [(job_index = job_counter->fetch_add(1)) < total_jobs] by a worker that
    is still in its loop.  The read-modify-write is atomic, so this is one
    step whatever the other workers do; C++ [/] and [%] truncate. *)
Inductive step : Shared -> Shared -> Prop :=
| step_job (w : nat) (s : Shared) :
    in_loop s !! w = Some true ->
    job_counter s < total_jobs ->
    step s
      (mkShared (job_counter s + 1)
         (jobs s
          ++ [mkJob w (Z.quot (job_counter s) jobs_per_plane)
                (Z.rem (job_counter s) jobs_per_plane)])
         (in_loop s))
| step_exit (w : nat) (s : Shared) :
    in_loop s !! w = Some true ->
    total_jobs <= job_counter s ->
    step s
      (mkShared (job_counter s + 1) (jobs s) (<[w := false]> (in_loop s))).

(** [run n s s']: [n] steps, in any order of the workers, lead from [s]
    to [s']. *)
Inductive run : nat -> Shared -> Shared -> Prop :=
| run_start (s : Shared) : run 0 s s
| run_step (n : nat) (s1 s2 s3 : Shared) :
    run n s1 s2 -> step s2 s3 -> run (S n) s1 s3.

(** [std::atomic<int> job_counter(0)] and [workers] calls of
    [DeblockFilterWorker] on it. *)
Definition start (workers : nat) : Shared :=
  mkShared 0 [] (replicate workers true).

Definition job_place (job : Job) : Z * Z := (plane_index job, row_unit job).

Definition place_of (job_index : Z) : Z * Z :=
  (Z.quot job_index jobs_per_plane, Z.rem job_index jobs_per_plane).

(** The number of workers that have left their loop. *)
Fixpoint exited (workers : list bool) : nat :=
  match workers with
  | [] => O
  | in_loop :: rest => (if in_loop then 0 else 1) + exited rest
  end.

Lemma exited_insert workers w :
  workers !! w = Some true ->
  exited (<[w := false]> workers) = S (exited workers).
Proof.
  revert w. induction workers as [| b rest IH]; intros [| w] Hw;
    try discriminate.
  - injection Hw as ->. reflexivity.
  - change (exited (<[S w := false]> (b :: rest)))
      with ((if b then 0 else 1) + exited (<[w := false]> rest))%nat.
    rewrite (IH w Hw). cbn [exited]. lia.
Qed.

Lemma exited_bound workers : (exited workers <= length workers)%nat.
Proof.
  induction workers as [| [] rest IH]; cbn [exited length]; lia.
Qed.

Lemma exited_replicate n : exited (replicate n true) = 0%nat.
Proof. induction n as [| n IH]; cbn; [reflexivity | exact IH]. Qed.

(** What every step keeps. *)
Definition consistent (workers : nat) (s : Shared) : Prop :=
  0 <= job_counter s
  /\ job_place <$> jobs s
     = place_of <$> seqZ 0 (Z.min (job_counter s) total_jobs)
  /\ (forall w, in_loop s !! w = Some false -> total_jobs <= job_counter s)
  /\ length (in_loop s) = workers
  /\ job_counter s
     = Z.min (job_counter s) total_jobs + Z.of_nat (exited (in_loop s)).

Lemma step_keeps workers s s' :
  0 <= total_jobs ->
  step s s' -> consistent workers s ->
  consistent workers s' /\ job_counter s' = job_counter s + 1.
Proof.
  intros Htotal Hstep (Hc & Hjobs & Hexit & Hlen & Hcount).
  destruct Hstep as [w s Hw Hlt | w s Hw Hge]; unfold consistent;
    cbn [job_counter jobs in_loop].
  - split; [| reflexivity]. split; [lia |]. split; [| split; [| split]].
    + rewrite fmap_app, Hjobs.
      replace (Z.min (job_counter s) total_jobs) with (job_counter s) by lia.
      replace (Z.min (job_counter s + 1) total_jobs)
        with (job_counter s + 1) by lia.
      rewrite seqZ_app by lia. rewrite fmap_app. reflexivity.
    + intros w' Hw'. specialize (Hexit w' Hw'). lia.
    + exact Hlen.
    + lia.
  - split; [| reflexivity]. split; [lia |]. split; [| split; [| split]].
    + rewrite Hjobs. f_equal. f_equal. lia.
    + intros w' Hw'. destruct (Nat.eq_dec w' w) as [-> | Hne]; [lia |].
      rewrite list_lookup_insert_ne in Hw' by congruence.
      specialize (Hexit w' Hw'). lia.
    + now rewrite length_insert.
    + rewrite (exited_insert _ _ Hw). lia.
Qed.

(** X17. However the workers of [DeblockFilterWorker] interleave on the
    shared [job_counter]: the counter equals the number of loop conditions
    evaluated so far, never more than [total_jobs] plus the number of
    workers; a worker still in its loop can always go on; and once every
    worker has left its loop, each pair of a plane index below [num_planes]
    and a [row_unit] below [jobs_per_plane] has been taken exactly once, and
    nothing else has. *)
Theorem DeblockFilterWorker_jobs (workers n : nat) (s : Shared) :
  (0 < workers)%nat -> 0 < jobs_per_plane -> 0 <= num_planes ->
  run n (start workers) s ->
  job_counter s = Z.of_nat n
  /\ Z.of_nat n <= total_jobs + Z.of_nat workers
  /\ ((exists w, in_loop s !! w = Some true) -> exists s', step s s')
  /\ ((forall w, (w < workers)%nat -> in_loop s !! w = Some false) ->
      Z.of_nat n = total_jobs + Z.of_nat workers
      /\ NoDup (job_place <$> jobs s)
      /\ forall p u,
           (p, u) ∈ job_place <$> jobs s
           <-> 0 <= p < num_planes /\ 0 <= u < jobs_per_plane).
Proof.
  intros Hworkers Hjobs Hplanes Hrun.
  assert (Htotal : 0 <= total_jobs) by (unfold total_jobs; nia).
  assert (Hinv : consistent workers s /\ job_counter s = Z.of_nat n).
  { remember (start workers) as s0 eqn:Es0.
    induction Hrun as [s | n s1 s2 s3 Hrun IH Hstep].
    - subst s. unfold consistent. cbn.
      rewrite length_replicate, exited_replicate.
      repeat split; try lia.
      + now rewrite seqZ_nil by lia.
      + intros w Hw. apply lookup_replicate in Hw as [[=] _].
    - destruct (IH Es0) as [Hs2 Hn].
      destruct (step_keeps workers s2 s3 Htotal Hstep Hs2) as [Hs3 Hnext].
      split; [exact Hs3 | lia]. }
  destruct Hinv as [(Hc & Hj & He & Hlen & Hcount) Hn].
  pose proof (exited_bound (in_loop s)) as Hbound.
  split; [exact Hn |]. split; [lia |]. split.
  - intros [w Hw]. destruct (Z.lt_ge_cases (job_counter s) total_jobs).
    + eexists. now apply (step_job w).
    + eexists. now apply (step_exit w).
  - intros Hdone.
    pose proof (He 0%nat (Hdone 0%nat Hworkers)) as Hall.
    assert (Hexited : exited (in_loop s) = workers).
    { clear - Hdone Hlen. revert workers Hdone Hlen.
      induction (in_loop s) as [| b rest IH]; intros workers Hdone Hlen;
        cbn in Hlen |- *; [exact Hlen |].
      destruct workers as [| k]; [discriminate |].
      pose proof (Hdone 0%nat ltac:(lia)) as H0. cbn in H0.
      injection H0 as ->. f_equal. apply IH; [| lia].
      intros w Hw. apply (Hdone (S w)). lia. }
    split; [lia |].
    rewrite Hj.
    replace (Z.min (job_counter s) total_jobs) with total_jobs by lia.
    split.
    + apply NoDup_fmap_2_strong; [| apply NoDup_seqZ].
      intros a b Ha Hb [= Hq Hr].
      pose proof (Z.quot_rem' a jobs_per_plane).
      pose proof (Z.quot_rem' b jobs_per_plane). congruence.
    + intros p u. rewrite list_elem_of_fmap. split.
      * intros (j & [= -> ->] & Hin). apply elem_of_seqZ in Hin.
        unfold total_jobs in Hin.
        pose proof (Z.quot_rem' j jobs_per_plane) as Hqr.
        pose proof (Z.rem_bound_pos j jobs_per_plane ltac:(lia) ltac:(lia)).
        assert (0 <= Z.quot j jobs_per_plane) by (apply Z.quot_pos; lia).
        split; [nia | lia].
      * intros [Hp Hu]. exists (jobs_per_plane * p + u). split.
        -- unfold place_of. f_equal.
           ++ apply (Z.quot_unique _ _ p u); nia.
           ++ apply (Z.rem_unique _ _ p u); nia.
        -- apply elem_of_seqZ. unfold total_jobs. nia.
Qed.

End DeblockFilterWorker.

(** Two workers on two jobs of one plane: each takes one job, then both
    find the counter at [total_jobs] or above and leave. *)
Definition two_workers_final : Shared :=
  mkShared 4 [mkJob 0 0 0; mkJob 1 0 1] [false; false].

Lemma two_workers_run : run 2 1 4 (start 2) two_workers_final.
Proof.
  apply (run_step 2 1 3 _
           (mkShared 3 [mkJob 0 0 0; mkJob 1 0 1] [false; true])).
  - apply (run_step 2 1 2 _
             (mkShared 2 [mkJob 0 0 0; mkJob 1 0 1] [true; true])).
    + apply (run_step 2 1 1 _ (mkShared 1 [mkJob 0 0 0] [true; true])).
      * apply (run_step 2 1 0 _ (start 2)); [apply run_start |].
        apply (step_job 2 1 0 (start 2)); [reflexivity |].
        unfold total_jobs. cbn. lia.
      * apply (step_job 2 1 1 (mkShared 1 [mkJob 0 0 0] [true; true]));
          [reflexivity |].
        unfold total_jobs. cbn. lia.
    + apply (step_exit 2 1 0
               (mkShared 2 [mkJob 0 0 0; mkJob 1 0 1] [true; true]));
        [reflexivity |].
      unfold total_jobs. cbn. lia.
  - apply (step_exit 2 1 1
             (mkShared 3 [mkJob 0 0 0; mkJob 1 0 1] [false; true]));
      [reflexivity |].
    unfold total_jobs. cbn. lia.
Qed.

Lemma DeblockFilterWorker_jobs_witness :
  job_counter two_workers_final = 4
  /\ 4 <= total_jobs 2 1 + 2
  /\ ((exists w, in_loop two_workers_final !! w = Some true) ->
      exists s', step 2 1 two_workers_final s')
  /\ ((forall w, (w < 2)%nat -> in_loop two_workers_final !! w = Some false) ->
      4 = total_jobs 2 1 + 2
      /\ NoDup (job_place <$> jobs two_workers_final)
      /\ forall p u,
           (p, u) ∈ job_place <$> jobs two_workers_final
           <-> 0 <= p < 1 /\ 0 <= u < 2).
Proof.
  apply (DeblockFilterWorker_jobs 2 1 2 4 two_workers_final);
    [lia | lia | lia | exact two_workers_run].
Defined.

End DeblockWorker.

(** ** The deblocked rows kept for loop restoration
    ([src/post_filter.cc]) *)

Module DeblockedRows.
Import Cdef.

Section CopyDeblockedPixels.

(** From [src/utils/common.h] and [src/utils/constants.h]. *)
Variable MultiplyBy4 : Z -> Z.
Variable DivideBy16 : Z -> Z.
Variable SubsampledValue : Z -> Z -> Z.
Variable kDeblockedRowsForLoopRestoration : Z -> Z -> Z.

(** Members of [PostFilter]: the strides and the start of the planes of
    [frame_buffer_] and [deblock_buffer_], [GetSourceBuffer], and what is
    read of [frame_header_].  Addresses and strides count bytes. *)
Variable frame_buffer_stride : Z -> Z.
Variable deblock_buffer_stride : Z -> Z.
Variable deblock_buffer_data : Z -> Z.
Variable GetSourceBuffer : Z -> Z -> Z -> Z.
Variable columns4x4 : Z.
Variable height : Z.
Variable subsampling_x_ : Z -> Z.
Variable subsampling_y_ : Z -> Z.
Variable pixel_size_ : Z.

(** [for (int i = 0; i < 4; ++i)], from [i] on with [count] rounds left;
    the build is one without [LIBGAV1_MSAN]. *)
Fixpoint CopyDeblockedPixels_loop (count : nat) (plane row4x4 : Z)
    (src src_stride dst_stride num_pixels plane_height : Z)
    (i dst last_valid_row : Z) (m : buffer) : buffer :=
  match count with
  | O => m
  | S k =>
      let row :=
        kDeblockedRowsForLoopRestoration (subsampling_y_ plane) i in
      let absolute_row :=
        Z.shiftr (MultiplyBy4 row4x4) (subsampling_y_ plane) + row in
      let '(stop, row) :=
        if plane_height <=? absolute_row then
          if last_valid_row =? -1 then (true, row)
          else (false, last_valid_row)
        else (false, row) in
      if stop : bool then m
      else
        let m :=
          memcpy m dst (src + src_stride * row) (num_pixels * pixel_size_)
            m in
        CopyDeblockedPixels_loop k plane row4x4 src src_stride dst_stride
          num_pixels plane_height (i + 1) (dst + dst_stride) row m
  end.

Definition CopyDeblockedPixels (plane row4x4 : Z) (m : buffer) : buffer :=
  let src_stride := frame_buffer_stride plane in
  let src := GetSourceBuffer plane row4x4 0 in
  let dst_stride := deblock_buffer_stride plane in
  let row_unit := DivideBy16 row4x4 in
  let row_offset := MultiplyBy4 (row_unit + 1) in
  let dst := deblock_buffer_data plane + dst_stride * row_offset in
  let num_pixels :=
    SubsampledValue (MultiplyBy4 columns4x4) (subsampling_x_ plane) in
  let last_valid_row := -1 in
  let plane_height := SubsampledValue height (subsampling_y_ plane) in
  CopyDeblockedPixels_loop 4 plane row4x4 src src_stride dst_stride
    num_pixels plane_height 0 dst last_valid_row m.


Section Rows.
Variables (plane row4x4 src src_stride dst_stride num_pixels
           plane_height : Z).
Variable m : buffer.

(** Entry [i] of the table for the plane, the row of the plane it stands
    for, and the number of bytes copied per row. *)
Definition table (i : Z) : Z :=
  kDeblockedRowsForLoopRestoration (subsampling_y_ plane) i.

Definition absolute_row (row : Z) : Z :=
  Z.shiftr (MultiplyBy4 row4x4) (subsampling_y_ plane) + row.

Definition row_bytes : Z := num_pixels * pixel_size_.

Hypothesis bytes_fit : 0 <= row_bytes <= dst_stride.
Hypothesis table_rows : forall i, table i <> -1.

Lemma CopyDeblockedPixels_loop_spec (count : nat) :
  forall (i dst last_valid_row : Z) (current : buffer),
    last_valid_row = -1 \/ absolute_row last_valid_row < plane_height ->
    (forall r x t, absolute_row r < plane_height -> 0 <= x < row_bytes ->
       0 <= t < Z.of_nat count ->
       src + src_stride * r + x < dst + t * dst_stride
       \/ dst + t * dst_stride + row_bytes <= src + src_stride * r + x) ->
    (forall r x, absolute_row r < plane_height -> 0 <= x < row_bytes ->
       current (src + src_stride * r + x) = m (src + src_stride * r + x)) ->
    exists rows : list Z,
      length rows
      = (if (plane_height <=? absolute_row (table i))
            && (last_valid_row =? -1)
         then 0%nat else count)
      /\ (forall r, rows !! 0%nat = Some r ->
            ~ absolute_row (table i) < plane_height -> r = last_valid_row)
      /\ (forall t r, rows !! t = Some r ->
            absolute_row r < plane_height
            /\ (absolute_row (table (i + Z.of_nat t)) < plane_height ->
                r = table (i + Z.of_nat t)))
      /\ (forall t r, rows !! S t = Some r ->
            ~ absolute_row (table (i + Z.of_nat (S t))) < plane_height ->
            rows !! t = Some r)
      /\ (forall t r x, rows !! t = Some r -> 0 <= x < row_bytes ->
            CopyDeblockedPixels_loop count plane row4x4 src src_stride
              dst_stride num_pixels plane_height i dst last_valid_row
              current (dst + Z.of_nat t * dst_stride + x)
            = m (src + src_stride * r + x))
      /\ (forall a,
            (forall t, 0 <= t < Z.of_nat (length rows) ->
               a < dst + t * dst_stride
               \/ dst + t * dst_stride + row_bytes <= a) ->
            CopyDeblockedPixels_loop count plane row4x4 src src_stride
              dst_stride num_pixels plane_height i dst last_valid_row
              current a
            = current a).
Proof.
  induction count as [| k IH]; intros i dst last current Hlast Hapart Hsame.
  - exists []. cbn [CopyDeblockedPixels_loop length].
    split; [now destruct (_ && _) |].
    repeat split; try (intros; discriminate); try (intros ? ? [=]).
  - cbn [CopyDeblockedPixels_loop]. fold (table i) row_bytes.
    fold (absolute_row (table i)).
    assert (Hcopy : forall r,
              absolute_row r < plane_height -> r <> -1 ->
              (absolute_row (table i) < plane_height -> r = table i) ->
              (~ absolute_row (table i) < plane_height -> r = last) ->
              exists rows : list Z,
                length rows = S k
                /\ (forall r', rows !! 0%nat = Some r' ->
                      ~ absolute_row (table i) < plane_height -> r' = last)
                /\ (forall t r', rows !! t = Some r' ->
                      absolute_row r' < plane_height
                      /\ (absolute_row (table (i + Z.of_nat t))
                          < plane_height ->
                          r' = table (i + Z.of_nat t)))
                /\ (forall t r', rows !! S t = Some r' ->
                      ~ absolute_row (table (i + Z.of_nat (S t)))
                        < plane_height ->
                      rows !! t = Some r')
                /\ (forall t r' x, rows !! t = Some r' ->
                      0 <= x < row_bytes ->
                      CopyDeblockedPixels_loop k plane row4x4 src src_stride
                        dst_stride num_pixels plane_height (i + 1)
                        (dst + dst_stride) r
                        (memcpy current dst (src + src_stride * r) row_bytes
                           current)
                        (dst + Z.of_nat t * dst_stride + x)
                      = m (src + src_stride * r' + x))
                /\ (forall a,
                      (forall t, 0 <= t < Z.of_nat (length rows) ->
                         a < dst + t * dst_stride
                         \/ dst + t * dst_stride + row_bytes <= a) ->
                      CopyDeblockedPixels_loop k plane row4x4 src src_stride
                        dst_stride num_pixels plane_height (i + 1)
                        (dst + dst_stride) r
                        (memcpy current dst (src + src_stride * r) row_bytes
                           current)
                        a
                      = current a)).
    { intros r Hr Hnot Hvalid Hinvalid.
      destruct (IH (i + 1) (dst + dst_stride) r
                  (memcpy current dst (src + src_stride * r) row_bytes
                     current))
        as (rows & Hlen & Hfirst & Hrows & Hchain & Hin & Hout).
      { now right. }
      { intros r' x t Hr' Hx Ht.
        specialize (Hapart r' x (t + 1) Hr' Hx ltac:(lia)). lia. }
      { intros r' x Hr' Hx. rewrite memcpy_at.
        specialize (Hapart r' x 0 Hr' Hx ltac:(lia)).
        destruct Hapart; decide_ranges; cbn [andb];
          rewrite ?andb_false_r; now apply Hsame. }
      assert (Hk : length rows = k).
      { rewrite Hlen. destruct (Z.eqb_spec r (-1)); [contradiction |].
        now rewrite andb_false_r. }
      exists (r :: rows). split; [cbn; now rewrite Hk |].
      split; [| split; [| split; [| split]]].
      - intros r' [= <-]. exact Hinvalid.
      - intros [| t] r' Ht.
        + injection Ht as <-. replace (i + Z.of_nat 0) with i by lia.
          now split.
        + replace (i + Z.of_nat (S t)) with (i + 1 + Z.of_nat t) by lia.
          now apply Hrows.
      - intros [| t] r' Ht Hbad.
        + cbn in Ht |- *. f_equal. symmetry.
          apply (Hfirst r' Ht). now replace (i + 1) with (i + Z.of_nat 1)
            by lia.
        + cbn in Ht |- *. apply (Hchain t r' Ht).
          now replace (i + 1 + Z.of_nat (S t)) with (i + Z.of_nat (S (S t)))
            by lia.
      - intros [| t] r' x Ht Hx.
        + injection Ht as <-. rewrite Hout.
          * rewrite memcpy_at. decide_ranges. cbn [andb].
            replace (src + src_stride * r
                     + (dst + Z.of_nat 0 * dst_stride + x - dst))
              with (src + src_stride * r + x) by lia.
            now apply Hsame.
          * intros t Ht. left.
            assert (0 <= t * dst_stride) by nia. lia.
        + replace (dst + Z.of_nat (S t) * dst_stride + x)
            with (dst + dst_stride + Z.of_nat t * dst_stride + x) by lia.
          now apply Hin.
      - intros a Ha. rewrite Hout.
        + rewrite memcpy_at. specialize (Ha 0 ltac:(cbn; lia)).
          destruct Ha; decide_ranges; cbn [andb]; rewrite ?andb_false_r;
            reflexivity.
        + intros t Ht. specialize (Ha (t + 1) ltac:(cbn [length]; lia)).
          lia. }
    destruct (Z.leb_spec plane_height (absolute_row (table i))) as [Hbad | Hok].
    + destruct (Z.eqb_spec last (-1)) as [-> | Hne]; cbn [andb].
      * exists []. cbn [length]. split; [reflexivity |].
        repeat split; try (intros; discriminate); try (intros ? ? [=]).
      * destruct Hlast as [? | Hlast]; [contradiction |].
        apply (Hcopy last Hlast Hne); [lia | reflexivity].
    + cbn [andb]. apply (Hcopy (table i) Hok (table_rows i));
        [reflexivity | lia].
Qed.

End Rows.

(** The rows of the frame that end up in the four rows of the deblock
    buffer: [rows !! t] is the source row behind destination row [t]. *)
Definition copied_rows (plane row4x4 : Z) (rows : list Z) (m m' : buffer)
  : Prop :=
  let src := GetSourceBuffer plane row4x4 0 in
  let src_stride := frame_buffer_stride plane in
  let dst_stride := deblock_buffer_stride plane in
  let dst :=
    deblock_buffer_data plane
    + dst_stride * MultiplyBy4 (DivideBy16 row4x4 + 1) in
  let bytes :=
    row_bytes (SubsampledValue (MultiplyBy4 columns4x4)
                 (subsampling_x_ plane)) in
  (forall t r x, rows !! t = Some r -> 0 <= x < bytes ->
     m' (dst + Z.of_nat t * dst_stride + x) = m (src + src_stride * r + x))
  /\ (forall a,
        (forall t, 0 <= t < Z.of_nat (length rows) ->
           a < dst + t * dst_stride \/ dst + t * dst_stride + bytes <= a) ->
        m' a = m a).

(** X18. [CopyDeblockedPixels] never reads a row beyond the last row of
    the plane: when the first of the four rows of the table lies outside
    the plane it copies nothing; otherwise it fills the four rows of the
    deblock buffer, each from a row inside the plane: the row of the table
    when that is inside, the row copied just before otherwise.  Nothing
    but these rows is written.  A row must fit in the stride of the deblock
    buffer, no table entry may be -1 (the "no valid row" mark), and the
    rows read must not lie in the rows written. *)
Theorem CopyDeblockedPixels_rows (plane row4x4 : Z) (m : buffer) :
  let src := GetSourceBuffer plane row4x4 0 in
  let src_stride := frame_buffer_stride plane in
  let dst_stride := deblock_buffer_stride plane in
  let dst :=
    deblock_buffer_data plane
    + dst_stride * MultiplyBy4 (DivideBy16 row4x4 + 1) in
  let bytes :=
    row_bytes (SubsampledValue (MultiplyBy4 columns4x4)
                 (subsampling_x_ plane)) in
  let plane_height := SubsampledValue height (subsampling_y_ plane) in
  let inside row := absolute_row plane row4x4 row < plane_height in
  0 <= bytes <= dst_stride ->
  (forall i, table plane i <> -1) ->
  (forall r x t, inside r -> 0 <= x < bytes -> 0 <= t < 4 ->
     src + src_stride * r + x < dst + t * dst_stride
     \/ dst + t * dst_stride + bytes <= src + src_stride * r + x) ->
  exists rows : list Z,
    length rows = (if plane_height <=? absolute_row plane row4x4
                                         (table plane 0)
                   then 0%nat else 4%nat)
    /\ (forall t r, rows !! t = Some r ->
          inside r
          /\ (inside (table plane (Z.of_nat t)) ->
              r = table plane (Z.of_nat t)))
    /\ (forall t r, rows !! S t = Some r ->
          ~ inside (table plane (Z.of_nat (S t))) -> rows !! t = Some r)
    /\ copied_rows plane row4x4 rows m (CopyDeblockedPixels plane row4x4 m).
Proof.
  intros src src_stride dst_stride dst bytes plane_height inside Hfit Htable
    Hapart.
  destruct (CopyDeblockedPixels_loop_spec plane row4x4 src src_stride
              dst_stride
              (SubsampledValue (MultiplyBy4 columns4x4)
                 (subsampling_x_ plane))
              plane_height m Hfit Htable 4 0 dst (-1) m)
    as (rows & Hlen & _ & Hrows & Hchain & Hin & Hout).
  - now left.
  - intros r x t Hr Hx Ht. apply Hapart; [exact Hr | exact Hx | lia].
  - reflexivity.
  - exists rows. split; [| split; [| split; [| split]]].
    + rewrite Hlen. change (-1 =? -1) with true. now rewrite andb_true_r.
    + intros t r Ht. apply (Hrows t r Ht).
    + intros t r Ht. apply (Hchain t r Ht).
    + exact Hin.
    + exact Hout.
Qed.

End CopyDeblockedPixels.

(** A luma plane 16 pixels wide and 56 rows high, one byte per pixel: of
    the rows 54 to 57 kept for loop restoration only 54 and 55 exist. *)
Definition example_table (subsampling_y i : Z) : Z :=
  nth (Z.to_nat i)
    (if subsampling_y =? 0 then [54; 55; 56; 57] else [26; 27; 28; 29]) 0.

Definition example_copy (m : buffer) : buffer :=
  CopyDeblockedPixels (fun x => Z.shiftl x 2) (fun x => Z.shiftr x 4)
    (fun value s => Z.shiftr (value + Z.shiftl 1 s - 1) s) example_table
    (fun _ => 32) (fun _ => 32) (fun _ => 10000)
    (fun _ row4x4 column4x4 => 1000 + 128 * row4x4 + 4 * column4x4)
    4 56 (fun _ => 0) (fun _ => 0) 1 0 0 m.

Lemma CopyDeblockedPixels_rows_witness :
  exists rows : list Z,
    length rows = 4%nat
    /\ copied_rows (fun x => Z.shiftl x 2) (fun x => Z.shiftr x 4)
         (fun value s => Z.shiftr (value + Z.shiftl 1 s - 1) s)
         (fun _ => 32) (fun _ => 32) (fun _ => 10000)
         (fun _ row4x4 column4x4 => 1000 + 128 * row4x4 + 4 * column4x4)
         4 (fun _ => 0) 1 0 0 rows (fun a => a)
         (example_copy (fun a => a)).
Proof.
  destruct (CopyDeblockedPixels_rows (fun x => Z.shiftl x 2)
              (fun x => Z.shiftr x 4)
              (fun value s => Z.shiftr (value + Z.shiftl 1 s - 1) s)
              example_table (fun _ => 32) (fun _ => 32) (fun _ => 10000)
              (fun _ row4x4 column4x4 => 1000 + 128 * row4x4 + 4 * column4x4)
              4 56 (fun _ => 0) (fun _ => 0) 1 0 0 (fun a => a))
    as (rows & Hlength & _ & _ & Hcopied).
  - vm_compute. split; discriminate.
  - intros i. unfold table, example_table. cbn [Z.eqb].
    destruct (Z.to_nat i) as [| [| [| [| [| k]]]]]; cbn; lia.
  - intros r x t. unfold absolute_row.
    change (row_bytes 1 _) with 16. change (Z.shiftr _ 0 + r) with r.
    change (Z.shiftr (56 + Z.shiftl 1 0 - 1) 0) with 56.
    change (Z.shiftl (Z.shiftr 0 4 + 1) 2) with 4. intros Hr Hx Ht. lia.
  - exists rows. split; [exact Hlength | exact Hcopied].
Defined.

(** The rows behind the witness, by their first byte: row 54, then row 55
    three times. *)
Example CopyDeblockedPixels_run :
  map (fun t => example_copy (fun a => a) (10128 + 32 * t)) [0; 1; 2; 3]
  = [2728; 2760; 2760; 2760].
Proof. reflexivity. Qed.

End DeblockedRows.

(** ** Where CDEF writes its output ([src/post_filter.cc]) *)

Module CdefBuffer.

Section GetCdefBufferAndStride.

(** Members of [PostFilter]; [has_thread_pool] is
    [thread_pool_ != nullptr], addresses count bytes. *)
Variable has_thread_pool : bool.
Variable window_buffer_width_ : Z.
Variable window_buffer_height_ : Z.
Variable pixel_size_ : Z.
Variable threaded_window_buffer_ : Z.
Variable cdef_buffer_ : Z -> Z.
Variable frame_buffer_stride : Z -> Z.

(** The pointer returned and [*cdef_stride]; C++ [%] truncates. *)
Definition GetCdefBufferAndStride (start_x start_y plane : Z)
    (subsampling_x subsampling_y window_buffer_plane_size : Z) : Z * Z :=
  if has_thread_pool then
    let cdef_stride := window_buffer_width_ * pixel_size_ in
    let column_window :=
      Z.rem start_x (Z.shiftr window_buffer_width_ subsampling_x) in
    let row_window :=
      Z.rem start_y (Z.shiftr window_buffer_height_ subsampling_y) in
    (threaded_window_buffer_ + plane * window_buffer_plane_size
     + row_window * cdef_stride + column_window * pixel_size_,
     cdef_stride)
  else
    let cdef_stride := frame_buffer_stride plane in
    (cdef_buffer_ plane + start_y * cdef_stride + start_x * pixel_size_,
     cdef_stride).

Lemma shiftr_le z s : 0 <= z -> 0 <= s -> Z.shiftr z s <= z.
Proof.
  intros Hz Hs. rewrite Z.shiftr_div_pow2 by exact Hs.
  assert (0 < 2 ^ s) by (apply Z.pow_pos_nonneg; lia).
  apply Z.div_le_upper_bound; [lia | nia].
Qed.

(** X19. With a thread pool, [GetCdefBufferAndStride] maps a position of a
    plane into that plane's slice of [threaded_window_buffer_]: the pixel
    returned lies inside the slice of
    [window_buffer_width_ * window_buffer_height_ * pixel_size_] bytes, and
    two positions of the same window never get the same address. *)
Theorem GetCdefBufferAndStride_in_window
    (start_x start_y plane subsampling_x subsampling_y : Z) :
  let plane_size :=
    window_buffer_width_ * window_buffer_height_ * pixel_size_ in
  let window_width := Z.shiftr window_buffer_width_ subsampling_x in
  let window_height := Z.shiftr window_buffer_height_ subsampling_y in
  let slice := threaded_window_buffer_ + plane * plane_size in
  let address x y :=
    fst (GetCdefBufferAndStride x y plane subsampling_x subsampling_y
           plane_size) in
  has_thread_pool = true ->
  0 < pixel_size_ -> 0 <= subsampling_x -> 0 <= subsampling_y ->
  0 < window_width -> 0 < window_height ->
  0 <= start_x -> 0 <= start_y ->
  slice <= address start_x start_y
  /\ address start_x start_y + pixel_size_ <= slice + plane_size
  /\ forall x y,
       0 <= x -> 0 <= y ->
       Z.quot x window_width = Z.quot start_x window_width ->
       Z.quot y window_height = Z.quot start_y window_height ->
       address x y = address start_x start_y ->
       x = start_x /\ y = start_y.
Proof.
  intros plane_size window_width window_height slice address Hpool Hpixel
    Hsx Hsy Hww Hwh Hx Hy.
  assert (Hw : 0 <= window_buffer_width_).
  { destruct (Z.lt_ge_cases window_buffer_width_ 0) as [Hneg | ?]; [| lia].
    pose proof (Z.shiftr_neg window_buffer_width_ subsampling_x) as [_ Hn].
    specialize (Hn Hneg). unfold window_width in Hww. lia. }
  assert (Hh : 0 <= window_buffer_height_).
  { destruct (Z.lt_ge_cases window_buffer_height_ 0) as [Hneg | ?]; [| lia].
    pose proof (Z.shiftr_neg window_buffer_height_ subsampling_y) as [_ Hn].
    specialize (Hn Hneg). unfold window_height in Hwh. lia. }
  pose proof (shiftr_le _ _ Hw Hsx) as Hwle.
  pose proof (shiftr_le _ _ Hh Hsy) as Hhle.
  fold window_width in Hwle. fold window_height in Hhle.
  assert (Haddress : forall x y,
            address x y
            = slice
              + (Z.rem y window_height * window_buffer_width_
                 + Z.rem x window_width) * pixel_size_).
  { intros x y. unfold address, GetCdefBufferAndStride. rewrite Hpool.
    cbn [fst]. fold window_width window_height. unfold slice. ring. }
  assert (Hrem : forall v size, 0 <= v -> 0 < size -> 0 <= Z.rem v size < size).
  { intros v size Hv Hsize. apply Z.rem_bound_pos; lia. }
  pose proof (Hrem start_x window_width Hx Hww) as Hcol.
  pose proof (Hrem start_y window_height Hy Hwh) as Hrow.
  split; [| split].
  - rewrite Haddress. nia.
  - rewrite Haddress. unfold plane_size.
    assert (Z.rem start_y window_height * window_buffer_width_
            + Z.rem start_x window_width + 1
            <= window_buffer_width_ * window_buffer_height_) by nia.
    nia.
  - intros x y Hx' Hy' Hqx Hqy Hsame. rewrite !Haddress in Hsame.
    pose proof (Hrem x window_width Hx' Hww) as Hcol'.
    pose proof (Hrem y window_height Hy' Hwh) as Hrow'.
    assert (Hcell : Z.rem y window_height * window_buffer_width_
                    + Z.rem x window_width
                    = Z.rem start_y window_height * window_buffer_width_
                      + Z.rem start_x window_width) by nia.
    assert (Hrows : Z.rem y window_height = Z.rem start_y window_height)
      by nia.
    assert (Hcols : Z.rem x window_width = Z.rem start_x window_width)
      by nia.
    pose proof (Z.quot_rem' x window_width).
    pose proof (Z.quot_rem' start_x window_width).
    pose proof (Z.quot_rem' y window_height).
    pose proof (Z.quot_rem' start_y window_height).
    split; congruence.
Qed.

End GetCdefBufferAndStride.

(** A 64x64 window of 16-bit pixels; the U plane of a 4:2:0 frame. *)
Lemma GetCdefBufferAndStride_in_window_witness :
  let address x y :=
    fst (GetCdefBufferAndStride true 64 64 2 1000 (fun _ => 0) (fun _ => 0)
           x y 1 1 1 (64 * 64 * 2)) in
  1000 + 1 * (64 * 64 * 2) <= address 70 10
  /\ address 70 10 + 2 <= 1000 + 1 * (64 * 64 * 2) + 64 * 64 * 2
  /\ forall x y,
       0 <= x -> 0 <= y ->
       Z.quot x (Z.shiftr 64 1) = Z.quot 70 (Z.shiftr 64 1) ->
       Z.quot y (Z.shiftr 64 1) = Z.quot 10 (Z.shiftr 64 1) ->
       address x y = address 70 10 ->
       x = 70 /\ y = 10.
Proof.
  apply (GetCdefBufferAndStride_in_window true 64 64 2 1000 (fun _ => 0)
           (fun _ => 0) 70 10 1 1 1);
    first [reflexivity | lia].
Defined.

End CdefBuffer.

(** ** CDEF with a thread pool ([src/post_filter.cc])

    [ApplyCdefThreaded] walks the frame window by window.  In a window it
    hands the first rows of 64x64 units to the thread pool, filters the
    other rows itself, waits on a [BlockingCounter] and copies the window
    into [cdef_buffer_].  The model records what the calling thread does,
    in order. *)

Module CdefThreaded.

Inductive Event :=
| Schedule (row4x4 column4x4 : Z)
| ApplyCdefForOneRowInWindow (row4x4 column4x4 : Z)
| Wait (pending_jobs : Z)
| CopyPlane (source source_stride width height dest dest_stride : Z).

(** [for (i = start; i < bound; i += step) body(i)]: the events of the
    iterations, in order. *)
Fixpoint for_events (fuel : nat) (i bound step : Z)
    (body : Z -> option (list Event)) : option (list Event) :=
  if i <? bound then
    match fuel with
    | O => None
    | S fuel =>
        match body i with
        | None => None
        | Some first =>
            match for_events fuel (i + step) bound step body with
            | None => None
            | Some rest => Some (first ++ rest)
            end
        end
    end
  else Some [].

(** The loop over the rows of a window, with its counter [job_count]. *)
Fixpoint job_loop (fuel : nat)
    (row4x4 column4x4 actual_window_height4x4 jobs_for_threadpool : Z)
    (row64x64 job_count : Z) : option (list Event) :=
  let step_64x64 := 16 in
  if row64x64 <? actual_window_height4x4 then
    match fuel with
    | O => None
    | S fuel =>
        let job :=
          if job_count <? jobs_for_threadpool
          then Schedule (row4x4 + row64x64) column4x4
          else ApplyCdefForOneRowInWindow (row4x4 + row64x64) column4x4 in
        match job_loop fuel row4x4 column4x4 actual_window_height4x4
                jobs_for_threadpool (row64x64 + step_64x64) (job_count + 1) with
        | None => None
        | Some rest => Some (job :: rest)
        end
    end
  else Some [].

(** A [BlockingCounter] built with [pending_jobs] lets [Wait] return after
    [pending_jobs] calls of [Decrement], and each scheduled job calls it
    once.  [synchronised scheduled own events] follows the events with the
    number of jobs scheduled and of rows filtered by the calling thread
    since the last [Wait]: every [Wait] is for as many jobs as were
    scheduled, after the thread filtered a row itself; the window is copied
    only when no scheduled job is left; nothing is left at the end. *)
Fixpoint synchronised (scheduled own : Z) (events : list Event) : bool :=
  match events with
  | [] => scheduled =? 0
  | Schedule _ _ :: rest => synchronised (scheduled + 1) own rest
  | ApplyCdefForOneRowInWindow _ _ :: rest => synchronised scheduled (own + 1) rest
  | Wait pending_jobs :: rest =>
      (pending_jobs =? scheduled) && (0 <? own) && synchronised 0 0 rest
  | CopyPlane _ _ _ _ _ _ :: rest =>
      (scheduled =? 0) && synchronised scheduled own rest
  end.

(** The rows of 64x64 units filtered, by the pool or by the thread. *)
Definition row_of (e : Event) : option (Z * Z) :=
  match e with
  | Schedule row4x4 column4x4 => Some (row4x4, column4x4)
  | ApplyCdefForOneRowInWindow row4x4 column4x4 => Some (row4x4, column4x4)
  | _ => None
  end.

Definition rows_of (events : list Event) : list (Z * Z) := omap row_of events.

(** *** Closed forms of the loops *)

(** The number of iterations of [for (i = 0; i < bound; i += step)]. *)
Definition iterations (bound step : Z) : Z := Z.max 0 ((bound + step - 1) / step).

Lemma iterations_lt bound step t :
  0 < step -> 0 <= t -> (step * t < bound <-> t < iterations bound step).
Proof.
  intros Hs Ht. unfold iterations.
  pose proof (Z.div_mod (bound + step - 1) step ltac:(lia)) as Hd.
  pose proof (Z.mod_pos_bound (bound + step - 1) step Hs) as Hm.
  split; intros H; nia.
Qed.

Lemma for_events_closed body (g : Z -> list Event) start step bound n :
  0 < step ->
  (forall t, 0 <= t -> (start + step * t < bound <-> t < n)) ->
  (forall t, 0 <= t < n -> body (start + step * t) = Some (g t)) ->
  forall fuel a, 0 <= a -> n - a <= Z.of_nat fuel ->
    for_events fuel (start + step * a) bound step body
    = Some (seqZ a (n - a) ≫= g).
Proof.
  intros Hs Hn Hb. induction fuel as [|fuel IH]; intros a Ha Hf.
  - cbn. destruct (Z.ltb_spec (start + step * a) bound) as [Hlt|Hge].
    + apply Hn in Hlt; lia.
    + rewrite seqZ_nil; [reflexivity|].
      destruct (Z.le_gt_cases (n - a) 0); [assumption|].
      exfalso. assert (start + step * a < bound) by (apply Hn; lia). lia.
  - cbn [for_events]. destruct (Z.ltb_spec (start + step * a) bound) as [Hlt|Hge].
    + apply Hn in Hlt; [|assumption].
      rewrite (Hb a) by lia.
      replace (start + step * a + step) with (start + step * (a + 1)) by lia.
      rewrite IH by lia.
      rewrite (seqZ_cons a (n - a)) by lia.
      replace (Z.succ a) with (a + 1) by lia.
      replace (Z.pred (n - a)) with (n - (a + 1)) by lia.
      reflexivity.
    + rewrite seqZ_nil; [reflexivity|].
      destruct (Z.le_gt_cases (n - a) 0); [assumption|].
      exfalso. assert (start + step * a < bound) by (apply Hn; lia). lia.
Qed.

(** The job of the [t]-th row of a window. *)
Definition job (row4x4 column4x4 jobs_for_threadpool t : Z) : Event :=
  if t <? jobs_for_threadpool
  then Schedule (row4x4 + 16 * t) column4x4
  else ApplyCdefForOneRowInWindow (row4x4 + 16 * t) column4x4.

Lemma job_loop_closed row4x4 column4x4 actual jobs_for_threadpool :
  let n := iterations actual 16 in
  forall fuel t, 0 <= t -> n - t <= Z.of_nat fuel ->
    job_loop fuel row4x4 column4x4 actual jobs_for_threadpool (16 * t) t
    = Some (job row4x4 column4x4 jobs_for_threadpool <$> seqZ t (n - t)).
Proof.
  intros n. induction fuel as [|fuel IH]; intros t Ht Hf.
  - cbn. destruct (Z.ltb_spec (16 * t) actual) as [Hlt|Hge].
    + apply iterations_lt in Hlt; fold n in Hlt; lia.
    + rewrite seqZ_nil; [reflexivity|].
      destruct (Z.le_gt_cases (n - t) 0); [assumption|].
      exfalso. assert (16 * t < actual) by (apply iterations_lt; fold n; lia). lia.
  - cbn [job_loop]. destruct (Z.ltb_spec (16 * t) actual) as [Hlt|Hge].
    + apply iterations_lt in Hlt; [fold n in Hlt|lia|assumption].
      replace (16 * t + 16) with (16 * (t + 1)) by lia.
      rewrite IH by lia.
      rewrite (seqZ_cons t (n - t)) by lia.
      replace (Z.succ t) with (t + 1) by lia.
      replace (Z.pred (n - t)) with (n - (t + 1)) by lia.
      reflexivity.
    + rewrite seqZ_nil; [reflexivity|].
      destruct (Z.le_gt_cases (n - t) 0); [assumption|].
      exfalso. assert (16 * t < actual) by (apply iterations_lt; fold n; lia). lia.
Qed.

(** *** The events of a run of jobs and of a list of blocks *)

Lemma synchronised_jobs row4x4 column4x4 jobs_for_threadpool rest :
  0 <= jobs_for_threadpool ->
  forall (k : nat) t, 0 <= t ->
    synchronised (Z.min t jobs_for_threadpool) (t - Z.min t jobs_for_threadpool)
      ((job row4x4 column4x4 jobs_for_threadpool <$> seqZ t (Z.of_nat k)) ++ rest)
    = synchronised (Z.min (t + Z.of_nat k) jobs_for_threadpool)
        (t + Z.of_nat k - Z.min (t + Z.of_nat k) jobs_for_threadpool) rest.
Proof.
  intros Hj. induction k as [|k IH]; intros t Ht.
  - cbn. now rewrite Z.add_0_r.
  - rewrite (seqZ_cons t) by lia.
    replace (Z.pred (Z.of_nat (S k))) with (Z.of_nat k) by lia.
    replace (Z.succ t) with (t + 1) by lia.
    replace (t + Z.of_nat (S k)) with (t + 1 + Z.of_nat k) by lia.
    rewrite <- (IH (t + 1)) by lia.
    rewrite fmap_cons. cbn [app]. unfold job at 1.
    destruct (Z.ltb_spec t jobs_for_threadpool); cbn [synchronised]; f_equal; lia.
Qed.

Lemma synchronised_blocks {A} (g : A -> list Event) (l : list A) :
  (forall t rest, t ∈ l ->
     synchronised 0 0 (g t ++ rest) = synchronised 0 0 rest) ->
  forall rest, synchronised 0 0 ((l ≫= g) ++ rest) = synchronised 0 0 rest.
Proof.
  induction l as [|t l IH]; intros Hg rest; [reflexivity|].
  rewrite bind_cons, <- app_assoc, Hg by apply list_elem_of_here.
  apply IH. intros t' rest' Ht'. apply Hg. now apply list_elem_of_further.
Qed.

Lemma rows_of_app l1 l2 : rows_of (l1 ++ l2) = rows_of l1 ++ rows_of l2.
Proof. apply omap_app. Qed.

Lemma rows_of_bind {A} (g : A -> list Event) (l : list A) :
  rows_of (l ≫= g) = l ≫= fun t => rows_of (g t).
Proof.
  induction l as [|t l IH]; [reflexivity|].
  now rewrite !bind_cons, rows_of_app, IH.
Qed.

Lemma rows_of_jobs row4x4 column4x4 jobs_for_threadpool (l : list Z) :
  rows_of (job row4x4 column4x4 jobs_for_threadpool <$> l)
  = (fun t => (row4x4 + 16 * t, column4x4)) <$> l.
Proof.
  induction l as [|t l IH]; [reflexivity|].
  rewrite !fmap_cons. unfold rows_of in *. cbn [omap list_omap].
  rewrite IH. unfold job. now destruct (t <? jobs_for_threadpool).
Qed.

Section ApplyCdefThreaded.

(** [DivideBy4], [DivideBy16] and [MultiplyBy4] of [src/utils/common.h]. *)
Variables DivideBy4 DivideBy16 MultiplyBy4 : Z -> Z.
(** [thread_pool_->num_threads()]. *)
Variable num_workers : Z.
Variables window_buffer_width_ window_buffer_height_ pixel_size_ : Z.
(** [frame_header_.rows4x4] and [frame_header_.columns4x4]. *)
Variables rows4x4 columns4x4 : Z.
Variables kPlaneY planes_ : Z.
Variables subsampling_x_ subsampling_y_ : Z -> Z.
(** [frame_buffer_.stride(plane)], [cdef_buffer_[plane]] and
    [threaded_window_buffer_] as addresses. *)
Variables frame_buffer_stride cdef_buffer_ : Z -> Z.
Variable threaded_window_buffer_ : Z.

(** The body of the loop over the planes that copies the window. *)
Definition copy_window (row4x4 column4x4 plane : Z) : Event :=
  let window_buffer_plane_size :=
    window_buffer_width_ * window_buffer_height_ * pixel_size_ in
  let window_buffer_height4x4 := DivideBy4 window_buffer_height_ in
  let src_stride := frame_buffer_stride plane in
  let plane_row := Z.shiftr (MultiplyBy4 row4x4) (subsampling_y_ plane) in
  let plane_column := Z.shiftr (MultiplyBy4 column4x4) (subsampling_x_ plane) in
  let copy_width :=
    Z.min (columns4x4 - column4x4) (DivideBy4 window_buffer_width_) in
  let copy_width := Z.shiftr (MultiplyBy4 copy_width) (subsampling_x_ plane) in
  let copy_height := Z.min (rows4x4 - row4x4) window_buffer_height4x4 in
  let copy_height := Z.shiftr (MultiplyBy4 copy_height) (subsampling_y_ plane) in
  CopyPlane (threaded_window_buffer_ + plane * window_buffer_plane_size)
            (window_buffer_width_ * pixel_size_) copy_width copy_height
            (cdef_buffer_ plane + plane_row * src_stride
             + plane_column * pixel_size_)
            src_stride.

(** The body of the loop over the columns of windows. *)
Definition window (row4x4 actual_window_height4x4 vertical_units_per_window : Z)
    (column4x4 : Z) : option (list Event) :=
  let jobs_for_threadpool :=
    Z.quot (vertical_units_per_window * num_workers) (num_workers + 1) in
  match job_loop (Z.to_nat actual_window_height4x4) row4x4 column4x4
          actual_window_height4x4 jobs_for_threadpool 0 0 with
  | None => None
  | Some jobs =>
      match for_events (Z.to_nat (planes_ - kPlaneY)) kPlaneY planes_ 1
              (fun plane => Some [copy_window row4x4 column4x4 plane]) with
      | None => None
      | Some copies => Some (jobs ++ Wait jobs_for_threadpool :: copies)
      end
  end.

(** The body of the loop over the rows of windows. *)
Definition window_row (row4x4 : Z) : option (list Event) :=
  let window_buffer_height4x4 := DivideBy4 window_buffer_height_ in
  let actual_window_height4x4 :=
    Z.min window_buffer_height4x4 (rows4x4 - row4x4) in
  let vertical_units_per_window := DivideBy16 (actual_window_height4x4 + 15) in
  for_events (Z.to_nat columns4x4) 0 columns4x4 (DivideBy4 window_buffer_width_)
    (window row4x4 actual_window_height4x4 vertical_units_per_window).

Definition ApplyCdefThreaded : option (list Event) :=
  let window_buffer_height4x4 := DivideBy4 window_buffer_height_ in
  for_events (Z.to_nat rows4x4) 0 rows4x4 window_buffer_height4x4 window_row.

(** *** What the calling thread does *)

Hypothesis DivideBy4_shift : forall x, DivideBy4 x = Z.shiftr x 2.
Hypothesis DivideBy16_shift : forall x, DivideBy16 x = Z.shiftr x 4.
Hypothesis workers : 0 <= num_workers.
Hypothesis window_height : 0 < window_buffer_height_.
Hypothesis window_height_64 : Z.land window_buffer_height_ 63 = 0.
Hypothesis window_width : 4 <= window_buffer_width_.

Local Abbreviation height4x4 := (DivideBy4 window_buffer_height_).
Local Abbreviation width4x4 := (DivideBy4 window_buffer_width_).

Lemma height4x4_units : exists q, 0 < q /\ height4x4 = 16 * q.
Proof.
  exists (window_buffer_height_ / 64).
  rewrite DivideBy4_shift, Z.shiftr_div_pow2 by lia.
  pose proof window_height_64 as H64.
  change 63 with (Z.ones 6) in H64. rewrite Z.land_ones in H64 by lia.
  change (2 ^ 6) with 64 in H64. change (2 ^ 2) with 4.
  pose proof (Z.div_mod window_buffer_height_ 64 ltac:(lia)) as Hd.
  rewrite H64 in Hd.
  assert (window_buffer_height_ / 4 = 16 * (window_buffer_height_ / 64)) as ->.
  { rewrite Hd at 1. replace (64 * (window_buffer_height_ / 64) + 0)
      with ((16 * (window_buffer_height_ / 64)) * 4) by lia.
    apply Z.div_mul. lia. }
  split; [|reflexivity]. pose proof window_height. lia.
Qed.

Lemma window_width4x4_positive : 0 < width4x4.
Proof.
  rewrite DivideBy4_shift, Z.shiftr_div_pow2 by lia. change (2 ^ 2) with 4.
  pose proof window_width. apply Z.div_str_pos. lia.
Qed.

(** The height of the window that starts at [row4x4]. *)
Definition actual_height (row4x4 : Z) : Z := Z.min height4x4 (rows4x4 - row4x4).

(** The share of the thread pool of [units] rows. *)
Definition pool_share (units : Z) : Z :=
  Z.quot (units * num_workers) (num_workers + 1).

(** The events of one window. *)
Definition block (row4x4 column4x4 : Z) : list Event :=
  let units := iterations (actual_height row4x4) 16 in
  (job row4x4 column4x4 (pool_share units) <$> seqZ 0 units)
  ++ Wait (pool_share units)
  :: (seqZ 0 (planes_ - kPlaneY)
        ≫= fun t => [copy_window row4x4 column4x4 (kPlaneY + 1 * t)]).

Lemma units_of_window row4x4 :
  0 < actual_height row4x4 ->
  DivideBy16 (actual_height row4x4 + 15) = iterations (actual_height row4x4) 16
  /\ 0 < iterations (actual_height row4x4) 16.
Proof.
  intros Hpos. rewrite DivideBy16_shift, Z.shiftr_div_pow2 by lia.
  change (2 ^ 4) with 16. unfold iterations.
  replace (actual_height row4x4 + 16 - 1) with (actual_height row4x4 + 15) by lia.
  assert (1 <= (actual_height row4x4 + 15) / 16)
    by (apply Z.div_le_lower_bound; lia).
  lia.
Qed.

Lemma pool_share_range units :
  0 < units -> 0 <= pool_share units < units.
Proof.
  intros Hu. unfold pool_share. pose proof workers.
  rewrite Z.quot_div_nonneg by nia. split.
  - apply Z.div_pos; nia.
  - apply Z.div_lt_upper_bound; nia.
Qed.

Lemma window_closed row4x4 column4x4 :
  0 < actual_height row4x4 ->
  window row4x4 (actual_height row4x4)
    (DivideBy16 (actual_height row4x4 + 15)) column4x4
  = Some (block row4x4 column4x4).
Proof.
  intros Hpos. destruct (units_of_window row4x4 Hpos) as [-> Hunits].
  unfold window.
  pose proof (job_loop_closed row4x4 column4x4 (actual_height row4x4)
                (pool_share (iterations (actual_height row4x4) 16))
                (Z.to_nat (actual_height row4x4)) 0 ltac:(lia)) as Hjobs.
  cbv zeta in Hjobs. change (16 * 0) with 0 in Hjobs.
  rewrite Z.sub_0_r in Hjobs. fold (pool_share (iterations (actual_height row4x4) 16)).
  rewrite Hjobs.
  2:{ unfold iterations.
      assert ((actual_height row4x4 + 16 - 1) / 16 <= actual_height row4x4)
        by (apply Z.div_le_upper_bound; lia).
      lia. }
  pose proof (for_events_closed
                (fun plane => Some [copy_window row4x4 column4x4 plane])
                (fun t => [copy_window row4x4 column4x4 (kPlaneY + 1 * t)])
                kPlaneY 1 planes_ (planes_ - kPlaneY) ltac:(lia)
                ltac:(intros; lia) ltac:(intros; reflexivity)
                (Z.to_nat (planes_ - kPlaneY)) 0 ltac:(lia) ltac:(lia)) as Hcopies.
  replace (kPlaneY + 1 * 0) with kPlaneY in Hcopies by lia.
  rewrite Z.sub_0_r in Hcopies. rewrite Hcopies. reflexivity.
Qed.

Lemma iterations_le bound step : 0 < step -> iterations bound step <= Z.max 0 bound.
Proof.
  intros Hs. unfold iterations.
  destruct (Z.le_gt_cases bound 0).
  - assert ((bound + step - 1) / step <= 0); [|lia].
    apply Z.lt_succ_r. apply Z.div_lt_upper_bound; lia.
  - assert ((bound + step - 1) / step <= bound); [|lia].
    apply Z.div_le_upper_bound; nia.
Qed.

Lemma for_events_steps body (g : Z -> list Event) bound step :
  0 < step ->
  (forall t, 0 <= t < iterations bound step -> body (step * t) = Some (g t)) ->
  for_events (Z.to_nat bound) 0 bound step body
  = Some (seqZ 0 (iterations bound step) ≫= g).
Proof.
  intros Hs Hb.
  pose proof (for_events_closed body g 0 step bound (iterations bound step) Hs) as Hc.
  pose proof (iterations_le bound step Hs).
  specialize (Hc ltac:(intros; rewrite Z.add_0_l; now apply iterations_lt)
                 ltac:(intros; rewrite Z.add_0_l; now apply Hb)
                 (Z.to_nat bound) 0 ltac:(lia) ltac:(lia)).
  replace (0 + step * 0) with 0 in Hc by lia. rewrite Z.sub_0_r in Hc. exact Hc.
Qed.

(** The events of the whole frame. *)
Definition frame : list Event :=
  seqZ 0 (iterations rows4x4 height4x4) ≫= fun i =>
    seqZ 0 (iterations columns4x4 width4x4) ≫= fun j =>
      block (height4x4 * i) (width4x4 * j).

Lemma window_starts_inside i :
  0 <= i < iterations rows4x4 height4x4 -> 0 < actual_height (height4x4 * i).
Proof.
  intros [Hi Hlt]. destruct height4x4_units as (q & Hq & Hh).
  apply iterations_lt in Hlt; [|lia|assumption].
  unfold actual_height. lia.
Qed.

Lemma ApplyCdefThreaded_closed : ApplyCdefThreaded = Some frame.
Proof.
  destruct height4x4_units as (q & Hq & Hh). pose proof window_width4x4_positive as Hw.
  unfold ApplyCdefThreaded. apply for_events_steps; [lia|].
  intros i Hi. unfold window_row. fold (actual_height (height4x4 * i)).
  apply for_events_steps; [assumption|].
  intros j Hj. apply window_closed. now apply window_starts_inside.
Qed.

Lemma block_synchronised row4x4 column4x4 rest :
  0 < actual_height row4x4 ->
  synchronised 0 0 (block row4x4 column4x4 ++ rest) = synchronised 0 0 rest.
Proof.
  intros Hpos. destruct (units_of_window row4x4 Hpos) as [_ Hunits].
  pose proof (pool_share_range _ Hunits) as Hshare.
  unfold block. cbv zeta.
  set (units := iterations (actual_height row4x4) 16) in *.
  rewrite <- app_assoc.
  pose proof (synchronised_jobs row4x4 column4x4 (pool_share units)
                ((Wait (pool_share units)
                  :: (seqZ 0 (planes_ - kPlaneY)
                        ≫= fun t => [copy_window row4x4 column4x4 (kPlaneY + 1 * t)]))
                 ++ rest)
                ltac:(lia) (Z.to_nat units) 0 ltac:(lia)) as Hjobs.
  rewrite Z2Nat.id in Hjobs by lia.
  rewrite Z.min_l in Hjobs by lia. rewrite Z.sub_0_r in Hjobs.
  rewrite Hjobs. rewrite Z.add_0_l, Z.min_r by lia.
  cbn [app synchronised].
  rewrite Z.eqb_refl. cbn [andb].
  destruct (Z.ltb_spec 0 (units - pool_share units)); [|lia]. cbn [andb].
  generalize (seqZ 0 (planes_ - kPlaneY)). intros planes.
  induction planes as [|plane planes IH]; [reflexivity|].
  rewrite bind_cons. cbn [app]. unfold copy_window at 1. cbn [synchronised].
  exact IH.
Qed.

Lemma frame_synchronised : synchronised 0 0 frame = true.
Proof.
  rewrite <- (app_nil_r frame). unfold frame.
  rewrite synchronised_blocks; [reflexivity|].
  intros i rest Hi. apply elem_of_seqZ in Hi.
  apply synchronised_blocks. intros j rest' _.
  apply block_synchronised. apply window_starts_inside. lia.
Qed.

Lemma rows_of_block row4x4 column4x4 :
  rows_of (block row4x4 column4x4)
  = (fun t => (row4x4 + 16 * t, column4x4))
      <$> seqZ 0 (iterations (actual_height row4x4) 16).
Proof.
  unfold block. cbv zeta. rewrite rows_of_app, rows_of_jobs.
  rewrite <- (app_nil_r (_ <$> _)) at 2. f_equal.
  change (rows_of (Wait ?n :: ?l)) with (rows_of l).
  generalize (seqZ 0 (planes_ - kPlaneY)). intros planes.
  induction planes as [|plane planes IH]; [reflexivity|].
  rewrite bind_cons. cbn [app]. unfold copy_window at 1. exact IH.
Qed.

Lemma frame_rows r c :
  (r, c) ∈ rows_of frame <->
  exists i j t,
    0 <= i < iterations rows4x4 height4x4
    /\ 0 <= j < iterations columns4x4 width4x4
    /\ 0 <= t < iterations (actual_height (height4x4 * i)) 16
    /\ r = height4x4 * i + 16 * t /\ c = width4x4 * j.
Proof.
  unfold frame. rewrite rows_of_bind, list_elem_of_bind. split.
  - intros (i & Hin & Hi). rewrite rows_of_bind, list_elem_of_bind in Hin.
    destruct Hin as (j & Hin & Hj). rewrite rows_of_block, list_elem_of_fmap in Hin.
    destruct Hin as (t & [= -> ->] & Ht).
    apply elem_of_seqZ in Hi, Hj, Ht. exists i, j, t. repeat split; lia.
  - intros (i & j & t & Hi & Hj & Ht & -> & ->).
    exists i. split; [|apply elem_of_seqZ; lia].
    rewrite rows_of_bind, list_elem_of_bind. exists j. split; [|apply elem_of_seqZ; lia].
    rewrite rows_of_block, list_elem_of_fmap. exists t. split; [reflexivity|].
    apply elem_of_seqZ. lia.
Qed.

Lemma frame_rows_NoDup : NoDup (rows_of frame).
Proof.
  destruct height4x4_units as (q & Hq & Hh). pose proof window_width4x4_positive as Hw.
  unfold frame. rewrite rows_of_bind. apply NoDup_bind; [| |apply NoDup_seqZ].
  - intros i i' [r c] Hi Hi' Hin Hin'. apply elem_of_seqZ in Hi, Hi'.
    rewrite rows_of_bind, list_elem_of_bind in Hin, Hin'.
    destruct Hin as (j & Hin & Hj), Hin' as (j' & Hin' & Hj').
    rewrite rows_of_block, list_elem_of_fmap in Hin, Hin'.
    destruct Hin as (t & [= -> ->] & Ht), Hin' as (t' & [= Hr Hc] & Ht').
    apply elem_of_seqZ in Ht, Ht'.
    assert (16 * t < height4x4)
      by (assert (16 * t < actual_height (height4x4 * i))
            by (apply iterations_lt; lia); unfold actual_height in *; lia).
    assert (16 * t' < height4x4)
      by (assert (16 * t' < actual_height (height4x4 * i'))
            by (apply iterations_lt; lia); unfold actual_height in *; lia).
    nia.
  - intros i Hi. rewrite rows_of_bind. apply NoDup_bind; [| |apply NoDup_seqZ].
    + intros j j' [r c] Hj Hj' Hin Hin'.
      rewrite rows_of_block, list_elem_of_fmap in Hin, Hin'.
      destruct Hin as (t & [= -> ->] & Ht), Hin' as (t' & [= Hr Hc] & Ht'). nia.
    + intros j Hj. rewrite rows_of_block. apply NoDup_fmap_2; [|apply NoDup_seqZ].
      intros t t' [= Heq]. lia.
Qed.

(** X20. [ApplyCdefThreaded] returns, and the calling thread is in step with
    the pool: each [pending_jobs.Wait()] waits for exactly the jobs scheduled
    in its window, after the thread filtered at least one row itself; the
    window is copied to [cdef_buffer_] only when no scheduled job is left;
    and every row of 64x64 units of every window of the frame is filtered
    once, by a job of the pool or by the thread. *)
Theorem ApplyCdefThreaded_synchronised :
  exists events,
    ApplyCdefThreaded = Some events
    /\ synchronised 0 0 events = true
    /\ NoDup (rows_of events)
    /\ forall r c,
         (r, c) ∈ rows_of events <->
         exists i j, 0 <= i /\ r = 16 * i /\ r < rows4x4
                     /\ 0 <= j /\ c = width4x4 * j /\ c < columns4x4.
Proof.
  exists frame. split; [apply ApplyCdefThreaded_closed|].
  split; [apply frame_synchronised|]. split; [apply frame_rows_NoDup|].
  destruct height4x4_units as (q & Hq & Hh). pose proof window_width4x4_positive as Hw.
  intros r c. rewrite frame_rows. split.
  - intros (i & j & t & Hi & Hj & Ht & -> & ->).
    assert (height4x4 * i < rows4x4) by (apply iterations_lt; lia).
    assert (16 * t < actual_height (height4x4 * i)) by (apply iterations_lt; lia).
    assert (width4x4 * j < columns4x4) by (apply iterations_lt; lia).
    unfold actual_height in *.
    exists (q * i + t), j. repeat split; lia.
  - intros (i & j & Hi & -> & Hr & Hj & -> & Hc).
    pose proof (Z.div_mod i q ltac:(lia)) as Hd.
    pose proof (Z.mod_pos_bound i q Hq) as Hm.
    assert (0 <= i / q) by (apply Z.div_pos; lia).
    exists (i / q), j, (i mod q).
    assert (height4x4 * (i / q) < rows4x4) by nia.
    split; [split; [assumption | apply iterations_lt; lia]|].
    split; [split; [assumption | apply iterations_lt; lia]|].
    split; [split; [lia | apply iterations_lt; [lia | lia |]]|].
    + unfold actual_height. nia.
    + split; [nia | reflexivity].
Qed.

End ApplyCdefThreaded.

(** A frame of 40 by 50 units of 4x4 pixels, windows of 128 by 128 pixels,
    two worker threads and three planes, the chroma planes subsampled. *)
Definition example_run : option (list Event) :=
  ApplyCdefThreaded (fun x => Z.shiftr x 2) (fun x => Z.shiftr x 4)
    (fun x => Z.shiftl x 2) 2 128 128 1 40 50 0 3
    (fun plane => if plane =? 0 then 0 else 1)
    (fun plane => if plane =? 0 then 0 else 1)
    (fun plane => if plane =? 0 then 256 else 128)
    (fun plane => 100000 * (plane + 1)) 5000.

Lemma ApplyCdefThreaded_synchronised_witness :
  exists events,
    example_run = Some events
    /\ synchronised 0 0 events = true
    /\ NoDup (rows_of events)
    /\ forall r c,
         (r, c) ∈ rows_of events <->
         exists i j, 0 <= i /\ r = 16 * i /\ r < 40
                     /\ 0 <= j /\ c = Z.shiftr 128 2 * j /\ c < 50.
Proof.
  apply (ApplyCdefThreaded_synchronised (fun x => Z.shiftr x 2)
           (fun x => Z.shiftr x 4) (fun x => Z.shiftl x 2) 2 128 128 1 40 50 0 3
           (fun plane => if plane =? 0 then 0 else 1)
           (fun plane => if plane =? 0 then 0 else 1)
           (fun plane => if plane =? 0 then 256 else 128)
           (fun plane => 100000 * (plane + 1)) 5000);
    first [reflexivity | lia].
Defined.

Example ApplyCdefThreaded_run :
  match example_run with
  | Some events =>
      rows_of events = [(0, 0); (16, 0); (0, 32); (16, 32); (32, 0); (32, 32)]
      /\ omap (fun e => match e with
                        | CopyPlane _ _ _ _ _ _ => None
                        | _ => Some e
                        end) events
         = [Schedule 0 0; ApplyCdefForOneRowInWindow 16 0; Wait 1;
            Schedule 0 32; ApplyCdefForOneRowInWindow 16 32; Wait 1;
            ApplyCdefForOneRowInWindow 32 0; Wait 0;
            ApplyCdefForOneRowInWindow 32 32; Wait 0]
  | None => False
  end.
Proof. vm_compute. split; reflexivity. Qed.

End CdefThreaded.

(** ** Loop restoration with a thread pool
       ([src/post_filter/loop_restoration.cc])

    [ApplyLoopRestorationThreaded] walks each plane window by window.  The
    rows of restoration processing units of a window are jobs: the first
    ones go to the thread pool, the others are filtered by the calling
    thread, which then waits on a [BlockingCounter] and copies the window
    to the frame.  The first row of units of a plane is
    [unit_height_offset] rows shorter than the others.  The model records
    what the calling thread does, in order. *)

Module RestorationThreaded.

(** A job carries the arguments of [ApplyLoopRestorationForOneRowInWindow]
    that change from a job to the next. *)
Inductive Event :=
| ExtendFrameBoundary (frame_start width height stride left right top bottom : Z)
| Schedule (plane x y row unit_row current_process_unit_height window_width : Z)
| ApplyLoopRestorationForOneRowInWindow
    (plane x y row unit_row current_process_unit_height window_width : Z)
| Wait (pending_jobs : Z)
| CopyPlane (source source_stride width height dest dest_stride : Z).

(** [array[index]] of a C array. *)
Definition at_index (array : list Z) (index : Z) : option Z :=
  if index <? 0 then None else array !! Z.to_nat index.

(** A [BlockingCounter] built with [pending_jobs] lets [Wait] return after
    [pending_jobs] calls of [Decrement], and each scheduled job calls it
    once.  [synchronised scheduled own events] follows the events with the
    number of jobs scheduled and of rows filtered by the calling thread
    since the last [Wait]: every [Wait] is for as many jobs as were
    scheduled, after the thread filtered a row itself; the borders of the
    source are extended and the window is copied only when no scheduled job
    is left; nothing is left at the end. *)
Fixpoint synchronised (scheduled own : Z) (events : list Event) : bool :=
  match events with
  | [] => scheduled =? 0
  | ExtendFrameBoundary _ _ _ _ _ _ _ _ :: rest =>
      (scheduled =? 0) && synchronised scheduled own rest
  | Schedule _ _ _ _ _ _ _ :: rest => synchronised (scheduled + 1) own rest
  | ApplyLoopRestorationForOneRowInWindow _ _ _ _ _ _ _ :: rest =>
      synchronised scheduled (own + 1) rest
  | Wait pending_jobs :: rest =>
      (pending_jobs =? scheduled) && (0 <? own) && synchronised 0 0 rest
  | CopyPlane _ _ _ _ _ _ :: rest =>
      (scheduled =? 0) && synchronised scheduled own rest
  end.

(** The rows of units filtered, by the pool or by the thread: the plane,
    the left column of the window, the top row of the units and their
    height. *)
Definition row_of (e : Event) : option (Z * Z * Z * Z) :=
  match e with
  | Schedule plane x y row _ current_process_unit_height _ =>
      Some (plane, x, y + row, current_process_unit_height)
  | ApplyLoopRestorationForOneRowInWindow plane x y row _
      current_process_unit_height _ =>
      Some (plane, x, y + row, current_process_unit_height)
  | _ => None
  end.

Definition rows_of (events : list Event) : list (Z * Z * Z * Z) :=
  omap row_of events.

(** The number of iterations of [for (i = 0; i < bound; i += step)]. *)
Definition steps (bound step : Z) : Z := Z.max 0 ((bound + step - 1) / step).

Lemma steps_lt bound step t :
  0 < step -> 0 <= t -> (step * t < bound <-> t < steps bound step).
Proof.
  intros Hs Ht. unfold steps.
  pose proof (Z.div_mod (bound + step - 1) step ltac:(lia)) as Hd.
  pose proof (Z.mod_pos_bound (bound + step - 1) step Hs) as Hm.
  split; intros H; nia.
Qed.

Lemma steps_le bound step : 0 < step -> steps bound step <= Z.max 0 bound.
Proof.
  intros Hs. unfold steps.
  destruct (Z.le_gt_cases bound 0).
  - assert ((bound + step - 1) / step <= 0); [|lia].
    apply Z.lt_succ_r. apply Z.div_lt_upper_bound; lia.
  - assert ((bound + step - 1) / step <= bound); [|lia].
    apply Z.div_le_upper_bound; nia.
Qed.

Lemma restoration_synchronised_blocks {A} (g : A -> list Event) (l : list A) :
  (forall t rest, t ∈ l ->
     synchronised 0 0 (g t ++ rest) = synchronised 0 0 rest) ->
  forall rest, synchronised 0 0 ((l ≫= g) ++ rest) = synchronised 0 0 rest.
Proof.
  induction l as [|t l IH]; intros Hg rest; [reflexivity|].
  rewrite bind_cons, <- app_assoc, Hg by apply list_elem_of_here.
  apply IH. intros t' rest' Ht'. apply Hg. now apply list_elem_of_further.
Qed.

Lemma restoration_rows_of_app l1 l2 : rows_of (l1 ++ l2) = rows_of l1 ++ rows_of l2.
Proof. apply omap_app. Qed.

Lemma restoration_rows_of_bind {A} (g : A -> list Event) (l : list A) :
  rows_of (l ≫= g) = l ≫= fun t => rows_of (g t).
Proof.
  induction l as [|t l IH]; [reflexivity|].
  now rewrite !bind_cons, restoration_rows_of_app, IH.
Qed.

Section ApplyLoopRestorationThreaded.

(** [RightShiftWithRounding] of [src/utils/common.h]. *)
Variable RightShiftWithRounding : Z -> Z -> Z.
Variables kRestorationUnitHeight kRestorationUnitOffset : Z.
Variables kRestorationHorizontalBorder kRestorationVerticalBorder : Z.
Variable kLoopRestorationTypeNone : Z.
Variables kPlaneY kPlaneU kPlaneV planes_ : Z.
(** [thread_pool_->num_threads()]. *)
Variable num_workers : Z.
Variables window_buffer_width_ window_buffer_height_ pixel_size_ : Z.
Variables upscaled_width_ height_ : Z.
Variables subsampling_x_ subsampling_y_ : Z -> Z.
(** [loop_restoration_.type] and [loop_restoration_.unit_size]. *)
Variables loop_restoration_type loop_restoration_unit_size : Z -> Z.
(** [restoration_info_->num_vertical_units(plane)]. *)
Variable num_vertical_units : Z -> Z.
(** [superres_buffer_[plane]], [loop_restoration_buffer_[plane]],
    [threaded_window_buffer_] as addresses and [frame_buffer_.stride]. *)
Variables superres_buffer_ loop_restoration_buffer_ frame_buffer_stride : Z -> Z.
Variable threaded_window_buffer_ : Z.

Definition plane_process_unit_height : list Z :=
  [kRestorationUnitHeight;
   Z.shiftr kRestorationUnitHeight (subsampling_y_ kPlaneU);
   Z.shiftr kRestorationUnitHeight (subsampling_y_ kPlaneV)].

Section Plane.

(** The body of the loop over the planes, for [plane] with
    [process_unit_height] the entry [plane_process_unit_height[plane]]. *)
Variable plane : Z.
Variable process_unit_height : Z.

Definition unit_height_offset : Z :=
  Z.shiftr kRestorationUnitOffset (subsampling_y_ plane).
Definition src_buffer : Z := superres_buffer_ plane.
Definition src_stride : Z := frame_buffer_stride plane.
Definition plane_unit_size : Z := loop_restoration_unit_size plane.
Definition plane_width : Z :=
  RightShiftWithRounding upscaled_width_ (subsampling_x_ plane).
Definition plane_height : Z :=
  RightShiftWithRounding height_ (subsampling_y_ plane).

(** The loop over the rows of units of a window. *)
Fixpoint row_loop (fuel : nat)
    (x y actual_window_height actual_window_width jobs_for_threadpool : Z)
    (row job_count : Z) : option (list Event) :=
  if row <? actual_window_height then
    match fuel with
    | O => None
    | S fuel =>
        let unit_y := y + row in
        let expected_height :=
          process_unit_height - (if unit_y =? 0 then unit_height_offset else 0) in
        let current_process_unit_height :=
          Z.min expected_height (plane_height - unit_y) in
        let unit_row :=
          Z.min (Z.quot (unit_y + unit_height_offset) plane_unit_size)
                (num_vertical_units plane - 1) in
        let event :=
          if job_count <? jobs_for_threadpool
          then Schedule plane x y row unit_row current_process_unit_height
                 actual_window_width
          else ApplyLoopRestorationForOneRowInWindow plane x y row unit_row
                 current_process_unit_height actual_window_width in
        match row_loop fuel x y actual_window_height actual_window_width
                jobs_for_threadpool (row + current_process_unit_height)
                (job_count + 1) with
        | None => None
        | Some rest => Some (event :: rest)
        end
    end
  else Some [].

(** The loop over the windows of a row of windows; [None] also when the
    assertion [jobs_for_threadpool < vertical_units_per_window] fails. *)
Fixpoint window_loop (fuel : nat)
    (y actual_window_height vertical_units_per_window jobs_for_threadpool : Z)
    (x : Z) : option (list Event) :=
  if x <? plane_width then
    match fuel with
    | O => None
    | S fuel =>
        let actual_window_width := Z.min window_buffer_width_ (plane_width - x) in
        if negb (jobs_for_threadpool <? vertical_units_per_window) then None
        else
          match row_loop (Z.to_nat actual_window_height) x y
                  actual_window_height actual_window_width
                  jobs_for_threadpool 0 0 with
          | None => None
          | Some jobs =>
              let copy :=
                CopyPlane threaded_window_buffer_
                  (window_buffer_width_ * pixel_size_)
                  actual_window_width actual_window_height
                  (loop_restoration_buffer_ plane + y * src_stride
                   + x * pixel_size_)
                  src_stride in
              match window_loop fuel y actual_window_height
                      vertical_units_per_window jobs_for_threadpool
                      (x + window_buffer_width_) with
              | None => None
              | Some rest =>
                  Some (jobs ++ Wait jobs_for_threadpool :: copy :: rest)
              end
          end
    end
  else Some [].

(** [vertical_units_per_window] of the window that starts at [y]. *)
Definition units_per_window (y actual_window_height : Z) : Z :=
  let vertical_units_per_window :=
    Z.quot (actual_window_height + process_unit_height - 1)
           process_unit_height in
  if y =? 0 then
    let height_without_first_unit :=
      actual_window_height
      - Z.min actual_window_height (process_unit_height - unit_height_offset) in
    Z.quot (height_without_first_unit + process_unit_height - 1)
           process_unit_height + 1
  else vertical_units_per_window.

(** The loop over the rows of windows. *)
Fixpoint y_loop (fuel : nat) (y : Z) : option (list Event) :=
  if y <? plane_height then
    match fuel with
    | O => None
    | S fuel =>
        let actual_window_height :=
          Z.min (window_buffer_height_
                 - (if y =? 0 then unit_height_offset else 0))
                (plane_height - y) in
        let vertical_units_per_window :=
          units_per_window y actual_window_height in
        let jobs_for_threadpool :=
          Z.quot (vertical_units_per_window * num_workers) (num_workers + 1) in
        match window_loop (Z.to_nat plane_width) y actual_window_height
                vertical_units_per_window jobs_for_threadpool 0 with
        | None => None
        | Some windows =>
            let y := if y =? 0 then y - unit_height_offset else y in
            match y_loop fuel (y + window_buffer_height_) with
            | None => None
            | Some rest => Some (windows ++ rest)
            end
        end
    end
  else Some [].

Definition plane_body : option (list Event) :=
  match y_loop (Z.to_nat plane_height) 0 with
  | None => None
  | Some windows =>
      Some (ExtendFrameBoundary src_buffer plane_width plane_height src_stride
              kRestorationHorizontalBorder kRestorationHorizontalBorder
              (kRestorationVerticalBorder - 1) (kRestorationVerticalBorder - 1)
            :: windows)
  end.

(** *** The rows of units of a window *)

Hypothesis offset_range : 0 <= unit_height_offset < process_unit_height.
Hypothesis window_units :
  exists q, 0 < q /\ window_buffer_height_ = q * process_unit_height.
Hypothesis window_width : 0 < window_buffer_width_.
Hypothesis workers : 0 <= num_workers.

(** The height of the window that starts at [y]. *)
Definition actual_height (y : Z) : Z :=
  Z.min (window_buffer_height_ - (if y =? 0 then unit_height_offset else 0))
        (plane_height - y).

(** Where the [j]-th row of units of the window at [y] starts. *)
Definition row_at (y j : Z) : Z :=
  j * process_unit_height
  - (if (y =? 0) && (0 <? j) then unit_height_offset else 0).

(** The height of the row of units at [unit_y]. *)
Definition height_at (unit_y : Z) : Z :=
  Z.min (process_unit_height - (if unit_y =? 0 then unit_height_offset else 0))
        (plane_height - unit_y).

(** The job of the [j]-th row of units of a window. *)
Definition job_at (x y window_width jobs_for_threadpool j : Z) : Event :=
  let unit_y := y + row_at y j in
  let unit_row :=
    Z.min (Z.quot (unit_y + unit_height_offset) plane_unit_size)
          (num_vertical_units plane - 1) in
  if j <? jobs_for_threadpool
  then Schedule plane x y (row_at y j) unit_row (height_at unit_y) window_width
  else ApplyLoopRestorationForOneRowInWindow plane x y (row_at y j) unit_row
         (height_at unit_y) window_width.

Lemma row_lt_units y j :
  0 <= y -> 0 <= j -> 0 < actual_height y ->
  (row_at y j < actual_height y <-> j < units_per_window y (actual_height y)).
Proof.
  intros Hy Hj. generalize (actual_height y). intros a Ha.
  pose proof offset_range as Ho.
  unfold row_at, units_per_window. destruct (Z.eqb_spec y 0) as [->|Hne].
  - cbn [andb]. cbv zeta.
    rewrite Z.quot_div_nonneg by lia.
    set (r := a - Z.min a (process_unit_height - unit_height_offset)
              + process_unit_height - 1).
    pose proof (Z.div_mod r process_unit_height ltac:(lia)) as Hd.
    pose proof (Z.mod_pos_bound r process_unit_height ltac:(lia)) as Hm.
    assert (0 <= r / process_unit_height) by (apply Z.div_pos; lia).
    destruct (Z.ltb_spec 0 j) as [Hpos|Hzero].
    + destruct (Z.le_gt_cases a (process_unit_height - unit_height_offset)).
      * assert (r = process_unit_height - 1) as Hr by lia.
        assert (r / process_unit_height = 0) as ->
          by (apply Z.div_small; lia).
        split; intros; nia.
      * assert (r = a + unit_height_offset - 1) as Hr by lia.
        split; intros; nia.
    + assert (j = 0) as -> by lia. split; intros; lia.
  - cbn [andb]. rewrite Z.quot_div_nonneg by lia.
    pose proof (steps_lt a process_unit_height j ltac:(lia) Hj) as Hs.
    unfold steps in Hs.
    assert (0 <= (a + process_unit_height - 1) / process_unit_height)
      by (apply Z.div_pos; lia).
    rewrite Z.max_r in Hs by assumption. rewrite <- Hs. lia.
Qed.

Lemma row_loop_done fuel x y a w jobs row job_count :
  a <= row -> row_loop fuel x y a w jobs row job_count = Some [].
Proof.
  intros Hge. destruct fuel; cbn [row_loop];
    destruct (Z.ltb_spec row a); first [lia | reflexivity].
Qed.

Lemma row_loop_closed x y w jobs :
  0 <= y -> 0 < actual_height y ->
  let units := units_per_window y (actual_height y) in
  forall fuel j, 0 <= j -> units - j <= Z.of_nat fuel ->
    row_loop fuel x y (actual_height y) w jobs (row_at y j) j
    = Some (job_at x y w jobs <$> seqZ j (units - j)).
Proof.
  intros Hy Ha units. pose proof offset_range as Ho.
  induction fuel as [|fuel IH]; intros j Hj Hf.
  - rewrite row_loop_done, seqZ_nil; [reflexivity | lia |].
    destruct (Z.le_gt_cases (actual_height y) (row_at y j)) as [|Hlt];
      [assumption|].
    apply row_lt_units in Hlt; [fold units in Hlt; lia | assumption ..].
  - destruct (Z.le_gt_cases (actual_height y) (row_at y j)) as [Hge|Hlt].
    + rewrite row_loop_done by assumption. rewrite seqZ_nil; [reflexivity|].
      destruct (Z.le_gt_cases (units - j) 0) as [|Hpos]; [assumption|].
      assert (row_at y j < actual_height y)
        by (apply row_lt_units; [assumption .. | fold units; lia]).
      lia.
    + pose proof Hlt as Hunits.
      apply row_lt_units in Hunits; [fold units in Hunits | assumption ..].
      cbn [row_loop]. destruct (Z.ltb_spec (row_at y j) (actual_height y)); [|lia].
      cbv zeta. fold (height_at (y + row_at y j)).
      rewrite (seqZ_cons j) by lia. rewrite fmap_cons.
      replace (Z.succ j) with (j + 1) by lia.
      replace (Z.pred (units - j)) with (units - (j + 1)) by lia.
      assert (row_at y j + (process_unit_height
                - (if y + row_at y j =? 0 then unit_height_offset else 0))
              = row_at y (j + 1)) as Hnext.
      { unfold row_at.
        destruct (Z.eqb_spec y 0) as [->|]; cbn [andb].
        - destruct (Z.ltb_spec 0 j), (Z.ltb_spec 0 (j + 1)); try lia.
          + destruct (Z.eqb_spec (0 + (j * process_unit_height - unit_height_offset)) 0);
              nia.
          + assert (j = 0) as -> by lia.
            destruct (Z.eqb_spec (0 + (0 * process_unit_height - 0)) 0); lia.
        - destruct (Z.eqb_spec (y + (j * process_unit_height - 0)) 0); nia. }
      destruct (Z.le_gt_cases
                  (process_unit_height
                   - (if y + row_at y j =? 0 then unit_height_offset else 0))
                  (plane_height - (y + row_at y j))) as [Hfull|Hcut].
      * assert (height_at (y + row_at y j)
                = process_unit_height
                  - (if y + row_at y j =? 0 then unit_height_offset else 0)) as Hh
          by (unfold height_at; lia).
        rewrite Hh at 1. rewrite Hnext, IH by lia.
        unfold job_at at 2. cbv zeta. reflexivity.
      * assert (actual_height y <= row_at y j + height_at (y + row_at y j))
          by (unfold height_at, actual_height in *; lia).
        rewrite row_loop_done by assumption.
        assert (units <= j + 1) as Hlast.
        { destruct (Z.le_gt_cases units (j + 1)) as [|Hmore]; [assumption|].
          assert (row_at y (j + 1) < actual_height y)
            by (apply row_lt_units; [assumption | lia | assumption | fold units; lia]).
          unfold height_at, actual_height in *. lia. }
        rewrite seqZ_nil by lia. unfold job_at. cbv zeta. reflexivity.
Qed.

(** *** The windows of a plane *)

(** The share of the thread pool of [units] rows of units. *)
Definition pool_share (units : Z) : Z :=
  Z.quot (units * num_workers) (num_workers + 1).

Lemma restoration_pool_share_range units : 0 < units -> 0 <= pool_share units < units.
Proof.
  intros Hu. unfold pool_share. pose proof workers.
  rewrite Z.quot_div_nonneg by nia. split.
  - apply Z.div_pos; nia.
  - apply Z.div_lt_upper_bound; nia.
Qed.

(** The events of the window at column [x] of the row of windows at [y]. *)
Definition window_block (x y : Z) : list Event :=
  let units := units_per_window y (actual_height y) in
  let window_width := Z.min window_buffer_width_ (plane_width - x) in
  (job_at x y window_width (pool_share units) <$> seqZ 0 units)
  ++ [Wait (pool_share units);
      CopyPlane threaded_window_buffer_ (window_buffer_width_ * pixel_size_)
        window_width (actual_height y)
        (loop_restoration_buffer_ plane + y * src_stride + x * pixel_size_)
        src_stride].

(** The events of the row of windows at [y]. *)
Definition window_row (y : Z) : list Event :=
  seqZ 0 (steps plane_width window_buffer_width_)
    ≫= fun t => window_block (window_buffer_width_ * t) y.

Lemma row_at_zero y : row_at y 0 = 0.
Proof. unfold row_at. rewrite andb_false_r. reflexivity. Qed.

Lemma units_positive y :
  0 <= y -> 0 < actual_height y -> 0 < units_per_window y (actual_height y).
Proof.
  intros Hy Ha. apply row_lt_units; [assumption | lia | assumption |].
  now rewrite row_at_zero.
Qed.

Lemma units_le_height y :
  0 <= y -> 0 < actual_height y ->
  units_per_window y (actual_height y) <= actual_height y.
Proof.
  intros Hy Ha. pose proof (units_positive y Hy Ha) as Hu.
  pose proof offset_range as Ho.
  assert (row_at y (units_per_window y (actual_height y) - 1) < actual_height y)
    as Hlt by (apply row_lt_units; [assumption | lia | assumption | lia]).
  unfold row_at in Hlt.
  destruct ((y =? 0) && (0 <? units_per_window y (actual_height y) - 1)) eqn:E.
  - apply andb_true_iff in E as [_ E]. apply Z.ltb_lt in E. nia.
  - nia.
Qed.

Lemma window_loop_closed y :
  0 <= y -> 0 < actual_height y ->
  let units := units_per_window y (actual_height y) in
  let n := steps plane_width window_buffer_width_ in
  forall fuel a, 0 <= a -> n - a <= Z.of_nat fuel ->
    window_loop fuel y (actual_height y) units (pool_share units)
      (window_buffer_width_ * a)
    = Some (seqZ a (n - a) ≫= fun t => window_block (window_buffer_width_ * t) y).
Proof.
  intros Hy Ha units n. pose proof window_width as Hw.
  pose proof (units_positive y Hy Ha) as Hu. fold units in Hu.
  pose proof (restoration_pool_share_range units Hu) as Hshare.
  pose proof (units_le_height y Hy Ha) as Hle. fold units in Hle.
  induction fuel as [|fuel IH]; intros a Hpos Hf.
  - cbn [window_loop].
    destruct (Z.ltb_spec (window_buffer_width_ * a) plane_width) as [Hlt|Hge].
    + apply steps_lt in Hlt; [fold n in Hlt; lia | assumption ..].
    + rewrite seqZ_nil; [reflexivity|].
      destruct (Z.le_gt_cases (n - a) 0); [assumption|].
      exfalso. assert (window_buffer_width_ * a < plane_width)
        by (apply steps_lt; [assumption .. | fold n; lia]). lia.
  - cbn [window_loop].
    destruct (Z.ltb_spec (window_buffer_width_ * a) plane_width) as [Hlt|Hge].
    + apply steps_lt in Hlt; [fold n in Hlt | assumption ..].
      destruct (Z.ltb_spec (pool_share units) units); [|lia]. cbn [negb].
      pose proof (row_loop_closed (window_buffer_width_ * a) y
                    (Z.min window_buffer_width_
                       (plane_width - window_buffer_width_ * a))
                    (pool_share units) Hy Ha
                    (Z.to_nat (actual_height y)) 0 ltac:(lia)) as Hrows.
      cbv zeta in Hrows. rewrite row_at_zero in Hrows. fold units in Hrows.
      rewrite Z.sub_0_r in Hrows. rewrite Hrows by lia.
      replace (window_buffer_width_ * a + window_buffer_width_)
        with (window_buffer_width_ * (a + 1)) by lia.
      rewrite IH by lia.
      rewrite (seqZ_cons a) by lia. rewrite bind_cons.
      replace (Z.succ a) with (a + 1) by lia.
      replace (Z.pred (n - a)) with (n - (a + 1)) by lia.
      unfold window_block at 2. cbv zeta. fold units.
      rewrite <- app_assoc. reflexivity.
    + rewrite seqZ_nil; [reflexivity|].
      destruct (Z.le_gt_cases (n - a) 0); [assumption|].
      exfalso. assert (window_buffer_width_ * a < plane_width)
        by (apply steps_lt; [assumption .. | fold n; lia]). lia.
Qed.

(** Where the [k]-th row of windows starts. *)
Definition window_top (k : Z) : Z :=
  Z.max 0 (k * window_buffer_height_ - unit_height_offset).

(** The number of rows of windows. *)
Definition window_rows : Z :=
  if plane_height <=? 0 then 0
  else steps (plane_height + unit_height_offset) window_buffer_height_.

Lemma window_height_bound : unit_height_offset < window_buffer_height_.
Proof.
  destruct window_units as (q & Hq & ->). pose proof offset_range. nia.
Qed.

Lemma window_top_lt k :
  0 <= k -> (window_top k < plane_height <-> k < window_rows).
Proof.
  intros Hk. pose proof window_height_bound as Hb. pose proof offset_range as Ho.
  unfold window_top, window_rows.
  pose proof (steps_lt (plane_height + unit_height_offset)
                window_buffer_height_ k ltac:(lia) Hk) as Hs.
  destruct (Z.leb_spec plane_height 0).
  - lia.
  - destruct (Z.eq_dec k 0) as [->|Hne].
    + rewrite <- Hs. lia.
    + rewrite <- Hs. nia.
Qed.

Lemma window_top_next k :
  0 <= k ->
  (if window_top k =? 0 then window_top k - unit_height_offset else window_top k)
  + window_buffer_height_ = window_top (k + 1).
Proof.
  intros Hk. pose proof window_height_bound as Hb. pose proof offset_range as Ho.
  unfold window_top.
  assert ((k + 1) * window_buffer_height_
          = k * window_buffer_height_ + window_buffer_height_) as -> by lia.
  assert (k = 0 \/ unit_height_offset < k * window_buffer_height_) as [->|Hlt]
    by nia.
  - destruct (Z.eqb_spec (Z.max 0 (0 * window_buffer_height_ - unit_height_offset)) 0);
      lia.
  - destruct (Z.eqb_spec (Z.max 0 (k * window_buffer_height_ - unit_height_offset)) 0);
      lia.
Qed.

Lemma window_rows_le : window_rows <= Z.max 0 plane_height.
Proof.
  pose proof window_height_bound as Hb. pose proof offset_range as Ho.
  unfold window_rows. destruct (Z.leb_spec plane_height 0); [lia|].
  unfold steps.
  assert ((plane_height + unit_height_offset + window_buffer_height_ - 1)
          / window_buffer_height_ <= plane_height); [|lia].
  apply Z.lt_succ_r. apply Z.div_lt_upper_bound; nia.
Qed.

Lemma window_inside k :
  0 <= k < window_rows -> 0 <= window_top k /\ 0 < actual_height (window_top k).
Proof.
  intros [Hk Hlt]. apply window_top_lt in Hlt; [|assumption].
  pose proof window_height_bound as Hb. pose proof offset_range as Ho.
  split; [unfold window_top; lia|].
  unfold actual_height. destruct (window_top k =? 0); lia.
Qed.

Lemma y_loop_closed :
  forall fuel k, 0 <= k -> window_rows - k <= Z.of_nat fuel ->
    y_loop fuel (window_top k)
    = Some (seqZ k (window_rows - k) ≫= fun k => window_row (window_top k)).
Proof.
  pose proof window_rows_le as Hrows. pose proof window_width as Hw.
  induction fuel as [|fuel IH]; intros k Hk Hf.
  - cbn [y_loop]. destruct (Z.ltb_spec (window_top k) plane_height) as [Hlt|Hge].
    + apply window_top_lt in Hlt; [lia | assumption].
    + rewrite seqZ_nil; [reflexivity|].
      destruct (Z.le_gt_cases (window_rows - k) 0); [assumption|].
      exfalso. assert (window_top k < plane_height)
        by (apply window_top_lt; [assumption | lia]). lia.
  - cbn [y_loop]. destruct (Z.ltb_spec (window_top k) plane_height) as [Hlt|Hge].
    + apply window_top_lt in Hlt; [|assumption].
      destruct (window_inside k ltac:(lia)) as [Hy Ha].
      cbv zeta. fold (actual_height (window_top k)).
      fold (pool_share (units_per_window (window_top k)
                          (actual_height (window_top k)))).
      pose proof (window_loop_closed (window_top k) Hy Ha
                    (Z.to_nat plane_width) 0 ltac:(lia)) as Hwin.
      cbv zeta in Hwin. rewrite Z.mul_0_r, Z.sub_0_r in Hwin.
      rewrite Hwin by (pose proof (steps_le plane_width window_buffer_width_ Hw); lia).
      rewrite window_top_next by assumption. rewrite IH by lia.
      rewrite (seqZ_cons k) by lia. rewrite bind_cons.
      replace (Z.succ k) with (k + 1) by lia.
      replace (Z.pred (window_rows - k)) with (window_rows - (k + 1)) by lia.
      reflexivity.
    + rewrite seqZ_nil; [reflexivity|].
      destruct (Z.le_gt_cases (window_rows - k) 0); [assumption|].
      exfalso. assert (window_top k < plane_height)
        by (apply window_top_lt; [assumption | lia]). lia.
Qed.

(** The events of the plane. *)
Definition plane_events : list Event :=
  ExtendFrameBoundary src_buffer plane_width plane_height src_stride
    kRestorationHorizontalBorder kRestorationHorizontalBorder
    (kRestorationVerticalBorder - 1) (kRestorationVerticalBorder - 1)
  :: (seqZ 0 window_rows ≫= fun k => window_row (window_top k)).

Lemma plane_body_closed : plane_body = Some plane_events.
Proof.
  unfold plane_body. pose proof window_rows_le. pose proof offset_range.
  pose proof (y_loop_closed (Z.to_nat plane_height) 0 ltac:(lia) ltac:(lia)) as Hy.
  assert (window_top 0 = 0) as Htop by (unfold window_top; lia).
  rewrite Htop, Z.sub_0_r in Hy. rewrite Hy. reflexivity.
Qed.

(** *** The calling thread and the pool, in a plane *)

Lemma restoration_synchronised_jobs x y w jobs rest :
  0 <= jobs ->
  forall (n : nat) t, 0 <= t ->
    synchronised (Z.min t jobs) (t - Z.min t jobs)
      ((job_at x y w jobs <$> seqZ t (Z.of_nat n)) ++ rest)
    = synchronised (Z.min (t + Z.of_nat n) jobs)
        (t + Z.of_nat n - Z.min (t + Z.of_nat n) jobs) rest.
Proof.
  intros Hj. induction n as [|n IH]; intros t Ht.
  - cbn. now rewrite Z.add_0_r.
  - rewrite (seqZ_cons t) by lia.
    replace (Z.pred (Z.of_nat (S n))) with (Z.of_nat n) by lia.
    replace (Z.succ t) with (t + 1) by lia.
    replace (t + Z.of_nat (S n)) with (t + 1 + Z.of_nat n) by lia.
    rewrite <- (IH (t + 1)) by lia.
    rewrite fmap_cons. cbn [app]. unfold job_at at 1. cbv zeta.
    destruct (Z.ltb_spec t jobs); cbn [synchronised]; f_equal; lia.
Qed.

Lemma window_block_synchronised x y rest :
  0 <= y -> 0 < actual_height y ->
  synchronised 0 0 (window_block x y ++ rest) = synchronised 0 0 rest.
Proof.
  intros Hy Ha. pose proof (units_positive y Hy Ha) as Hu.
  pose proof (restoration_pool_share_range _ Hu) as Hshare.
  unfold window_block. cbv zeta.
  set (units := units_per_window y (actual_height y)) in *.
  rewrite <- app_assoc.
  pose proof (fun rest' =>
                restoration_synchronised_jobs x y
                  (Z.min window_buffer_width_ (plane_width - x))
                  (pool_share units) rest' ltac:(lia) (Z.to_nat units) 0
                  ltac:(lia)) as Hjobs.
  rewrite Z2Nat.id in Hjobs by lia.
  rewrite Z.min_l in Hjobs by lia. rewrite Z.sub_0_r in Hjobs.
  rewrite Hjobs. rewrite Z.add_0_l, Z.min_r by lia.
  cbn [app synchronised].
  rewrite !Z.eqb_refl. cbn [andb].
  destruct (Z.ltb_spec 0 (units - pool_share units)); [|lia]. reflexivity.
Qed.

Lemma plane_events_synchronised rest :
  synchronised 0 0 (plane_events ++ rest) = synchronised 0 0 rest.
Proof.
  unfold plane_events. cbn [app synchronised]. cbn [Z.eqb andb].
  apply restoration_synchronised_blocks. intros k rest' Hk. apply elem_of_seqZ in Hk.
  destruct (window_inside k ltac:(lia)) as [Hy Ha].
  unfold window_row. apply restoration_synchronised_blocks. intros t rest'' _.
  now apply window_block_synchronised.
Qed.

(** *** The rows of units of a plane *)

(** Where the [m]-th row of units of the plane starts. *)
Definition unit_top (m : Z) : Z :=
  Z.max 0 (m * process_unit_height - unit_height_offset).

Lemma rows_of_window_block x y :
  rows_of (window_block x y)
  = (fun j => (plane, x, y + row_at y j, height_at (y + row_at y j)))
      <$> seqZ 0 (units_per_window y (actual_height y)).
Proof.
  unfold window_block. cbv zeta. rewrite restoration_rows_of_app.
  change (rows_of [Wait _; CopyPlane _ _ _ _ _ _]) with (@nil (Z * Z * Z * Z)).
  rewrite app_nil_r.
  generalize (seqZ 0 (units_per_window y (actual_height y))). intros l.
  induction l as [|j l IH]; [reflexivity|].
  rewrite !fmap_cons. unfold rows_of in *. cbn [omap list_omap].
  rewrite IH. unfold job_at. cbv zeta.
  now destruct (j <? pool_share (units_per_window y (actual_height y))).
Qed.

Lemma unit_of_window q k j :
  window_buffer_height_ = q * process_unit_height -> 0 <= k -> 0 <= j ->
  window_top k + row_at (window_top k) j = unit_top (k * q + j).
Proof.
  intros Hq Hk Hj. pose proof offset_range as Ho.
  pose proof window_height_bound as Hb.
  unfold window_top, row_at, unit_top.
  assert ((k * q + j) * process_unit_height
          = k * window_buffer_height_ + j * process_unit_height) as -> by nia.
  assert (k = 0 \/ unit_height_offset < k * window_buffer_height_) as [->|Hlt]
    by nia.
  - rewrite Z.mul_0_l. rewrite (Z.max_l 0) by lia. cbn [Z.eqb andb].
    destruct (Z.ltb_spec 0 j); nia.
  - rewrite (Z.max_r 0 (k * _ - _)) by lia.
    destruct (Z.eqb_spec (k * window_buffer_height_ - unit_height_offset) 0);
      [lia|]. cbn [andb]. nia.
Qed.

Lemma restoration_units_of_window q k j :
  window_buffer_height_ = q * process_unit_height ->
  0 <= k < window_rows -> 0 <= j ->
  (j < units_per_window (window_top k) (actual_height (window_top k))
   <-> j < q /\ unit_top (k * q + j) < plane_height).
Proof.
  intros Hq Hk Hj. pose proof offset_range as Ho.
  pose proof window_height_bound as Hb.
  destruct (window_inside k Hk) as [Hy Ha].
  rewrite <- (row_lt_units _ j Hy Hj Ha).
  rewrite <- (unit_of_window q k j Hq ltac:(lia) Hj).
  unfold actual_height, row_at.
  destruct (Z.eqb_spec (window_top k) 0) as [Hz|Hnz]; cbn [andb].
  - destruct (Z.ltb_spec 0 j); split; intros; nia.
  - split; intros; nia.
Qed.

Lemma unit_top_inj m m' :
  0 <= m -> 0 <= m' -> unit_top m = unit_top m' -> m = m'.
Proof.
  intros Hm Hm'. pose proof offset_range as Ho. unfold unit_top. nia.
Qed.

(** The rows of units of the plane: every window column and every row of
    units above the bottom of the plane. *)
Definition plane_rows (p x unit_y height : Z) : Prop :=
  p = plane
  /\ exists t m,
       0 <= t /\ x = window_buffer_width_ * t /\ x < plane_width
       /\ 0 <= m /\ unit_y = unit_top m /\ unit_y < plane_height
       /\ unit_y + height
          = Z.min plane_height
              ((m + 1) * process_unit_height - unit_height_offset).

Lemma height_at_bottom m :
  0 <= m ->
  unit_top m + height_at (unit_top m)
  = Z.min plane_height ((m + 1) * process_unit_height - unit_height_offset).
Proof.
  intros Hm. pose proof offset_range as Ho. unfold height_at, unit_top.
  assert ((m + 1) * process_unit_height
          = m * process_unit_height + process_unit_height) as -> by lia.
  assert (m = 0 \/ unit_height_offset < m * process_unit_height) as [->|Hlt]
    by nia.
  - destruct (Z.eqb_spec (Z.max 0 (0 * process_unit_height - unit_height_offset)) 0);
      lia.
  - destruct (Z.eqb_spec (Z.max 0 (m * process_unit_height - unit_height_offset)) 0);
      lia.
Qed.

Lemma plane_events_rows p x unit_y height :
  (p, x, unit_y, height) ∈ rows_of plane_events <-> plane_rows p x unit_y height.
Proof.
  destruct window_units as (q & Hq & Hh). pose proof window_width as Hw.
  unfold plane_events, plane_rows.
  change (rows_of (ExtendFrameBoundary ?a ?b ?c ?d ?e ?f ?g ?h :: ?l))
    with (rows_of l).
  rewrite restoration_rows_of_bind, list_elem_of_bind. split.
  - intros (k & Hin & Hk). apply elem_of_seqZ in Hk.
    unfold window_row in Hin. rewrite restoration_rows_of_bind, list_elem_of_bind in Hin.
    destruct Hin as (t & Hin & Ht). apply elem_of_seqZ in Ht.
    rewrite rows_of_window_block, list_elem_of_fmap in Hin.
    destruct Hin as (j & [= -> -> -> ->] & Hj). apply elem_of_seqZ in Hj.
    split; [reflexivity|].
    assert (j < q /\ unit_top (k * q + j) < plane_height) as [Hjq Hlt]
      by (apply restoration_units_of_window; [assumption | lia | lia | lia]).
    rewrite (unit_of_window q k j Hh) by lia.
    exists t, (k * q + j).
    split; [lia|]. split; [reflexivity|].
    split; [apply steps_lt; [assumption | lia | lia]|].
    split; [nia|]. split; [reflexivity|]. split; [assumption|].
    apply height_at_bottom. nia.
  - intros (-> & t & m & Ht & -> & Hx & Hm & -> & Hlt & Hbottom).
    pose proof (Z.div_mod m q ltac:(lia)) as Hd.
    pose proof (Z.mod_pos_bound m q Hq) as Hmod.
    assert (0 <= m / q) by (apply Z.div_pos; lia).
    assert (m = m / q * q + m mod q) as Hm' by lia.
    assert (m / q < window_rows) as Hk.
    { apply window_top_lt; [assumption|].
      pose proof offset_range. unfold window_top, unit_top in *. nia. }
    exists (m / q). split; [|apply elem_of_seqZ; lia].
    unfold window_row. rewrite restoration_rows_of_bind, list_elem_of_bind.
    exists t. split; [|apply elem_of_seqZ; split; [lia|]; rewrite Z.add_0_l;
                        apply steps_lt; [assumption | lia | assumption]].
    rewrite rows_of_window_block, list_elem_of_fmap.
    exists (m mod q). split.
    + rewrite (unit_of_window q (m / q) (m mod q) Hh) by lia.
      rewrite <- Hm'. f_equal.
      pose proof (height_at_bottom m Hm). lia.
    + apply elem_of_seqZ. split; [lia|]. rewrite Z.add_0_l.
      apply restoration_units_of_window with (q := q); [assumption | lia | lia |].
      rewrite <- Hm'. split; [lia | assumption].
Qed.

Lemma plane_events_NoDup : NoDup (rows_of plane_events).
Proof.
  destruct window_units as (q & Hq & Hh). pose proof window_width as Hw.
  unfold plane_events.
  change (rows_of (ExtendFrameBoundary ?a ?b ?c ?d ?e ?f ?g ?h :: ?l))
    with (rows_of l).
  rewrite restoration_rows_of_bind. apply NoDup_bind; [| |apply NoDup_seqZ].
  - intros k k' [[[p x] uy] h] Hk Hk' Hin Hin'. apply elem_of_seqZ in Hk, Hk'.
    unfold window_row in Hin, Hin'.
    rewrite restoration_rows_of_bind, list_elem_of_bind in Hin, Hin'.
    destruct Hin as (t & Hin & Ht), Hin' as (t' & Hin' & Ht').
    rewrite rows_of_window_block, list_elem_of_fmap in Hin, Hin'.
    destruct Hin as (j & [= -> -> -> ->] & Hj), Hin' as (j' & [= _ Huy _] & Hj').
    apply elem_of_seqZ in Hj, Hj'.
    assert (j < q /\ unit_top (k * q + j) < plane_height) as [Hjq _]
      by (apply restoration_units_of_window; [assumption | lia | lia | lia]).
    assert (j' < q /\ unit_top (k' * q + j') < plane_height) as [Hjq' _]
      by (apply restoration_units_of_window; [assumption | lia | lia | lia]).
    rewrite (unit_of_window q k j Hh) in Huy by lia.
    rewrite (unit_of_window q k' j' Hh) in Huy by lia.
    apply unit_top_inj in Huy; nia.
  - intros k Hk. apply elem_of_seqZ in Hk. unfold window_row.
    rewrite restoration_rows_of_bind. apply NoDup_bind; [| |apply NoDup_seqZ].
    + intros t t' [[[p x] uy] h] Ht Ht' Hin Hin'.
      rewrite rows_of_window_block, list_elem_of_fmap in Hin, Hin'.
      destruct Hin as (j & [= -> -> -> ->] & Hj), Hin' as (j' & [= Hx _ _] & Hj').
      nia.
    + intros t Ht. rewrite rows_of_window_block.
      apply NoDup_fmap_2_strong; [|apply NoDup_seqZ].
      intros j j' Hj Hj' [= Huy _]. apply elem_of_seqZ in Hj, Hj'.
      rewrite (unit_of_window q k j Hh) in Huy by lia.
      rewrite (unit_of_window q k j' Hh) in Huy by lia.
      apply unit_top_inj in Huy; nia.
Qed.

End Plane.

(** The loop over the planes. *)
Fixpoint plane_loop (fuel : nat) (plane : Z) : option (list Event) :=
  if plane <? planes_ then
    match fuel with
    | O => None
    | S fuel =>
        if loop_restoration_type plane =? kLoopRestorationTypeNone then
          plane_loop fuel (plane + 1)
        else
          match at_index plane_process_unit_height plane with
          | None => None
          | Some process_unit_height =>
              match plane_body plane process_unit_height with
              | None => None
              | Some first =>
                  match plane_loop fuel (plane + 1) with
                  | None => None
                  | Some rest => Some (first ++ rest)
                  end
              end
          end
    end
  else Some [].

Definition ApplyLoopRestorationThreaded : option (list Event) :=
  plane_loop (Z.to_nat (planes_ - kPlaneY)) kPlaneY.

(** *** The whole frame *)

Hypothesis planes_known :
  forall p, kPlaneY <= p < planes_ ->
    loop_restoration_type p <> kLoopRestorationTypeNone ->
    exists h, at_index plane_process_unit_height p = Some h
              /\ 0 <= unit_height_offset p < h
              /\ exists q, 0 < q /\ window_buffer_height_ = q * h.
Hypothesis window_wide : 0 < window_buffer_width_.
Hypothesis some_workers : 0 <= num_workers.

(** The events of the plane [p]. *)
Definition events_of_plane (p : Z) : list Event :=
  if loop_restoration_type p =? kLoopRestorationTypeNone then []
  else match at_index plane_process_unit_height p with
       | Some h => plane_events p h
       | None => []
       end.

Definition frame : list Event :=
  seqZ 0 (planes_ - kPlaneY) ≫= fun i => events_of_plane (kPlaneY + i).

Lemma plane_loop_closed :
  forall fuel a, 0 <= a -> planes_ - kPlaneY - a <= Z.of_nat fuel ->
    plane_loop fuel (kPlaneY + a)
    = Some (seqZ a (planes_ - kPlaneY - a)
              ≫= fun i => events_of_plane (kPlaneY + i)).
Proof.
  induction fuel as [|fuel IH]; intros a Ha Hf.
  - cbn [plane_loop]. destruct (Z.ltb_spec (kPlaneY + a) planes_); [lia|].
    rewrite seqZ_nil by lia. reflexivity.
  - cbn [plane_loop]. destruct (Z.ltb_spec (kPlaneY + a) planes_) as [Hlt|Hge].
    + rewrite (seqZ_cons a) by lia. rewrite bind_cons.
      replace (Z.succ a) with (a + 1) by lia.
      replace (Z.pred (planes_ - kPlaneY - a))
        with (planes_ - kPlaneY - (a + 1)) by lia.
      replace (kPlaneY + a + 1) with (kPlaneY + (a + 1)) by lia.
      rewrite IH by lia.
      destruct (Z.eqb_spec (loop_restoration_type (kPlaneY + a))
                  kLoopRestorationTypeNone) as [Hnone|Hne].
      * assert (events_of_plane (kPlaneY + a) = []) as ->
          by (unfold events_of_plane;
              now rewrite (proj2 (Z.eqb_eq _ _) Hnone)).
        reflexivity.
      * destruct (planes_known (kPlaneY + a) ltac:(lia) Hne)
          as (h & Hh & Hoff & Hq).
        assert (events_of_plane (kPlaneY + a) = plane_events (kPlaneY + a) h)
          as ->
          by (unfold events_of_plane; rewrite Hh;
              now rewrite (proj2 (Z.eqb_neq _ _) Hne)).
        rewrite Hh, plane_body_closed by assumption. reflexivity.
    + rewrite seqZ_nil by lia. reflexivity.
Qed.

Lemma ApplyLoopRestorationThreaded_closed :
  ApplyLoopRestorationThreaded = Some frame.
Proof.
  unfold ApplyLoopRestorationThreaded, frame.
  pose proof (plane_loop_closed (Z.to_nat (planes_ - kPlaneY)) 0
                ltac:(lia) ltac:(lia)) as H.
  rewrite Z.add_0_r, Z.sub_0_r in H. exact H.
Qed.

Lemma events_of_plane_synchronised p rest :
  kPlaneY <= p < planes_ ->
  synchronised 0 0 (events_of_plane p ++ rest) = synchronised 0 0 rest.
Proof.
  intros Hp. unfold events_of_plane.
  destruct (Z.eqb_spec (loop_restoration_type p) kLoopRestorationTypeNone)
    as [|Hne]; [reflexivity|].
  destruct (planes_known p Hp Hne) as (h & -> & Hoff & Hq).
  now apply plane_events_synchronised.
Qed.

Lemma events_of_plane_rows p r :
  kPlaneY <= p < planes_ ->
  (r ∈ rows_of (events_of_plane p) <->
   loop_restoration_type p <> kLoopRestorationTypeNone
   /\ exists h, at_index plane_process_unit_height p = Some h
                /\ plane_rows p h r.1.1.1 r.1.1.2 r.1.2 r.2).
Proof.
  intros Hp. destruct r as [[[p' x] unit_y] height]. cbn [fst snd].
  unfold events_of_plane.
  destruct (Z.eqb_spec (loop_restoration_type p) kLoopRestorationTypeNone)
    as [Hnone|Hne].
  - split; [intros Hin; inversion Hin | intros [Hne _]; contradiction].
  - destruct (planes_known p Hp Hne) as (h & Hh & Hoff & Hq). rewrite Hh.
    rewrite plane_events_rows by assumption. split.
    + intros Hrows. split; [assumption|]. now exists h.
    + intros [_ (h' & [= <-] & Hrows)]. exact Hrows.
Qed.

Lemma events_of_plane_NoDup p :
  kPlaneY <= p < planes_ -> NoDup (rows_of (events_of_plane p)).
Proof.
  intros Hp. unfold events_of_plane.
  destruct (Z.eqb_spec (loop_restoration_type p) kLoopRestorationTypeNone)
    as [|Hne]; [apply NoDup_nil_2|].
  destruct (planes_known p Hp Hne) as (h & -> & Hoff & Hq).
  now apply plane_events_NoDup.
Qed.

(** X21. [ApplyLoopRestorationThreaded] returns, with its assertion
    [jobs_for_threadpool < vertical_units_per_window] true in every window,
    and the calling thread is in step with the pool: each
    [pending_jobs.Wait()] waits for exactly the jobs scheduled in its
    window, after the thread filtered at least one row of units itself, and
    the borders are extended and the window is copied only when no
    scheduled job is left.  In every plane that is restored, and every
    window column, the rows of units filtered are, for [m = 0, 1, ...],
    those from row [max 0 (m * h - unit_height_offset)] to row
    [min plane_height ((m + 1) * h - unit_height_offset)] that start above
    the bottom of the plane, each filtered once; [h] is the plane's entry
    of [plane_process_unit_height]. *)
Theorem ApplyLoopRestorationThreaded_synchronised :
  exists events,
    ApplyLoopRestorationThreaded = Some events
    /\ synchronised 0 0 events = true
    /\ NoDup (rows_of events)
    /\ forall p x unit_y height,
         (p, x, unit_y, height) ∈ rows_of events <->
         kPlaneY <= p < planes_
         /\ loop_restoration_type p <> kLoopRestorationTypeNone
         /\ exists h t m,
              at_index plane_process_unit_height p = Some h
              /\ 0 <= t /\ x = window_buffer_width_ * t /\ x < plane_width p
              /\ 0 <= m
              /\ unit_y = Z.max 0 (m * h - unit_height_offset p)
              /\ unit_y < plane_height p
              /\ unit_y + height
                 = Z.min (plane_height p) ((m + 1) * h - unit_height_offset p).
Proof.
  exists frame. split; [apply ApplyLoopRestorationThreaded_closed|].
  split; [|split].
  - rewrite <- (app_nil_r frame). unfold frame.
    rewrite restoration_synchronised_blocks; [reflexivity|].
    intros i rest Hi. apply elem_of_seqZ in Hi.
    apply events_of_plane_synchronised. lia.
  - unfold frame. rewrite restoration_rows_of_bind. apply NoDup_bind; [| |apply NoDup_seqZ].
    + intros i i' r Hi Hi' Hin Hin'. apply elem_of_seqZ in Hi, Hi'.
      apply events_of_plane_rows in Hin, Hin'; [|lia ..].
      destruct Hin as [_ (h & _ & Hp & _)], Hin' as [_ (h' & _ & Hp' & _)]. lia.
    + intros i Hi. apply elem_of_seqZ in Hi. apply events_of_plane_NoDup. lia.
  - intros p x unit_y height. unfold frame.
    rewrite restoration_rows_of_bind, list_elem_of_bind. split.
    + intros (i & Hin & Hi). apply elem_of_seqZ in Hi.
      apply events_of_plane_rows in Hin; [|lia].
      destruct Hin as [Hne (h & Hh & Hp & t & m & Hrows)]. cbn [fst snd] in *.
      subst p. split; [lia|]. split; [assumption|]. exists h, t, m.
      split; [assumption | exact Hrows].
    + intros (Hp & Hne & h & t & m & Hh & Hrows).
      exists (p - kPlaneY). split; [|apply elem_of_seqZ; lia].
      replace (kPlaneY + (p - kPlaneY)) with p by lia.
      apply events_of_plane_rows; [assumption|]. split; [assumption|].
      exists h. split; [assumption|]. split; [reflexivity|].
      exists t, m. exact Hrows.
Qed.

End ApplyLoopRestorationThreaded.

(** A frame of 200 by 150 pixels with subsampled chroma, windows of 128 by
    128 pixels and two worker threads; the plane U is not restored. *)
Definition example_rounding (value bits : Z) : Z :=
  Z.shiftr (value + Z.shiftr (Z.shiftl 1 bits) 1) bits.
Definition example_subsampling (plane : Z) : Z := if plane =? 0 then 0 else 1.
Definition example_type (plane : Z) : Z := if plane =? 1 then 0 else 2.
Definition example_stride (plane : Z) : Z := if plane =? 0 then 256 else 128.

Definition example_run : option (list Event) :=
  ApplyLoopRestorationThreaded example_rounding 64 8 4 2 0 0 1 2 3 2 128 128 1
    200 150 example_subsampling example_subsampling example_type
    (fun _ => 64) (fun _ => 3)
    (fun plane => 100000 * (plane + 1)) (fun plane => 500000 * (plane + 1))
    example_stride 5000.

Lemma ApplyLoopRestorationThreaded_synchronised_witness :
  exists events,
    example_run = Some events
    /\ synchronised 0 0 events = true
    /\ NoDup (rows_of events)
    /\ forall p x unit_y height,
         (p, x, unit_y, height) ∈ rows_of events <->
         0 <= p < 3
         /\ example_type p <> 0
         /\ exists h t m,
              at_index (plane_process_unit_height 64 1 2 example_subsampling) p
              = Some h
              /\ 0 <= t /\ x = 128 * t
              /\ x < plane_width example_rounding 200 example_subsampling p
              /\ 0 <= m
              /\ unit_y
                 = Z.max 0 (m * h - unit_height_offset 8 example_subsampling p)
              /\ unit_y < plane_height example_rounding 150 example_subsampling p
              /\ unit_y + height
                 = Z.min (plane_height example_rounding 150 example_subsampling p)
                     ((m + 1) * h - unit_height_offset 8 example_subsampling p).
Proof.
  apply (ApplyLoopRestorationThreaded_synchronised example_rounding 64 8 4 2 0
           0 1 2 3 2 128 128 1 200 150 example_subsampling example_subsampling
           example_type (fun _ => 64) (fun _ => 3)
           (fun plane => 100000 * (plane + 1))
           (fun plane => 500000 * (plane + 1)) example_stride 5000);
    [| lia | lia].
  intros p Hp Hne.
  assert (p = 0 \/ p = 1 \/ p = 2) as [-> | [-> | ->]] by lia.
  - exists 64. split; [reflexivity|]. split; [vm_compute; split; [discriminate | reflexivity]|].
    exists 2. lia.
  - exfalso. apply Hne. reflexivity.
  - exists 32. split; [reflexivity|]. split; [vm_compute; split; [discriminate | reflexivity]|].
    exists 4. lia.
Defined.

Example ApplyLoopRestorationThreaded_run :
  match example_run with
  | Some events =>
      rows_of events
      = [(0, 0, 0, 56); (0, 0, 56, 64); (0, 128, 0, 56); (0, 128, 56, 64);
         (0, 0, 120, 30); (0, 128, 120, 30);
         (2, 0, 0, 28); (2, 0, 28, 32); (2, 0, 60, 15)]
      /\ omap (fun e => match e with Wait n => Some n | _ => None end) events
         = [1; 1; 0; 0; 2]
  | None => False
  end.
Proof. vm_compute. split; reflexivity. Qed.

End RestorationThreaded.
